(* ===== verification/_CoqProject ===== *)
-Q . S2P
Prelude.v
Float64.v
StdModel.v
HashMap.v
IntrusiveList.v
ObjectPool.v
ByteOrder.v
Printf.v
Messages.v
Decode.v
OrderBook.v
BookSpec.v
BookInvariant.v
BookBest.v
BookRefinement.v
BookOps.v
BookQueries.v
Feed.v
RefBook.v
Tracking.v
Differential.v
DifferentialTest.v
BookInterface.v
MatchingEngine.v
MatchingSpec.v
MatchingProofs.v
Liquidity.v
Submit.v
Session.v
ConservationTest.v
FileReader.v
ReaderOwnership.v
Synth.v
SynthCodec.v
SynthProofs.v
SpscRing.v
RingSystem.v
RingStress.v
MapStress.v
Handoff.v
HandoffProofs.v
Fairness.v
Pipeline.v
PipelineProofs.v
StreamTests.v
RoundtripTest.v
BookTheorems.v
EngineTheorems.v
ItchTheorems.v
SynthTheorems.v
StreamTheorems.v
ContainerTheorems.v
ConcurrencyTheorems.v
LatencyHistogram.v
Bench.v
BenchOrderBook.v
BenchEngine.v
BenchRing.v
BenchParser.v
AllocationGuard.v
GTest.v
ContainerTests.v
ItchTests.v
BookTests.v
EngineTests.v
BenchTheorems.v
