(* ===== verification/Prelude.v ===== *)
(** * liquibook-x: a verification development

    liquibook-x is a C++20 exchange core.  A NASDAQ ITCH 5.0 byte stream is read
    from a length-prefixed file ([ItchFileReader]), decoded ([decode]) and applied
    to a limit order book ([OrderBook]); two threads can share that work over a
    lock-free ring ([run_itch_pipeline], [SpscRingBuffer]).  A matching engine
    ([MatchingEngine]) trades incoming orders against the same book.  The book
    stores its orders in a fixed pool ([ObjectPool]), finds them through an
    open-addressing map ([OpenAddressingHashMap]) and queues each price level in an
    intrusive list ([IntrusiveList]).  A generator ([generate]) writes synthetic
    feeds for the tests: two randomised tests check the book and the engine, two more
    stress the map and the ring, three replay a generated feed with an account of their
    own, and 94 unit tests check single runs.  Four benchmark programs time the decoder,
    the book, the engine and the ring, and report latency percentiles
    ([LatencyHistogram]).  All of that is modelled here, down to the containers and the
    double arithmetic of the percentiles.

    ** The files, and the code they model

    Foundations
    - Prelude: undefined behaviour, machine integers, sums, list lemmas, the
      tactics and the hint database shared by all files.
    - Float64: [double], as binary64 of the Standard Library's [SpecFloat].
    - Printf: the conversions of [printf] the programs use, driven by the format
      string and checked against the types of the arguments, and a scanner that reads
      the text back.
    - StdModel: what the code takes from the C++ standard library without the
      standard fixing it: random draws ([Random], [RandomRanges], [FairRandom]) and
      the iteration order of [std::unordered_map] ([UnorderedMap]), as classes
      with instances.

    Containers (src/containers/)
    - HashMap, Module [OAMap]: hash_map.hpp.
    - IntrusiveList, Module [IList]: intrusive_list.hpp, over the class
      [NodeStore] of memories the node pointers point into.
    - ObjectPool, Module [Pool]: object_pool.hpp; the pool is the [NodeStore] of
      the book's lists.
    - SpscRing, Module [Ring]: spsc_ring_buffer.hpp.  RingSystem: any two client
      threads of a ring.
    - RingStress and MapStress: the two-thread test of tests/test_spsc_ring_buffer.cpp
      and the random test of tests/test_hash_map.cpp.

    ITCH (src/itch/)
    - ByteOrder: byteorder.hpp.  Messages: types.hpp and messages.hpp.
      Decode: decode.cpp.
    - FileReader and ReaderOwnership (Module [Ownership]): file_reader.cpp, the
      bytes it yields and the system resources it owns.
    - Synth: synth.cpp.  SynthCodec and SynthProofs hold its proofs.

    Book (src/book/)
    - OrderBook: order.hpp, price_level.hpp, order_book.hpp and order_book.cpp.
    - BookSpec: the abstract book, a list of resting orders in arrival order.
    - BookInvariant, BookBest, BookRefinement, BookOps, BookQueries: the
      representation relation [Rep] and the refinement of every operation.
    - Feed: [apply] over decoded bytes.
    - RefBook, Differential, DifferentialTest (Module [DiffTest]):
      tests/reference_order_book.hpp and tests/test_order_book_differential.cpp.
    - Tracking: a client's map of live orders against the abstract book; shared by
      the generator and the random test.

    Engine (src/engine/)
    - BookInterface: the classes [Book] and [BookLaws] the engine is written and
      proved against, and the [OrderBook] instances.
    - MatchingEngine: matching_engine.hpp, order_types.hpp, events.hpp, generic in
      the event handler ([EventHandler]).
    - MatchingSpec: price-time priority on the abstract book.  MatchingProofs,
      Liquidity and Submit prove the engine against it; Session runs sequences of
      submissions.
    - ConservationTest: tests/test_matching_engine_conservation.cpp.

    Pipeline (src/pipeline/)
    - Handoff: the two threads of itch_pipeline.hpp as a transition system, generic
      in what is produced and consumed (class [Workload]); the ring benchmark runs
      the same threads.  HandoffProofs (safety, delivery, completion) and Fairness
      (termination) hold for every workload with [WorkloadLaws].
    - Pipeline: the instance that walks the framing, decodes and applies;
      PipelineProofs restates the general results for it.

    Tests on generated streams
    - StreamTests: book/tests/test_order_book_itch_integration.cpp and
      pipeline/tests/test_itch_pipeline.cpp, over one walk of the records and one
      account of the live orders.
    - RoundtripTest: itch/tests/test_synth_roundtrip.cpp.

    Benchmarks and test support (src/bench/, src/testing/, src/smoke/)
    - LatencyHistogram, Module [Histogram]: latency_histogram.hpp.
    - Bench: clocks (classes [Clock] and [SteadyClock]), timed calls, counted loops
      with their invariant rule, pinning ([Affinity]), and the lines a program prints
      with their text.
    - BenchOrderBook, BenchEngine, BenchRing, BenchParser: the four bench_*.cpp
      programs, each with its [main] or, under the benchmark library, its body.  The
      results of book operations that bench_order_book_latency.cpp ignores are recorded
      beside the book ([Observed]).
    - AllocationGuard: allocation_guard.hpp and .cpp, all overloads, sequentially and
      step by step for threads, and the constant of smoke/version.cpp.

    Unit tests (the tests/ directories and smoke/test_version.cpp)
    - GTest: test bodies as programs that thread the objects under test, with their
      checks.  ContainerTests, ItchTests, BookTests, EngineTests: the 94 tests,
      statement by statement; a lemma per suite runs them all in the kernel.

    Theorems: BookTheorems, EngineTheorems, ItchTheorems, SynthTheorems, StreamTheorems,
    ContainerTheorems, ConcurrencyTheorems and BenchTheorems hold the properties,
    each with a witness that applies it to a concrete input where it has
    hypotheses.

    ** How the code is read

    - Undefined behaviour is [None] of [ub]; a definition of that type is proved
      to return.  [std::optional] and nullable pointers are options inside it.
    - Unsigned integers are [Z] with every wrap-around written out ([u8] to [u64],
      [+u32], [-u32], ...); signed ones are [Z] with bounds in the invariants.
      Where 32 bits overflow the theorems say so and the counterexamples show it.
    - A pointer is an index into the store that holds its target: [Order*] is a
      pool slot, a node pointer an address of a [NodeStore], [PriceLevel*] a
      [LevelRef] (a cell of the flat array or a key of the fallback [std::map]),
      a mapping an address of [OS].  Aliasing is therefore part of the model.
    - A C++ class is a record, a method a function from the record to the result
      and the new record.  Callbacks (event handlers) are class methods on a state
      of their own.
    - A union carries its active member; reading another member is [None].
    - [std::unordered_map] iteration, random draws, the steady clock and [malloc] are
      class arguments; the theorems hold for every instance that keeps the documented
      guarantees.
    - The ring's atomic indices are histories of stored values.  A load returns
      any value not older than the newest its thread has seen; a slot remembers
      which push and which pop touched it last, and an access that the thread's
      acquired view does not order after the other thread's last one is a data
      race, hence [None].

    ** What the theorems show

    - Containers: the hash map answers like a bounded finite map, with tombstones
      invisible; the list is the sequence of its nodes; the pool never hands out a
      live slot and fails exactly when full.  Both stress tests end and pass, whatever
      the draws, the iteration orders, the shuffle and the interleaving.
    - Book: [Rep b l] relates a concrete book to the list [l] of resting orders.
      Every operation returns what the abstract operation returns, on every branch
      and for every input, and keeps [Rep]; as long as no level total exceeds 32
      bits ([Spec.fits]) the cached best prices stay exact as well.  From that: the
      queries after any sequence of operations on a fresh book, arbitrary bytes can be fed to a book, and the differential test cannot fail
      (for every operation stream, and for the random test as written).
    - Engine: [submit] implements [spec_submit], greedy allocation by price and
      arrival, for every order type, with and without self-trade prevention;
      conservation (with what rests, and what the book refuses to rest), limits, atomicity of fill-or-kill, absence of self trades and
      of a crossed book follow, as do whole sessions and the conservation test.
      The one condition, for fill-or-kill orders, is that the 32-bit running total of
      the liquidity check does not wrap before the quantity is covered; quantities and
      level totals of up to 2^31 always meet it ([admissible_half]).
    - ITCH: the decoder is total and typed and ignores trailing bytes; stores and
      loads are big-endian at every width, inverse, and touch only their bytes; the reader walks exactly the frames of any file; reader
      objects own their mappings.
    - Generator: whatever is drawn, the stream decodes and replays without a
      refused message and introduces no reference twice; under fair draws generation
      ends; a generated file goes through reader, decoder and book completely.
    - Tests on generated streams: the integration test passes, the pipeline test passes
      in every interleaving, and the round-trip test can only fail when the draws
      leave out one of the message kinds it asks for.
    - Concurrency: the ring is race-free and first in first out; the pipeline is
      safe in every interleaving, can always finish, does finish under fair
      scheduling, and then has done what one thread would have done.
    - Benchmarks: the percentile index, computed with a rounded product of doubles,
      is the exact rank up to 2^41 samples; each benchmark does what its name says
      in every iteration (no call on a book is refused, every match happens, every item
      arrives), so its histogram holds 100000 durations of that case; the decoder
      benchmark counts every record of its fixture.  A printed report can be read back
      with its own format: no figure is lost, also when it is wider than its column.  The
      allocation guard counts exactly the allocations of all threads, in every
      interleaving.
    - Limits of the code: a limit order's remainder that the book refuses is reported as
      resting all the same and is nowhere (a theorem about every such order).  Lemmas on
      concrete inputs show a level hidden by a wrapped total, a fill-or-kill order filled
      in part under self-trade prevention or killed by a wrapped liquidity sum, a
      replaced order that self-trades, generated messages with a foreign locate code and
      a report line that is one column out of line.

    ** Fuel and bounds

    - [submit] gives its loops one step more than the book has orders: each
      iteration of the match loop but the last fills an order or leaves, and the
      liquidity loop visits distinct occupied levels.
    - [read_all] takes one step more than the file has bytes: a record consumes at
      least its two length bytes.
    - The list iterator takes as many steps as the list counts nodes; the probe
      loops of the map at most the capacity of the table, which is the loop bound
      of the code.
    - The generator's and the random test's main loops depend on the draws: they
      report whether they finished, and termination is proved from [FairRandom]
      with an explicit number of iterations.  Fuel below 2^64 - 1 stands for the
      fact that the 64-bit reference counter has not wrapped.
    - The decoder benchmark's walk, and the one of the tests on generated streams, take
      one step more than the stream has bytes; counted loops run their literal number
      of iterations.  A stream of fewer than 2^54 iterations of the generator stays
      below 2^63 bytes.
    - A number of [n] bits has at most [n] decimal digits: the fuel of [Printf.decimal].
    - The map's stress test draws keys until it has 2000 different ones: as much fuel as
      the number of draws among which they are found is enough.
    - Buffers are shorter than 2^63 bytes and rings have at most 2^63 slots, as
      every C++ object; 2^32 bounds on shares are the widths of the fields.

    ** What is not modelled, and why

    - The two unit tests that count the heap allocations of the map and of the pool
      are about the C++ allocator: no operation of the models allocates.  Of the
      round-trip file, the test that two runs agree says that [generate] is a function,
      and the test that two seeds differ depends on the standard's random engine.
    - The benchmark library, which chooses the number of iterations, and the answer of
      the system call that pins a thread are parameters of the benchmark programs.  Of
      [printf], the text of a NaN is left open, since its sign is not specified; the
      means of the percentiles theorem are finite quotients.
    - Cache-line padding and hardware prefetching have no behaviour to model; the
      destructors only free memory, except the reader's, which is modelled.
    - [std::ostream] failures of the generator: its stream is a string stream in
      every use.

    ** Coverage

    Every operation of every source file is a definition here; what remains of src/ are
    declarations of definitions found elsewhere, deleted members, template headers and
    the main functions of the test and benchmark libraries. *)

From stdpp Require Export base tactics option list gmap sorting.
From Stdlib Require Export ZArith Lia.

Local Open Scope Z_scope.

(** ** Undefined behaviour

    A computation whose C++ text can run into undefined behaviour (a null or
    dangling dereference, an index outside a buffer, a shift by the width of the
    type, reading the inactive member of a union) has type [ub A].  [None] is
    undefined behaviour, [Some a] is a normal return; stdpp's monad notation
    [x ← e; k] sequences such computations.  [std::optional] and nullable
    pointers are an [option] inside it. *)
Abbreviation ub A := (option A) (only parsing).

(** A pointer into a store addressed by slot number; [None] is [nullptr]. *)
Abbreviation ptr := (option nat) (only parsing).

(** ** Machine integers

    The unsigned types are [Z] with wrap-around written out. *)
Definition u8 (x : Z) : Z := x mod 2 ^ 8.
Definition u16 (x : Z) : Z := x mod 2 ^ 16.
Definition u32 (x : Z) : Z := x mod 2 ^ 32.
Definition u64 (x : Z) : Z := x mod 2 ^ 64.

(** [static_cast<std::size_t>(-1)], the sentinel of the pool and of the map. *)
Definition kNone : Z := 2 ^ 64 - 1.

Declare Scope cpp_scope.
Delimit Scope cpp_scope with cpp.
Notation "x '+u32' y" := (u32 (x + y)) (at level 50, left associativity) : cpp_scope.
Notation "x '-u32' y" := (u32 (x - y)) (at level 50, left associativity) : cpp_scope.
Notation "x '+u64' y" := (u64 (x + y)) (at level 50, left associativity) : cpp_scope.
Notation "x '-u64' y" := (u64 (x - y)) (at level 50, left associativity) : cpp_scope.
Open Scope cpp_scope.

(** ** Tactics *)

(** [lia] after turning [div] and [mod] into equations. *)
Ltac zlia :=
  unfold u8, u16, u32, u64, kNone in *;
  zify; Z.to_euclidean_division_equations; lia.

(** Case analysis on every monadic bind whose first computation is known. *)
Ltac mstep :=
  match goal with
  | |- context [mbind _ (Some _)] => cbn [mbind option_bind]
  | H : ?e = Some _ |- context [mbind _ ?e] => rewrite H; cbn [mbind option_bind]
  | H : ?e = None |- context [mbind _ ?e] => rewrite H; cbn [mbind option_bind]
  end.
Ltac msteps := repeat mstep.

(** Inversion of a successful bind in a hypothesis. *)
Ltac minv H :=
  match type of H with
  | mbind _ ?e = Some _ =>
      let x := fresh "x" in let E := fresh "E" in
      destruct e as [x|] eqn:E; cbn [mbind option_bind] in H; [| discriminate H];
      match type of x with
      | (_ * _)%type => let y := fresh "y" in let z := fresh "z" in destruct x as [y z]
      | _ => idtac
      end
  end.

Create HintDb liqui.
Create Rewrite HintDb liqui.

(** ** Machine-integer lemmas *)

Lemma u32_small (x : Z) : 0 <= x < 2 ^ 32 -> u32 x = x.
Proof. intros. unfold u32. by apply Z.mod_small. Qed.

Lemma u64_small (x : Z) : 0 <= x < 2 ^ 64 -> u64 x = x.
Proof. intros. unfold u64. by apply Z.mod_small. Qed.

Lemma u16_small (x : Z) : 0 <= x < 2 ^ 16 -> u16 x = x.
Proof. intros. unfold u16. by apply Z.mod_small. Qed.

Lemma u32_range (x : Z) : 0 <= u32 x < 2 ^ 32.
Proof. unfold u32. by apply Z.mod_pos_bound. Qed.

Lemma u64_range (x : Z) : 0 <= u64 x < 2 ^ 64.
Proof. unfold u64. by apply Z.mod_pos_bound. Qed.

Lemma u32_add_l (x y : Z) : u32 (u32 x + y) = u32 (x + y).
Proof. unfold u32. apply Zplus_mod_idemp_l. Qed.

Lemma u32_sub_l (x y : Z) : u32 (u32 x - y) = u32 (x - y).
Proof. unfold u32. apply Zminus_mod_idemp_l. Qed.

Lemma u64_add_l (x y : Z) : u64 (u64 x + y) = u64 (x + y).
Proof. unfold u64. apply Zplus_mod_idemp_l. Qed.

Lemma u64_sub_l (x y : Z) : u64 (u64 x - y) = u64 (x - y).
Proof. unfold u64. apply Zminus_mod_idemp_l. Qed.

#[export] Hint Rewrite u64_add_l u64_sub_l u32_add_l u32_sub_l : liqui.
#[export] Hint Resolve u32_range u64_range : liqui.

(** ** Sums over lists *)

Definition sumZ {A} (f : A -> Z) (l : list A) : Z := foldr (fun x acc => f x + acc) 0 l.

(** The number of elements satisfying a boolean test. *)
Definition countZ {A} (f : A -> bool) (l : list A) : Z := sumZ (fun x => Z.b2z (f x)) l.

Section sums.
Context {A : Type}.
Implicit Types (f : A -> Z) (l k : list A).

Lemma sumZ_cons f x l : sumZ f (x :: l) = f x + sumZ f l.
Proof. done. Qed.

Lemma sumZ_app f l k : sumZ f (l ++ k) = sumZ f l + sumZ f k.
Proof. induction l as [|x l IH]; simpl; [done|]. rewrite IH. lia. Qed.

Lemma sumZ_nonneg f l : (forall x, x ∈ l -> 0 <= f x) -> 0 <= sumZ f l.
Proof.
  induction l as [|x l IH]; simpl; intros H; [done|].
  pose proof (H x ltac:(left)).
  assert (0 <= sumZ f l) by (apply IH; intros; apply H; by right). lia.
Qed.

Lemma sumZ_ge_elem f l x :
  (forall y, y ∈ l -> 0 <= f y) -> x ∈ l -> f x <= sumZ f l.
Proof.
  intros Hp (l1 & l2 & ->)%list_elem_of_split. rewrite sumZ_app. simpl.
  assert (0 <= sumZ f l1) by (apply sumZ_nonneg; intros; apply Hp; set_solver).
  assert (0 <= sumZ f l2) by (apply sumZ_nonneg; intros; apply Hp; set_solver).
  lia.
Qed.

Lemma sumZ_ext f g l : (forall x, x ∈ l -> f x = g x) -> sumZ f l = sumZ g l.
Proof.
  induction l as [|x l IH]; simpl; intros H; [done|].
  rewrite (H x) by left. rewrite IH; [done|]. intros; apply H; by right.
Qed.

Lemma sumZ_insert f l i x y :
  l !! i = Some x -> sumZ f (<[i:=y]> l) = sumZ f l - f x + f y.
Proof.
  intros Hi. pose proof (lookup_lt_Some _ _ _ Hi).
  rewrite insert_take_drop by done.
  rewrite <- (take_drop_middle l i x Hi) at 3.
  rewrite !sumZ_app. simpl. lia.
Qed.

#[export] Instance sumZ_perm f : Proper (Permutation ==> eq) (sumZ f).
Proof. intros l1 l2 Hl. induction Hl; simpl; lia. Qed.

Lemma sumZ_filter_le f (P : A -> Prop) `{!forall x, Decision (P x)} l :
  (forall x, x ∈ l -> 0 <= f x) -> sumZ f (filter P l) <= sumZ f l.
Proof.
  induction l as [|x l IH]; simpl; intros Hp; [done|].
  rewrite filter_cons. pose proof (Hp x ltac:(left)).
  assert (sumZ f (filter P l) <= sumZ f l) by (apply IH; intros y Hy; apply Hp; by right).
  case_decide; simpl; lia.
Qed.

Lemma sumZ_const c l : sumZ (fun _ => c) l = c * Z.of_nat (length l).
Proof. induction l; simpl; lia. Qed.
End sums.

Section counts.
Context {A : Type}.
Implicit Types (f : A -> bool) (l : list A).

Lemma countZ_range f l : 0 <= countZ f l <= Z.of_nat (length l).
Proof. induction l as [|x l IH]; simpl; [done|]. unfold countZ in *. simpl. destruct (f x); simpl; lia. Qed.

Lemma countZ_insert f l i x y :
  l !! i = Some x ->
  countZ f (<[i:=y]> l) = countZ f l - Z.b2z (f x) + Z.b2z (f y).
Proof. intros. unfold countZ. by erewrite sumZ_insert by done. Qed.

Lemma countZ_full f l :
  countZ f l = Z.of_nat (length l) -> forall x, x ∈ l -> f x = true.
Proof.
  induction l as [|y l IH]; intros Hc x Hx; [by apply not_elem_of_nil in Hx|].
  pose proof (countZ_range f l). unfold countZ in *. simpl in *.
  destruct (f y) eqn:E; simpl in *; [|lia].
  apply elem_of_cons in Hx as [->|Hx]; [done|]. apply IH; [lia|done].
Qed.

Lemma countZ_all f l :
  (forall x, x ∈ l -> f x = true) -> countZ f l = Z.of_nat (length l).
Proof.
  intros H. unfold countZ. erewrite sumZ_ext; [rewrite (sumZ_const 1); lia|].
  intros x Hx. cbn beta. by rewrite H.
Qed.

Lemma countZ_none f l :
  (forall x, x ∈ l -> f x = false) -> countZ f l = 0.
Proof.
  intros H. unfold countZ. erewrite sumZ_ext; [rewrite (sumZ_const 0); lia|].
  intros x Hx. cbn beta. by rewrite H.
Qed.

Lemma countZ_zero f l : countZ f l = 0 <-> forall x, x ∈ l -> f x = false.
Proof.
  split; [|apply countZ_none]. intros H0 x Hx. destruct (f x) eqn:E; [|done].
  assert (Z.b2z (f x) <= countZ f l) as Hge.
  { apply (sumZ_ge_elem (fun x => Z.b2z (f x))); [|done]. intros y _. by destruct (f y). }
  rewrite E, H0 in Hge. cbn in Hge. lia.
Qed.
End counts.

Lemma replicate_elem {A} (n : nat) (x y : A) : y ∈ replicate n x -> y = x.
Proof. by intros [-> _]%elem_of_replicate. Qed.

(** A filter that keeps everything, and one that keeps nothing. *)
Lemma filter_all {A} (P : A -> Prop) `{!forall x, Decision (P x)} (l : list A) :
  (forall x, x ∈ l -> P x) -> filter P l = l.
Proof.
  induction l as [|x l IH]; intros Hp; [done|].
  rewrite filter_cons_True by (apply Hp; left). f_equal. apply IH. intros y Hy. apply Hp. by right.
Qed.

Lemma filter_none {A} (P : A -> Prop) `{!forall x, Decision (P x)} (l : list A) :
  (forall x, x ∈ l -> ¬ P x) -> filter P l = [].
Proof.
  induction l as [|x l IH]; intros Hp; [done|].
  rewrite filter_cons_False by (apply Hp; left). apply IH. intros y Hy. apply Hp. by right.
Qed.

(** Filters that agree on the elements, and filters in either order. *)
Lemma filter_ext_in {A} (P Q : A -> Prop) `{!forall x, Decision (P x)} `{!forall x, Decision (Q x)}
    (l : list A) :
  (forall x, x ∈ l -> P x <-> Q x) -> filter P l = filter Q l.
Proof.
  induction l as [|x l IH]; intros Hp; [done|]. rewrite !filter_cons.
  rewrite IH by (intros y Hy; apply Hp; by right). pose proof (Hp x ltac:(left)).
  do 2 case_decide; tauto.
Qed.

Lemma filter_comm {A} (P Q : A -> Prop) `{!forall x, Decision (P x)} `{!forall x, Decision (Q x)}
    (l : list A) : filter P (filter Q l) = filter Q (filter P l).
Proof. rewrite !list_filter_filter. apply list_filter_iff. tauto. Qed.

(** ** Runs that do finite work

    Every step of a run either lowers a potential or is idle and keeps it. *)
Section descending_runs.
Context {S : Type} (run : nat -> S) (potential : S -> nat) (idle : nat -> Prop) (final : S -> Prop).
Hypothesis Hstep : forall i,
  (potential (run (Datatypes.S i)) < potential (run i))%nat \/
  (potential (run (Datatypes.S i)) = potential (run i) /\ idle i).

(** Up to any point of the run, some work is done or all steps are idle. *)
Lemma drops_or_idle i n :
  (i <= n)%nat ->
  (exists j, (i <= j)%nat /\ (potential (run j) < potential (run i))%nat) \/
  ((forall j, (i <= j < n)%nat -> idle j) /\ potential (run n) = potential (run i)).
Proof.
  induction 1 as [|n Hin IH]; [right; split; [intros j Hj; lia|done]|].
  destruct IH as [Hd|[Hw Heq]]; [by left|].
  destruct (Hstep n) as [Hlt|[He Hidle]]; [left; exists (Datatypes.S n); split; lia|].
  right. split; [|lia]. intros j Hj. destruct (decide (j = n)) as [->|]; [done|]. apply Hw. lia.
Qed.

(** A run that keeps working until it is final becomes final. *)
Lemma working_run_ends :
  (forall s, final s \/ ~ final s) ->
  (forall i, ~ final (run i) -> exists j, (i <= j)%nat /\ (potential (run j) < potential (run i))%nat) ->
  exists n, final (run n).
Proof.
  intros Hdec Hwork.
  enough (forall w i, potential (run i) = w -> exists n, final (run n)) as He by (by eapply (He _ 0%nat)).
  intros w. induction (lt_wf w) as [w _ IH]. intros i <-.
  destruct (Hdec (run i)) as [Hf|Hf]; [by exists i|].
  destruct (Hwork i Hf) as (j & _ & Hlt). by apply (IH _ Hlt j).
Qed.
End descending_runs.
