(* ===== verification/Float64.v ===== *)
(** * double: IEEE 754 binary64 arithmetic

    The executable specification of the Standard Library ([SpecFloat]) at the
    format of [double], with the conversions from and to integers.  The lemmas say
    that a product is the nearest double, for the mantissas and exponents of
    ordinary numbers: at most half a unit in the last place away. *)

From S2P Require Import Prelude.
From Stdlib Require Import Floats.SpecFloat.

Local Open Scope Z_scope.

Definition double : Type := spec_float.

Definition mul : double -> double -> double := SFmul 53 1024.
Definition add : double -> double -> double := SFadd 53 1024.
Definition div : double -> double -> double := SFdiv 53 1024.

(** [static_cast<double>] of an integer, rounding to nearest. *)
Definition of_int (x : Z) : double := binary_normalize 53 1024 x 0 false.

(** [static_cast<std::size_t>] of a double truncates; out of range it is undefined. *)
Definition to_size (d : double) : ub Z :=
  match d with
  | S754_zero _ => Some 0
  | S754_finite sign m e =>
      let magnitude := if 0 <=? e then Zpos m * 2 ^ e else Zpos m / 2 ^ (- e) in
      let v := if sign then - magnitude else magnitude in
      if (0 <=? v) && (v <? 2 ^ 64) then Some v else None
  | _ => None
  end.

(** The double nearest to [num / den]: what a decimal literal denotes. *)
Definition literal (num den : Z) : double := div (of_int num) (of_int den).

(** ** Digits and shifts *)

Lemma digits2_log2 p : Zpos (digits2_pos p) = Z.log2 (Zpos p) + 1.
Proof.
  induction p as [p IH|p IH|]; cbn [digits2_pos]; [| |done].
  - rewrite Pos2Z.inj_succ, IH, (Pos2Z.inj_xI p), Z.log2_succ_double by done. lia.
  - rewrite Pos2Z.inj_succ, IH, (Pos2Z.inj_xO p), Z.log2_double by done. lia.
Qed.

Lemma iter_pos_nat {A} (f : A -> A) n x : iter_pos f n x = Nat.iter (Pos.to_nat n) f x.
Proof.
  revert x. induction n as [n IH|n IH|]; intros x; cbn [iter_pos]; [| |done].
  - rewrite !IH, Pos2Nat.inj_xI. replace (S (2 * Pos.to_nat n)) with (Pos.to_nat n + (Pos.to_nat n + 1))%nat by lia.
    by rewrite !Nat.iter_add.
  - rewrite !IH, Pos2Nat.inj_xO. replace (2 * Pos.to_nat n)%nat with (Pos.to_nat n + Pos.to_nat n)%nat by lia.
    by rewrite Nat.iter_add.
Qed.

(** [mrs] is [x] shifted right by [n]: its mantissa, the first bit shifted out, and
    whether any later one was set. *)
Definition shifted (x n : Z) (mrs : shr_record) : Prop :=
  0 <= shr_m mrs /\
  exists rest, 2 * x = shr_m mrs * 2 ^ (n + 1) + Z.b2z (shr_r mrs) * 2 ^ n + rest /\
    0 <= rest < 2 ^ n /\ (shr_s mrs = true <-> 0 < rest).

Lemma shr_1_shifted x n mrs : 0 <= n -> shifted x n mrs -> shifted x (n + 1) (shr_1 mrs).
Proof.
  intros Hn (Hm & rest & Hx & Hr & Hs). destruct mrs as [m r s]. cbn [shr_m shr_r shr_s] in *.
  pose proof (Z.pow_pos_nonneg 2 n ltac:(lia) Hn).
  rewrite (Z.pow_add_r 2 n 1) in Hx by lia.
  assert (exists m' r', shr_1 (Build_shr_record m r s) = Build_shr_record m' r' (r || s) /\
    m = 2 * m' + Z.b2z r' /\ 0 <= m') as (m' & r' & -> & -> & Hm').
  { destruct m as [|[p|p|]|]; [exists 0, false|exists (Zpos p), true|exists (Zpos p), false|exists 0, true|lia];
      (split; [done|]); cbn [Z.b2z]; lia. }
  split; [done|]. exists (Z.b2z r * 2 ^ n + rest). cbn [shr_m shr_r shr_s].
  rewrite !(Z.pow_add_r 2 n), (Z.pow_add_r 2 (n + 1) 1), (Z.pow_add_r 2 n 1) by lia.
  split_and!; [nia|destruct r; cbn [Z.b2z]; lia..|].
  destruct r, s; cbn [orb Z.b2z]; intuition lia.
Qed.

Lemma iter_shifted x n :
  shifted x (Z.of_nat n) (Nat.iter n shr_1 (Build_shr_record x false false)) \/ x < 0.
Proof.
  destruct (Z.lt_ge_cases x 0) as [|Hx]; [by right|left]. induction n as [|n IH].
  - split; [done|]. exists 0. cbn. split_and!; [lia..|]. split; [done|lia].
  - replace (Z.of_nat (S n)) with (Z.of_nat n + 1) by lia. apply shr_1_shifted; [lia|done].
Qed.

(** ** Rounding to nearest *)

Lemma shr_shifted x e n :
  0 <= x -> 0 <= n ->
  exists mrs, shr (Build_shr_record x false false) e n = (mrs, e + n) /\ shifted x n mrs.
Proof.
  intros Hx Hn. destruct n as [|p|p]; [| |lia]; cbn [shr].
  - eexists. split; [by rewrite Z.add_0_r|]. by destruct (iter_shifted x 0); [|lia].
  - eexists. split; [done|]. rewrite iter_pos_nat.
    destruct (iter_shifted x (Pos.to_nat p)) as [Hs|]; [|lia]. by rewrite positive_nat_Z in Hs.
Qed.

Lemma shifted_nearest x n mrs :
  0 <= n -> shifted x n mrs ->
  2 * Z.abs (round_nearest_even (shr_m mrs) (loc_of_shr_record mrs) * 2 ^ n - x) <= 2 ^ n /\
  shr_m mrs <= round_nearest_even (shr_m mrs) (loc_of_shr_record mrs) <= shr_m mrs + 1.
Proof.
  intros Hn (Hm & rest & Hx & Hr & Hs). destruct mrs as [m r s]. cbn [shr_m shr_r shr_s] in *.
  pose proof (Z.pow_pos_nonneg 2 n ltac:(lia) Hn). rewrite (Z.pow_add_r 2 n 1) in Hx by lia.
  destruct r, s; cbn [loc_of_shr_record round_nearest_even Z.b2z] in *; [| |nia|].
  - nia.
  - assert (rest = 0) by (destruct (decide (0 < rest)) as [Hp|]; [by apply Hs in Hp|lia]).
    destruct (Z.even m); nia.
  - assert (rest = 0) by (destruct (decide (0 < rest)) as [Hp|]; [by apply Hs in Hp|lia]). nia.
Qed.

Lemma shifted_mantissa x n mrs :
  0 <= n -> shifted x n mrs -> shr_m mrs * 2 ^ n <= x < (shr_m mrs + 1) * 2 ^ n.
Proof.
  intros Hn (Hm & rest & Hx & Hr & _). pose proof (Z.pow_pos_nonneg 2 n ltac:(lia) Hn).
  rewrite (Z.pow_add_r 2 n 1) in Hx by lia. destruct (shr_r mrs); cbn [Z.b2z] in Hx; nia.
Qed.

Lemma fexp_normal e : -1021 <= e -> fexp 53 1024 e = e - 53.
Proof. intros. unfold fexp, emin. lia. Qed.

(** A mantissa that rounding up has carried to 2^53 is renormalised. *)
Lemma renormalise (m e : Z) :
  2 ^ 52 <= m <= 2 ^ 53 -> -1074 <= e ->
  exists mrs d, shr_fexp 53 1024 m e loc_Exact = (mrs, e + d) /\
    0 <= d <= 1 /\ m = shr_m mrs * 2 ^ d /\ 0 < shr_m mrs.
Proof.
  intros Hm He. destruct (decide (m = 2 ^ 53)) as [->|Hne].
  - eexists _, 1. unfold shr_fexp. change (Zdigits2 (2 ^ 53)) with 54. rewrite fexp_normal by lia.
    replace (54 + e - 53 - e) with 1 by lia. split_and!; [reflexivity|lia|lia|reflexivity|reflexivity].
  - exists (Build_shr_record m false false), 0. unfold shr_fexp.
    assert (Zdigits2 m = 53) as ->.
    { destruct m as [|p|p]; [lia| |lia]. cbn [Zdigits2]. rewrite digits2_log2.
      rewrite (Z.log2_unique (Zpos p) 52); [done|done|]. change (2 ^ Z.succ 52) with (2 ^ 53). lia. }
    rewrite fexp_normal by lia. replace (53 + e - 53 - e) with 0 by lia. cbn. split_and!; [f_equal; lia|lia..].
Qed.

(** The result of rounding [M * 2^e] is within half a unit of its last place. *)
Lemma round_aux_nearest s (M : positive) (e k : Z) :
  Z.log2 (Zpos M) = k + 52 -> 0 <= k -> -1074 <= e + k <= 900 ->
  exists m e', binary_round_aux 53 1024 s (Zpos M) e loc_Exact = S754_finite s m e' /\
    e + k <= e' <= e + k + 1 /\ 2 * Z.abs (Zpos m * 2 ^ (e' - e) - Zpos M) <= 2 ^ k.
Proof.
  intros Hlog Hk He.
  destruct (shr_shifted (Zpos M) e k ltac:(lia) Hk) as (mrs & Hshr & Hsh).
  destruct (shifted_nearest _ _ _ Hk Hsh) as [Hnear Hup]. pose proof (shifted_mantissa _ _ _ Hk Hsh) as Hman.
  pose proof (Z.log2_spec (Zpos M) ltac:(lia)) as Hspec. rewrite Hlog in Hspec.
  replace (Z.succ (k + 52)) with (53 + k) in Hspec by lia. rewrite (Z.add_comm k 52), !Z.pow_add_r in Hspec by lia.
  pose proof (Z.pow_pos_nonneg 2 k ltac:(lia) Hk).
  destruct (renormalise (round_nearest_even (shr_m mrs) (loc_of_shr_record mrs)) (e + k))
    as (mrs' & d & Hre & Hd & Hval & Hpos); [nia|lia|].
  unfold binary_round_aux, shr_fexp at 1. cbn [shr_record_of_loc]. cbn [Zdigits2]. rewrite digits2_log2, Hlog.
  rewrite fexp_normal by lia. replace (k + 52 + 1 + e - 53 - e) with k by lia. rewrite Hshr, Hre.
  destruct (shr_m mrs') as [|m|m]; [lia| |lia].
  rewrite (proj2 (Z.leb_le _ _)) by lia. exists m, (e + k + d). split_and!; [done|lia..|].
  replace (e + k + d - e) with (d + k) by lia. rewrite Z.pow_add_r by lia. by rewrite Z.mul_assoc, <- Hval.
Qed.

(** A mantissa with [k] trailing zeros loses nothing when it is shifted by [k]. *)
Lemma round_aux_exact s (M : positive) (e k y : Z) :
  Z.log2 (Zpos M) = k + 52 -> 0 <= k -> -1074 <= e + k <= 900 -> Zpos M = y * 2 ^ k ->
  exists m, binary_round_aux 53 1024 s (Zpos M) e loc_Exact = S754_finite s m (e + k) /\ Zpos m = y.
Proof.
  intros Hlog Hk He HM. pose proof (Z.pow_pos_nonneg 2 k ltac:(lia) Hk) as Hpow.
  assert (0 < y) as Hy by nia. destruct y as [|y|y]; [lia| |lia]. clear Hy.
  assert (Zdigits2 (Zpos y) = 53) as Hdig.
  { cbn [Zdigits2]. rewrite digits2_log2. rewrite HM, Z.log2_mul_pow2 in Hlog by lia. lia. }
  destruct (shr_shifted (Zpos M) e k ltac:(lia) Hk) as (mrs & Hshr & Hm & rest & Hx & Hrest & Hs).
  assert (mrs = Build_shr_record (Zpos y) false false) as ->.
  { destruct mrs as [m r st]. cbn [shr_m shr_r shr_s] in *. rewrite HM, Z.pow_add_r in Hx by lia.
    assert (m = Zpos y) as -> by (destruct r; cbn [Z.b2z] in Hx; nia).
    destruct r; cbn [Z.b2z] in Hx; [nia|]. assert (rest = 0) by nia.
    destruct st; [|done]. pose proof (proj1 Hs eq_refl). lia. }
  exists y. split; [|done]. unfold binary_round_aux, shr_fexp at 1. cbn [shr_record_of_loc].
  assert (Zdigits2 (Zpos M) = k + 53) as -> by (cbn [Zdigits2]; rewrite digits2_log2; lia).
  rewrite fexp_normal by lia. replace (k + 53 + e - 53 - e) with k by lia. rewrite Hshr.
  cbn [shr_m loc_of_shr_record round_nearest_even]. unfold shr_fexp. rewrite Hdig, fexp_normal by lia.
  replace (53 + (e + k) - 53 - (e + k)) with 0 by lia. cbn [shr_record_of_loc shr shr_m].
  by rewrite (proj2 (Z.leb_le _ _)) by lia.
Qed.

(** The double of a value [x = n * 2^e] that 53 bits can hold. *)
Definition exact_double (x : Z) (d : double) : Prop :=
  (x = 0 /\ d = S754_zero false) \/
  (0 < x /\ exists m, d = S754_finite false m (Z.log2 x - 52) /\ Zpos m = x * 2 ^ (52 - Z.log2 x)).

Lemma exact_unique x d d' : exact_double x d -> exact_double x d' -> d = d'.
Proof.
  intros [[? ->]|(? & m & -> & Hm)] [[? ->]|(? & m' & -> & Hm')]; [done|lia|lia|].
  f_equal. apply Pos2Z.inj. by rewrite Hm, Hm'.
Qed.

Lemma log2_53 x : 0 < x < 2 ^ 53 -> 0 <= Z.log2 x <= 52.
Proof. intros Hx. split; [apply Z.log2_nonneg|]. pose proof (Z.log2_lt_pow2 x 53 ltac:(lia)). lia. Qed.

Lemma shl_align_spec p e e' :
  exists m, shl_align p e e' = (m, Z.min e e') /\ Zpos m = Zpos p * 2 ^ (e - Z.min e e').
Proof.
  unfold shl_align. destruct (e' - e) as [|q|q] eqn:Hq.
  - exists p. replace (Z.min e e') with e by lia. by rewrite Z.sub_diag, Z.mul_1_r.
  - exists p. replace (Z.min e e') with e by lia. by rewrite Z.sub_diag, Z.mul_1_r.
  - exists (Pos.iter xO p q). replace (Z.min e e') with e' by lia. split; [done|].
    replace (e - e') with (Zpos q) by lia. clear. induction q as [|q IH] using Pos.peano_ind; [cbn; lia|].
    rewrite Pos.iter_succ, Pos2Z.inj_succ, Z.pow_succ_r, (Pos2Z.inj_xO (Pos.iter _ _ _)) by lia. lia.
Qed.

(** Normalising an integer below 2^53 in units of [2^e], [e <= 0], is exact. *)
Lemma normalize_exact (x e : Z) :
  0 < x < 2 ^ 53 -> -52 <= e <= 0 -> exact_double x (binary_normalize 53 1024 (x * 2 ^ (- e)) e false).
Proof.
  intros Hx He. pose proof (log2_53 x Hx) as Hl. right. split; [lia|].
  pose proof (Z.pow_pos_nonneg 2 (- e) ltac:(lia) ltac:(lia)).
  destruct (x * 2 ^ (- e)) as [|p|p] eqn:Hp; [nia| |nia].
  assert (Z.log2 (Zpos p) = Z.log2 x - e) as Hlp by (rewrite <- Hp, Z.log2_mul_pow2 by lia; lia).
  cbn [binary_normalize]. unfold binary_round. rewrite digits2_log2, Hlp, fexp_normal by lia.
  replace (Z.log2 x - e + 1 + e - 53) with (Z.log2 x - 52) by lia.
  destruct (shl_align_spec p e (Z.log2 x - 52)) as (m & -> & Hm). set (e0 := Z.min e (Z.log2 x - 52)) in *.
  assert (Zpos m = x * 2 ^ (- e0)) as Hm0.
  { rewrite Hm, <- Hp, <- Z.mul_assoc, <- Z.pow_add_r by lia. do 2 f_equal. lia. }
  destruct (round_aux_exact false m e0 (Z.log2 x - 52 - e0) (x * 2 ^ (52 - Z.log2 x))) as (m' & Hr & Hm').
  - rewrite Hm0, Z.log2_mul_pow2 by lia. lia.
  - lia.
  - lia.
  - rewrite Hm0, <- Z.mul_assoc, <- Z.pow_add_r by lia. do 2 f_equal. lia.
  - exists m'. split; [|done]. rewrite Hr. f_equal. lia.
Qed.

(** Small integers are represented exactly, and so are their sums. *)
Lemma of_int_exact (x : Z) : 0 <= x < 2 ^ 53 -> exact_double x (of_int x).
Proof.
  intros Hx. destruct (decide (x = 0)) as [->|]; [by left|].
  pose proof (normalize_exact x 0 ltac:(lia) ltac:(lia)) as H. by rewrite Z.mul_1_r in H.
Qed.

Lemma add_exact (x y : Z) :
  0 <= x -> 0 <= y -> x + y < 2 ^ 53 -> add (of_int x) (of_int y) = of_int (x + y).
Proof.
  intros Hx Hy Hxy. apply (exact_unique (x + y)); [|apply of_int_exact; lia].
  destruct (of_int_exact x ltac:(lia)) as [[-> ->]|(Hx0 & m & -> & Hm)],
    (of_int_exact y ltac:(lia)) as [[-> ->]|(Hy0 & n & -> & Hn)]; cbn [add SFadd]; [by left|..].
  - right. split; [lia|]. exists n. by rewrite Z.add_0_l.
  - right. split; [lia|]. exists m. by rewrite Z.add_0_r.
  - pose proof (log2_53 x ltac:(lia)). pose proof (log2_53 y ltac:(lia)).
    unfold add, SFadd. cbn [cond_Zopp]. set (ez := Z.min (Z.log2 x - 52) (Z.log2 y - 52)).
    destruct (shl_align_spec m (Z.log2 x - 52) ez) as (m' & -> & Hm').
    destruct (shl_align_spec n (Z.log2 y - 52) ez) as (n' & -> & Hn'). cbn [fst].
    rewrite Hm', Hn', Hm, Hn, <- !Z.mul_assoc, <- !Z.pow_add_r by lia.
    replace (52 - Z.log2 x + _) with (- ez) by lia. replace (52 - Z.log2 y + _) with (- ez) by lia.
    rewrite <- Z.mul_add_distr_r. apply normalize_exact; lia.
Qed.
