(* ===== verification/StdModel.v ===== *)
(** * What the code takes from the C++ standard library

    The random feed generator and the random tests draw from [<random>]
    distributions and pick elements of an [std::unordered_map] by position.  The
    standard fixes neither the drawn values nor the iteration order, so both are
    classes: [Random] with the documented ranges ([RandomRanges]) and
    [UnorderedMap] with the documented contents ([UnorderedMapLaws]).  [FairRandom]
    is what termination needs.  [Tape], [Cycle] and a [gmap] are instances. *)

From S2P Require Import Prelude.

Local Open Scope Z_scope.

(** ** Random numbers *)

(** The engine and one method per kind of distribution object. *)
Class Random (R : Type) := {
  seeded : Z -> R;
  action_dist : R -> Z * R;
  symbol_dist : Z -> R -> Z * R;
  shares_dist : Z -> Z -> R -> Z * R;
  jitter_dist : Z -> Z -> R -> Z * R;
  side_dist : R -> Z * R;
  mpid_dist : R -> Z * R;
  next_u64 : R -> Z * R
}.

Class RandomRanges (R : Type) `{!Random R} := {
  action_range r : 0 <= (action_dist r).1 <= 99;
  symbol_range n r : 0 <= n -> 0 <= (symbol_dist n r).1 <= n;
  shares_range lo hi r : lo <= hi -> lo <= (shares_dist lo hi r).1 <= hi;
  jitter_range lo hi r : lo <= hi -> lo <= (jitter_dist lo hi r).1 <= hi;
  side_range r : 0 <= (side_dist r).1 <= 1;
  mpid_range r : 0 <= (mpid_dist r).1 <= 2;
  next_range r : 0 <= (next_u64 r).1 < 2 ^ 64
}.

(** At most [patience] action draws in a row fall outside [0, 55). *)
Class FairRandom (R : Type) `{!Random R} := {
  patience : nat;
  wait : R -> nat;
  wait_bound r : (wait r <= patience)%nat;
  wait_action r : 55 <= (action_dist r).1 -> (wait (action_dist r).2 < wait r)%nat;
  wait_symbol n r : (wait (symbol_dist n r).2 <= wait r)%nat;
  wait_shares lo hi r : (wait (shares_dist lo hi r).2 <= wait r)%nat;
  wait_jitter lo hi r : (wait (jitter_dist lo hi r).2 <= wait r)%nat;
  wait_side r : (wait (side_dist r).2 <= wait r)%nat;
  wait_next r : (wait (next_u64 r).2 <= wait r)%nat
}.

(** ** Unordered maps *)

(** [std::unordered_map<std::uint64_t, V>], by its iteration order. *)
Class UnorderedMap (V M : Type) := {
  um_empty : M;
  um_entries : M -> list (Z * V);
  um_set : Z -> V -> M -> M;
  um_erase : Z -> M -> M
}.

Class UnorderedMapLaws (V M : Type) `{!UnorderedMap V M} := {
  um_entries_empty : um_entries um_empty = [];
  um_entries_nodup m : NoDup (um_entries m).*1;
  um_entries_set k v m :
    um_entries (um_set k v m) ≡ₚ (k, v) :: filter (fun e => e.1 <> k) (um_entries m);
  um_entries_erase k m : um_entries (um_erase k m) ≡ₚ filter (fun e => e.1 <> k) (um_entries m)
}.

(** The entries of the other keys. *)
Definition others {V} (ref : Z) (es : list (Z * V)) : list (Z * V) := filter (fun e => e.1 <> ref) es.

Lemma others_elem {V} ref (es : list (Z * V)) e : e ∈ others ref es -> e ∈ es.
Proof. unfold others. by intros [_ He]%list_elem_of_filter. Qed.

Lemma others_others {V} ref (es : list (Z * V)) : others ref (others ref es) = others ref es.
Proof. unfold others. rewrite list_filter_filter. apply list_filter_iff. tauto. Qed.

Lemma set_fresh {V M} `{UnorderedMapLaws V M} (m : M) ref (o : V) :
  (forall e, e ∈ um_entries m -> e.1 <> ref) -> um_entries (um_set ref o m) ≡ₚ (ref, o) :: um_entries m.
Proof. intros Hf. rewrite um_entries_set, filter_all; done. Qed.

(** ** Concrete random sources and maps *)

(** Draws come from a list and are folded into the range; past its end every draw
    is the lower bound. *)
Definition fold_into (lo hi x : Z) : Z := lo + x mod (hi - lo + 1).

Definition tape_draw (lo hi : Z) (tape : list Z) : Z * list Z :=
  match tape with [] => (lo, []) | x :: tape => (fold_into lo hi x, tape) end.

Definition Tape (script : list Z) : Random (list Z) := {|
  seeded _ := script;
  action_dist := tape_draw 0 99;
  symbol_dist n := tape_draw 0 n;
  shares_dist := tape_draw;
  jitter_dist := tape_draw;
  side_dist := tape_draw 0 1;
  mpid_dist := tape_draw 0 2;
  next_u64 := tape_draw 0 (2 ^ 64 - 1)
|}.

Lemma tape_draw_range lo hi tape : lo <= hi -> lo <= (tape_draw lo hi tape).1 <= hi.
Proof.
  intros Hle. destruct tape as [|x tape]; cbn; [lia|]. unfold fold_into.
  pose proof (Z.mod_pos_bound x (hi - lo + 1) ltac:(lia)). lia.
Qed.

#[global] Instance Tape_ranges script : @RandomRanges _ (Tape script).
Proof.
  split; intros; cbn; try apply tape_draw_range; try done.
  pose proof (tape_draw_range 0 (2 ^ 64 - 1) r ltac:(done)). lia.
Qed.

(** Two follow-ups (an execution and a deletion) after every addition; the other
    draws are constant. *)
#[global] Instance Cycle : Random nat := {|
  seeded _ := 0%nat;
  action_dist r := match r with O => (0, 2%nat) | 1%nat => (85, 0%nat) | _ => (60, 1%nat) end;
  symbol_dist _ r := (0, r);
  shares_dist lo _ r := (lo, r);
  jitter_dist lo _ r := (lo, r);
  side_dist r := (0, r);
  mpid_dist r := (0, r);
  next_u64 r := (0, r)
|}.

#[global] Instance Cycle_ranges : RandomRanges nat.
Proof. split; intros; cbn; try lia. destruct r as [|[|r]]; cbn; lia. Qed.

#[global] Instance Cycle_fair : FairRandom nat.
Proof.
  refine {| patience := 2; wait r := Nat.min r 2 |}; intros; try (cbn; lia).
  destruct r as [|[|r]]; cbn in *; lia.
Defined.

#[global] Instance gmap_unordered (V : Type) : UnorderedMap V (gmap Z V) := {|
  um_empty := ∅;
  um_entries m := map_to_list m;
  um_set k v m := <[k := v]> m;
  um_erase k m := delete k m
|}.

Lemma map_to_list_delete_filter {V} (m : gmap Z V) k :
  map_to_list (delete k m) ≡ₚ filter (fun e => e.1 <> k) (map_to_list m).
Proof.
  apply NoDup_Permutation.
  - apply NoDup_map_to_list.
  - apply list.NoDup_filter, NoDup_map_to_list.
  - intros [k' v]. rewrite list_elem_of_filter, !elem_of_map_to_list, lookup_delete_Some. cbn. naive_solver.
Qed.

#[global] Instance gmap_unordered_laws (V : Type) : UnorderedMapLaws V (gmap Z V).
Proof.
  split.
  - apply map_to_list_empty.
  - apply NoDup_fst_map_to_list.
  - intros k v m. cbn. rewrite <- insert_delete_eq, map_to_list_insert by apply lookup_delete_eq.
    by rewrite map_to_list_delete_filter.
  - intros k m. apply map_to_list_delete_filter.
Qed.
