(* ===== verification/HashMap.v ===== *)
(** * containers/hash_map.hpp: the open-addressing hash map

    [OpenAddressingHashMap<K, V>] with its three-state slots, linear probing and
    first-tombstone reuse.  [OAMap.wf] is the representation invariant (counters,
    key uniqueness, no Empty slot on the probe path of a stored key) and
    [OAMap.to_map] the finite map the table stands for; [find_present],
    [find_absent], [insert_present], [insert_fresh], [insert_full],
    [erase_present] and [erase_absent] give every operation on every branch. *)

From S2P Require Import Prelude Float64.

Local Open Scope Z_scope.

Module OAMap.

(** [std::bit_width]. *)
Definition bit_width (x : Z) : Z := if x =? 0 then 0 else Z.log2 x + 1.

(** splitmix64's finalizer. *)
Definition mix64 (x : Z) : Z :=
  let x := Z.lxor x (Z.shiftr x 30) in
  let x := u64 (x * 0xbf58476d1ce4e5b9) in
  let x := Z.lxor x (Z.shiftr x 27) in
  let x := u64 (x * 0x94d049bb133111eb) in
  Z.lxor x (Z.shiftr x 31).

(** Undefined for [n > 2^63]: the shift count would reach the width of the type. *)
Definition round_up_to_power_of_two (n : Z) : ub Z :=
  if n <=? 1 then Some 1
  else if bit_width (n - 1) <? 64 then Some (Z.shiftl 1 (bit_width (n - 1)))
  else None.

(** The template's requirements on [K]: comparable, default-initialisable and
    convertible to [std::uint64_t]; [V] is default-initialisable. *)
Class HashKey (K : Type) := { key_u64 : K -> Z; key_default : K }.
Class DefaultInit (V : Type) := default_init : V.

Inductive SlotState := Empty | Occupied | Tombstone.

#[global] Instance SlotState_eq_dec : EqDecision SlotState.
Proof. solve_decision. Defined.

Record Slot (K V : Type) := MkSlot { state : SlotState; key : K; value : V }.
Arguments MkSlot {K V} _ _ _.
Arguments state {K V} _.
Arguments key {K V} _.
Arguments value {K V} _.

Record t (K V : Type) := MkMap {
  capacity_ : Z;
  mask_ : Z;
  slots_ : list (Slot K V);
  size_ : Z;
  tombstones_ : Z
}.
Arguments MkMap {K V} _ _ _ _ _.
Arguments capacity_ {K V} _.
Arguments mask_ {K V} _.
Arguments slots_ {K V} _.
Arguments size_ {K V} _.
Arguments tombstones_ {K V} _.

Section ops.
Context {K V : Type} `{Countable K} `{!HashKey K} `{!DefaultInit V}.

(** The constructor: [Slot]'s default member initialisers give Empty slots. *)
Definition make (capacity_hint : Z) : ub (t K V) :=
  cap ← round_up_to_power_of_two capacity_hint;
  Some (MkMap cap (cap - 1)
          (replicate (Z.to_nat cap) (MkSlot Empty key_default default_init)) 0 0).

Definition size (hm : t K V) : Z := size_ hm.
Definition capacity (hm : t K V) : Z := capacity_ hm.
Definition tombstone_count (hm : t K V) : Z := tombstones_ hm.
Definition load_factor (hm : t K V) : double :=
  div (of_int (size_ hm +u64 tombstones_ hm)) (of_int (capacity_ hm)).

Definition probe_start (hm : t K V) (k : K) : Z :=
  Z.land (mix64 (u64 (key_u64 k))) (mask_ hm).

Definition next_index (hm : t K V) (index : Z) : Z :=
  Z.land (index +u64 1) (mask_ hm).

(** [place]: writes the slot and updates the counters. *)
Definition place (hm : t K V) (index : Z) (k : K) (v : V) (was_tombstone : bool)
    : ub (t K V) :=
  _ ← slots_ hm !! Z.to_nat index;
  Some (MkMap (capacity_ hm) (mask_ hm)
          (<[Z.to_nat index := MkSlot Occupied k v]> (slots_ hm))
          (size_ hm +u64 1)
          (if was_tombstone then tombstones_ hm -u64 1 else tombstones_ hm)).

(** The probe loops; [probes_left] is [capacity_ - probes]. *)
Fixpoint insert_loop (hm : t K V) (k : K) (v : V) (index first_tombstone : Z)
    (probes_left : nat) : ub (t K V * bool) :=
  match probes_left with
  | O =>
      if negb (first_tombstone =? kNone) then
        hm' ← place hm first_tombstone k v true; Some (hm', true)
      else Some (hm, false)
  | S n =>
      slot ← slots_ hm !! Z.to_nat index;
      match state slot with
      | Empty =>
          hm' ← place hm
                  (if negb (first_tombstone =? kNone) then first_tombstone else index)
                  k v (negb (first_tombstone =? kNone));
          Some (hm', true)
      | Tombstone =>
          insert_loop hm k v (next_index hm index)
            (if first_tombstone =? kNone then index else first_tombstone) n
      | Occupied =>
          if decide (key slot = k) then Some (hm, false)
          else insert_loop hm k v (next_index hm index) first_tombstone n
      end
  end.

Definition insert (hm : t K V) (k : K) (v : V) : ub (t K V * bool) :=
  insert_loop hm k v (probe_start hm k) kNone (Z.to_nat (capacity_ hm)).

(** [find] returns [V*]: the number of the slot that holds the value, or
    [nullptr]. *)
Fixpoint find_loop (hm : t K V) (k : K) (index : Z) (probes_left : nat) : ub ptr :=
  match probes_left with
  | O => Some None
  | S n =>
      slot ← slots_ hm !! Z.to_nat index;
      match state slot with
      | Empty => Some None
      | Occupied =>
          if decide (key slot = k) then Some (Some (Z.to_nat index))
          else find_loop hm k (next_index hm index) n
      | Tombstone => find_loop hm k (next_index hm index) n
      end
  end.

Definition find (hm : t K V) (k : K) : ub ptr :=
  find_loop hm k (probe_start hm k) (Z.to_nat (capacity_ hm)).

(** Reading through the [V*] that [find] returned. *)
Definition deref (hm : t K V) (i : nat) : ub V := value <$> slots_ hm !! i.

Definition erase_at (hm : t K V) (index : Z) : t K V :=
  MkMap (capacity_ hm) (mask_ hm)
    (<[Z.to_nat index := MkSlot Tombstone key_default default_init]> (slots_ hm))
    (size_ hm -u64 1) (tombstones_ hm +u64 1).

Fixpoint erase_loop (hm : t K V) (k : K) (index : Z) (probes_left : nat)
    : ub (t K V * bool) :=
  match probes_left with
  | O => Some (hm, false)
  | S n =>
      slot ← slots_ hm !! Z.to_nat index;
      match state slot with
      | Empty => Some (hm, false)
      | Occupied =>
          if decide (key slot = k) then Some (erase_at hm index, true)
          else erase_loop hm k (next_index hm index) n
      | Tombstone => erase_loop hm k (next_index hm index) n
      end
  end.

Definition erase (hm : t K V) (k : K) : ub (t K V * bool) :=
  erase_loop hm k (probe_start hm k) (Z.to_nat (capacity_ hm)).

(** The defaulted moves: the array changes hands, the other members are copied, and
    the source keeps them without an array.  The new object and the source. *)
Definition moved_from (hm : t K V) : t K V :=
  MkMap (capacity_ hm) (mask_ hm) [] (size_ hm) (tombstones_ hm).
Definition move_construct (source : t K V) : t K V * t K V := (source, moved_from source).
Definition move_assign (target source : t K V) : t K V * t K V := (source, moved_from source).
End ops.

#[global] Instance HashKey_Z : HashKey Z := {| key_u64 := id; key_default := 0 |}.
#[global] Instance DefaultInit_ptr : DefaultInit (option nat) := None.
#[global] Instance DefaultInit_Z : DefaultInit Z := 0.

(** ** Representation invariant *)
Section invariant.
Context {K V : Type} `{Countable K} `{!HashKey K} `{!DefaultInit V}.
Implicit Types (hm : t K V) (k : K) (v : V) (s : Slot K V).

Definition occupied (s : Slot K V) : bool := bool_decide (state s = Occupied).
Definition is_tombstone (s : Slot K V) : bool := bool_decide (state s = Tombstone).

(** The slot examined at probe number [j] for key [k]. *)
Definition pidx hm k (j : Z) : Z := (probe_start hm k + j) mod capacity_ hm.

Definition entries (l : list (Slot K V)) : list (K * V) :=
  omap (fun s => if occupied s then Some (key s, value s) else None) l.

(** The finite map the table stands for. *)
Definition to_map hm : gmap K V := list_to_map (entries (slots_ hm)).

Definition uniq (l : list (Slot K V)) : Prop :=
  forall i j s s', l !! i = Some s -> l !! j = Some s' ->
    state s = Occupied -> state s' = Occupied -> key s = key s' -> i = j.

(** No Empty slot precedes a stored key on that key's probe path. *)
Definition reachable hm (l : list (Slot K V)) : Prop :=
  forall k j s, 0 <= j < capacity_ hm ->
    l !! Z.to_nat (pidx hm k j) = Some s -> state s = Occupied -> key s = k ->
    forall j' s', 0 <= j' < j ->
      l !! Z.to_nat (pidx hm k j') = Some s' -> state s' <> Empty.

Record wf hm : Prop := {
  wf_cap : exists e, 0 <= e <= 63 /\ capacity_ hm = 2 ^ e;
  wf_mask : mask_ hm = capacity_ hm - 1;
  wf_len : Z.of_nat (length (slots_ hm)) = capacity_ hm;
  wf_uniq : uniq (slots_ hm);
  wf_reach : reachable hm (slots_ hm);
  wf_size : size_ hm = countZ occupied (slots_ hm);
  wf_tombs : tombstones_ hm = countZ is_tombstone (slots_ hm)
}.

(** The load factor counts every used slot once: the sum does not wrap and is at most
    the capacity. *)
Lemma used_slots hm : wf hm -> 0 <= size_ hm + tombstones_ hm <= capacity_ hm.
Proof.
  intros Hwf. rewrite (wf_size _ Hwf), (wf_tombs _ Hwf), <- (wf_len _ Hwf). clear Hwf.
  induction (slots_ hm) as [|s l IH]; [cbn; lia|].
  unfold countZ in *. rewrite !sumZ_cons. cbn [length]. rewrite Nat2Z.inj_succ.
  assert (0 <= Z.b2z (occupied s) + Z.b2z (is_tombstone s) <= 1) as Hs
    by (unfold occupied, is_tombstone; destruct (state s); vm_compute; split; discriminate).
  lia.
Qed.

Lemma load_factor_exact_sum hm :
  wf hm -> load_factor hm = div (of_int (size_ hm + tombstones_ hm)) (of_int (capacity_ hm)).
Proof.
  intros Hwf. pose proof (used_slots hm Hwf).
  assert (capacity_ hm <= 2 ^ 63).
  { destruct (wf_cap _ Hwf) as (e & He & ->). apply Z.pow_le_mono_r; lia. }
  unfold load_factor. by rewrite u64_small by lia.
Qed.

(** *** Index arithmetic *)

Lemma wf_cap_range hm : wf hm -> 0 < capacity_ hm <= 2 ^ 63.
Proof.
  intros [(e & He & ->) _ _ _ _ _ _]. split; [apply Z.pow_pos_nonneg; lia|].
  apply Z.pow_le_mono_r; lia.
Qed.

Lemma land_mask hm x : wf hm -> Z.land x (mask_ hm) = x mod capacity_ hm.
Proof.
  intros [(e & He & Hc) -> _ _ _ _ _]. rewrite Hc, <- Z.land_ones by lia.
  f_equal. rewrite Z.ones_equiv. lia.
Qed.

Lemma pidx_range hm k j : wf hm -> 0 <= pidx hm k j < capacity_ hm.
Proof. intros Hwf. apply Z.mod_pos_bound. by apply wf_cap_range. Qed.

Lemma pidx_0 hm k : wf hm -> pidx hm k 0 = probe_start hm k.
Proof.
  intros Hwf. unfold pidx, probe_start. rewrite land_mask by done.
  rewrite Z.add_0_r. apply Zmod_mod.
Qed.

Lemma next_pidx hm k j : wf hm -> next_index hm (pidx hm k j) = pidx hm k (j + 1).
Proof.
  intros Hwf. unfold next_index. rewrite land_mask by done.
  pose proof (pidx_range hm k j Hwf). pose proof (wf_cap_range hm Hwf).
  rewrite u64_small by lia. unfold pidx. by rewrite Zplus_mod_idemp_l, <- Z.add_assoc.
Qed.

Lemma pidx_inj hm k j j' :
  wf hm -> 0 <= j < capacity_ hm -> 0 <= j' < capacity_ hm ->
  pidx hm k j = pidx hm k j' -> j = j'.
Proof.
  intros Hwf Hj Hj' Heq. unfold pidx in Heq.
  pose proof (wf_cap_range hm Hwf).
  rewrite (Z.mod_eq (_ + j)), (Z.mod_eq (_ + j')) in Heq by lia.
  generalize dependent ((probe_start hm k + j) / capacity_ hm). intros q.
  generalize ((probe_start hm k + j') / capacity_ hm). intros q' Heq.
  assert (q - q' = 0) by nia. nia.
Qed.

Lemma pidx_surj hm k i :
  wf hm -> 0 <= i < capacity_ hm -> exists j, 0 <= j < capacity_ hm /\ pidx hm k j = i.
Proof.
  intros Hwf Hi. exists ((i - probe_start hm k) mod capacity_ hm).
  split; [apply Z.mod_pos_bound; lia|]. unfold pidx.
  rewrite Zplus_mod_idemp_r. replace (_ + _) with i by lia. by apply Z.mod_small.
Qed.

Lemma slot_at hm k j :
  wf hm -> exists s, slots_ hm !! Z.to_nat (pidx hm k j) = Some s.
Proof.
  intros Hwf. apply lookup_lt_is_Some. pose proof (pidx_range hm k j Hwf).
  pose proof (wf_len hm Hwf). lia.
Qed.

Lemma lookup_pidx hm k i s :
  wf hm -> slots_ hm !! i = Some s ->
  exists j, 0 <= j < capacity_ hm /\ i = Z.to_nat (pidx hm k j).
Proof.
  intros Hwf Hi. apply lookup_lt_Some in Hi. pose proof (wf_len hm Hwf).
  destruct (pidx_surj hm k (Z.of_nat i) Hwf) as (j & Hj & Hp); [lia|].
  exists j. split; [done|]. rewrite Hp. lia.
Qed.

(** *** The table as a finite map *)

Lemma elem_of_entries l k v :
  (k, v) ∈ entries l <->
  exists i s, l !! i = Some s /\ state s = Occupied /\ key s = k /\ value s = v.
Proof.
  unfold entries. rewrite list_elem_of_omap. split.
  - intros (s & (i & Hi)%list_elem_of_lookup & Hs). exists i, s.
    unfold occupied in Hs. case_bool_decide; naive_solver.
  - intros (i & s & Hi & Ho & <- & <-). exists s.
    split; [by eapply list_elem_of_lookup_2|]. unfold occupied. by rewrite bool_decide_true.
Qed.

Lemma entries_NoDup l : uniq l -> NoDup (entries l).*1.
Proof.
  induction l as [|s l IH]; intros Hu; [constructor|].
  assert (uniq l) as Hu'.
  { intros i j s1 s2 Hi Hj H1 H2 H3. specialize (Hu (S i) (S j) s1 s2 Hi Hj H1 H2 H3). lia. }
  cbn. unfold occupied. case_bool_decide as Ho; [|by apply IH].
  cbn. constructor; [|by apply IH].
  intros ([k v] & Hk & (i & s' & Hi & Ho' & Hk' & _)%elem_of_entries)%list_elem_of_fmap.
  simpl in Hk. pose proof (Hu 0%nat (S i) s s' eq_refl Hi Ho Ho' ltac:(congruence)). lia.
Qed.

Lemma lookup_to_map hm k v :
  wf hm ->
  to_map hm !! k = Some v <->
  exists i s, slots_ hm !! i = Some s /\ state s = Occupied /\ key s = k /\ value s = v.
Proof.
  intros Hwf. unfold to_map. rewrite <- elem_of_list_to_map, elem_of_entries; [done|].
  apply entries_NoDup, Hwf.
Qed.

Lemma lookup_to_map_None hm k :
  wf hm ->
  to_map hm !! k = None <->
  forall i s, slots_ hm !! i = Some s -> state s = Occupied -> key s <> k.
Proof.
  intros Hwf. rewrite eq_None_not_Some. split.
  - intros Hn i s Hi Ho Hk. apply Hn. exists (value s). apply lookup_to_map; [done|].
    by exists i, s.
  - intros Hn [v (i & s & Hi & Ho & Hk & _)%lookup_to_map]; [|done]. by eapply Hn.
Qed.

Lemma length_entries l : Z.of_nat (length (entries l)) = countZ occupied l.
Proof.
  induction l as [|s l IH]; [done|]. unfold countZ in *. simpl. rewrite <- IH.
  cbn [entries omap list_omap]. destruct (occupied s); simpl; unfold entries; lia.
Qed.

Lemma size_to_map hm : wf hm -> Z.of_nat (base.size (to_map hm)) = size_ hm.
Proof.
  intros Hwf. unfold to_map. rewrite map_size_list_to_map by (apply entries_NoDup, Hwf).
  by rewrite (wf_size _ Hwf), length_entries.
Qed.
(** *** Construction *)

Lemma round_up_spec n cap :
  0 <= n -> round_up_to_power_of_two n = Some cap ->
  n <= cap /\ exists e, 0 <= e <= 63 /\ cap = 2 ^ e.
Proof.
  unfold round_up_to_power_of_two, bit_width. intros Hn Hr.
  destruct (Z.leb_spec n 1); [simplify_eq; split; [lia|by exists 0]|].
  destruct (Z.eqb_spec (n - 1) 0); [lia|].
  destruct (Z.ltb_spec (Z.log2 (n - 1) + 1) 64); [|done]. simplify_eq.
  pose proof (Z.log2_nonneg (n - 1)).
  destruct (Z.log2_spec (n - 1)) as [_ Hs]; [lia|].
  rewrite Z.shiftl_1_l. split; [rewrite Z.add_1_r; lia|].
  exists (Z.log2 (n - 1) + 1). split; [lia|done].
Qed.

Lemma round_up_defined n :
  0 <= n <= 2 ^ 63 -> exists cap, round_up_to_power_of_two n = Some cap.
Proof.
  intros Hn. unfold round_up_to_power_of_two, bit_width.
  destruct (Z.leb_spec n 1); [by eexists|].
  destruct (Z.eqb_spec (n - 1) 0); [lia|].
  assert (Z.log2 (n - 1) < 63) by (apply Z.log2_lt_pow2; lia).
  rewrite (proj2 (Z.ltb_lt _ _)) by lia. by eexists.
Qed.

Lemma make_map_wf n :
  0 <= n <= 2 ^ 63 ->
  exists hm, make (K:=K) (V:=V) n = Some hm /\ wf hm /\ to_map hm = ∅ /\
    n <= capacity_ hm /\ size_ hm = 0.
Proof.
  intros Hn. destruct (round_up_defined n Hn) as [cap Hcap].
  unfold make. rewrite Hcap. cbn [mbind option_bind].
  destruct (round_up_spec n cap ltac:(lia) Hcap) as [Hle (e & He & He')].
  assert (0 < cap) by (rewrite He'; apply Z.pow_pos_nonneg; lia).
  assert (forall i s, replicate (Z.to_nat cap)
            (MkSlot Empty key_default default_init : Slot K V) !! i = Some s ->
            state s = Empty) as Hempty.
  { intros i s [-> _]%lookup_replicate. done. }
  eexists. split; [reflexivity|].
  assert (wf (MkMap cap (cap - 1)
    (replicate (Z.to_nat cap) (MkSlot Empty key_default default_init)) 0 0)) as Hwf.
  { split; cbn [capacity_ mask_ slots_ size_ tombstones_].
    - by exists e.
    - done.
    - rewrite length_replicate. lia.
    - intros i j s s' Hi%Hempty _ Ho. congruence.
    - intros k j s _ Hi%Hempty Ho. congruence.
    - symmetry. apply countZ_none. intros s (i & Hi)%list_elem_of_lookup.
      unfold occupied. rewrite (Hempty _ _ Hi). done.
    - symmetry. apply countZ_none. intros s (i & Hi)%list_elem_of_lookup.
      unfold is_tombstone. rewrite (Hempty _ _ Hi). done. }
  split; [done|]. split; [|done].
  apply map_empty. intros k. apply lookup_to_map_None; [done|].
  intros i s Hi%Hempty Ho. congruence.
Qed.

(** *** Lookup *)

Lemma find_loop_present hm k d s :
  wf hm -> 0 <= d < capacity_ hm ->
  slots_ hm !! Z.to_nat (pidx hm k d) = Some s -> state s = Occupied -> key s = k ->
  forall n j, 0 <= j <= d -> Z.of_nat n = capacity_ hm - j ->
    find_loop hm k (pidx hm k j) n = Some (Some (Z.to_nat (pidx hm k d))).
Proof.
  intros Hwf Hd Hs Ho Hk. induction n as [|n IH]; intros j Hj Hn; [lia|].
  cbn [find_loop]. destruct (slot_at hm k j Hwf) as [s' Hs']. rewrite Hs'.
  cbn [mbind option_bind]. rewrite next_pidx by done.
  destruct (decide (j = d)) as [->|Hne].
  { simplify_eq. rewrite Ho. by rewrite decide_True. }
  assert (state s' <> Empty) by (eapply (wf_reach _ Hwf k d s Hd Hs Ho Hk j); [lia|done]).
  destruct (state s') eqn:Es; [done| |apply IH; lia].
  destruct (decide (key s' = k)) as [Hk'|]; [|apply IH; lia].
  assert (Z.to_nat (pidx hm k j) = Z.to_nat (pidx hm k d)) as Heq.
  { eapply (wf_uniq _ Hwf); eauto. congruence. }
  pose proof (pidx_range hm k j Hwf). pose proof (pidx_range hm k d Hwf).
  apply Z2Nat.inj in Heq; [|lia..]. apply pidx_inj in Heq; [lia|done|lia|lia].
Qed.

Lemma find_loop_absent hm k :
  wf hm -> to_map hm !! k = None ->
  forall n j, find_loop hm k (pidx hm k j) n = Some None.
Proof.
  intros Hwf Ha. rewrite lookup_to_map_None in Ha by done.
  induction n as [|n IH]; intros j; [done|].
  cbn [find_loop]. destruct (slot_at hm k j Hwf) as [s' Hs']. rewrite Hs'.
  cbn [mbind option_bind]. rewrite next_pidx by done.
  destruct (state s') eqn:Es; [done| |apply IH].
  rewrite decide_False; [apply IH|]. by eapply Ha.
Qed.

(** The unique occupied slot of a present key, with its probe number. *)
Lemma present_slot hm k v :
  wf hm -> to_map hm !! k = Some v ->
  exists d s, 0 <= d < capacity_ hm /\ slots_ hm !! Z.to_nat (pidx hm k d) = Some s /\
    state s = Occupied /\ key s = k /\ value s = v.
Proof.
  intros Hwf (i & s & Hi & Ho & Hk & Hv)%lookup_to_map; [|done].
  destruct (lookup_pidx hm k i s Hwf Hi) as (d & Hd & ->). by exists d, s.
Qed.

Lemma find_present hm k v :
  wf hm -> to_map hm !! k = Some v ->
  exists i s, find hm k = Some (Some i) /\ slots_ hm !! i = Some s /\
    state s = Occupied /\ key s = k /\ value s = v.
Proof.
  intros Hwf (d & s & Hd & Hs & Ho & Hk & Hv)%present_slot; [|done].
  exists (Z.to_nat (pidx hm k d)), s. split; [|done].
  unfold find. rewrite <- pidx_0 by done.
  pose proof (wf_cap_range _ Hwf). eapply find_loop_present; eauto; lia.
Qed.

Lemma find_absent hm k :
  wf hm -> to_map hm !! k = None -> find hm k = Some None.
Proof. intros. unfold find. rewrite <- pidx_0 by done. by apply find_loop_absent. Qed.

(** [find] followed by the read through its result is the map's lookup. *)
Lemma find_deref hm k :
  wf hm ->
  (p ← find hm k;
   match p with
   | None => Some None
   | Some i => v ← deref hm i; Some (Some v)
   end) = Some (to_map hm !! k).
Proof.
  intros Hwf. destruct (to_map hm !! k) as [v|] eqn:Hk.
  - destruct (find_present hm k v Hwf Hk) as (i & s & Hf & Hi & _ & _ & <-).
    rewrite Hf. cbn [mbind option_bind]. unfold deref. by rewrite Hi.
  - by rewrite (find_absent hm k Hwf Hk).
Qed.

(** *** Insertion *)

(** What overwriting one slot does to the invariant's two quantified parts. *)
Lemma uniq_update l i s' :
  uniq l ->
  (state s' = Occupied -> forall j s, l !! j = Some s -> state s = Occupied ->
     j <> i -> key s <> key s') ->
  uniq (<[i := s']> l).
Proof.
  intros Hu Hn i1 i2 s1 s2 H1 H2 Ho1 Ho2 Hk.
  apply list_lookup_insert_Some in H1 as [(<- & <- & _)|[Hne1 H1]];
    apply list_lookup_insert_Some in H2 as [(<- & <- & _)|[Hne2 H2]]; [done| | |eauto].
  - exfalso. by eapply (Hn Ho1 i2 s2).
  - exfalso. by eapply (Hn Ho2 i1 s1).
Qed.

Lemma reachable_update hm l i s' :
  reachable hm l -> state s' <> Empty ->
  (state s' = Occupied -> forall j, 0 <= j < capacity_ hm ->
     i = Z.to_nat (pidx hm (key s') j) -> forall j' s0, 0 <= j' < j ->
     l !! Z.to_nat (pidx hm (key s') j') = Some s0 -> state s0 <> Empty) ->
  reachable hm (<[i := s']> l).
Proof.
  intros Hr Hne Hnew k j s Hj Hs Ho Hk j' s0 Hj' Hs0.
  apply list_lookup_insert_Some in Hs0 as [(_ & <- & _)|[_ Hs0]]; [done|].
  apply list_lookup_insert_Some in Hs as [(Heq & <- & _)|[_ Hs]].
  - subst k. by eapply (Hnew Ho j).
  - by eapply (Hr k j s).
Qed.

(** The finite map after overwriting a slot that was not occupied. *)
Lemma to_map_update hm hm' i k v s :
  wf hm -> wf hm' -> slots_ hm' = <[i := MkSlot Occupied k v]> (slots_ hm) ->
  slots_ hm !! i = Some s -> state s <> Occupied -> to_map hm !! k = None ->
  to_map hm' = <[k := v]> (to_map hm).
Proof.
  intros Hwf Hwf' Hsl Hs Hno Ha. apply map_eq. intros k'. apply option_eq. intros w.
  rewrite lookup_to_map, Hsl, lookup_insert by done.
  rewrite lookup_to_map_None in Ha by done.
  setoid_rewrite list_lookup_insert_Some. case_decide as Hk'.
  - subst k'. split; [|pose proof (lookup_lt_Some _ _ _ Hs); naive_solver].
    intros (i' & s0 & [(_ & <- & _)|[_ Hi]] & Ho & Hk & <-); [done|]. by destruct (Ha i' s0).
  - rewrite lookup_to_map by done. split.
    + intros (i' & s0 & [(_ & <- & _)|[_ Hi]] & Ho & Hk & <-); [done|]. naive_solver.
    + intros (i' & s0 & Hi & Ho & Hk & <-). exists i', s0. split; [|done].
      right. split; [|done]. intros ->. naive_solver.
Qed.

Lemma place_spec hm k v q s :
  wf hm -> to_map hm !! k = None -> 0 <= q < capacity_ hm ->
  slots_ hm !! Z.to_nat (pidx hm k q) = Some s -> state s <> Occupied ->
  (forall j' s', 0 <= j' < q ->
     slots_ hm !! Z.to_nat (pidx hm k j') = Some s' -> state s' <> Empty) ->
  exists hm', place hm (pidx hm k q) k v (is_tombstone s) = Some hm' /\ wf hm' /\
    to_map hm' = <[k := v]> (to_map hm) /\ size_ hm' = size_ hm + 1 /\
    capacity_ hm' = capacity_ hm.
Proof.
  intros Hwf Ha Hq Hs Hno Hpre.
  pose proof (wf_cap_range _ Hwf) as Hcap. pose proof (wf_len _ Hwf) as Hwl.
  pose proof (pidx_range hm k q Hwf) as Hr.
  unfold place. rewrite Hs. cbn [mbind option_bind].
  set (l' := <[_ := _]> (slots_ hm)).
  assert (countZ occupied l' = size_ hm + 1) as Hocc.
  { unfold l'. rewrite (countZ_insert _ _ _ _ _ Hs), (wf_size _ Hwf).
    unfold occupied at 2 3. rewrite bool_decide_false by done. simpl. lia. }
  assert (countZ is_tombstone l' = tombstones_ hm - Z.b2z (is_tombstone s)) as Htomb.
  { unfold l'. rewrite (countZ_insert _ _ _ _ _ Hs), (wf_tombs _ Hwf).
    unfold is_tombstone at 3. simpl. lia. }
  assert (length l' = length (slots_ hm)) as Hlen by (unfold l'; by rewrite length_insert).
  pose proof (countZ_range occupied l'). pose proof (countZ_range is_tombstone l').
  pose proof (countZ_range is_tombstone (slots_ hm)). pose proof (wf_tombs _ Hwf).
  pose proof (countZ_range occupied (slots_ hm)). pose proof (wf_size _ Hwf).
  pose proof Ha as Ha'. rewrite lookup_to_map_None in Ha' by done.
  eexists. split; [reflexivity|].
  match goal with |- wf ?h /\ _ => set (hm' := h); assert (wf hm') as Hwf' end.
  { split; cbn [hm' capacity_ mask_ slots_ size_ tombstones_]; fold l'.
    - apply Hwf.
    - apply Hwf.
    - lia.
    - apply uniq_update; [apply Hwf|]. naive_solver.
    - change (reachable hm l'). apply reachable_update; [apply Hwf|done|].
      cbn [key]. intros _ j Hj Heq. pose proof (pidx_range hm k j Hwf).
      apply Z2Nat.inj, pidx_inj in Heq; [|done|lia|lia|lia|lia]. by subst q.
    - rewrite Hocc. apply u64_small. lia.
    - rewrite Htomb. destruct (is_tombstone s); cbn in *; [apply u64_small; lia|lia]. }
  split; [done|]. split; [by eapply (to_map_update hm hm')|].
  split; [|done]. cbn. apply u64_small. lia.
Qed.

(** Where the insertion loop stops for an absent key. *)
Lemma insert_loop_absent hm k v :
  wf hm -> to_map hm !! k = None ->
  forall n j ft, 0 <= j -> Z.of_nat n = capacity_ hm - j ->
    (forall j' s', 0 <= j' < j ->
       slots_ hm !! Z.to_nat (pidx hm k j') = Some s' ->
       state s' = Occupied \/ (state s' = Tombstone /\ ft <> kNone)) ->
    (ft = kNone \/ exists q s, 0 <= q < j /\ ft = pidx hm k q /\
       slots_ hm !! Z.to_nat (pidx hm k q) = Some s /\ state s = Tombstone) ->
    (exists q s, 0 <= q < capacity_ hm /\
       slots_ hm !! Z.to_nat (pidx hm k q) = Some s /\ state s <> Occupied /\
       (forall j' s', 0 <= j' < q ->
         slots_ hm !! Z.to_nat (pidx hm k j') = Some s' -> state s' <> Empty) /\
       insert_loop hm k v (pidx hm k j) ft n =
         hm' ← place hm (pidx hm k q) k v (is_tombstone s); Some (hm', true)) \/
    ((forall j' s', 0 <= j' < capacity_ hm ->
       slots_ hm !! Z.to_nat (pidx hm k j') = Some s' -> state s' = Occupied) /\
     insert_loop hm k v (pidx hm k j) ft n = Some (hm, false)).
Proof.
  intros Hwf Ha. pose proof (wf_cap_range _ Hwf).
  assert (forall q, pidx hm k q =? kNone = false) as Hnk.
  { intros q. pose proof (pidx_range hm k q Hwf). apply Z.eqb_neq. unfold kNone. lia. }
  rewrite lookup_to_map_None in Ha by done.
  induction n as [|n IH]; intros j ft Hj Hn Hpre Hft.
  { cbn [insert_loop]. destruct Hft as [->|(q & s & Hq & -> & Hs & Ht)].
    - right. split; [|done]. intros j' s' Hj' Hs'.
      destruct (Hpre j' s' ltac:(lia) Hs') as [|[_ []]]; done.
    - left. exists q, s. rewrite Hnk. cbn [negb]. unfold is_tombstone.
      rewrite bool_decide_true by done. split; [lia|]. split; [done|]. split; [congruence|]. split; [|done].
      intros j' s' Hj' Hs'. destruct (Hpre j' s' ltac:(lia) Hs') as [|[? _]]; congruence. }
  cbn [insert_loop]. destruct (slot_at hm k j Hwf) as [s' Hs']. rewrite Hs'.
  cbn [mbind option_bind]. rewrite next_pidx by done.
  destruct (state s') eqn:Es.
  - left. destruct Hft as [->|(q & s & Hq & -> & Hs & Ht)].
    + exists j, s'. unfold is_tombstone. rewrite bool_decide_false by congruence.
      split; [lia|]. split; [done|]. split; [congruence|]. split; [|done].
      intros j' s2 Hj' Hs2. destruct (Hpre j' s2 ltac:(lia) Hs2) as [|[? _]]; congruence.
    + exists q, s. rewrite Hnk. cbn [negb]. unfold is_tombstone.
      rewrite bool_decide_true by done. split; [lia|]. split; [done|]. split; [congruence|]. split; [|done].
      intros j' s2 Hj' Hs2. destruct (Hpre j' s2 ltac:(lia) Hs2) as [|[? _]]; congruence.
  - rewrite decide_False by (by eapply Ha). apply IH; [lia|lia| |].
    + intros j' s2 Hj' Hs2. destruct (decide (j' = j)) as [->|]; [left; congruence|].
      apply (Hpre j'); [lia|done].
    + destruct Hft as [|(q & s & Hq & Hr)]; [by left|right]. exists q, s. split; [lia|done].
  - apply IH; [lia|lia| |].
    + intros j' s2 Hj' Hs2. destruct (decide (j' = j)) as [->|].
      * right. split; [congruence|]. destruct (Z.eqb_spec ft kNone); [|done].
        intros Hx. specialize (Hnk j). rewrite Hx in Hnk. by rewrite Z.eqb_refl in Hnk.
      * destruct (Hpre j' s2 ltac:(lia) Hs2) as [|[? ?]]; [by left|right].
        split; [done|]. by rewrite (proj2 (Z.eqb_neq _ _)).
    + right. destruct Hft as [->|(q & s & Hq & -> & Hr)].
      * rewrite Z.eqb_refl. exists j, s'. repeat split; [lia|lia|done|done].
      * rewrite Hnk. exists q, s. split; [lia|done].
Qed.

Lemma insert_present hm k v w :
  wf hm -> to_map hm !! k = Some w -> insert hm k v = Some (hm, false).
Proof.
  intros Hwf (d & s & Hd & Hs & Ho & Hk & _)%present_slot; [|done].
  pose proof (wf_cap_range _ Hwf). unfold insert. rewrite <- pidx_0 by done.
  assert (forall n j ft, 0 <= j <= d -> Z.of_nat n = capacity_ hm - j ->
    insert_loop hm k v (pidx hm k j) ft n = Some (hm, false)) as Hloop; [|apply Hloop; lia].
  induction n as [|n IH]; intros j ft Hj Hn; [lia|].
  cbn [insert_loop]. destruct (slot_at hm k j Hwf) as [s' Hs']. rewrite Hs'.
  cbn [mbind option_bind]. rewrite next_pidx by done.
  destruct (decide (j = d)) as [->|Hne].
  { simplify_eq. rewrite Ho. by rewrite decide_True. }
  assert (state s' <> Empty) by (eapply (wf_reach _ Hwf k d s Hd Hs Ho Hk j); [lia|done]).
  destruct (state s'); [done| |apply IH; lia].
  case_decide; [done|apply IH; lia].
Qed.

Lemma insert_fresh hm k v :
  wf hm -> to_map hm !! k = None -> size_ hm < capacity_ hm ->
  exists hm', insert hm k v = Some (hm', true) /\ wf hm' /\
    to_map hm' = <[k := v]> (to_map hm) /\ size_ hm' = size_ hm + 1 /\
    capacity_ hm' = capacity_ hm.
Proof.
  intros Hwf Ha Hsz. pose proof (wf_cap_range _ Hwf).
  unfold insert. rewrite <- pidx_0 by done.
  destruct (insert_loop_absent hm k v Hwf Ha (Z.to_nat (capacity_ hm)) 0 kNone)
    as [(q & s & Hq & Hs & Hno & Hpre & ->)|[Hall _]]; [lia|lia|lia|by left| |].
  - destruct (place_spec hm k v q s) as (hm' & -> & Hrest); [done..|].
    exists hm'. by split.
  - exfalso. assert (size_ hm = capacity_ hm); [|lia].
    rewrite (wf_size _ Hwf), <- (wf_len _ Hwf). apply countZ_all.
    intros s (i & Hi)%list_elem_of_lookup.
    destruct (lookup_pidx hm k i s Hwf Hi) as (j & Hj & ->).
    unfold occupied. by erewrite bool_decide_true by (by eapply Hall).
Qed.

Lemma insert_full hm k v :
  wf hm -> to_map hm !! k = None -> size_ hm = capacity_ hm ->
  insert hm k v = Some (hm, false).
Proof.
  intros Hwf Ha Hsz. pose proof (wf_cap_range _ Hwf).
  unfold insert. rewrite <- pidx_0 by done.
  destruct (insert_loop_absent hm k v Hwf Ha (Z.to_nat (capacity_ hm)) 0 kNone)
    as [(q & s & Hq & Hs & Hno & Hpre & _)|[_ ->]]; [lia|lia|lia|by left| |done].
  exfalso. apply Hno. assert (occupied s = true); [|by eapply bool_decide_eq_true_1].
  apply (countZ_full occupied (slots_ hm)); [|by eapply list_elem_of_lookup_2].
  rewrite <- (wf_size _ Hwf), Hsz, <- (wf_len _ Hwf). done.
Qed.

(** *** Deletion *)

Lemma erase_at_spec hm k d s :
  wf hm -> 0 <= d < capacity_ hm ->
  slots_ hm !! Z.to_nat (pidx hm k d) = Some s -> state s = Occupied -> key s = k ->
  let hm' := erase_at hm (pidx hm k d) in
  wf hm' /\ to_map hm' = delete k (to_map hm) /\ size_ hm' = size_ hm - 1.
Proof.
  intros Hwf Hd Hs Ho Hk hm'. pose proof (wf_cap_range _ Hwf) as Hcap.
  pose proof (wf_len _ Hwf) as Hwl.
  set (l' := <[Z.to_nat (pidx hm k d) := MkSlot Tombstone key_default default_init]> (slots_ hm)).
  assert (countZ occupied l' = size_ hm - 1) as Hocc.
  { unfold l'. rewrite (countZ_insert _ _ _ _ _ Hs), (wf_size _ Hwf).
    unfold occupied at 2 3. rewrite bool_decide_true by done. simpl. lia. }
  assert (countZ is_tombstone l' = tombstones_ hm + 1) as Htomb.
  { unfold l'. rewrite (countZ_insert _ _ _ _ _ Hs), (wf_tombs _ Hwf).
    unfold is_tombstone at 2 3. rewrite bool_decide_false by congruence. simpl. lia. }
  assert (length l' = length (slots_ hm)) as Hlen by (unfold l'; by rewrite length_insert).
  pose proof (countZ_range occupied l'). pose proof (countZ_range is_tombstone l').
  pose proof (countZ_range is_tombstone (slots_ hm)). pose proof (wf_tombs _ Hwf).
  pose proof (countZ_range occupied (slots_ hm)). pose proof (wf_size _ Hwf).
  assert (wf hm') as Hwf'.
  { split; cbn [hm' erase_at capacity_ mask_ slots_ size_ tombstones_]; fold l';
      [apply Hwf|apply Hwf|lia| | | |].
    - apply uniq_update; [apply Hwf|done].
    - change (reachable hm l'). by apply reachable_update; [apply Hwf|..].
    - rewrite Hocc. apply u64_small. lia.
    - rewrite Htomb. apply u64_small. lia. }
  split; [done|]. split; [|cbn; apply u64_small; lia].
  apply map_eq. intros k'. apply option_eq. intros w.
  rewrite lookup_to_map by done. cbn [hm' erase_at slots_]. rewrite lookup_delete.
  setoid_rewrite list_lookup_insert_Some. case_decide as Hk'.
  - subst k'. split; [|done].
    intros (i & s0 & [(_ & <- & _)|[Hne Hi]] & Ho' & Hk' & _); [done|]. exfalso. apply Hne.
    eapply (wf_uniq _ Hwf); eauto. congruence.
  - rewrite lookup_to_map by done. split.
    + intros (i & s0 & [(_ & <- & _)|[_ Hi]] & Ho' & Hk2 & <-); [done|]. by exists i, s0.
    + intros (i & s0 & Hi & Ho' & Hk2 & <-). exists i, s0. split; [|done].
      right. split; [|done]. intros <-. naive_solver.
Qed.

Lemma erase_present hm k v :
  wf hm -> to_map hm !! k = Some v ->
  exists hm', erase hm k = Some (hm', true) /\ wf hm' /\
    to_map hm' = delete k (to_map hm) /\ size_ hm' = size_ hm - 1 /\
    capacity_ hm' = capacity_ hm.
Proof.
  intros Hwf (d & s & Hd & Hs & Ho & Hk & _)%present_slot; [|done].
  pose proof (wf_cap_range _ Hwf).
  exists (erase_at hm (pidx hm k d)).
  destruct (erase_at_spec hm k d s) as (? & ? & ?); [done..|]. split; [|done].
  unfold erase. rewrite <- pidx_0 by done.
  assert (forall n j, 0 <= j <= d -> Z.of_nat n = capacity_ hm - j ->
    erase_loop hm k (pidx hm k j) n = Some (erase_at hm (pidx hm k d), true))
    as Hloop; [|apply Hloop; lia].
  induction n as [|n IH]; intros j Hj Hn; [lia|].
  cbn [erase_loop]. destruct (slot_at hm k j Hwf) as [s' Hs']. rewrite Hs'.
  cbn [mbind option_bind]. rewrite next_pidx by done.
  destruct (decide (j = d)) as [->|Hne].
  { simplify_eq. rewrite Ho. by rewrite decide_True. }
  assert (state s' <> Empty) by (eapply (wf_reach _ Hwf k d s Hd Hs Ho Hk j); [lia|done]).
  destruct (state s') eqn:Es; [done| |apply IH; lia].
  destruct (decide (key s' = k)) as [Hk'|]; [|apply IH; lia].
  assert (Z.to_nat (pidx hm k j) = Z.to_nat (pidx hm k d)) as Heq.
  { eapply (wf_uniq _ Hwf); eauto. congruence. }
  pose proof (pidx_range hm k j Hwf). pose proof (pidx_range hm k d Hwf).
  apply Z2Nat.inj in Heq; [|lia..]. apply pidx_inj in Heq; [lia|done|lia|lia].
Qed.

Lemma erase_absent hm k :
  wf hm -> to_map hm !! k = None -> erase hm k = Some (hm, false).
Proof.
  intros Hwf Ha. rewrite lookup_to_map_None in Ha by done.
  unfold erase. rewrite <- pidx_0 by done. generalize 0.
  induction (Z.to_nat (capacity_ hm)) as [|n IH]; intros j; [done|].
  cbn [erase_loop]. destruct (slot_at hm k j Hwf) as [s' Hs']. rewrite Hs'.
  cbn [mbind option_bind]. rewrite next_pidx by done.
  destruct (state s') eqn:Es; [done| |apply IH].
  rewrite decide_False; [apply IH|]. by eapply Ha.
Qed.

(** A move hands over the whole map; every access to the source is a null
    dereference from then on, although it still reports its old size. *)
Lemma move_construct_spec hm k v :
  wf hm ->
  let '(target, source) := move_construct hm in
  wf target /\ to_map target = to_map hm /\ size source = size hm /\
  find source k = None /\ insert source k v = None /\ erase source k = None.
Proof.
  intros Hwf. cbn. split_and!; [done..| | |];
    (unfold find, insert, erase, moved_from; cbn [capacity_]; pose proof (wf_cap_range hm Hwf);
     destruct (Z.to_nat (capacity_ hm)) eqn:E; [lia|done]).
Qed.

End invariant.

End OAMap.
