(* ===== verification/IntrusiveList.v ===== *)
(** * containers/intrusive_list.hpp: the intrusive doubly-linked list

    The list owns no nodes: it links nodes that live in some store.  [NodeStore]
    is the interface of such a store (the memory the node pointers point into)
    and [IntrusiveListNode] the C++ concept of the same name; the list is
    generic over both, and the order pool is the store the order book uses it
    with.  [IList.is_list] says that a header and a store represent a sequence
    of node addresses; every operation is specified on that sequence, together
    with what it leaves untouched ([IList.frame]). *)

From S2P Require Import Prelude.

Local Open Scope Z_scope.

(** A memory of nodes, addressed by pointer. *)
Class NodeStore (H T : Type) := {
  load : H -> nat -> option T;
  store : H -> nat -> T -> H;
  load_store_eq h p x y : load h p = Some y -> load (store h p x) p = Some x;
  load_store_ne h p q x : p <> q -> load (store h p x) q = load h q
}.

(** [concept IntrusiveListNode]: [T] has assignable members [prev] and [next]. *)
Class IntrusiveListNode (T : Type) := {
  prev : T -> ptr;
  next : T -> ptr;
  set_prev : ptr -> T -> T;
  set_next : ptr -> T -> T;
  prev_set_prev p n : prev (set_prev p n) = p;
  next_set_next p n : next (set_next p n) = p;
  next_set_prev p n : next (set_prev p n) = next n;
  prev_set_next p n : prev (set_next p n) = prev n;
  set_prev_prev p q n : set_prev p (set_prev q n) = set_prev p n;
  set_next_next p q n : set_next p (set_next q n) = set_next p n;
  set_prev_next p q n : set_prev p (set_next q n) = set_next q (set_prev p n);
  set_prev_id n : set_prev (prev n) n = n;
  set_next_id n : set_next (next n) n = n
}.

(** [*p = f( *p )]. *)
Definition modify {H T} `{NodeStore H T} (h : H) (p : nat) (f : T -> T) : ub H :=
  n ← load h p; Some (store h p (f n)).

Lemma modify_eq {H T} `{NodeStore H T} h p n (f : T -> T) :
  load h p = Some n -> modify h p f = Some (store h p (f n)).
Proof. intros Hl. unfold modify. by rewrite Hl. Qed.

Module IList.

Record t := MkList { head_ : ptr; tail_ : ptr; size_ : Z }.

Definition empty_list : t := MkList None None 0.

Section ops.
Context {H T : Type} `{NodeStore H T} `{!IntrusiveListNode T}.

Definition push_back (h : H) (l : t) (node : nat) : ub (H * t) :=
  h ← modify h node (set_prev (tail_ l));
  h ← modify h node (set_next None);
  '(h, new_head) ←
    match tail_ l with
    | Some tl => h ← modify h tl (set_next (Some node)); Some (h, head_ l)
    | None => Some (h, Some node)
    end;
  Some (h, MkList new_head (Some node) (size_ l +u64 1)).

Definition push_front (h : H) (l : t) (node : nat) : ub (H * t) :=
  h ← modify h node (set_next (head_ l));
  h ← modify h node (set_prev None);
  '(h, new_tail) ←
    match head_ l with
    | Some hd => h ← modify h hd (set_prev (Some node)); Some (h, tail_ l)
    | None => Some (h, Some node)
    end;
  Some (h, MkList (Some node) new_tail (size_ l +u64 1)).

Definition remove (h : H) (l : t) (node : nat) : ub (H * t) :=
  n ← load h node;
  '(h, new_head) ←
    match prev n with
    | Some p => h ← modify h p (set_next (next n)); Some (h, head_ l)
    | None => Some (h, next n)
    end;
  n ← load h node;
  '(h, new_tail) ←
    match next n with
    | Some q => h ← modify h q (set_prev (prev n)); Some (h, tail_ l)
    | None => Some (h, prev n)
    end;
  h ← modify h node (set_prev None);
  h ← modify h node (set_next None);
  Some (h, MkList new_head new_tail (size_ l -u64 1)).

Definition front (l : t) : ptr := head_ l.
Definition back (l : t) : ptr := tail_ l.
Definition is_empty (l : t) : bool := match head_ l with None => true | Some _ => false end.
Definition size (l : t) : Z := size_ l.

(** An iterator is a node pointer; [begin] is the head, [end] is [nullptr]. *)
Definition iter_begin (l : t) : ptr := head_ l.
Definition iter_end (l : t) : ptr := None.
Definition iter_next (h : H) (node : nat) : ub ptr := n ← load h node; Some (next n).

(** The addresses a range-for loop visits, starting from an iterator. *)
Fixpoint traverse (fuel : nat) (h : H) (it : ptr) : ub (list nat) :=
  match it with
  | None => Some []
  | Some node =>
      match fuel with
      | O => None
      | S fuel =>
          it' ← iter_next h node;
          rest ← traverse fuel h it';
          Some (node :: rest)
      end
  end.
End ops.

(** ** Representation *)
Section representation.
Context {H T : Type} `{NodeStore H T} `{!IntrusiveListNode T}.
Implicit Types (h : H) (n : T) (ids : list nat) (p q : ptr).

Definition hd_or ids q : ptr := match ids with [] => q | i :: _ => Some i end.
Fixpoint last_or p ids : ptr := match ids with [] => p | i :: r => last_or (Some i) r end.

(** A doubly-linked segment through [ids], entered from [p], leaving to [q]. *)
Fixpoint dlseg h p ids q : Prop :=
  match ids with
  | [] => True
  | i :: r => exists n, load h i = Some n /\ prev n = p /\ next n = hd_or r q /\
                dlseg h (Some i) r q
  end.

Record is_list h (l : t) ids : Prop := {
  il_head : head_ l = hd_or ids None;
  il_tail : tail_ l = last_or None ids;
  il_size : size_ l = u64 (Z.of_nat (length ids));
  il_nodup : NoDup ids;
  il_seg : dlseg h None ids None
}.

(** Nodes that differ at most in their links. *)
Definition links_only n n' : Prop := exists p q, n' = set_next q (set_prev p n).

(** Outside [ids] nothing changes; everywhere only links change. *)
Record frame h h' ids : Prop := {
  fr_same : forall i, i ∉ ids -> load h' i = load h i;
  fr_none : forall i, load h i = None -> load h' i = None;
  fr_links : forall i n, load h i = Some n -> exists n', load h' i = Some n' /\ links_only n n'
}.

Lemma links_only_refl n : links_only n n.
Proof. exists (prev n), (next n). by rewrite set_prev_id, set_next_id. Qed.

Lemma links_only_set_prev n n' p : links_only n n' -> links_only n (set_prev p n').
Proof. intros (a & b & ->). exists p, b. by rewrite set_prev_next, set_prev_prev. Qed.

Lemma links_only_set_next n n' q : links_only n n' -> links_only n (set_next q n').
Proof. intros (a & b & ->). exists a, q. by rewrite set_next_next. Qed.

Lemma hd_or_app l1 l2 q : hd_or (l1 ++ l2) q = hd_or l1 (hd_or l2 q).
Proof. by destruct l1. Qed.

Lemma last_or_app l1 l2 p : last_or p (l1 ++ l2) = last_or (last_or p l1) l2.
Proof. revert p. induction l1 as [|i r IH]; intros p; [done|]. apply IH. Qed.

Lemma last_or_cons p i r : last_or p (i :: r) = last_or (Some i) r.
Proof. done. Qed.

Lemma dlseg_app h p l1 l2 q :
  dlseg h p (l1 ++ l2) q <->
  dlseg h p l1 (hd_or l2 q) /\ dlseg h (last_or p l1) l2 q.
Proof.
  revert p. induction l1 as [|i r IH]; intros p; simpl; [naive_solver|].
  setoid_rewrite IH. setoid_rewrite hd_or_app. naive_solver.
Qed.

Lemma dlseg_same h h' p ids q :
  (forall i, i ∈ ids -> load h' i = load h i) -> dlseg h p ids q -> dlseg h' p ids q.
Proof.
  revert p. induction ids as [|i r IH]; intros p Hs; simpl; [done|].
  intros (n & Hl & Hp & Hn & Hr). exists n. rewrite Hs by set_solver.
  split_and!; try done. apply IH; [|done]. intros; apply Hs; set_solver.
Qed.

Lemma is_list_same h h' l ids :
  (forall i, i ∈ ids -> load h' i = load h i) -> is_list h l ids -> is_list h' l ids.
Proof. intros Hs []. split; try done. by eapply dlseg_same. Qed.

(** Payload updates do not disturb a list. *)
Lemma dlseg_links h h' p ids q :
  (forall i n, i ∈ ids -> load h i = Some n ->
     exists n', load h' i = Some n' /\ prev n' = prev n /\ next n' = next n) ->
  dlseg h p ids q -> dlseg h' p ids q.
Proof.
  revert p. induction ids as [|i r IH]; intros p Hs; simpl; [done|].
  intros (n & Hl & Hp & Hn & Hr). destruct (Hs i n) as (n' & Hl' & Hp' & Hn'); [left|done|].
  exists n'. split_and!; [done|congruence|congruence|]. apply IH; [|done].
  intros j m Hj. apply Hs. by right.
Qed.

Lemma is_list_links h h' l ids :
  (forall i n, i ∈ ids -> load h i = Some n ->
     exists n', load h' i = Some n' /\ prev n' = prev n /\ next n' = next n) ->
  is_list h l ids -> is_list h' l ids.
Proof. intros Hs []. split; try done. by eapply dlseg_links. Qed.

Lemma is_list_frame h h' l ids touched :
  frame h h' touched -> (forall i, i ∈ ids -> i ∉ touched) ->
  is_list h l ids -> is_list h' l ids.
Proof. intros Hf Hd. apply is_list_same. intros i Hi. apply Hf. by apply Hd. Qed.

Lemma is_list_empty h : is_list h empty_list [].
Proof. split; try done. constructor. Qed.

(** Updating one existing node changes only that node. *)
Lemma load_modify h i n x j :
  load h i = Some n -> load (store h i x) j = if decide (i = j) then Some x else load h j.
Proof.
  intros Hi. case_decide as Hd; [subst; by eapply load_store_eq|by apply load_store_ne].
Qed.

Lemma frame_refl h ids : frame h h ids.
Proof. split; [done|done|]. intros i n Hi. exists n. split; [done|apply links_only_refl]. Qed.

Lemma frame_store h h' ids i n n' :
  frame h h' ids -> i ∈ ids -> load h' i = Some n ->
  (forall n0, links_only n0 n -> links_only n0 n') ->
  frame h (store h' i n') ids.
Proof.
  intros [Hs Hn Hl] Hi Hld Hlo. split.
  - intros j Hj. rewrite (load_modify _ _ _ _ _ Hld). case_decide; [set_solver|by apply Hs].
  - intros j Hj. rewrite (load_modify _ _ _ _ _ Hld). case_decide as Hd; [|by apply Hn].
    subst j. apply Hn in Hj. congruence.
  - intros j m Hj. rewrite (load_modify _ _ _ _ _ Hld). destruct (Hl j m Hj) as (m' & Hm' & Hlm).
    case_decide as Hd; [|by exists m']. subst j. simplify_eq. eauto.
Qed.

(** *** One store update *)

Lemma modify_spec h i n (f : T -> T) :
  load h i = Some n ->
  exists h', modify h i f = Some h' /\
    forall j, load h' j = if decide (i = j) then Some (f n) else load h j.
Proof.
  intros Hi. exists (store h i (f n)). split; [by apply modify_eq|].
  intros j. by eapply load_modify.
Qed.

Lemma frame_update h h' h'' ids i n (f : T -> T) :
  frame h h' ids -> i ∈ ids -> load h' i = Some n ->
  (forall j, load h'' j = if decide (i = j) then Some (f n) else load h' j) ->
  (forall n0, links_only n0 n -> links_only n0 (f n)) ->
  frame h h'' ids.
Proof.
  intros [Hs Hn Hl] Hi Hld Hup Hlo. split.
  - intros j Hj. rewrite Hup. case_decide; [set_solver|by apply Hs].
  - intros j Hj. rewrite Hup. case_decide as Hd; [|by apply Hn].
    subst j. apply Hn in Hj. congruence.
  - intros j m Hj. rewrite Hup. destruct (Hl j m Hj) as (m' & Hm' & Hlm).
    case_decide as Hd; [|by exists m']. subst j. simplify_eq. eauto.
Qed.
End representation.

(** [upd H] performs the next [modify] of the goal, whose target loads by [H]. *)
Ltac upd Hload :=
  let h' := fresh "h" in let E := fresh "E" in let U := fresh "U" in
  match type of Hload with
  | load ?h ?i = Some _ =>
      match goal with
      | |- context [modify h i ?f] =>
          destruct (modify_spec h i _ f Hload) as (h' & E & U); rewrite E;
          cbn [mbind option_bind]; clear E
      end
  end.

(** Evaluates loads after a chain of updates. *)
Ltac loads :=
  repeat match goal with
  | U : forall j, load ?h' j = _ |- context [load ?h' _] => rewrite U
  end;
  repeat (case_decide; simplify_eq); try done.

Section operations.
Context {H T : Type} `{NodeStore H T} `{!IntrusiveListNode T}.
Implicit Types (h : H) (n : T) (ids : list nat) (p q : ptr).

Hint Resolve frame_refl links_only_set_prev links_only_set_next : liqui.

Lemma push_back_spec h l ids node n :
  is_list h l ids -> load h node = Some n -> node ∉ ids ->
  exists h' l', push_back h l node = Some (h', l') /\
    is_list h' l' (ids ++ [node]) /\ frame h h' (node :: ids).
Proof.
  intros [Hhd Htl Hsz Hnd Hseg] Hn Hni. unfold push_back. rewrite Htl.
  upd Hn. assert (load h0 node = Some (set_prev (last_or None ids) n)) as Hn1 by loads.
  upd Hn1. assert (load h1 node = Some (set_next None (set_prev (last_or None ids) n)))
    as Hn2 by loads.
  assert (frame h h1 (node :: ids)) as Hf1.
  { eapply frame_update; [eapply frame_update; [apply frame_refl| | | |]| | | |];
      eauto with liqui; left. }
  assert (NoDup (ids ++ [node])) as Hnd'.
  { apply NoDup_app. split_and!; [done|set_solver|]. apply NoDup_singleton. }
  destruct ids as [|x l0 _] using rev_ind; cbn [last_or mbind option_bind].
  - do 2 eexists. split; [reflexivity|]. split; [|done].
    split; cbn [head_ tail_ size_]; try done; [rewrite Hsz; by rewrite u64_add_l|].
    exists (set_next None (set_prev None n)). split_and!; try done.
    + by rewrite prev_set_next, prev_set_prev.
    + by rewrite next_set_next.
  - rewrite last_or_app in *. cbn [last_or] in *. apply dlseg_app in Hseg as [Hseg (m & Hm & Hmp & Hmn & _)].
    apply NoDup_app in Hnd as (Hnd & Hx & _).
    assert (x <> node) by set_solver. assert (x ∉ l0) by set_solver.
    assert (load h1 x = Some m) as Hx1 by loads. upd Hx1.
    do 2 eexists. split; [reflexivity|]. split.
    + split; cbn [head_ tail_ size_].
      * rewrite Hhd. by destruct l0.
      * by rewrite !last_or_app.
      * rewrite Hsz, !length_app. cbn. rewrite u64_add_l. f_equal. lia.
      * done.
      * rewrite <- app_assoc. apply dlseg_app. split.
        { eapply dlseg_same; [|exact Hseg]. intros i Hi. loads; set_solver. }
        exists (set_next (Some node) m). split_and!; [by loads|by rewrite prev_set_next| |].
        { by rewrite next_set_next. }
        exists (set_next None (set_prev (Some x) n)). split_and!; [by loads| | |done].
        { by rewrite prev_set_next, prev_set_prev. }
        { by rewrite next_set_next. }
    + eapply frame_update; [exact Hf1| | | |]; eauto with liqui. set_solver.
Qed.

Lemma push_front_spec h l ids node n :
  is_list h l ids -> load h node = Some n -> node ∉ ids ->
  exists h' l', push_front h l node = Some (h', l') /\
    is_list h' l' (node :: ids) /\ frame h h' (node :: ids).
Proof.
  intros [Hhd Htl Hsz Hnd Hseg] Hn Hni. unfold push_front. rewrite Hhd.
  upd Hn. assert (load h0 node = Some (set_next (hd_or ids None) n)) as Hn1 by loads.
  upd Hn1. assert (load h1 node = Some (set_prev None (set_next (hd_or ids None) n)))
    as Hn2 by loads.
  assert (frame h h1 (node :: ids)) as Hf1.
  { eapply frame_update; [eapply frame_update; [apply frame_refl| | | |]| | | |];
      eauto with liqui; left. }
  assert (NoDup (node :: ids)) as Hnd' by (by constructor).
  destruct ids as [|x l0]; cbn [hd_or mbind option_bind].
  - do 2 eexists. split; [reflexivity|]. split; [|done].
    split; cbn [head_ tail_ size_]; try done; [rewrite Hsz; by rewrite u64_add_l|].
    exists (set_prev None (set_next None n)). split_and!; try done.
    + by rewrite prev_set_prev.
    + by rewrite next_set_prev, next_set_next.
  - destruct Hseg as (m & Hm & Hmp & Hmn & Hseg). cbn [hd_or] in *.
    apply NoDup_cons in Hnd as (Hx & Hnd).
    assert (node <> x) by set_solver.
    assert (load h1 x = Some m) as Hx1 by loads. upd Hx1.
    do 2 eexists. split; [reflexivity|]. split.
    + split; cbn [head_ tail_ size_]; try done.
      * rewrite Hsz. cbn [length]. rewrite u64_add_l. f_equal. lia.
      * exists (set_prev None (set_next (Some x) n)). split_and!; [by loads| | |].
        { by rewrite prev_set_prev. }
        { by rewrite next_set_prev, next_set_next. }
        exists (set_prev (Some node) m). split_and!; [by loads|by rewrite prev_set_prev| |].
        { by rewrite next_set_prev. }
        eapply dlseg_same; [|exact Hseg]. intros i Hi. loads; set_solver.
    + eapply frame_update; [exact Hf1| | | |]; eauto with liqui. set_solver.
Qed.

(** The two splices of [remove]: the predecessor's [next] ... *)
Lemma splice_next h l1 node l2 n new :
  NoDup (l1 ++ node :: l2) -> dlseg h None l1 (Some node) -> load h node = Some n ->
  prev n = last_or None l1 ->
  exists h' hd, (match prev n with
     | Some p => h ← modify h p (set_next new); Some (h, hd_or (l1 ++ node :: l2) None)
     | None => Some (h, new)
     end) = Some (h', hd) /\ hd = hd_or l1 new /\
    dlseg h' None l1 new /\ (forall i, i ∉ l1 -> load h' i = load h i) /\
    frame h h' (l1 ++ node :: l2).
Proof.
  intros Hnd Hseg Hn ->. destruct l1 as [|x l0 _] using rev_ind; cbn [last_or].
  { exists h, new. split_and!; try done. apply frame_refl. }
  rewrite last_or_app. cbn [last_or].
  apply dlseg_app in Hseg as [Hseg (m & Hm & Hmp & Hmn & _)]. upd Hm.
  apply NoDup_app in Hnd as (Hnd & Hx & _).
  apply NoDup_app in Hnd as (_ & Hx' & _).
  exists h0, (hd_or (l0 ++ [x]) None). split_and!.
  - by destruct l0.
  - by destruct l0.
  - apply dlseg_app. split.
    + eapply dlseg_same; [|exact Hseg]. intros i Hi. loads; set_solver.
    + exists (set_next new m). split_and!; [by loads|by rewrite prev_set_next| |done].
      by rewrite next_set_next.
  - intros i Hi. loads; set_solver.
  - eapply frame_update; [apply frame_refl| |exact Hm|exact U|]; eauto with liqui; set_solver.
Qed.

(** ... and the successor's [prev]. *)
Lemma splice_prev h l1 node l2 n new :
  NoDup (l1 ++ node :: l2) -> dlseg h (Some node) l2 None -> load h node = Some n ->
  next n = hd_or l2 None ->
  exists h' tl, (match next n with
     | Some q => h ← modify h q (set_prev new); Some (h, last_or None (l1 ++ node :: l2))
     | None => Some (h, new)
     end) = Some (h', tl) /\ tl = last_or new l2 /\
    dlseg h' new l2 None /\ (forall i, i ∉ l2 -> load h' i = load h i) /\
    frame h h' (l1 ++ node :: l2).
Proof.
  intros Hnd Hseg Hn ->. destruct l2 as [|x l0]; cbn [hd_or].
  { exists h, new. split_and!; try done. apply frame_refl. }
  destruct Hseg as (m & Hm & Hmp & Hmn & Hseg). upd Hm.
  apply NoDup_app in Hnd as (_ & _ & (_ & (Hx & _)%NoDup_cons)%NoDup_cons).
  exists h0, (last_or (Some x) l0). split_and!.
  - by rewrite last_or_app.
  - done.
  - exists (set_prev new m). split_and!; [by loads|by rewrite prev_set_prev| |].
    + by rewrite next_set_prev.
    + eapply dlseg_same; [|exact Hseg]. intros i Hi. loads; set_solver.
  - intros i Hi. loads; set_solver.
  - eapply frame_update; [apply frame_refl| |exact Hm|exact U|]; eauto with liqui; set_solver.
Qed.

Lemma frame_trans h1 h2 h3 ids : frame h1 h2 ids -> frame h2 h3 ids -> frame h1 h3 ids.
Proof.
  intros [Hs Hn Hl] [Hs' Hn' Hl']. split.
  - intros i Hi. by rewrite Hs', Hs.
  - eauto.
  - intros i n Hi. destruct (Hl i n Hi) as (n1 & Hn1 & (a & b & ->)).
    destruct (Hl' _ _ Hn1) as (n2 & Hn2 & (a' & b' & ->)). eexists. split; [done|].
    exists a', b'. by rewrite set_prev_next, set_next_next, set_prev_prev.
Qed.

Lemma remove_spec h l l1 node l2 :
  is_list h l (l1 ++ node :: l2) ->
  exists h' l', remove h l node = Some (h', l') /\
    is_list h' l' (l1 ++ l2) /\ frame h h' (l1 ++ node :: l2).
Proof.
  intros [Hhd Htl Hsz Hnd Hseg].
  apply dlseg_app in Hseg as [Hs1 (n & Hn & Hnp & Hnn & Hs2)]. cbn [hd_or] in Hs1.
  unfold remove. rewrite Hn. cbn [mbind option_bind]. rewrite Hhd.
  destruct (splice_next h l1 node l2 n (next n)) as (h1 & hd & -> & -> & Hs1' & Hl1 & Hf1);
    [done..|]. cbn [mbind option_bind].
  pose proof Hnd as (Hnd1 & Hni1 & (Hni2 & Hnd2)%NoDup_cons)%NoDup_app.
  assert (node ∉ l1) as Hn1 by set_solver.
  assert (load h1 node = Some n) as Hn1' by (by rewrite Hl1).
  rewrite Hn1'. cbn [mbind option_bind]. rewrite Htl.
  assert (dlseg h1 (Some node) l2 None) as Hs2'.
  { eapply dlseg_same; [|exact Hs2]. intros i Hi. apply Hl1. set_solver. }
  destruct (splice_prev h1 l1 node l2 n (prev n)) as (h2 & tl & -> & -> & Hs2'' & Hl2 & Hf2);
    [done..|]. cbn [mbind option_bind].
  assert (load h2 node = Some n) as Hn2 by (by rewrite Hl2).
  upd Hn2. assert (load h0 node = Some (set_prev None n)) as Hn3 by loads. upd Hn3.
  do 2 eexists. split; [reflexivity|]. split.
  - split; cbn [head_ tail_ size_].
    + by rewrite Hnn, hd_or_app.
    + by rewrite Hnp, last_or_app.
    + rewrite Hsz, u64_sub_l, !length_app. f_equal. cbn. lia.
    + apply NoDup_app. split_and!; [done|set_solver|done].
    + rewrite Hnp, Hnn in *. apply dlseg_app. split.
      * eapply dlseg_same; [|exact Hs1']. intros i Hi. loads; apply Hl2; set_solver.
      * eapply dlseg_same; [|exact Hs2'']. intros i Hi. loads.
  - eapply frame_trans; [exact Hf1|]. eapply frame_trans; [exact Hf2|].
    eapply (frame_update h2 h0 h3); [eapply (frame_update h2 h2 h0)| |exact Hn3|exact U0|];
      [apply frame_refl| |exact Hn2|exact U|..]; eauto with liqui; set_solver.
Qed.

Lemma traverse_seg fuel h p ids :
  dlseg h p ids None -> (length ids <= fuel)%nat -> traverse fuel h (hd_or ids None) = Some ids.
Proof.
  revert fuel p. induction ids as [|i r IH]; intros fuel p Hseg Hle; [by destruct fuel|].
  destruct fuel as [|fuel]; cbn [length] in Hle; [lia|].
  destruct Hseg as (n & Hn & _ & Hnn & Hseg). cbn [traverse hd_or].
  unfold iter_next. rewrite Hn. cbn [mbind option_bind]. rewrite Hnn, (IH fuel (Some i)); [done..|lia].
Qed.

Lemma traverse_spec h l ids :
  is_list h l ids -> traverse (length ids) h (iter_begin l) = Some ids.
Proof. intros [Hhd _ _ _ Hseg]. unfold iter_begin. rewrite Hhd. by eapply traverse_seg. Qed.

Lemma is_empty_spec h l ids :
  is_list h l ids -> is_empty l = true <-> ids = [].
Proof. intros [Hhd _ _ _ _]. unfold is_empty. rewrite Hhd. by destruct ids. Qed.
End operations.

End IList.
