(* ===== verification/ObjectPool.v ===== *)
(** * containers/object_pool.hpp: the fixed-capacity object pool

    [ObjectPool<T>]: one buffer of union slots, a free list threaded through the
    unused slots.  A slot pointer is its index in the buffer.  [Pool.wf] says that
    the free list starting at [free_head_] visits exactly the free slots, each
    once; [acquire] and [release] are specified on that list.  The pool is the
    [NodeStore] in which the order book's intrusive lists live. *)

From S2P Require Import Prelude IntrusiveList.

Local Open Scope Z_scope.

Module Pool.

(** [union Slot]: reading the member that is not active is undefined. *)
Inductive Slot (T : Type) := Value (v : T) | NextFree (next_free : Z).
Arguments Value {T} _.
Arguments NextFree {T} _.

Record t (T : Type) := MkPool {
  slots_ : list (Slot T);
  capacity_ : Z;
  free_head_ : Z;
  size_ : Z
}.
Arguments MkPool {T} _ _ _ _.
Arguments slots_ {T} _.
Arguments capacity_ {T} _.
Arguments free_head_ {T} _.
Arguments size_ {T} _.

Section ops.
Context {T : Type}.
Implicit Types (p : t T).

(** The constructor: every slot starts as [next_free(0)]; the loop then links
    slot [i] to [i + 1], and the last slot ends the list. *)
Definition link_slots (capacity : Z) (slots : list (Slot T)) : list (Slot T) :=
  foldl (fun s i => <[i := NextFree (Z.of_nat i + 1)]> s) slots
    (seq 0 (Z.to_nat (capacity - 1))).

Definition make (capacity : Z) : t T :=
  let slots := link_slots capacity (replicate (Z.to_nat capacity) (NextFree 0)) in
  let slots := if 0 <? capacity then <[Z.to_nat (capacity - 1) := NextFree kNone]> slots
               else slots in
  MkPool slots capacity (if 0 <? capacity then 0 else kNone) 0.

(** [acquire(args...)]; [v] is the value the placement-new constructs. *)
Definition acquire p (v : T) : ub (t T * ptr) :=
  if free_head_ p =? kNone then Some (p, None)
  else
    let index := Z.to_nat (free_head_ p) in
    slot ← slots_ p !! index;
    match slot with
    | NextFree next_free =>
        Some (MkPool (<[index := Value v]> (slots_ p)) (capacity_ p) next_free
                (size_ p +u64 1), Some index)
    | Value _ => None
    end.

Definition release p (index : nat) : ub (t T) :=
  slot ← slots_ p !! index;
  match slot with
  | Value _ =>
      Some (MkPool (<[index := NextFree (free_head_ p)]> (slots_ p)) (capacity_ p)
              (Z.of_nat index) (size_ p -u64 1))
  | NextFree _ => None
  end.

(** The defaulted moves: the slots change hands, the other members are copied, and the
    source keeps them without slots.  The new object and the source. *)
Definition moved_from p : t T := MkPool [] (capacity_ p) (free_head_ p) (size_ p).
Definition move_construct (source : t T) : t T * t T := (source, moved_from source).
Definition move_assign (target source : t T) : t T * t T := (source, moved_from source).

Definition size p : Z := size_ p.
Definition capacity p : Z := capacity_ p.
Definition empty p : bool := size_ p =? 0.
Definition full p : bool := size_ p =? capacity_ p.

(** Access through a [T*] obtained from [acquire]. *)
Definition load_slot p (index : nat) : option T :=
  match slots_ p !! index with Some (Value v) => Some v | _ => None end.
Definition store_slot p (index : nat) (v : T) : t T :=
  MkPool (<[index := Value v]> (slots_ p)) (capacity_ p) (free_head_ p) (size_ p).
End ops.

#[global] Program Instance pool_store (T : Type) : NodeStore (t T) T :=
  {| load := load_slot; store := store_slot |}.
Next Obligation.
  intros T p i x y Hl. unfold load_slot, store_slot in *. cbn [slots_].
  destruct (slots_ p !! i) eqn:Hi; [|done]. apply lookup_lt_Some in Hi.
  by rewrite list_lookup_insert_eq.
Qed.
Next Obligation.
  intros T p i j x Hij. unfold load_slot, store_slot. cbn [slots_].
  by rewrite list_lookup_insert_ne.
Qed.

(** ** Representation invariant *)
Section invariant.
Context {T : Type}.
Implicit Types (p : t T).

Definition is_live (s : Slot T) : bool := match s with Value _ => true | _ => false end.

(** The free list from [head] visits [free] and ends at [kNone]. *)
Fixpoint chain (slots : list (Slot T)) (head : Z) (free : list nat) : Prop :=
  match free with
  | [] => head = kNone
  | i :: r => head = Z.of_nat i /\
      exists n, slots !! i = Some (NextFree n) /\ chain slots n r
  end.

Record wf p (free : list nat) : Prop := {
  wf_len : Z.of_nat (length (slots_ p)) = capacity_ p;
  wf_cap : 0 <= capacity_ p < 2 ^ 64;
  wf_chain : chain (slots_ p) (free_head_ p) free;
  wf_nodup : NoDup free;
  wf_free : forall i, i ∈ free <-> exists n, slots_ p !! i = Some (NextFree n);
  wf_size : size_ p = countZ is_live (slots_ p);
  wf_count : size_ p = capacity_ p - Z.of_nat (length free)
}.

Lemma chain_same slots slots' head free :
  (forall i, i ∈ free -> slots' !! i = slots !! i) ->
  chain slots head free -> chain slots' head free.
Proof.
  revert head. induction free as [|i r IH]; intros head Hs; [done|].
  intros (-> & n & Hi & Hc). split; [done|]. exists n. rewrite Hs by set_solver.
  split; [done|]. apply IH; [|done]. intros; apply Hs; set_solver.
Qed.

Lemma load_live p i v : load p i = Some v <-> slots_ p !! i = Some (Value v).
Proof. cbn. unfold load_slot. destruct (slots_ p !! i) as [[]|]; naive_solver. Qed.

Lemma free_not_live p free i : wf p free -> i ∈ free -> load p i = None.
Proof.
  intros Hwf Hi. apply (wf_free _ _ Hwf) in Hi as [n Hn]. cbn. unfold load_slot. by rewrite Hn.
Qed.

Lemma live_not_free p free i v : wf p free -> load p i = Some v -> i ∉ free.
Proof. intros Hwf Hl Hi. apply (free_not_live _ _ _ Hwf) in Hi. congruence. Qed.

(** *** Construction *)

Lemma link_slots_lookup capacity (slots : list (Slot T)) i :
  length slots = Z.to_nat capacity ->
  link_slots capacity slots !! i =
    if decide (i < Z.to_nat (capacity - 1))%nat then Some (NextFree (Z.of_nat i + 1))
    else slots !! i.
Proof.
  intros Hlen. unfold link_slots.
  assert (Z.to_nat (capacity - 1) <= length slots)%nat as Hle by lia. clear Hlen.
  revert Hle. generalize (Z.to_nat (capacity - 1)) as m. clear capacity.
  induction m as [|m IH]; intros Hle; [done|].
  rewrite seq_S, foldl_app. cbn [foldl Nat.add].
  set (l := foldl _ _ _) in *.
  assert (length l = length slots) as Hll.
  { unfold l. clear. generalize (seq 0 m). intros k. revert slots.
    induction k as [|x k IH]; intros slots; [done|]. cbn. rewrite IH. apply length_insert. }
  destruct (decide (i = m)) as [->|Hne].
  - rewrite list_lookup_insert_eq by lia. by rewrite decide_True by lia.
  - rewrite list_lookup_insert_ne by done. rewrite IH by lia.
    repeat case_decide; try lia; done.
Qed.

Lemma length_link_slots capacity (slots : list (Slot T)) : length (link_slots capacity slots) = length slots.
Proof.
  unfold link_slots. generalize (seq 0 (Z.to_nat (capacity - 1))). intros k. revert slots.
  induction k as [|x k IH]; intros slots; [done|]. cbn. rewrite IH. apply length_insert.
Qed.

Lemma chain_seq (slots : list (Slot T)) i m :
  (forall j, (i <= j < i + m)%nat ->
     slots !! j = Some (NextFree (if decide (j = i + m - 1)%nat then kNone else Z.of_nat j + 1))) ->
  (0 < m)%nat -> chain slots (Z.of_nat i) (seq i m).
Proof.
  revert i. induction m as [|m IH]; intros i Hs Hm; [lia|].
  cbn [seq chain]. split; [done|]. eexists. split; [apply Hs; lia|].
  destruct m as [|m]; [rewrite decide_True by lia; done|].
  rewrite decide_False by lia. replace (Z.of_nat i + 1) with (Z.of_nat (S i)) by lia.
  apply IH; [|lia]. intros j Hj. rewrite Hs by lia. do 2 f_equal.
  repeat case_decide; lia || done.
Qed.

Lemma make_pool_wf capacity :
  0 <= capacity < 2 ^ 64 -> wf (make capacity) (seq 0 (Z.to_nat capacity)).
Proof.
  intros Hc. unfold make. set (l0 := link_slots _ _).
  assert (length l0 = Z.to_nat capacity) as Hl0.
  { unfold l0. by rewrite length_link_slots, length_replicate. }
  destruct (Z.ltb_spec 0 capacity) as [Hpos|Hneg].
  2:{ assert (capacity = 0) by lia. subst. split; try done.
      - constructor.
      - intros i. split; [set_solver|]. intros [n Hn%lookup_lt_Some]. cbn in Hn. lia. }
  set (l := <[_ := _]> l0).
  assert (forall j, (j < Z.to_nat capacity)%nat -> l !! j = Some (NextFree
     (if decide (j = 0 + Z.to_nat capacity - 1)%nat then kNone else Z.of_nat j + 1))) as Hl.
  { intros j Hj. unfold l. case_decide as Hd.
    - subst. replace (Z.to_nat (capacity - 1)) with (0 + Z.to_nat capacity - 1)%nat by lia.
      apply list_lookup_insert_eq. lia.
    - rewrite list_lookup_insert_ne by lia. unfold l0.
      rewrite link_slots_lookup by apply length_replicate. by rewrite decide_True by lia. }
  assert (length l = Z.to_nat capacity) as Hll by (unfold l; by rewrite length_insert).
  split; cbn [slots_ capacity_ free_head_ size_]; [lia|done| | | | |].
  - apply (chain_seq l 0); [intros; apply Hl|]; lia.
  - apply NoDup_seq.
  - intros i. rewrite elem_of_seq. split.
    + intros Hi. eexists. apply Hl. lia.
    + intros [n Hn%lookup_lt_Some]. lia.
  - symmetry. apply countZ_none. intros s (i & Hi)%list_elem_of_lookup.
    pose proof (lookup_lt_Some _ _ _ Hi). rewrite Hl in Hi by lia. by simplify_eq.
  - rewrite length_seq. lia.
Qed.

(** *** Operations *)

Lemma acquire_empty p v : wf p [] -> acquire p v = Some (p, None).
Proof.
  intros Hwf. unfold acquire. pose proof (wf_chain _ _ Hwf) as ->. by rewrite Z.eqb_refl.
Qed.

Lemma acquire_free p v i r :
  wf p (i :: r) ->
  exists p', acquire p v = Some (p', Some i) /\ wf p' r /\
    load p i = None /\ load p' i = Some v /\
    (forall j, j <> i -> load p' j = load p j) /\ capacity_ p' = capacity_ p.
Proof.
  intros Hwf. pose proof (free_not_live p (i :: r) i Hwf ltac:(left)) as Hnl.
  destruct Hwf as [Hlen Hcap (Hhd & n & Hi & Hch) Hnd Hfr Hsz Hcnt].
  pose proof (lookup_lt_Some _ _ _ Hi) as Hlt.
  unfold acquire. rewrite Hhd, (proj2 (Z.eqb_neq _ _)) by (unfold kNone; lia).
  rewrite Nat2Z.id, Hi. cbn [mbind option_bind].
  apply NoDup_cons in Hnd as [Hir Hnd].
  assert (countZ is_live (<[i:=Value v]> (slots_ p)) = size_ p + 1) as Hc.
  { rewrite (countZ_insert _ _ _ _ _ Hi), <- Hsz. cbn. lia. }
  pose proof (countZ_range is_live (<[i:=Value v]> (slots_ p))) as Hr.
  rewrite length_insert in Hr.
  eexists. split; [reflexivity|]. split; [|split; [done|split; [|split; [|done]]]].
  - split; cbn [slots_ capacity_ free_head_ size_]; try done.
    + by rewrite length_insert.
    + eapply chain_same; [|exact Hch]. intros j Hj.
      apply list_lookup_insert_ne. set_solver.
    + intros j. destruct (decide (j = i)) as [->|Hne].
      * rewrite list_lookup_insert_eq by done. naive_solver.
      * rewrite list_lookup_insert_ne by done. rewrite <- Hfr. set_solver.
    + rewrite Hc. apply u64_small. lia.
    + rewrite u64_small by lia. cbn [length] in Hcnt. lia.
  - apply load_live. cbn [slots_]. by apply list_lookup_insert_eq.
  - intros j Hj. cbn. unfold load_slot. cbn [slots_]. by rewrite list_lookup_insert_ne.
Qed.

Lemma release_spec p free i v :
  wf p free -> load p i = Some v ->
  exists p', release p i = Some p' /\ wf p' (i :: free) /\
    load p' i = None /\ (forall j, j <> i -> load p' j = load p j) /\
    capacity_ p' = capacity_ p.
Proof.
  intros Hwf Hl. pose proof (live_not_free _ _ _ _ Hwf Hl) as Hni.
  apply load_live in Hl as Hi.
  destruct Hwf as [Hlen Hcap Hch Hnd Hfr Hsz Hcnt].
  pose proof (lookup_lt_Some _ _ _ Hi) as Hlt.
  unfold release. rewrite Hi. cbn [mbind option_bind].
  set (l' := <[i:=NextFree (free_head_ p)]> (slots_ p)).
  assert (countZ is_live l' = size_ p - 1) as Hc.
  { unfold l'. rewrite (countZ_insert _ _ _ _ _ Hi), <- Hsz. cbn. lia. }
  pose proof (countZ_range is_live l') as Hr.
  assert (length l' = length (slots_ p)) as Hll by (unfold l'; by rewrite length_insert).
  rewrite Hll in Hr. pose proof (countZ_range is_live (slots_ p)).
  eexists. split; [reflexivity|]. split; [|split; [|split; [|done]]].
  - split; cbn [slots_ capacity_ free_head_ size_]; fold l'; try done; [lia| | | | |].
    + split; [done|]. exists (free_head_ p). unfold l'.
      rewrite list_lookup_insert_eq by done. split; [done|].
      eapply chain_same; [|exact Hch]. intros j Hj. apply list_lookup_insert_ne. set_solver.
    + by constructor.
    + intros j. unfold l'. destruct (decide (j = i)) as [->|Hne].
      * rewrite list_lookup_insert_eq by done. split; [by eexists|left].
      * rewrite list_lookup_insert_ne by done. rewrite <- Hfr. set_solver.
    + rewrite Hc. apply u64_small. lia.
    + rewrite u64_small by lia. cbn [length]. lia.
  - cbn. unfold load_slot. cbn [slots_]. unfold l'. by rewrite list_lookup_insert_eq.
  - intros j Hj. cbn. unfold load_slot. cbn [slots_]. unfold l'. by rewrite list_lookup_insert_ne.
Qed.

(** Writing through a live pointer keeps the pool well formed. *)
Lemma store_wf p free i v w : wf p free -> load p i = Some w -> wf (store p i v) free.
Proof.
  intros Hwf Hl. pose proof (live_not_free _ _ _ _ Hwf Hl) as Hni. apply load_live in Hl as Hi.
  destruct Hwf as [Hlen Hcap Hch Hnd Hfr Hsz Hcnt].
  split; cbn [store pool_store store_slot slots_ capacity_ free_head_ size_]; try done.
  - by rewrite length_insert.
  - eapply chain_same; [|exact Hch]. intros j Hj. apply list_lookup_insert_ne. set_solver.
  - intros j. destruct (decide (j = i)) as [->|Hne].
    + rewrite list_lookup_insert_eq by (by eapply lookup_lt_Some). rewrite Hfr. naive_solver.
    + by rewrite list_lookup_insert_ne.
  - rewrite (countZ_insert _ _ _ _ _ Hi), <- Hsz. cbn. lia.
Qed.

(** *** Intrusive lists of pool slots

    Linking and unlinking nodes only writes to live slots, so the free list
    and the capacity are untouched. *)
Context `{!IntrusiveListNode T}.

Definition same_slots p p' : Prop :=
  capacity_ p' = capacity_ p /\ forall free, wf p free -> wf p' free.

#[export] Instance same_slots_preorder : PreOrder same_slots.
Proof.
  split; [by split|]. intros p1 p2 p3 [Hc1 Hw1] [Hc2 Hw2]. split; [congruence|auto].
Qed.

Lemma modify_same p p' i (f : T -> T) : modify p i f = Some p' -> same_slots p p'.
Proof.
  unfold modify. intros Hm. minv Hm. simplify_eq. split; [done|].
  intros free Hwf. by eapply store_wf.
Qed.

Lemma opt_modify_same {A} p p' (o : ptr) (f : T -> T) (d e x : A) :
  match o with
  | Some j => h ← modify p j f; Some (h, d)
  | None => Some (p, e)
  end = Some (p', x) -> same_slots p p'.
Proof.
  destruct o; intros Hm; [|by simplify_eq]. minv Hm. simplify_eq. by eapply modify_same.
Qed.

Lemma push_back_same p l i p' l' :
  IList.push_back p l i = Some (p', l') -> same_slots p p'.
Proof.
  unfold IList.push_back. intros Hm. minv Hm. minv Hm. minv Hm.
  apply modify_same in E, E0. apply opt_modify_same in E1.
  simplify_eq. by rewrite E, E0.
Qed.

Lemma remove_same p l i p' l' :
  IList.remove p l i = Some (p', l') -> same_slots p p'.
Proof.
  unfold IList.remove. intros Hm. minv Hm. minv Hm.
  apply opt_modify_same in E0. minv Hm. minv Hm.
  apply opt_modify_same in E2. minv Hm. minv Hm. apply modify_same in E3, E4.
  simplify_eq. by rewrite E0, E2, E3.
Qed.

(** A move hands over all slots; acquiring from the source is a null dereference
    unless the pool was full. *)
Lemma pool_move_construct_spec p free v i :
  wf p free ->
  let '(target, source) := move_construct p in
  wf target free /\ size source = size p /\ release source i = None /\
  acquire source v = (if free_head_ p =? kNone then Some (source, None) else None).
Proof. intros Hwf. cbn. split_and!; [done..|]. unfold acquire, moved_from. cbn. by case_match. Qed.
End invariant.

End Pool.
