(* ===== verification/ByteOrder.v ===== *)
(** * itch/byteorder.hpp: big-endian loads and stores

    Bytes are [Byte.byte]; a buffer is a list of bytes and a pointer into it an
    offset, so an access outside the buffer is undefined ([None]).  The readers
    and writers are translated shift by shift; [be_value] and [be_bytes] are the
    reference big-endian notation they are proved against. *)

From Stdlib Require Export Strings.Byte.
From S2P Require Import Prelude.

Local Open Scope Z_scope.

Abbreviation byte := Byte.byte (only parsing).

#[global] Instance byte_eq_dec : EqDecision byte := Byte.byte_eq_dec.

(** [std::to_integer]. *)
Definition to_integer (b : byte) : Z := Z.of_N (Byte.to_N b).

(** [static_cast<std::byte>(v & 0xFF)]. *)
Definition to_byte (v : Z) : byte :=
  match Byte.of_N (Z.to_N (Z.land v 255)) with Some b => b | None => x00 end.

(** ** Readers *)

Definition read_u16_be (buf : list byte) (p : nat) : ub Z :=
  b0 ← buf !! p;
  b1 ← buf !! (p + 1)%nat;
  Some (u16 (Z.lor (Z.shiftl (to_integer b0) 8) (to_integer b1))).

Definition read_u32_be (buf : list byte) (p : nat) : ub Z :=
  b0 ← buf !! p;
  b1 ← buf !! (p + 1)%nat;
  b2 ← buf !! (p + 2)%nat;
  b3 ← buf !! (p + 3)%nat;
  Some (Z.lor (Z.lor (Z.lor (u32 (Z.shiftl (to_integer b0) 24))
                            (u32 (Z.shiftl (to_integer b1) 16)))
                     (u32 (Z.shiftl (to_integer b2) 8)))
              (to_integer b3)).

Definition read_u48_be (buf : list byte) (p : nat) : ub Z :=
  b0 ← buf !! p;
  b1 ← buf !! (p + 1)%nat;
  b2 ← buf !! (p + 2)%nat;
  b3 ← buf !! (p + 3)%nat;
  b4 ← buf !! (p + 4)%nat;
  b5 ← buf !! (p + 5)%nat;
  Some (Z.lor (Z.lor (Z.lor (Z.lor (Z.lor (u64 (Z.shiftl (to_integer b0) 40))
                                          (u64 (Z.shiftl (to_integer b1) 32)))
                                   (u64 (Z.shiftl (to_integer b2) 24)))
                            (u64 (Z.shiftl (to_integer b3) 16)))
                     (u64 (Z.shiftl (to_integer b4) 8)))
              (to_integer b5)).

Definition read_u64_be (buf : list byte) (p : nat) : ub Z :=
  b0 ← buf !! p;
  b1 ← buf !! (p + 1)%nat;
  b2 ← buf !! (p + 2)%nat;
  b3 ← buf !! (p + 3)%nat;
  b4 ← buf !! (p + 4)%nat;
  b5 ← buf !! (p + 5)%nat;
  b6 ← buf !! (p + 6)%nat;
  b7 ← buf !! (p + 7)%nat;
  Some (Z.lor (Z.lor (Z.lor (Z.lor (Z.lor (Z.lor (Z.lor
          (u64 (Z.shiftl (to_integer b0) 56))
          (u64 (Z.shiftl (to_integer b1) 48)))
          (u64 (Z.shiftl (to_integer b2) 40)))
          (u64 (Z.shiftl (to_integer b3) 32)))
          (u64 (Z.shiftl (to_integer b4) 24)))
          (u64 (Z.shiftl (to_integer b5) 16)))
          (u64 (Z.shiftl (to_integer b6) 8)))
          (to_integer b7)).

(** ** Writers *)

(** [p[i] = b]. *)
Definition put (buf : list byte) (p : nat) (b : byte) : ub (list byte) :=
  if decide (p < length buf)%nat then Some (<[p := b]> buf) else None.

Definition write_u16_be (buf : list byte) (p : nat) (v : Z) : ub (list byte) :=
  buf ← put buf p (to_byte (Z.shiftr v 8));
  put buf (p + 1) (to_byte v).

Definition write_u32_be (buf : list byte) (p : nat) (v : Z) : ub (list byte) :=
  buf ← put buf p (to_byte (Z.shiftr v 24));
  buf ← put buf (p + 1) (to_byte (Z.shiftr v 16));
  buf ← put buf (p + 2) (to_byte (Z.shiftr v 8));
  put buf (p + 3) (to_byte v).

Definition write_u48_be (buf : list byte) (p : nat) (v : Z) : ub (list byte) :=
  buf ← put buf p (to_byte (Z.shiftr v 40));
  buf ← put buf (p + 1) (to_byte (Z.shiftr v 32));
  buf ← put buf (p + 2) (to_byte (Z.shiftr v 24));
  buf ← put buf (p + 3) (to_byte (Z.shiftr v 16));
  buf ← put buf (p + 4) (to_byte (Z.shiftr v 8));
  put buf (p + 5) (to_byte v).

Definition write_u64_be (buf : list byte) (p : nat) (v : Z) : ub (list byte) :=
  buf ← put buf p (to_byte (Z.shiftr v 56));
  buf ← put buf (p + 1) (to_byte (Z.shiftr v 48));
  buf ← put buf (p + 2) (to_byte (Z.shiftr v 40));
  buf ← put buf (p + 3) (to_byte (Z.shiftr v 32));
  buf ← put buf (p + 4) (to_byte (Z.shiftr v 24));
  buf ← put buf (p + 5) (to_byte (Z.shiftr v 16));
  buf ← put buf (p + 6) (to_byte (Z.shiftr v 8));
  put buf (p + 7) (to_byte v).

(** ** Reference notation *)

(** The value of a big-endian digit string. *)
Definition be_value (bs : list byte) : Z :=
  foldl (fun acc b => acc * 256 + to_integer b) 0 bs.

(** The [n] big-endian digits of [v]. *)
Fixpoint be_bytes (n : nat) (v : Z) : list byte :=
  match n with
  | O => []
  | S n' => to_byte (Z.shiftr v (8 * Z.of_nat n')) :: be_bytes n' v
  end.

Lemma to_integer_range b : 0 <= to_integer b < 256.
Proof. unfold to_integer. pose proof (Byte.to_N_bounded b). lia. Qed.

Lemma to_integer_to_byte v : to_integer (to_byte v) = v mod 256.
Proof.
  unfold to_integer, to_byte.
  change 255 with (Z.ones 8). rewrite Z.land_ones by lia. change (2 ^ 8) with 256.
  pose proof (Z.mod_pos_bound v 256 ltac:(lia)) as Hr.
  destruct (Byte.of_N (Z.to_N (v mod 256))) as [b|] eqn:E.
  - apply Byte.to_of_N in E. rewrite E. lia.
  - apply Byte.of_N_None_iff in E. lia.
Qed.

Lemma to_byte_to_integer b : to_byte (to_integer b) = b.
Proof. by destruct b. Qed.

Lemma lor_add a b k :
  0 <= k -> (exists q, a = q * 2 ^ k) -> 0 <= b < 2 ^ k -> Z.lor a b = a + b.
Proof.
  intros Hk [q ->] Hb. rewrite <- Z.add_lor_land. enough (Z.land (q * 2 ^ k) b = 0) by lia.
  apply Z.bits_inj'. intros n Hn. rewrite Z.land_spec, Z.bits_0.
  destruct (Z.lt_ge_cases n k).
  - by rewrite Z.mul_pow2_bits_low.
  - rewrite <- (Z.mod_small b (2 ^ k)) by done.
    rewrite Z.mod_pow2_bits_high by lia. apply andb_false_r.
Qed.

Lemma foldl_be acc bs :
  foldl (fun acc b => acc * 256 + to_integer b) acc bs =
  acc * 256 ^ Z.of_nat (length bs) + be_value bs.
Proof.
  unfold be_value. revert acc. induction bs as [|b bs IH] using rev_ind; intros acc.
  - cbn. lia.
  - rewrite !foldl_app, length_app. cbn [foldl length]. rewrite IH.
    rewrite Nat2Z.inj_add, Z.pow_add_r by lia. change (256 ^ Z.of_nat 1) with 256. lia.
Qed.

Lemma be_value_cons b bs :
  be_value (b :: bs) = to_integer b * 256 ^ Z.of_nat (length bs) + be_value bs.
Proof. unfold be_value at 1. cbn [foldl]. by rewrite foldl_be. Qed.

Lemma be_value_range bs : 0 <= be_value bs < 256 ^ Z.of_nat (length bs).
Proof.
  induction bs as [|b bs IH]; [done|]. rewrite be_value_cons.
  pose proof (to_integer_range b). cbn [length]. rewrite Nat2Z.inj_succ, Z.pow_succ_r by lia. nia.
Qed.

Lemma length_be_bytes n v : length (be_bytes n v) = n.
Proof. induction n; cbn; congruence. Qed.

Lemma be_value_be_bytes n v : be_value (be_bytes n v) = v mod 256 ^ Z.of_nat n.
Proof.
  induction n as [|n IH]; [cbn; by rewrite Z.mod_1_r|].
  cbn [be_bytes]. rewrite be_value_cons, length_be_bytes, to_integer_to_byte, IH.
  rewrite Z.shiftr_div_pow2 by lia. replace (2 ^ (8 * Z.of_nat n)) with (256 ^ Z.of_nat n).
  2:{ rewrite Z.pow_mul_r by lia. done. }
  rewrite Nat2Z.inj_succ, Z.pow_succ_r by lia.
  assert (0 < 256 ^ Z.of_nat n) by (apply Z.pow_pos_nonneg; lia).
  rewrite (Z.mul_comm 256), Z.rem_mul_r by lia. lia.
Qed.

Lemma be_bytes_be_value bs : be_bytes (length bs) (be_value bs) = bs.
Proof.
  induction bs as [|b bs IH]; [done|]. cbn [length be_bytes]. rewrite be_value_cons.
  assert (2 ^ (8 * Z.of_nat (length bs)) = 256 ^ Z.of_nat (length bs)) as Hp.
  { rewrite Z.pow_mul_r by lia. done. }
  pose proof (be_value_range bs) as Hr.
  assert (forall m v q, (m <= length bs)%nat ->
            be_bytes m (q * 256 ^ Z.of_nat (length bs) + v) = be_bytes m v) as Hm.
  { induction m as [|m IHm]; intros v q Hle; [done|]. cbn [be_bytes]. f_equal; [|apply IHm; lia].
    rewrite !Z.shiftr_div_pow2 by lia.
    replace (Z.of_nat (length bs)) with ((Z.of_nat (length bs) - Z.of_nat m - 1) + 1 + Z.of_nat m) by lia.
    rewrite !Z.pow_add_r by lia. rewrite (Z.pow_mul_r 2 8) by lia.
    change (2 ^ 8) with 256. change (256 ^ 1) with 256.
    replace (q * _ + v) with (v + (q * 256 ^ (Z.of_nat (length bs) - Z.of_nat m - 1) * 256)
      * 256 ^ Z.of_nat m) by lia.
    rewrite Z.div_add by (apply Z.pow_nonzero; lia).
    rewrite <- (to_byte_to_integer (to_byte (_ + _))), <- (to_byte_to_integer (to_byte (_ / _))).
    f_equal. rewrite !to_integer_to_byte. by rewrite Z_mod_plus_full. }
  f_equal; [|by rewrite Hm, IH].
  rewrite Z.shiftr_div_pow2, Hp by lia. rewrite Z.add_comm, Z.div_add by lia.
  rewrite Z.div_small by done. apply to_byte_to_integer.
Qed.

(** ** The readers compute big-endian values *)

Lemma lor_digit x b k :
  0 <= k -> 0 <= b < 256 -> Z.lor (x * 2 ^ (k + 8)) (b * 2 ^ k) = (x * 256 + b) * 2 ^ k.
Proof.
  intros Hk Hb. assert (0 < 2 ^ k) by (apply Z.pow_pos_nonneg; lia).
  rewrite (lor_add _ _ (k + 8)); [|lia|by eexists|].
  - rewrite Z.pow_add_r by lia. change (2 ^ 8) with 256. lia.
  - rewrite Z.pow_add_r by lia. change (2 ^ 8) with 256.
    generalize dependent (2 ^ k). intros K ?. nia.
Qed.

Lemma lor_digit_0 x b : 0 <= b < 256 -> Z.lor (x * 2 ^ 8) b = x * 256 + b.
Proof.
  intros Hb. pose proof (lor_digit x b 0 ltac:(lia) Hb) as Hd.
  change (0 + 8) with 8 in Hd. by rewrite !Z.mul_1_r in Hd.
Qed.

Lemma shl_byte_32 b k : 0 <= k <= 24 -> u32 (Z.shiftl (to_integer b) k) = to_integer b * 2 ^ k.
Proof.
  intros Hk. rewrite Z.shiftl_mul_pow2 by lia. apply u32_small.
  pose proof (to_integer_range b). assert (2 ^ k <= 2 ^ 24) by (apply Z.pow_le_mono_r; lia).
  assert (0 < 2 ^ k) by (apply Z.pow_pos_nonneg; lia).
  generalize dependent (2 ^ k). intros K ? ?. nia.
Qed.

Lemma shl_byte_64 b k : 0 <= k <= 56 -> u64 (Z.shiftl (to_integer b) k) = to_integer b * 2 ^ k.
Proof.
  intros Hk. rewrite Z.shiftl_mul_pow2 by lia. apply u64_small.
  pose proof (to_integer_range b). assert (2 ^ k <= 2 ^ 56) by (apply Z.pow_le_mono_r; lia).
  assert (0 < 2 ^ k) by (apply Z.pow_pos_nonneg; lia).
  generalize dependent (2 ^ k). intros K ? ?. nia.
Qed.

(** The [n] bytes at offset [p]. *)
Definition window (buf : list byte) (p n : nat) : list byte := take n (drop p buf).

Lemma window_cons buf p n b :
  buf !! p = Some b -> window buf p (S n) = b :: window buf (p + 1) n.
Proof.
  intros Hb. unfold window. rewrite (drop_S _ b p) by done. by rewrite Nat.add_1_r.
Qed.

Lemma window_nil buf p : window buf p 0 = [].
Proof. done. Qed.

Lemma length_window buf p n : (p + n <= length buf)%nat -> length (window buf p n) = n.
Proof. intros. unfold window. rewrite length_take, length_drop. lia. Qed.

(** Turns the lookups of a reader into bytes and exposes its window. *)
Ltac fetch buf i :=
  let b := fresh "b" in let Hb := fresh "Hb" in
  destruct (lookup_lt_is_Some_2 buf i) as [b Hb]; [lia|];
  rewrite Hb; cbn [mbind option_bind]; erewrite window_cons by exact Hb;
  rewrite <- ?Nat.add_assoc; cbn [Nat.add].

Ltac digits :=
  repeat match goal with
  | |- context [2 ^ 56] => change (2 ^ 56) with (2 ^ (48 + 8)); rewrite lor_digit by (lia || apply to_integer_range)
  | |- context [2 ^ 48] => change (2 ^ 48) with (2 ^ (40 + 8)); rewrite lor_digit by (lia || apply to_integer_range)
  | |- context [2 ^ 40] => change (2 ^ 40) with (2 ^ (32 + 8)); rewrite lor_digit by (lia || apply to_integer_range)
  | |- context [2 ^ 32] => change (2 ^ 32) with (2 ^ (24 + 8)); rewrite lor_digit by (lia || apply to_integer_range)
  | |- context [2 ^ 24] => change (2 ^ 24) with (2 ^ (16 + 8)); rewrite lor_digit by (lia || apply to_integer_range)
  | |- context [2 ^ 16] => change (2 ^ 16) with (2 ^ (8 + 8)); rewrite lor_digit by (lia || apply to_integer_range)
  | |- context [2 ^ 8] => rewrite lor_digit_0 by apply to_integer_range
  end.

Lemma read_u16_be_spec buf p :
  (p + 2 <= length buf)%nat -> read_u16_be buf p = Some (be_value (window buf p 2)).
Proof.
  intros Hl. unfold read_u16_be. fetch buf p. fetch buf (p + 1)%nat. rewrite window_nil.
  rewrite Z.shiftl_mul_pow2 by lia. digits. rewrite u16_small; [done|].
  pose proof (to_integer_range b). pose proof (to_integer_range b0). lia.
Qed.

Lemma read_u32_be_spec buf p :
  (p + 4 <= length buf)%nat -> read_u32_be buf p = Some (be_value (window buf p 4)).
Proof.
  intros Hl. unfold read_u32_be.
  fetch buf p. fetch buf (p + 1)%nat. fetch buf (p + 2)%nat. fetch buf (p + 3)%nat.
  rewrite window_nil, !shl_byte_32 by lia. by digits.
Qed.

Lemma read_u48_be_spec buf p :
  (p + 6 <= length buf)%nat -> read_u48_be buf p = Some (be_value (window buf p 6)).
Proof.
  intros Hl. unfold read_u48_be.
  fetch buf p. fetch buf (p + 1)%nat. fetch buf (p + 2)%nat. fetch buf (p + 3)%nat.
  fetch buf (p + 4)%nat. fetch buf (p + 5)%nat.
  rewrite window_nil, !shl_byte_64 by lia. by digits.
Qed.

Lemma read_u64_be_spec buf p :
  (p + 8 <= length buf)%nat -> read_u64_be buf p = Some (be_value (window buf p 8)).
Proof.
  intros Hl. unfold read_u64_be.
  fetch buf p. fetch buf (p + 1)%nat. fetch buf (p + 2)%nat. fetch buf (p + 3)%nat.
  fetch buf (p + 4)%nat. fetch buf (p + 5)%nat. fetch buf (p + 6)%nat. fetch buf (p + 7)%nat.
  rewrite window_nil, !shl_byte_64 by lia. by digits.
Qed.

(** ** The writers store big-endian digits *)

Lemma put_at pre l i b :
  (i < length l)%nat -> put (pre ++ l) (length pre + i) b = Some (pre ++ <[i := b]> l).
Proof.
  intros Hi. unfold put. rewrite decide_True by (rewrite length_app; lia).
  by rewrite insert_app_r.
Qed.

Lemma put_at_0 pre l b :
  (0 < length l)%nat -> put (pre ++ l) (length pre) b = Some (pre ++ <[0%nat := b]> l).
Proof. intros Hl. rewrite <- put_at by done. by rewrite Nat.add_0_r. Qed.

Ltac stores :=
  repeat match goal with
  | |- context [put (?pre ++ ?l) (length ?pre) ?b] =>
      rewrite put_at_0 by (cbn; lia);
      cbn [mbind option_bind insert list_insert]
  | |- context [put (?pre ++ ?l) (length ?pre + ?i) ?b] =>
      rewrite put_at by (cbn; lia); cbn [mbind option_bind insert list_insert]
  end.

Section writers.
Variables (pre mid post : list byte) (v : Z).

Lemma write_u16_be_spec :
  length mid = 2%nat ->
  write_u16_be (pre ++ mid ++ post) (length pre) v = Some (pre ++ be_bytes 2 v ++ post).
Proof.
  intros Hl. destruct mid as [|? [|? [|]]]; try discriminate. unfold write_u16_be.
  cbn [app]. stores. cbn [be_bytes app]. change (8 * Z.of_nat 0) with 0. by rewrite Z.shiftr_0_r.
Qed.

Lemma write_u32_be_spec :
  length mid = 4%nat ->
  write_u32_be (pre ++ mid ++ post) (length pre) v = Some (pre ++ be_bytes 4 v ++ post).
Proof.
  intros Hl. destruct mid as [|? [|? [|? [|? [|]]]]]; try discriminate.
  unfold write_u32_be. cbn [app]. stores. cbn [be_bytes app]. change (8 * Z.of_nat 0) with 0. by rewrite Z.shiftr_0_r.
Qed.

Lemma write_u48_be_spec :
  length mid = 6%nat ->
  write_u48_be (pre ++ mid ++ post) (length pre) v = Some (pre ++ be_bytes 6 v ++ post).
Proof.
  intros Hl. destruct mid as [|? [|? [|? [|? [|? [|? [|]]]]]]]; try discriminate.
  unfold write_u48_be. cbn [app]. stores. cbn [be_bytes app]. change (8 * Z.of_nat 0) with 0. by rewrite Z.shiftr_0_r.
Qed.

Lemma write_u64_be_spec :
  length mid = 8%nat ->
  write_u64_be (pre ++ mid ++ post) (length pre) v = Some (pre ++ be_bytes 8 v ++ post).
Proof.
  intros Hl. destruct mid as [|? [|? [|? [|? [|? [|? [|? [|? [|]]]]]]]]]; try discriminate.
  unfold write_u64_be. cbn [app]. stores. cbn [be_bytes app]. change (8 * Z.of_nat 0) with 0. by rewrite Z.shiftr_0_r.
Qed.
End writers.

Lemma window_app pre mid post n :
  length mid = n -> window (pre ++ mid ++ post) (length pre) n = mid.
Proof. intros <-. unfold window. by rewrite drop_app_length, take_app_length. Qed.
