(* ===== verification/Printf.v ===== *)
(** * printf: the text the benchmark programs write

    The conversions of the C library that the programs use ([%s], [%zu], [%llu],
    [%lld], [%f] with a flag, a width and a precision), driven by the format string
    itself.  An argument carries its C type, and a conversion that names another one,
    by its letter or its length modifier, is undefined.  A double is rounded to the nearest decimal, ties to even, from its exact
    value.  [scan] reads such a text back; [scan_render] is the round trip. *)

From S2P Require Import Prelude Float64 ByteOrder.
From Stdlib Require Import Floats.SpecFloat.

From Stdlib Require Strings.String.
Import (notations) Strings.String.

Local Open Scope Z_scope.

Module Printf.

(** The bytes of a string literal. *)
Definition text : String.string -> list byte := String.list_byte_of_string.
Definition newline : byte := x0a.

(** ** Numbers *)

Definition digit (d : Z) : byte := to_byte (48 + d).
Definition digit_value (b : byte) : Z := to_integer b - 48.
Definition is_digit (b : byte) : bool := (0 <=? digit_value b) && (digit_value b <? 10).

Fixpoint digits (fuel : nat) (n : Z) : list byte :=
  match fuel with
  | O => []
  | S fuel => if n <? 10 then [digit n] else digits fuel (n / 10) ++ [digit (n mod 10)]
  end.

Definition decimal (n : Z) : list byte := digits (S (Z.to_nat (Z.log2 n))) n.

(** Exactly [count] digits. *)
Fixpoint zero_padded (count : nat) (n : Z) : list byte :=
  match count with O => [] | S count => zero_padded count (n / 10) ++ [digit (n mod 10)] end.

Definition sign (negative : bool) : list byte := if negative then ["-"%byte] else [].

(** [n / d] to the nearest integer, ties to even. *)
Definition nearest (n d : Z) : Z :=
  let q := n / d in
  let r := n mod d in
  if 2 * r <? d then q else if d <? 2 * r then q + 1 else if Z.even q then q else q + 1.

(** [m * 2^e * 10^prec], rounded. *)
Definition scaled (prec : nat) (m : positive) (e : Z) : Z :=
  let n := Zpos m * 10 ^ Z.of_nat prec in
  if 0 <=? e then n * 2 ^ e else nearest n (2 ^ (- e)).

(** A number of [10^-prec] units in decimal notation. *)
Definition point (prec : nat) (q : Z) : list byte :=
  decimal (q / 10 ^ Z.of_nat prec) ++
  match prec with O => [] | S _ => "."%byte :: zero_padded prec (q mod 10 ^ Z.of_nat prec) end.

(** The sign that is printed for a NaN is not specified. *)
Definition fixed (prec : nat) (x : double) : option (list byte) :=
  match x with
  | S754_zero s => Some (sign s ++ point prec 0)
  | S754_infinity s => Some (sign s ++ text "inf"%string)
  | S754_nan => None
  | S754_finite s m e => Some (sign s ++ point prec (scaled prec m e))
  end.

(** ** Formats *)

(** The integer types a conversion can name: plain, with [z], with [ll]. *)
Inductive int_type := Int | UnsignedInt | SignedSize | SizeT | LongLong | UnsignedLongLong.

#[global] Instance int_type_eq_dec : EqDecision int_type.
Proof. solve_decision. Defined.

Definition is_signed (t : int_type) : bool :=
  match t with Int | SignedSize | LongLong => true | UnsignedInt | SizeT | UnsignedLongLong => false end.

Inductive length_modifier := NoModifier | ModZ | ModLL.

(** The type [%d] and [%u] expect under a length modifier. *)
Definition int_type_for (modifier : length_modifier) (signed : bool) : int_type :=
  match modifier, signed with
  | NoModifier, true => Int | NoModifier, false => UnsignedInt
  | ModZ, true => SignedSize | ModZ, false => SizeT
  | ModLL, true => LongLong | ModLL, false => UnsignedLongLong
  end.

Inductive conversion := CStr | CInt (t : int_type) | CFixed (prec : nat).

#[global] Instance conversion_eq_dec : EqDecision conversion.
Proof. solve_decision. Defined.

Inductive directive :=
  | Lit (b : byte)
  | Conv (ljust : bool) (width : nat) (conv : conversion).

(** The arguments with their C types. *)
Inductive arg := AStr (s : list byte) | AInt (t : int_type) (z : Z) | AFloat (x : double).

Fixpoint span_digits (s : list byte) : list byte * list byte :=
  match s with
  | b :: s' => if is_digit b then let '(ds, rest) := span_digits s' in (b :: ds, rest) else ([], s)
  | [] => ([], [])
  end.

Definition value (ds : list byte) : Z := foldl (fun acc b => 10 * acc + digit_value b) 0 ds.

Definition parse_modifier (s : list byte) : length_modifier * list byte :=
  match s with
  | "z"%byte :: s => (ModZ, s)
  | "l"%byte :: "l"%byte :: s => (ModLL, s)
  | _ => (NoModifier, s)
  end.

(** After a percent sign: flag, width, precision, length modifier, conversion.  What
    the programs do not use, or C leaves undefined, is not parsed: a precision with
    [%s], [%d] or [%u], a length modifier with [%s] or [%f]. *)
Definition parse_directive (s : list byte) : option (directive * list byte) :=
  let '(ljust, s) := match s with "-"%byte :: s => (true, s) | _ => (false, s) end in
  let '(width, s) := span_digits s in
  let '(prec, s) :=
    match s with
    | "."%byte :: s => let '(ds, s) := span_digits s in (Some (Z.to_nat (value ds)), s)
    | _ => (None, s)
    end in
  let '(modifier, s) := parse_modifier s in
  let conv c s := Some (Conv ljust (Z.to_nat (value width)) c, s) in
  match s, modifier, prec with
  | "s"%byte :: s, NoModifier, None => conv CStr s
  | "u"%byte :: s, _, None => conv (CInt (int_type_for modifier false)) s
  | "d"%byte :: s, _, None => conv (CInt (int_type_for modifier true)) s
  | "f"%byte :: s, NoModifier, _ => conv (CFixed (default 6%nat prec)) s
  | _, _, _ => None
  end.

Fixpoint parse_format (fuel : nat) (s : list byte) : option (list directive) :=
  match fuel, s with
  | _, [] => Some []
  | O, _ => None
  | S fuel, "%"%byte :: s => '(d, s) ← parse_directive s; ds ← parse_format fuel s; Some (d :: ds)
  | S fuel, b :: s => ds ← parse_format fuel s; Some (Lit b :: ds)
  end.

(** An argument of another type than the conversion names, also another integer type,
    is undefined behaviour. *)
Definition convert (conv : conversion) (a : arg) : ub (list byte) :=
  match conv, a with
  | CStr, AStr s => Some s
  | CInt t, AInt t' z => if decide (t = t') then Some (sign (z <? 0) ++ decimal (Z.abs z)) else None
  | CFixed prec, AFloat x => fixed prec x
  | _, _ => None
  end.

Definition spaces (n : nat) : list byte := replicate n " "%byte.

Definition pad (ljust : bool) (width : nat) (s : list byte) : list byte :=
  if ljust then s ++ spaces (width - length s) else spaces (width - length s) ++ s.

Fixpoint render (ds : list directive) (args : list arg) : ub (list byte) :=
  match ds, args with
  | [], _ => Some []
  | Lit b :: ds, args => out ← render ds args; Some (b :: out)
  | Conv ljust width conv :: ds, a :: args =>
      s ← convert conv a;
      out ← render ds args;
      Some (pad ljust width s ++ out)
  | Conv _ _ _ :: _, [] => None
  end.

Definition printf (format : list byte) (args : list arg) : ub (list byte) :=
  ds ← parse_format (length format) format;
  render ds args.

(** ** Reading a text back *)

Inductive scanned := VStr (s : list byte) | VInt (z : Z) | VFixed (q : Z).

Fixpoint drop_spaces (s : list byte) : list byte :=
  match s with " "%byte :: s => drop_spaces s | _ => s end.

Definition strip_trailing (s : list byte) : list byte := rev (drop_spaces (rev s)).

Definition scan_sign (s : list byte) : bool * list byte :=
  match s with "-"%byte :: s => (true, s) | _ => (false, s) end.

Definition signed (negative : bool) (n : Z) : Z := if negative then - n else n.

Definition scan_natural (s : list byte) : option (Z * list byte) :=
  match span_digits s with ([], _) => None | (ds, s) => Some (value ds, s) end.

Definition scan_number (conv : conversion) (s : list byte) : option (scanned * list byte) :=
  match conv with
  | CStr => None
  | CInt t =>
      let '(negative, s) := if is_signed t then scan_sign s else (false, s) in
      '(n, s) ← scan_natural s;
      Some (VInt (signed negative n), s)
  | CFixed prec =>
      let '(negative, s) := scan_sign s in
      '(n, s) ← scan_natural s;
      match prec, s with
      | O, _ => Some (VFixed (signed negative n), s)
      | S _, "."%byte :: s =>
          let '(ds, s) := span_digits s in
          Some (VFixed (signed negative (n * 10 ^ Z.of_nat prec + value ds)), s)
      | S _, _ => None
      end
  end.

(** The shortest string from column [k] on after which [f] reads on; the padding is
    not part of it. *)
Fixpoint seek {A} (f : list byte -> option A) (n k : nat) (s : list byte) : option (list byte * A) :=
  match f (drop k s) with
  | Some r => Some (strip_trailing (take k s), r)
  | None => match n with O => None | S n => seek f n (S k) s end
  end.

Fixpoint scan (ds : list directive) (s : list byte) : option (list scanned * list byte) :=
  match ds with
  | [] => Some ([], s)
  | Lit b :: ds =>
      match s with
      | c :: s => if decide (c = b) then scan ds s else None
      | [] => None
      end
  | Conv ljust width CStr :: ds =>
      '(name, (vs, rest)) ← seek (scan ds) (length s) width s;
      Some (VStr name :: vs, rest)
  | Conv ljust width conv :: ds =>
      let s := if ljust : bool then s else drop_spaces s in
      '(v, s') ← scan_number conv s;
      let s' := if ljust : bool then drop (width - (length s - length s')) s' else s' in
      '(vs, rest) ← scan ds s';
      Some (v :: vs, rest)
  end.

(** Reading with the format string itself. *)
Definition read (format s : list byte) : option (list scanned * list byte) :=
  ds ← parse_format (length format) format;
  scan ds s.

(** ** Digits *)

Lemma digit_code d : 0 <= d < 10 -> to_integer (digit d) = 48 + d.
Proof. intros Hd. unfold digit. rewrite to_integer_to_byte. apply Z.mod_small. lia. Qed.

Lemma digit_value_digit d : 0 <= d < 10 -> digit_value (digit d) = d.
Proof. intros Hd. unfold digit_value. rewrite digit_code by done. lia. Qed.

Lemma is_digit_digit d : 0 <= d < 10 -> is_digit (digit d) = true.
Proof. intros Hd. unfold is_digit. rewrite digit_value_digit by done. lia. Qed.

Lemma value_app xs ys : value (xs ++ ys) = value xs * 10 ^ Z.of_nat (length ys) + value ys.
Proof.
  unfold value. rewrite foldl_app. generalize (foldl (fun acc b => 10 * acc + digit_value b) 0 xs). intros a.
  induction ys as [|y ys IH] using rev_ind; [cbn; lia|].
  rewrite !foldl_app, length_app, IH. cbn [foldl length].
  rewrite Nat2Z.inj_add, Z.pow_add_r by lia. change (10 ^ Z.of_nat 1) with 10. ring.
Qed.

(** What [span_digits] reads back as [n]. *)
Record numeral (n : Z) (ds : list byte) : Prop := MkNumeral {
  nu_value : value ds = n;
  nu_digits : Forall (fun b => is_digit b = true) ds
}.

Lemma numeral_snoc n d ds : numeral n ds -> 0 <= d < 10 -> numeral (10 * n + d) (ds ++ [digit d]).
Proof.
  intros [Hv Hd] Hr. split.
  - rewrite value_app, Hv. cbn. rewrite digit_value_digit by done. lia.
  - apply Forall_app. split; [done|]. apply Forall_singleton. by apply is_digit_digit.
Qed.

Lemma numeral_digits fuel n : 0 <= n < 2 ^ Z.of_nat fuel -> (0 < fuel)%nat -> numeral n (digits fuel n) /\ digits fuel n <> [].
Proof.
  revert n. induction fuel as [|fuel IH]; intros n Hn Hf; [lia|]. cbn [digits].
  destruct (Z.ltb_spec n 10) as [Hlt|Hge].
  - split; [|done]. apply (numeral_snoc 0 n []); [by split|lia].
  - rewrite Nat2Z.inj_succ, Z.pow_succ_r in Hn by lia.
    pose proof (Z.div_mod n 10 ltac:(lia)). pose proof (Z.mod_pos_bound n 10 ltac:(lia)).
    destruct (IH (n / 10)) as [Hnum _]; [lia| |].
    { destruct fuel; [cbn in Hn; lia|lia]. }
    split; [|by destruct (digits fuel (n / 10))].
    replace n with (10 * (n / 10) + n mod 10) at 1 by lia. by apply numeral_snoc.
Qed.

Lemma numeral_decimal n : 0 <= n -> numeral n (decimal n) /\ decimal n <> [].
Proof.
  intros Hn. apply numeral_digits; [|lia]. split; [done|].
  rewrite Nat2Z.inj_succ, Z2Nat.id by apply Z.log2_nonneg.
  destruct (decide (n = 0)) as [->|Hz]; [done|]. by apply Z.log2_spec; lia.
Qed.

Lemma numeral_zero_padded count n :
  0 <= n < 10 ^ Z.of_nat count -> numeral n (zero_padded count n) /\ length (zero_padded count n) = count.
Proof.
  revert n. induction count as [|count IH]; intros n Hn; cbn [zero_padded].
  - split; [|done]. split; [cbn in *; lia|done].
  - rewrite Nat2Z.inj_succ, Z.pow_succ_r in Hn by lia.
    pose proof (Z.div_mod n 10 ltac:(lia)). pose proof (Z.mod_pos_bound n 10 ltac:(lia)).
    destruct (IH (n / 10)) as [Hnum Hl]; [lia|]. rewrite length_app, Hl. split; [|cbn; lia].
    replace n with (10 * (n / 10) + n mod 10) at 1 by lia. by apply numeral_snoc.
Qed.

(** Text that does not go on with a digit. *)
Definition no_digit (s : list byte) : Prop := match s with b :: _ => is_digit b = false | [] => True end.

Lemma span_digits_app ds rest :
  Forall (fun b => is_digit b = true) ds -> no_digit rest -> span_digits (ds ++ rest) = (ds, rest).
Proof.
  intros Hd Hr. induction Hd as [|b ds Hb _ IH]; cbn [app span_digits].
  - destruct rest as [|b rest]; [done|]. cbn in Hr |- *. by rewrite Hr.
  - by rewrite Hb, IH.
Qed.

Lemma scan_natural_app n ds rest :
  numeral n ds -> ds <> [] -> no_digit rest -> scan_natural (ds ++ rest) = Some (n, rest).
Proof.
  intros [Hv Hd] Hne Hr. unfold scan_natural. rewrite span_digits_app by done.
  destruct ds; [done|]. by rewrite Hv.
Qed.

(** ** One conversion *)

Definition is_finite (x : double) : bool :=
  match x with S754_zero _ | S754_finite _ _ _ => true | _ => false end.

(** What may be converted and read back: strings that do not end in a space and have
    none beyond the field, integers of the right type and sign, finite doubles. *)
Definition readable_arg (conv : conversion) (width : nat) (a : arg) : Prop :=
  match conv, a with
  | CStr, AStr s => last s <> Some " "%byte /\ " "%byte ∉ drop width s
  | CInt t, AInt t' z => t = t' /\ (is_signed t = false -> 0 <= z)
  | CFixed _, AFloat x => is_finite x = true
  | _, _ => False
  end.

(** The double in units of [10^-prec]. *)
Definition units (prec : nat) (x : double) : Z :=
  match x with S754_finite s m e => signed s (scaled prec m e) | _ => 0 end.

Definition reading (conv : conversion) (a : arg) : scanned :=
  match conv, a with
  | CFixed prec, AFloat x => VFixed (units prec x)
  | _, AStr s => VStr s
  | _, AInt _ z => VInt z
  | _, AFloat _ => VInt 0
  end.

Lemma nearest_nonneg n d : 0 <= n -> 0 < d -> 0 <= nearest n d.
Proof.
  intros Hn Hd. pose proof (Z.div_pos n d Hn Hd). unfold nearest. repeat case_match; lia.
Qed.

Lemma scaled_nonneg prec m e : 0 <= scaled prec m e.
Proof.
  unfold scaled. pose proof (Z.pow_nonneg 10 (Z.of_nat prec) ltac:(lia)).
  destruct (Z.leb_spec 0 e).
  - pose proof (Z.pow_nonneg 2 e ltac:(lia)). apply Z.mul_nonneg_nonneg; [|done]. lia.
  - apply nearest_nonneg; [lia|]. apply Z.pow_pos_nonneg; lia.
Qed.

Lemma scan_sign_app negative ds rest :
  ds <> [] -> Forall (fun b => is_digit b = true) ds -> scan_sign (sign negative ++ ds ++ rest) = (negative, ds ++ rest).
Proof.
  intros Hne Hd. destruct negative; [done|]. destruct Hd as [|b ds Hb _]; [done|]. cbn. by destruct b.
Qed.

(** The integer and the fraction of a number in units of [10^-prec]. *)
Lemma point_split prec q :
  0 <= q -> exists whole, numeral (q / 10 ^ Z.of_nat prec) whole /\ whole <> [] /\
    point prec q = whole ++ (match prec with O => [] | S _ => "."%byte :: zero_padded prec (q mod 10 ^ Z.of_nat prec) end).
Proof.
  intros Hq. pose proof (Z.pow_pos_nonneg 10 (Z.of_nat prec) ltac:(lia) ltac:(lia)).
  destruct (numeral_decimal (q / 10 ^ Z.of_nat prec)) as [Hn Hne]; [apply Z.div_pos; lia|].
  by exists (decimal (q / 10 ^ Z.of_nat prec)).
Qed.

Lemma scan_point negative prec q rest :
  0 <= q -> no_digit rest ->
  scan_number (CFixed prec) (sign negative ++ point prec q ++ rest) = Some (VFixed (signed negative q), rest).
Proof.
  intros Hq Hr. pose proof (Z.pow_pos_nonneg 10 (Z.of_nat prec) ltac:(lia) ltac:(lia)) as Hp.
  destruct (point_split prec q Hq) as (whole & Hn & Hne & ->). rewrite <- app_assoc. cbn [scan_number].
  rewrite scan_sign_app by (done || apply Hn). destruct prec as [|prec].
  - rewrite (scan_natural_app _ _ _ Hn Hne) by done. cbn [mbind option_bind app]. by rewrite Z.div_1_r.
  - rewrite (scan_natural_app _ _ _ Hn Hne) by done. cbn [mbind option_bind app].
    destruct (numeral_zero_padded (S prec) (q mod 10 ^ Z.of_nat (S prec))) as [[Hv Hd] _].
    { apply Z.mod_pos_bound. lia. }
    rewrite span_digits_app by done. rewrite Hv. do 4 f_equal.
    rewrite (Z.div_mod q (10 ^ Z.of_nat (S prec))) at 3 by lia. lia.
Qed.

Lemma convert_defined conv width a :
  readable_arg conv width a -> exists t, convert conv a = Some t.
Proof.
  destruct conv, a as [s|ty z|[s|s| |s m e]]; cbn; intros Hr; try done; try by eexists.
  rewrite decide_True by apply Hr. by eexists.
Qed.

Lemma scan_convert conv width a t rest :
  conv <> CStr -> readable_arg conv width a -> convert conv a = Some t -> no_digit rest ->
  scan_number conv (t ++ rest) = Some (reading conv a, rest).
Proof.
  intros Hc Hr Ht Hrest. destruct conv as [|ty|prec]; [done|..]; destruct a as [s|ty' z|x]; try done;
    cbn [readable_arg convert] in Hr, Ht.
  - destruct Hr as [<- Hz]. rewrite decide_True in Ht by done. injection Ht as <-.
    destruct (numeral_decimal (Z.abs z) (Z.abs_nonneg z)) as [Hn Hne]. cbn [scan_number].
    assert ((if is_signed ty then scan_sign ((sign (z <? 0) ++ decimal (Z.abs z)) ++ rest)
             else (false, (sign (z <? 0) ++ decimal (Z.abs z)) ++ rest)) =
            (z <? 0, decimal (Z.abs z) ++ rest)) as ->.
    { destruct (is_signed ty); [by rewrite <- app_assoc, scan_sign_app by (done || apply Hn)|].
      by rewrite (proj2 (Z.ltb_ge z 0) (Hz eq_refl)). }
    rewrite (scan_natural_app _ _ _ Hn Hne) by done.
    cbn [mbind option_bind reading]. do 3 f_equal. unfold signed. destruct (Z.ltb_spec z 0); lia.
  - destruct x as [s|s| |s m e]; try done; injection Ht as <-; rewrite <- app_assoc.
    + rewrite scan_point by done. cbn. by destruct s.
    + by rewrite scan_point by (apply scaled_nonneg || done).
Qed.

(** A number does not start with a space. *)
Lemma convert_head conv a width t :
  conv <> CStr -> readable_arg conv width a -> convert conv a = Some t ->
  exists b t', t = b :: t' /\ b <> " "%byte.
Proof.
  assert (forall negative ds tail, ds <> [] -> Forall (fun b => is_digit b = true) ds ->
    exists b t', sign negative ++ ds ++ tail = b :: t' /\ b <> " "%byte) as Hhead.
  { intros [] ds tail Hne Hd; [by do 2 eexists|]. destruct Hd as [|b ds Hb _]; [done|].
    exists b, (ds ++ tail). split; [done|]. by intros ->. }
  intros Hc Hr Ht. destruct conv as [|ty|prec]; [done|..]; destruct a as [s|ty' z|x]; try done;
    cbn [readable_arg convert] in Hr, Ht.
  - rewrite decide_True in Ht by apply Hr. injection Ht as <-. destruct (numeral_decimal (Z.abs z) (Z.abs_nonneg z)) as [Hn Hne].
    destruct (Hhead (z <? 0) (decimal (Z.abs z)) [] Hne (nu_digits _ _ Hn)) as (b & t' & He & Hb). rewrite app_nil_r in He. eauto.
  - destruct x as [s|s| |s m e]; try done; injection Ht as <-.
    + destruct (point_split prec 0 ltac:(lia)) as (whole & Hn & Hne & ->). apply Hhead; [done|apply Hn].
    + destruct (point_split prec _ (scaled_nonneg prec m e)) as (whole & Hn & Hne & ->). apply Hhead; [done|apply Hn].
Qed.

(** ** Padding *)

Lemma drop_spaces_app n b s : b <> " "%byte -> drop_spaces (spaces n ++ b :: s) = b :: s.
Proof. intros Hb. induction n as [|n IH]; [|exact IH]. cbn. by destruct b. Qed.

Lemma rev_spaces n : rev (spaces n) = spaces n.
Proof.
  induction n as [|n IH]; [done|]. unfold spaces in *. cbn [replicate rev].
  by rewrite IH, <- replicate_cons_app.
Qed.

Lemma strip_trailing_app s n : last s <> Some " "%byte -> strip_trailing (s ++ spaces n) = s.
Proof.
  intros Hl. unfold strip_trailing. rewrite rev_app_distr, rev_spaces.
  destruct s as [|b s _] using rev_ind.
  - cbn [rev]. rewrite app_nil_r. replace (drop_spaces (spaces n)) with (@nil byte); [done|].
    induction n as [|n IH]; [done|exact IH].
  - rewrite rev_app_distr. cbn [rev app]. rewrite drop_spaces_app.
    + cbn [rev]. by rewrite rev_involutive.
    + intros ->. by rewrite last_snoc in Hl.
Qed.

Lemma length_pad ljust width s : length (pad ljust width s) = Nat.max width (length s).
Proof. unfold pad, spaces. destruct ljust; rewrite length_app, length_replicate; lia. Qed.

Lemma seek_found {A} (f : list byte -> option A) n k s k' r :
  (k <= k' <= k + n)%nat -> f (drop k' s) = Some r -> (forall j, (k <= j < k')%nat -> f (drop j s) = None) ->
  seek f n k s = Some (strip_trailing (take k' s), r).
Proof.
  revert k. induction n as [|n IH]; intros k Hk Hf Hnone; cbn [seek].
  - replace k with k' by lia. by rewrite Hf.
  - destruct (decide (k = k')) as [->|Hne]; [by rewrite Hf|]. rewrite Hnone by lia.
    apply IH; [lia|done|]. intros j Hj. apply Hnone. lia.
Qed.

(** ** Reading back what was printed *)

Definition starts_no_digit (ds : list directive) : bool :=
  match ds with Lit b :: _ => negb (is_digit b) | _ => false end.

Definition starts_space (ds : list directive) : bool :=
  match ds with Lit " "%byte :: _ => true | _ => false end.

(** Strings are left-justified and followed by a space, numbers by a byte that is not a
    digit. *)
Fixpoint readable (ds : list directive) : bool :=
  match ds with
  | [] => true
  | Lit _ :: ds => readable ds
  | Conv ljust _ CStr :: ds => ljust && starts_space ds && readable ds
  | Conv _ _ _ :: ds => starts_no_digit ds && readable ds
  end.

Fixpoint readable_args (ds : list directive) (args : list arg) : Prop :=
  match ds, args with
  | [], [] => True
  | Lit _ :: ds, args => readable_args ds args
  | Conv _ width conv :: ds, a :: args => readable_arg conv width a /\ readable_args ds args
  | _, _ => False
  end.

Fixpoint readings (ds : list directive) (args : list arg) : list scanned :=
  match ds, args with
  | Lit _ :: ds, args => readings ds args
  | Conv _ _ conv :: ds, a :: args => reading conv a :: readings ds args
  | _, _ => []
  end.

Lemma render_defined ds args : readable_args ds args -> exists t, render ds args = Some t.
Proof.
  revert args. induction ds as [|[b|ljust width conv] ds IH]; intros args Ha; cbn in *; [by eexists| |].
  - destruct (IH args Ha) as [t ->]. by eexists.
  - destruct args as [|a args]; [done|]. destruct Ha as [Ha Has].
    destruct (convert_defined conv width a Ha) as [t ->]. destruct (IH args Has) as [u ->]. by eexists.
Qed.

Lemma render_no_digit ds args t tail :
  starts_no_digit ds = true -> render ds args = Some t -> no_digit (t ++ tail).
Proof.
  destruct ds as [|[b|] ds]; try done. cbn. intros Hb%negb_true_iff Hr. minv Hr. by simplify_eq.
Qed.

(** One string with its padding. *)
Lemma scan_string width s ds vs out rest :
  readable_arg CStr width (AStr s) -> starts_space ds = true -> scan ds out = Some (vs, rest) ->
  scan (Conv true width CStr :: ds) (pad true width s ++ out) = Some (VStr s :: vs, rest).
Proof.
  intros [Hl Hn] Hds Hs. cbn [scan].
  pose proof (length_pad true width s) as Hlen.
  rewrite (seek_found _ _ _ _ (Nat.max width (length s)) (vs, rest)).
  - cbn [mbind option_bind]. rewrite take_app_length' by done. unfold pad. by rewrite strip_trailing_app.
  - rewrite length_app. lia.
  - by rewrite drop_app_length' by done.
  - intros j Hj. destruct ds as [|[b|] ds]; try done. unfold starts_space in Hds.
    assert (b = " "%byte) as -> by by destruct b.
    destruct (lookup_lt_is_Some_2 s j ltac:(lia)) as [c Hc].
    unfold pad. replace (width - length s)%nat with 0%nat by lia. cbn [spaces replicate].
    rewrite app_nil_r, drop_app_le, (drop_S _ _ _ Hc) by lia. cbn [app scan].
    rewrite decide_False; [done|]. intros ->. apply Hn. apply list_elem_of_lookup. exists (j - width)%nat.
    rewrite lookup_drop. by replace (width + (j - width))%nat with j by lia.
Qed.

(** One number with its padding. *)
Lemma scan_padded ljust width conv a t rest :
  conv <> CStr -> readable_arg conv width a -> convert conv a = Some t -> no_digit rest ->
  let s := if ljust : bool then pad ljust width t ++ rest else drop_spaces (pad ljust width t ++ rest) in
  exists s', scan_number conv s = Some (reading conv a, s') /\
    (if ljust then drop (width - (length s - length s')) s' else s') = rest.
Proof.
  intros Hc Ha Ht Hr. cbn zeta. unfold pad. destruct ljust.
  - rewrite <- app_assoc. exists (spaces (width - length t) ++ rest). split.
    + apply (scan_convert conv width a); [done..|]. by destruct (width - length t)%nat.
    + rewrite !length_app. replace (width - _)%nat with (width - length t)%nat by lia.
      unfold spaces. by rewrite drop_app_length' by by rewrite length_replicate.
  - rewrite <- app_assoc. destruct (convert_head _ _ _ _ Hc Ha Ht) as (b & t' & -> & Hb).
    cbn [app]. rewrite drop_spaces_app by done. exists rest. split; [|done].
    by apply (scan_convert conv width a (b :: t')).
Qed.

Lemma scan_render ds args t tail :
  readable ds = true -> readable_args ds args -> render ds args = Some t ->
  scan ds (t ++ tail) = Some (readings ds args, tail).
Proof.
  revert args t. induction ds as [|[b|ljust width conv] ds IH]; intros args t Hd Ha Hr.
  - destruct args; [|done]. by injection Hr as <-.
  - cbn in Hr |- *. minv Hr. simplify_eq. cbn [app]. rewrite decide_True by done. by apply IH.
  - destruct args as [|a args]; [done|]. cbn [render readable_args] in Hr, Ha. destruct Ha as [Ha Has].
    minv Hr. minv Hr. simplify_eq. rewrite <- app_assoc. cbn [readings].
    destruct (decide (conv = CStr)) as [->|Hc].
    + destruct a as [s| |]; try done. cbn in E. injection E as <-.
      cbn [readable] in Hd. apply andb_true_iff in Hd as [[Hj Hsp]%andb_true_iff Hd]. destruct ljust; [|done].
      cbn [reading]. apply scan_string; [done|done|]. by apply IH.
    + assert (starts_no_digit ds = true /\ readable ds = true) as [Hn Hrd].
      { destruct conv; [done|..]; by apply andb_true_iff in Hd. }
      destruct (scan_padded ljust width conv a _ (x0 ++ tail) Hc Ha E) as (s' & Hs & Hs').
      { by eapply render_no_digit. }
      assert (forall s, scan (Conv ljust width conv :: ds) s =
        let s1 := if ljust then s else drop_spaces s in
        '(v, s2) ← scan_number conv s1;
        '(vs, rest) ← scan ds (if ljust then drop (width - (length s1 - length s2)) s2 else s2);
        Some (v :: vs, rest)) as Heq by by destruct conv.
      rewrite Heq. cbn zeta. rewrite Hs. cbn [mbind option_bind]. rewrite Hs'.
      by rewrite (IH _ _ Hrd Has E0).
Qed.

(** The round trip of a format that can be read back. *)
Lemma printf_scan format ds args :
  parse_format (length format) format = Some ds -> readable ds = true -> readable_args ds args ->
  exists t, printf format args = Some t /\ scan ds t = Some (readings ds args, []).
Proof.
  intros Hp Hd Ha. destruct (render_defined ds args Ha) as [t Ht]. exists t. unfold printf. rewrite Hp.
  split; [done|]. rewrite <- (app_nil_r t). by apply scan_render.
Qed.
End Printf.
