(* ===== verification/Messages.v ===== *)
(** * itch/types.hpp and itch/messages.hpp: the ITCH 5.0 message types

    Field aliases ([OrderRef], [Price4], [Shares], ...) are [Z]; [char] fields are
    bytes.  [DecodedMessage] carries its payload as a tagged union whose tag is
    the active member, so an accessor for another member is undefined. *)

From S2P Require Import Prelude ByteOrder.

Local Open Scope Z_scope.

(** An enumeration over [char]: a cast of any other character is a valid value
    that no enumerator names. *)
Inductive MessageType :=
  | SystemEvent | StockDirectory | AddOrder | AddOrderMPID | OrderExecuted
  | OrderExecutedWithPrice | OrderCancel | OrderDelete | OrderReplace | Trade
  | Unlisted (c : byte).

#[global] Instance MessageType_eq_dec : EqDecision MessageType.
Proof. solve_decision. Defined.

(** [static_cast<MessageType>(c)]: 'S' 'R' 'A' 'F' 'E' 'C' 'X' 'D' 'U' 'P'. *)
Definition message_type_of_char (c : byte) : MessageType :=
  match c with
  | "S" => SystemEvent
  | "R" => StockDirectory
  | "A" => AddOrder
  | "F" => AddOrderMPID
  | "E" => OrderExecuted
  | "C" => OrderExecutedWithPrice
  | "X" => OrderCancel
  | "D" => OrderDelete
  | "U" => OrderReplace
  | "P" => Trade
  | c => Unlisted c
  end%byte.

Record MessageHeader := {
  type : MessageType;
  stock_locate : Z;
  tracking_number : Z;
  timestamp : Z
}.

(** On-wire length; 0 for an unsupported type. *)
Definition wire_length (t : MessageType) : Z :=
  match t with
  | SystemEvent => 12
  | StockDirectory => 39
  | AddOrder => 36
  | AddOrderMPID => 40
  | OrderExecuted => 31
  | OrderExecutedWithPrice => 36
  | OrderCancel => 23
  | OrderDelete => 19
  | OrderReplace => 35
  | Trade => 44
  | Unlisted _ => 0
  end.

Record SystemEventPayload := { se_event_code : byte }.

Record StockDirectoryPayload := {
  sd_stock : list byte;
  sd_market_category : byte;
  sd_financial_status_indicator : byte;
  sd_round_lot_size : Z;
  sd_round_lots_only : byte;
  sd_issue_classification : byte;
  sd_issue_subtype : list byte;
  sd_authenticity : byte;
  sd_short_sale_threshold_indicator : byte;
  sd_ipo_flag : byte;
  sd_luld_reference_price_tier : byte;
  sd_etp_flag : byte;
  sd_etp_leverage_factor : Z;
  sd_inverse_indicator : byte
}.

Record AddOrderPayload := {
  ao_order_reference_number : Z;
  ao_buy_sell_indicator : byte;
  ao_shares : Z;
  ao_stock : list byte;
  ao_price : Z;
  ao_attribution : list byte
}.

Record OrderExecutedPayload := {
  oe_order_reference_number : Z;
  oe_executed_shares : Z;
  oe_match_number : Z
}.

Record OrderExecutedWithPricePayload := {
  oep_order_reference_number : Z;
  oep_executed_shares : Z;
  oep_match_number : Z;
  oep_printable : byte;
  oep_execution_price : Z
}.

Record OrderCancelPayload := {
  oc_order_reference_number : Z;
  oc_cancelled_shares : Z
}.

Record OrderDeletePayload := { od_order_reference_number : Z }.

Record OrderReplacePayload := {
  or_original_order_reference_number : Z;
  or_new_order_reference_number : Z;
  or_shares : Z;
  or_price : Z
}.

Record TradePayload := {
  tr_order_reference_number : Z;
  tr_buy_sell_indicator : byte;
  tr_shares : Z;
  tr_stock : list byte;
  tr_price : Z;
  tr_match_number : Z
}.

(** [union Payload], by its active member. *)
Inductive Payload :=
  | system_event (p : SystemEventPayload)
  | stock_directory (p : StockDirectoryPayload)
  | add_order (p : AddOrderPayload)
  | order_executed (p : OrderExecutedPayload)
  | order_executed_with_price (p : OrderExecutedWithPricePayload)
  | order_cancel (p : OrderCancelPayload)
  | order_delete (p : OrderDeletePayload)
  | order_replace (p : OrderReplacePayload)
  | trade (p : TradePayload).

Record DecodedMessage := { header : MessageHeader; payload : Payload }.

(** The [as_*] accessors: undefined when the header names another member (the
    debug assertion) or the member is not the active one. *)
Section accessors.
Variable msg : DecodedMessage.

Definition as_system_event : ub SystemEventPayload :=
  match type (header msg), payload msg with
  | SystemEvent, system_event p => Some p | _, _ => None end.
Definition as_stock_directory : ub StockDirectoryPayload :=
  match type (header msg), payload msg with
  | StockDirectory, stock_directory p => Some p | _, _ => None end.
Definition as_add_order : ub AddOrderPayload :=
  match type (header msg), payload msg with
  | (AddOrder | AddOrderMPID), add_order p => Some p | _, _ => None end.
Definition as_order_executed : ub OrderExecutedPayload :=
  match type (header msg), payload msg with
  | OrderExecuted, order_executed p => Some p | _, _ => None end.
Definition as_order_executed_with_price : ub OrderExecutedWithPricePayload :=
  match type (header msg), payload msg with
  | OrderExecutedWithPrice, order_executed_with_price p => Some p | _, _ => None end.
Definition as_order_cancel : ub OrderCancelPayload :=
  match type (header msg), payload msg with
  | OrderCancel, order_cancel p => Some p | _, _ => None end.
Definition as_order_delete : ub OrderDeletePayload :=
  match type (header msg), payload msg with
  | OrderDelete, order_delete p => Some p | _, _ => None end.
Definition as_order_replace : ub OrderReplacePayload :=
  match type (header msg), payload msg with
  | OrderReplace, order_replace p => Some p | _, _ => None end.
Definition as_trade : ub TradePayload :=
  match type (header msg), payload msg with
  | Trade, trade p => Some p | _, _ => None end.
End accessors.

(** The union's safety contract: the active member is the one the header names. *)
Definition payload_matches (msg : DecodedMessage) : Prop :=
  match type (header msg), payload msg with
  | SystemEvent, system_event _
  | StockDirectory, stock_directory _
  | AddOrder, add_order _
  | AddOrderMPID, add_order _
  | OrderExecuted, order_executed _
  | OrderExecutedWithPrice, order_executed_with_price _
  | OrderCancel, order_cancel _
  | OrderDelete, order_delete _
  | OrderReplace, order_replace _
  | Trade, trade _ => True
  | _, _ => False
  end.
