(* ===== verification/Decode.v ===== *)
(** * itch/decode.cpp: the ITCH 5.0 message decoder

    [decode] is translated function by function.  It is total (no read leaves the
    span), returns no message exactly for an empty span, an unsupported type or a
    span shorter than the type's wire length, never looks past that length, and
    always activates the union member that the header names. *)

From S2P Require Import Prelude ByteOrder Messages.

Local Open Scope Z_scope.

Definition read_char (raw : list byte) (p : nat) : ub byte := raw !! p.

Fixpoint read_chars (raw : list byte) (p n : nat) : ub (list byte) :=
  match n with
  | O => Some []
  | S n' =>
      c ← read_char raw p;
      rest ← read_chars raw (p + 1) n';
      Some (c :: rest)
  end.

Definition decode_header (raw : list byte) (t : MessageType) : ub MessageHeader :=
  locate ← read_u16_be raw 1;
  tracking ← read_u16_be raw 3;
  ts ← read_u48_be raw 5;
  Some {| type := t; stock_locate := locate; tracking_number := tracking; timestamp := ts |}.

Definition decode_system_event (raw : list byte) : ub DecodedMessage :=
  h ← decode_header raw SystemEvent;
  c ← read_char raw 11;
  Some {| header := h; payload := system_event {| se_event_code := c |} |}.

Definition decode_stock_directory (raw : list byte) : ub DecodedMessage :=
  h ← decode_header raw StockDirectory;
  stock ← read_chars raw 11 8;
  market_category ← read_char raw 19;
  financial_status_indicator ← read_char raw 20;
  round_lot_size ← read_u32_be raw 21;
  round_lots_only ← read_char raw 25;
  issue_classification ← read_char raw 26;
  issue_subtype ← read_chars raw 27 2;
  authenticity ← read_char raw 29;
  short_sale_threshold_indicator ← read_char raw 30;
  ipo_flag ← read_char raw 31;
  luld_reference_price_tier ← read_char raw 32;
  etp_flag ← read_char raw 33;
  etp_leverage_factor ← read_u32_be raw 34;
  inverse_indicator ← read_char raw 38;
  Some {| header := h; payload := stock_directory {|
    sd_stock := stock;
    sd_market_category := market_category;
    sd_financial_status_indicator := financial_status_indicator;
    sd_round_lot_size := round_lot_size;
    sd_round_lots_only := round_lots_only;
    sd_issue_classification := issue_classification;
    sd_issue_subtype := issue_subtype;
    sd_authenticity := authenticity;
    sd_short_sale_threshold_indicator := short_sale_threshold_indicator;
    sd_ipo_flag := ipo_flag;
    sd_luld_reference_price_tier := luld_reference_price_tier;
    sd_etp_flag := etp_flag;
    sd_etp_leverage_factor := etp_leverage_factor;
    sd_inverse_indicator := inverse_indicator |} |}.

Definition decode_add_order (raw : list byte) (t : MessageType) : ub DecodedMessage :=
  h ← decode_header raw t;
  ref ← read_u64_be raw 11;
  side ← read_char raw 19;
  shares ← read_u32_be raw 20;
  stock ← read_chars raw 24 8;
  price ← read_u32_be raw 32;
  attribution ←
    (if decide (t = AddOrderMPID) then read_chars raw 36 4
     else Some [x00; x00; x00; x00]);
  Some {| header := h; payload := add_order {|
    ao_order_reference_number := ref;
    ao_buy_sell_indicator := side;
    ao_shares := shares;
    ao_stock := stock;
    ao_price := price;
    ao_attribution := attribution |} |}.

Definition decode_order_executed (raw : list byte) : ub DecodedMessage :=
  h ← decode_header raw OrderExecuted;
  ref ← read_u64_be raw 11;
  executed ← read_u32_be raw 19;
  match_number ← read_u64_be raw 23;
  Some {| header := h; payload := order_executed {|
    oe_order_reference_number := ref;
    oe_executed_shares := executed;
    oe_match_number := match_number |} |}.

Definition decode_order_executed_with_price (raw : list byte) : ub DecodedMessage :=
  h ← decode_header raw OrderExecutedWithPrice;
  ref ← read_u64_be raw 11;
  executed ← read_u32_be raw 19;
  match_number ← read_u64_be raw 23;
  printable ← read_char raw 31;
  execution_price ← read_u32_be raw 32;
  Some {| header := h; payload := order_executed_with_price {|
    oep_order_reference_number := ref;
    oep_executed_shares := executed;
    oep_match_number := match_number;
    oep_printable := printable;
    oep_execution_price := execution_price |} |}.

Definition decode_order_cancel (raw : list byte) : ub DecodedMessage :=
  h ← decode_header raw OrderCancel;
  ref ← read_u64_be raw 11;
  cancelled ← read_u32_be raw 19;
  Some {| header := h; payload := order_cancel {|
    oc_order_reference_number := ref;
    oc_cancelled_shares := cancelled |} |}.

Definition decode_order_delete (raw : list byte) : ub DecodedMessage :=
  h ← decode_header raw OrderDelete;
  ref ← read_u64_be raw 11;
  Some {| header := h; payload := order_delete {| od_order_reference_number := ref |} |}.

Definition decode_order_replace (raw : list byte) : ub DecodedMessage :=
  h ← decode_header raw OrderReplace;
  original ← read_u64_be raw 11;
  new ← read_u64_be raw 19;
  shares ← read_u32_be raw 27;
  price ← read_u32_be raw 31;
  Some {| header := h; payload := order_replace {|
    or_original_order_reference_number := original;
    or_new_order_reference_number := new;
    or_shares := shares;
    or_price := price |} |}.

Definition decode_trade (raw : list byte) : ub DecodedMessage :=
  h ← decode_header raw Trade;
  ref ← read_u64_be raw 11;
  side ← read_char raw 19;
  shares ← read_u32_be raw 20;
  stock ← read_chars raw 24 8;
  price ← read_u32_be raw 32;
  match_number ← read_u64_be raw 36;
  Some {| header := h; payload := trade {|
    tr_order_reference_number := ref;
    tr_buy_sell_indicator := side;
    tr_shares := shares;
    tr_stock := stock;
    tr_price := price;
    tr_match_number := match_number |} |}.

(** The inner [option] is [std::optional]. *)
Definition decode (raw : list byte) : ub (option DecodedMessage) :=
  match raw with
  | [] => Some None
  | _ :: _ =>
      c ← read_char raw 0;
      let t := message_type_of_char c in
      let required := wire_length t in
      if (required =? 0) || (Z.of_nat (length raw) <? required) then Some None
      else
        match t with
        | SystemEvent => Some <$> decode_system_event raw
        | StockDirectory => Some <$> decode_stock_directory raw
        | AddOrder | AddOrderMPID => Some <$> decode_add_order raw t
        | OrderExecuted => Some <$> decode_order_executed raw
        | OrderExecutedWithPrice => Some <$> decode_order_executed_with_price raw
        | OrderCancel => Some <$> decode_order_cancel raw
        | OrderDelete => Some <$> decode_order_delete raw
        | OrderReplace => Some <$> decode_order_replace raw
        | Trade => Some <$> decode_trade raw
        | Unlisted _ => Some None
        end
  end.

(** ** Reading in range *)

Lemma read_chars_spec raw p n :
  (p + n <= length raw)%nat -> read_chars raw p n = Some (window raw p n).
Proof.
  revert p. induction n as [|n IH]; intros p Hl; [done|].
  destruct (lookup_lt_is_Some_2 raw p) as [c Hc]; [lia|].
  cbn [read_chars]. unfold read_char. rewrite Hc. cbn [mbind option_bind].
  rewrite IH by lia. cbn [mbind option_bind]. by rewrite (window_cons _ _ _ c).
Qed.

Lemma read_char_spec raw p :
  (p < length raw)%nat -> exists c, read_char raw p = Some c.
Proof. apply lookup_lt_is_Some_2. Qed.

(** Runs the reads of a decoder on a span known to be long enough. *)
Ltac reads :=
  repeat first
    [ rewrite read_u16_be_spec by (cbn; lia) | rewrite read_u32_be_spec by (cbn; lia)
    | rewrite read_u48_be_spec by (cbn; lia) | rewrite read_u64_be_spec by (cbn; lia)
    | rewrite read_chars_spec by (cbn; lia)
    | match goal with
      | |- context [read_char ?raw ?p] =>
          let c := fresh "c" in let Hc := fresh "Hc" in
          destruct (read_char_spec raw p) as [c Hc]; [cbn; lia|]; rewrite Hc
      end
    | progress cbn [mbind option_bind fmap option_fmap option_map] ].

Ltac decoders :=
  unfold decode_system_event, decode_stock_directory, decode_add_order, decode_order_executed,
    decode_order_executed_with_price, decode_order_cancel, decode_order_delete,
    decode_order_replace, decode_trade, decode_header.

(** A span of the wire length decodes to a message whose header is the common
    header at offset 0 and whose payload is the member the type names. *)
Lemma decode_supported raw c :
  raw !! 0%nat = Some c -> wire_length (message_type_of_char c) <> 0 ->
  wire_length (message_type_of_char c) <= Z.of_nat (length raw) ->
  exists msg, decode raw = Some (Some msg) /\ payload_matches msg /\
    header msg = {| type := message_type_of_char c;
                    stock_locate := be_value (window raw 1 2);
                    tracking_number := be_value (window raw 3 2);
                    timestamp := be_value (window raw 5 6) |}.
Proof.
  intros Hc Hw Hl. destruct raw as [|c' raw']; [done|]. cbn in Hc. simplify_eq.
  unfold decode. cbn [read_char mbind option_bind lookup list_lookup].
  rewrite (proj2 (Z.eqb_neq _ _) Hw), (proj2 (Z.ltb_ge _ _) Hl). cbn [orb].
  set (raw := c :: raw') in *. clearbody raw. decoders.
  destruct (message_type_of_char c) eqn:Ht; cbn [wire_length] in *; reads;
    try (rewrite decide_True by done); try (rewrite decide_False by done); reads;
    try (eexists; split; [reflexivity|split; [exact I|reflexivity]]).
  done.
Qed.

Lemma decode_rejects raw :
  raw = [] \/ (exists c, raw !! 0%nat = Some c /\
    (wire_length (message_type_of_char c) = 0 \/
     Z.of_nat (length raw) < wire_length (message_type_of_char c))) ->
  decode raw = Some None.
Proof.
  intros [->|(c & Hc & Hw)]; [done|]. destruct raw as [|c' raw']; [done|]. cbn in Hc. simplify_eq.
  unfold decode. cbn [read_char mbind option_bind lookup list_lookup].
  destruct Hw as [->|Hl]; [done|]. rewrite (proj2 (Z.ltb_lt _ _) Hl). by rewrite orb_true_r.
Qed.
