(* ===== verification/OrderBook.v ===== *)
(** * book/: orders, price levels and the limit order book

    [Order] and [PriceLevel] are the records of book/order.hpp and
    book/price_level.hpp, [OrderBook] is the class of book/order_book.hpp and the
    functions follow book/order_book.cpp.  The orders live in the pool, so an
    [Order*] is a slot number; a [PriceLevel*] is a [LevelRef]: a slot of the
    flat array or a node of the fallback [std::map] (both are address-stable).
    This file only holds definitions; BookRefinement.v proves them correct. *)

From S2P Require Import Prelude HashMap IntrusiveList ObjectPool ByteOrder Messages.

Local Open Scope Z_scope.

(** [static_cast<std::int64_t>]. *)
Definition i64 (x : Z) : Z := (x + 2 ^ 63) mod 2 ^ 64 - 2 ^ 63.

(** A [PriceLevel*]. *)
Inductive LevelRef := FlatLevel (index : nat) | OutlierLevel (key : Z).

#[global] Instance LevelRef_eq_dec : EqDecision LevelRef.
Proof. solve_decision. Defined.

Record Order := MkOrder {
  order_ref : Z;
  price : Z;
  shares : Z;
  is_buy : bool;
  trader_id : Z;
  order_prev : ptr;
  order_next : ptr;
  level : option LevelRef
}.

Definition default_order : Order := MkOrder 0 0 0 false 0 None None None.

Definition set_shares (s : Z) (o : Order) : Order :=
  MkOrder (order_ref o) (price o) s (is_buy o) (trader_id o) (order_prev o) (order_next o) (level o).

(** The six assignments of [add_order]; the links are left as they are. *)
Definition init_order (ref p s : Z) (buy : bool) (trader : Z) (lr : LevelRef) (o : Order) : Order :=
  MkOrder ref p s buy trader (order_prev o) (order_next o) (Some lr).

#[global] Program Instance order_node : IntrusiveListNode Order := {|
  prev := order_prev;
  next := order_next;
  set_prev p o := MkOrder (order_ref o) (price o) (shares o) (is_buy o) (trader_id o) p
                    (order_next o) (level o);
  set_next p o := MkOrder (order_ref o) (price o) (shares o) (is_buy o) (trader_id o)
                    (order_prev o) p (level o)
|}.
Solve Obligations with (by intros; repeat match goal with o : Order |- _ => destruct o end).

Record PriceLevel := MkLevel {
  level_price : Z;
  bids : IList.t;
  asks : IList.t;
  total_bid_shares : Z;
  total_ask_shares : Z
}.

Definition default_level : PriceLevel := MkLevel 0 IList.empty_list IList.empty_list 0 0.

(** [PriceLevel::empty]. *)
Definition level_empty (lv : PriceLevel) : bool :=
  IList.is_empty (bids lv) && IList.is_empty (asks lv).

Record OrderBook := MkBook {
  reference_price_ : Z;
  flat_array_half_width_ : Z;
  flat_levels_ : list PriceLevel;
  outlier_levels_ : gmap Z PriceLevel;
  order_pool_ : Pool.t Order;
  order_index_ : OAMap.t Z ptr;
  has_best_bid_ : bool;
  best_bid_price_ : Z;
  has_best_ask_ : bool;
  best_ask_price_ : Z
}.

(** ** Field updates *)

Definition with_flat (b : OrderBook) (fl : list PriceLevel) : OrderBook :=
  MkBook (reference_price_ b) (flat_array_half_width_ b) fl (outlier_levels_ b) (order_pool_ b)
    (order_index_ b) (has_best_bid_ b) (best_bid_price_ b) (has_best_ask_ b) (best_ask_price_ b).
Definition with_outliers (b : OrderBook) (ol : gmap Z PriceLevel) : OrderBook :=
  MkBook (reference_price_ b) (flat_array_half_width_ b) (flat_levels_ b) ol (order_pool_ b)
    (order_index_ b) (has_best_bid_ b) (best_bid_price_ b) (has_best_ask_ b) (best_ask_price_ b).
Definition with_pool (b : OrderBook) (p : Pool.t Order) : OrderBook :=
  MkBook (reference_price_ b) (flat_array_half_width_ b) (flat_levels_ b) (outlier_levels_ b) p
    (order_index_ b) (has_best_bid_ b) (best_bid_price_ b) (has_best_ask_ b) (best_ask_price_ b).
Definition with_index (b : OrderBook) (ix : OAMap.t Z ptr) : OrderBook :=
  MkBook (reference_price_ b) (flat_array_half_width_ b) (flat_levels_ b) (outlier_levels_ b)
    (order_pool_ b) ix (has_best_bid_ b) (best_bid_price_ b) (has_best_ask_ b) (best_ask_price_ b).
Definition with_best_bid (b : OrderBook) (has : bool) (p : Z) : OrderBook :=
  MkBook (reference_price_ b) (flat_array_half_width_ b) (flat_levels_ b) (outlier_levels_ b)
    (order_pool_ b) (order_index_ b) has p (has_best_ask_ b) (best_ask_price_ b).
Definition with_best_ask (b : OrderBook) (has : bool) (p : Z) : OrderBook :=
  MkBook (reference_price_ b) (flat_array_half_width_ b) (flat_levels_ b) (outlier_levels_ b)
    (order_pool_ b) (order_index_ b) (has_best_bid_ b) (best_bid_price_ b) has p.

(** ** One side of a level, of the book *)

Definition queue (buy : bool) (lv : PriceLevel) : IList.t := if buy then bids lv else asks lv.
Definition total (buy : bool) (lv : PriceLevel) : Z :=
  if buy then total_bid_shares lv else total_ask_shares lv.

(** [level->bids = q; level->total_bid_shares = s], or the ask members. *)
Definition set_side (buy : bool) (lv : PriceLevel) (q : IList.t) (s : Z) : PriceLevel :=
  if buy then MkLevel (level_price lv) q (asks lv) s (total_ask_shares lv)
  else MkLevel (level_price lv) (bids lv) q (total_bid_shares lv) s.

(** Reading and writing through a [PriceLevel*]. *)
Definition get_level (b : OrderBook) (lr : LevelRef) : option PriceLevel :=
  match lr with
  | FlatLevel i => flat_levels_ b !! i
  | OutlierLevel k => outlier_levels_ b !! k
  end.

Definition set_level (b : OrderBook) (lr : LevelRef) (lv : PriceLevel) : OrderBook :=
  match lr with
  | FlatLevel i => with_flat b (<[i := lv]> (flat_levels_ b))
  | OutlierLevel k => with_outliers b (<[k := lv]> (outlier_levels_ b))
  end.

(** ** Construction *)

Definition flat_price (reference half_width : Z) (i : nat) : Z :=
  let offset := i64 (Z.of_nat i) - i64 half_width in
  u32 (i64 reference + offset).

Definition make (reference_price half_width order_capacity : Z) : ub OrderBook :=
  index ← OAMap.make order_capacity;
  let n := Z.to_nat (u64 (2 * half_width + 1)) in
  Some (MkBook reference_price half_width
          (imap (fun i lv => MkLevel (flat_price reference_price half_width i)
                               (bids lv) (asks lv) (total_bid_shares lv) (total_ask_shares lv))
             (replicate n default_level))
          ∅ (Pool.make order_capacity) index false 0 false 0).

(** ** Level lookup *)

(** [bool flat_index_for(price, out_index)]: the index when it returns true. *)
Definition flat_index_for (b : OrderBook) (p : Z) : option nat :=
  let offset := i64 p - i64 (reference_price_ b) in
  let half_width := i64 (flat_array_half_width_ b) in
  if (offset <? - half_width) || (half_width <? offset) then None
  else Some (Z.to_nat (offset + half_width)).

Definition level_for_mutation (b : OrderBook) (p : Z) : OrderBook * LevelRef :=
  match flat_index_for b p with
  | Some i => (b, FlatLevel i)
  | None =>
      match outlier_levels_ b !! p with
      | Some _ => (b, OutlierLevel p)
      | None =>
          (with_outliers b (<[p := MkLevel p IList.empty_list IList.empty_list 0 0]>
                              (outlier_levels_ b)), OutlierLevel p)
      end
  end.

Definition level_for_query (b : OrderBook) (p : Z) : option LevelRef :=
  match flat_index_for b p with
  | Some i => Some (FlatLevel i)
  | None => match outlier_levels_ b !! p with Some _ => Some (OutlierLevel p) | None => None end
  end.

(** ** Best prices *)

Definition update_best_on_add (b : OrderBook) (p : Z) (buy : bool) : OrderBook :=
  if buy then
    if negb (has_best_bid_ b) || (best_bid_price_ b <? p) then with_best_bid b true p else b
  else
    if negb (has_best_ask_ b) || (p <? best_ask_price_ b) then with_best_ask b true p else b.

(** The flat-array loops: downwards for bids, upwards for asks; the price of the
    first level that passes the test. *)
Definition scan_flat (buy : bool) (test : PriceLevel -> bool) (fl : list PriceLevel) : option Z :=
  level_price <$> List.find test (if buy then reverse fl else fl).

(** [std::map] iterates in increasing key order. *)
Definition key_le (x y : Z * PriceLevel) : Prop := x.1 <= y.1.
#[global] Instance key_le_dec x y : Decision (key_le x y) := Z_le_dec _ _.
Definition map_entries (m : gmap Z PriceLevel) : list (Z * PriceLevel) :=
  merge_sort key_le (map_to_list m).

Definition better (buy : bool) (p q : Z) : bool := if buy then q <? p else p <? q.

Definition scan_outliers (buy : bool) (skip : Z -> bool) (m : gmap Z PriceLevel) : option Z :=
  foldl (fun best '(p, lv) =>
    if skip p then best
    else if total buy lv =? 0 then best
    else match best with
         | None => Some p
         | Some q => if better buy p q then Some p else best
         end) None (map_entries m).

Definition pick (buy : bool) (in_flat in_outliers : option Z) : option Z :=
  match in_flat, in_outliers with
  | Some f, Some o => Some (if buy then Z.max f o else Z.min f o)
  | Some f, None => Some f
  | None, o => o
  end.

Definition recompute_best_after_level_emptied (b : OrderBook) (buy : bool) : OrderBook :=
  let in_flat := scan_flat buy (fun lv => 0 <? total buy lv) (flat_levels_ b) in
  let in_outliers := scan_outliers buy (fun _ => false) (outlier_levels_ b) in
  match pick buy in_flat in_outliers with
  | Some p => if buy then with_best_bid b true p else with_best_ask b true p
  | None => if buy then with_best_bid b false (best_bid_price_ b)
            else with_best_ask b false (best_ask_price_ b)
  end.

(** ** Removing and adding orders *)

(** Links or unlinks a node on one side of the level [lr]. *)
Definition level_push_back (b : OrderBook) (lr : LevelRef) (buy : bool) (order : nat) (added : Z)
    : ub OrderBook :=
  lv ← get_level b lr;
  '(pool, q) ← IList.push_back (order_pool_ b) (queue buy lv) order;
  Some (set_level (with_pool b pool) lr (set_side buy lv q (total buy lv +u32 added))).

Definition level_remove (b : OrderBook) (lr : LevelRef) (buy : bool) (order : nat) (removed : Z)
    : ub OrderBook :=
  lv ← get_level b lr;
  '(pool, q) ← IList.remove (order_pool_ b) (queue buy lv) order;
  Some (set_level (with_pool b pool) lr (set_side buy lv q (total buy lv -u32 removed))).

Definition remove_order_fully (b : OrderBook) (order : nat) : ub OrderBook :=
  o ← load (order_pool_ b) order;
  lr ← level o;
  let buy := is_buy o in
  let p := price o in
  let remaining := shares o in
  b ← level_remove b lr buy order remaining;
  o ← load (order_pool_ b) order;
  '(index, _) ← OAMap.erase (order_index_ b) (order_ref o);
  let b := with_index b index in
  pool ← Pool.release (order_pool_ b) order;
  let b := with_pool b pool in
  lv ← get_level b lr;
  if negb (IList.is_empty (queue buy lv)) then Some b
  else
    let was_best := if buy then has_best_bid_ b && (p =? best_bid_price_ b)
                    else has_best_ask_ b && (p =? best_ask_price_ b) in
    if was_best then Some (recompute_best_after_level_emptied b buy) else Some b.

Definition add_order (b : OrderBook) (ref p s : Z) (buy : bool) (trader : Z)
    : ub (OrderBook * bool) :=
  if s =? 0 then Some (b, false)
  else
    existing ← OAMap.find (order_index_ b) ref;
    match existing with
    | Some _ => Some (b, false)
    | None =>
        '(pool, acquired) ← Pool.acquire (order_pool_ b) default_order;
        match acquired with
        | None => Some (with_pool b pool, false)
        | Some order =>
            let b := with_pool b pool in
            let '(b, lr) := level_for_mutation b p in
            pool ← modify (order_pool_ b) order (init_order ref p s buy trader lr);
            b ← level_push_back (with_pool b pool) lr buy order s;
            '(index, inserted) ← OAMap.insert (order_index_ b) ref (Some order);
            let b := with_index b index in
            if negb inserted then
              b ← level_remove b lr buy order s;
              pool ← Pool.release (order_pool_ b) order;
              Some (with_pool b pool, false)
            else Some (update_best_on_add b p buy, true)
        end
    end.

(** [*slot] for the [Order**] that [find] returned. *)
Definition deref_slot (b : OrderBook) (slot : nat) : ub nat :=
  v ← OAMap.deref (order_index_ b) slot; v.

Definition reduce_shares (b : OrderBook) (ref delta : Z) : ub (OrderBook * bool) :=
  slot ← OAMap.find (order_index_ b) ref;
  match slot with
  | None => Some (b, false)
  | Some slot =>
      order ← deref_slot b slot;
      o ← load (order_pool_ b) order;
      if (delta =? 0) || (shares o <? delta) then Some (b, false)
      else
        pool ← modify (order_pool_ b) order (fun o => set_shares (shares o -u32 delta) o);
        let b := with_pool b pool in
        lr ← level o;
        lv ← get_level b lr;
        let b := set_level b lr
                   (set_side (is_buy o) lv (queue (is_buy o) lv) (total (is_buy o) lv -u32 delta)) in
        o ← load (order_pool_ b) order;
        if shares o =? 0 then b ← remove_order_fully b order; Some (b, true)
        else Some (b, true)
  end.

Definition execute_order (b : OrderBook) (ref executed_shares : Z) : ub (OrderBook * bool) :=
  reduce_shares b ref executed_shares.

Definition cancel_order (b : OrderBook) (ref cancelled_shares : Z) : ub (OrderBook * bool) :=
  reduce_shares b ref cancelled_shares.

Definition delete_order (b : OrderBook) (ref : Z) : ub (OrderBook * bool) :=
  slot ← OAMap.find (order_index_ b) ref;
  match slot with
  | None => Some (b, false)
  | Some slot =>
      order ← deref_slot b slot;
      b ← remove_order_fully b order;
      Some (b, true)
  end.

Definition replace_order (b : OrderBook) (old_ref new_ref new_shares new_price : Z)
    : ub (OrderBook * bool) :=
  slot ← OAMap.find (order_index_ b) old_ref;
  match slot with
  | None => Some (b, false)
  | Some slot =>
      if new_shares =? 0 then Some (b, false)
      else
        collides ←
          (if old_ref =? new_ref then Some false
           else other ← OAMap.find (order_index_ b) new_ref;
                Some (match other with Some _ => true | None => false end));
        if collides : bool then Some (b, false)
        else
          old_order ← deref_slot b slot;
          o ← load (order_pool_ b) old_order;
          let buy := is_buy o in
          b ← remove_order_fully b old_order;
          add_order b new_ref new_price new_shares buy 0
  end.

(** [ao.buy_sell_indicator == 'B']. *)
Definition is_B (c : byte) : bool := bool_decide (c = "B"%byte).

(** The result of each mutation is discarded. *)
Definition apply (b : OrderBook) (msg : DecodedMessage) : ub OrderBook :=
  match type (header msg) with
  | AddOrder | AddOrderMPID =>
      ao ← as_add_order msg;
      r ← add_order b (ao_order_reference_number ao) (ao_price ao) (ao_shares ao)
            (is_B (ao_buy_sell_indicator ao)) 0;
      Some r.1
  | OrderExecuted =>
      oe ← as_order_executed msg;
      r ← execute_order b (oe_order_reference_number oe) (oe_executed_shares oe);
      Some r.1
  | OrderExecutedWithPrice =>
      oe ← as_order_executed_with_price msg;
      r ← execute_order b (oep_order_reference_number oe) (oep_executed_shares oe);
      Some r.1
  | OrderCancel =>
      oc ← as_order_cancel msg;
      r ← cancel_order b (oc_order_reference_number oc) (oc_cancelled_shares oc);
      Some r.1
  | OrderDelete =>
      od ← as_order_delete msg;
      r ← delete_order b (od_order_reference_number od);
      Some r.1
  | OrderReplace =>
      orep ← as_order_replace msg;
      r ← replace_order b (or_original_order_reference_number orep)
            (or_new_order_reference_number orep) (or_shares orep) (or_price orep);
      Some r.1
  | SystemEvent | StockDirectory | Trade | Unlisted _ => Some b
  end.

(** ** Queries *)

Definition best_bid (b : OrderBook) : option Z :=
  if has_best_bid_ b then Some (best_bid_price_ b) else None.

Definition best_ask (b : OrderBook) : option Z :=
  if has_best_ask_ b then Some (best_ask_price_ b) else None.

Definition shares_at (b : OrderBook) (p : Z) (buy : bool) : ub Z :=
  match level_for_query b p with
  | None => Some 0
  | Some lr => lv ← get_level b lr; Some (total buy lv)
  end.

Definition order_count (b : OrderBook) : Z := OAMap.size (order_index_ b).

Definition best_bid_level (b : OrderBook) : option LevelRef :=
  if has_best_bid_ b then level_for_query b (best_bid_price_ b) else None.

Definition best_ask_level (b : OrderBook) : option LevelRef :=
  if has_best_ask_ b then level_for_query b (best_ask_price_ b) else None.

Definition next_level_after (b : OrderBook) (p : Z) (buy : bool) : option LevelRef :=
  let in_flat := scan_flat buy (fun lv => better buy p (level_price lv) && (0 <? total buy lv))
                   (flat_levels_ b) in
  let in_outliers := scan_outliers buy (fun q => negb (better buy p q)) (outlier_levels_ b) in
  match pick buy in_flat in_outliers with
  | Some result => level_for_query b result
  | None => None
  end.
