(* ===== verification/BookSpec.v ===== *)
(** * What the order book promises: an arrival-ordered list of resting orders

    The abstract state of a book is the list of resting orders in arrival order;
    the queue of a price level is the sublist at that side and price, so
    first-in-first-out priority is the list order.  BookRefinement.v and BookOps.v
    prove that the real book implements these operations, RefBook.v that the
    reference book of the tests does. *)

From S2P Require Import Prelude.

Local Open Scope Z_scope.

Record Rest := MkRest {
  r_ref : Z;
  r_price : Z;
  r_shares : Z;
  r_buy : bool;
  r_trader : Z
}.

#[global] Instance Rest_eq_dec : EqDecision Rest.
Proof. solve_decision. Defined.

Module Spec.

Implicit Types (l : list Rest) (r : Rest).

Definition find_ref (ref : Z) l : option Rest := List.find (fun r => r_ref r =? ref) l.

Definition remove_ref (ref : Z) l : list Rest := filter (fun r => r_ref r <> ref) l.

Definition set_r_shares (s : Z) r : Rest := MkRest (r_ref r) (r_price r) s (r_buy r) (r_trader r).

Definition update_ref (ref s : Z) l : list Rest :=
  (fun r => if r_ref r =? ref then set_r_shares s r else r) <$> l.

(** Adding is refused for zero shares, a live reference or a full book. *)
Definition add (cap : Z) l (ref p s : Z) (buy : bool) (trader : Z) : list Rest * bool :=
  if s =? 0 then (l, false)
  else match find_ref ref l with
       | Some _ => (l, false)
       | None => if Z.of_nat (length l) <? cap then (l ++ [MkRest ref p s buy trader], true)
                 else (l, false)
       end.

Definition reduce l (ref delta : Z) : list Rest * bool :=
  match find_ref ref l with
  | None => (l, false)
  | Some r =>
      if (delta =? 0) || (r_shares r <? delta) then (l, false)
      else if r_shares r =? delta then (remove_ref ref l, true)
      else (update_ref ref (r_shares r - delta) l, true)
  end.

Definition delete l (ref : Z) : list Rest * bool :=
  match find_ref ref l with
  | None => (l, false)
  | Some _ => (remove_ref ref l, true)
  end.

(** A replaced order loses its queue position and its trader. *)
Definition replace l (old_ref new_ref new_shares new_price : Z) : list Rest * bool :=
  match find_ref old_ref l with
  | None => (l, false)
  | Some r =>
      if new_shares =? 0 then (l, false)
      else if negb (old_ref =? new_ref) && bool_decide (is_Some (find_ref new_ref l)) then (l, false)
      else (remove_ref old_ref l ++ [MkRest new_ref new_price new_shares (r_buy r) 0], true)
  end.

(** ** Observables *)

Definition at_level (buy : bool) (p : Z) r : Prop := r_buy r = buy /\ r_price r = p.
#[global] Instance at_level_dec buy p r : Decision (at_level buy p r).
Proof. unfold at_level. apply _. Defined.

Definition queue_at (buy : bool) (p : Z) l : list Rest := filter (at_level buy p) l.
Definition shares_at (buy : bool) (p : Z) l : Z := sumZ r_shares (queue_at buy p l).

Definition improves (buy : bool) (p q : Z) : bool := if buy then q <? p else p <? q.

Definition best (buy : bool) l : option Z :=
  foldr (fun r acc =>
    if Bool.eqb (r_buy r) buy then
      match acc with
      | None => Some (r_price r)
      | Some q => if improves buy (r_price r) q then Some (r_price r) else Some q
      end
    else acc) None l.

(** No level's aggregate leaves 32 bits. *)
Definition fits l : Prop := forall buy p, shares_at buy p l < 2 ^ 32.

(** Every resting order is well formed. *)
Definition order_ok r : Prop :=
  0 <= r_ref r < 2 ^ 64 /\ 0 <= r_price r < 2 ^ 32 /\ 0 < r_shares r < 2 ^ 32 /\
  0 <= r_trader r < 2 ^ 32.

Definition is_best (buy : bool) l (p : Z) : Prop :=
  (exists r, r ∈ l /\ r_buy r = buy /\ r_price r = p) /\
  (forall r, r ∈ l -> r_buy r = buy -> improves buy (r_price r) p = false).

(** ** Facts about the observables *)

Lemma improves_total buy p q : improves buy p q = false -> improves buy q p = false -> p = q.
Proof. unfold improves. destruct buy; lia. Qed.

Lemma improves_trans buy p q s :
  improves buy p q = false -> improves buy q s = false -> improves buy p s = false.
Proof. unfold improves. destruct buy; lia. Qed.

Lemma improves_irrefl buy p : improves buy p p = false.
Proof. unfold improves. destruct buy; lia. Qed.

Lemma improves_asym buy p q : improves buy p q = true -> improves buy q p = false.
Proof. unfold improves. destruct buy; lia. Qed.

Lemma best_Some buy l p : best buy l = Some p -> is_best buy l p.
Proof.
  revert p. induction l as [|r l IH]; intros p; [done|]. cbn [best foldr].
  change (foldr _ None l) with (best buy l).
  destruct (Bool.eqb_spec (r_buy r) buy) as [Hb|Hb].
  - destruct (best buy l) as [q|] eqn:Eq.
    + destruct (IH q eq_refl) as [(r' & Hr' & Hb' & Hp') Hle].
      destruct (improves buy (r_price r) q) eqn:Ei; intros [= <-]; split.
      * exists r. split; [left|done].
      * intros r2 [->|Hr2]%elem_of_cons Hb2; [apply improves_irrefl|].
        eapply improves_trans; [by apply Hle|]. by apply improves_asym.
      * exists r'. split; [by right|done].
      * intros r2 [->|Hr2]%elem_of_cons Hb2; [done|]. by apply Hle.
    + intros [= <-]. split; [exists r; split; [left|done]|].
      intros r2 [->|Hr2]%elem_of_cons Hb2; [apply improves_irrefl|].
      exfalso. revert Eq. clear -Hr2 Hb2. induction l as [|r l IH]; [set_solver|].
      cbn [best foldr]. change (foldr _ None l) with (best buy l).
      apply elem_of_cons in Hr2 as [->|Hr2].
      * rewrite Hb2, eqb_reflx. by destruct (best buy l); [case_match|].
      * destruct (Bool.eqb (r_buy r) buy); [|by apply IH].
        by destruct (best buy l); [case_match|].
  - intros Hp. destruct (IH p Hp) as [(r' & Hr' & Hx) Hle]. split.
    + exists r'. split; [by right|done].
    + intros r2 [->|Hr2]%elem_of_cons Hb2; [done|]. by apply Hle.
Qed.

Lemma best_None buy l : best buy l = None <-> (forall r, r ∈ l -> r_buy r <> buy).
Proof.
  induction l as [|r l IH]; [cbn; set_solver|]. cbn [best foldr].
  change (foldr _ None l) with (best buy l).
  destruct (Bool.eqb_spec (r_buy r) buy) as [Hb|Hb].
  - split; [by destruct (best buy l); [case_match|]|]. intros Hn. exfalso. by apply (Hn r); [left|].
  - rewrite IH. split; [|set_solver]. intros Hn r2 [->|Hr2]%elem_of_cons; [done|]. by apply Hn.
Qed.

Lemma is_best_unique buy l p q : is_best buy l p -> is_best buy l q -> p = q.
Proof.
  intros [(r & Hr & Hb & <-) Hp] [(r' & Hr' & Hb' & <-) Hq].
  by apply (improves_total buy); auto.
Qed.

Lemma best_is_best buy l p : best buy l = Some p <-> is_best buy l p.
Proof.
  split; [apply best_Some|]. intros Hp. destruct (best buy l) as [q|] eqn:Eq.
  - f_equal. eapply is_best_unique; [by apply best_Some|done].
  - destruct Hp as [(r & Hr & Hb & _) _]. by apply (proj1 (best_None _ _) Eq) in Hr.
Qed.

(** [best] only depends on which prices rest on the side. *)
Lemma best_ext buy l l' :
  (forall p, (exists r, r ∈ l /\ r_buy r = buy /\ r_price r = p) <->
             (exists r, r ∈ l' /\ r_buy r = buy /\ r_price r = p)) ->
  best buy l = best buy l'.
Proof.
  intros Hx. apply option_eq. intros p. rewrite !best_is_best. unfold is_best. rewrite Hx.
  assert (forall k k' : list Rest, (forall q, (exists r, r ∈ k /\ r_buy r = buy /\ r_price r = q) ->
             (exists r, r ∈ k' /\ r_buy r = buy /\ r_price r = q)) ->
          (forall r, r ∈ k' -> r_buy r = buy -> improves buy (r_price r) p = false) ->
          (forall r, r ∈ k -> r_buy r = buy -> improves buy (r_price r) p = false)) as Haux.
  { intros k k' Hk Hk' r Hr Hb. destruct (Hk (r_price r)) as (r' & Hr' & Hb' & <-); [by exists r|].
    by apply Hk'. }
  split; intros [He Hall]; (split; [done|]); eapply Haux; try exact Hall; intros; by apply Hx.
Qed.

Lemma find_ref_Some ref l r : find_ref ref l = Some r -> r ∈ l /\ r_ref r = ref.
Proof.
  intros Hf. apply find_some in Hf as [Hin Hr%Z.eqb_eq]. by rewrite list_elem_of_In.
Qed.

Lemma find_ref_None ref l : find_ref ref l = None <-> (forall r, r ∈ l -> r_ref r <> ref).
Proof.
  unfold find_ref. split.
  - intros Hf r Hr. rewrite list_elem_of_In in Hr. by apply (find_none _ _ Hf), Z.eqb_neq in Hr.
  - intros Hn. destruct (List.find _ l) eqn:E; [|done].
    apply find_some in E as [Hin Hr%Z.eqb_eq]. rewrite <- list_elem_of_In in Hin. by apply Hn in Hin.
Qed.

Lemma find_ref_unique ref l r :
  NoDup (r_ref <$> l) -> r ∈ l -> r_ref r = ref -> find_ref ref l = Some r.
Proof.
  intros Hnd Hr He. destruct (find_ref ref l) as [r'|] eqn:E.
  - apply find_ref_Some in E as [Hr' He']. f_equal.
    apply list_elem_of_lookup in Hr as [i Hi]. apply list_elem_of_lookup in Hr' as [j Hj].
    assert (i = j); [|naive_solver]. eapply (NoDup_lookup (r_ref <$> l)); [done| |].
    + rewrite list_lookup_fmap, Hi. reflexivity.
    + rewrite list_lookup_fmap, Hj. cbn. congruence.
  - by apply (proj1 (find_ref_None _ _) E) in Hr.
Qed.

(** ** How [best] reacts to one order leaving or arriving *)

Lemma best_remove_other buy l1 r l2 :
  r_buy r <> buy -> best buy (l1 ++ r :: l2) = best buy (l1 ++ l2).
Proof.
  intros Hb. apply best_ext. intros p. split; intros (r' & Hr' & Hb' & Hp').
  - exists r'. split; [|done]. assert (r' <> r) by congruence. set_solver.
  - exists r'. split; [|done]. set_solver.
Qed.

Lemma best_remove_dup l1 r l2 r2 :
  r2 ∈ l1 ++ l2 -> r_buy r2 = r_buy r -> r_price r2 = r_price r ->
  forall buy, best buy (l1 ++ r :: l2) = best buy (l1 ++ l2).
Proof.
  intros Hr2 Hb2 Hp2 buy. apply best_ext. intros p. split; intros (r' & Hr' & Hb' & Hp').
  - apply elem_of_app in Hr' as [Hr'|[->|Hr']%elem_of_cons].
    + exists r'. split; [set_solver|done].
    + exists r2. split; [done|]. split; congruence.
    + exists r'. split; [set_solver|done].
  - exists r'. split; [set_solver|done].
Qed.

Lemma best_remove_worse buy l1 r l2 :
  best buy (l1 ++ r :: l2) <> Some (r_price r) ->
  best buy (l1 ++ r :: l2) = best buy (l1 ++ l2).
Proof.
  intros Hp. destruct (best buy (l1 ++ r :: l2)) as [p|] eqn:E; symmetry.
  - apply best_is_best. apply best_is_best in E as [(r' & Hr' & Hb' & <-) Hall]. split.
    + exists r'. split; [|done]. assert (r' <> r) by congruence. set_solver.
    + intros r2 Hr2. apply Hall. set_solver.
  - rewrite best_None in E |- *. intros r' Hr'. apply E. set_solver.
Qed.

Lemma best_add buy l r :
  best buy (l ++ [r]) =
    if Bool.eqb (r_buy r) buy then
      match best buy l with
      | None => Some (r_price r)
      | Some q => if improves buy (r_price r) q then Some (r_price r) else Some q
      end
    else best buy l.
Proof.
  destruct (Bool.eqb_spec (r_buy r) buy) as [Hb|Hb].
  2:{ rewrite best_remove_other by done. by rewrite app_nil_r. }
  destruct (best buy l) as [q|] eqn:E.
  - apply best_is_best in E as [(r' & Hr' & Hb' & <-) Hall].
    destruct (improves buy (r_price r) (r_price r')) eqn:Ei; apply best_is_best; split.
    + exists r. set_solver.
    + intros r2 [Hr2| ->%list_elem_of_singleton]%elem_of_app Hb2; [|apply improves_irrefl].
      eapply improves_trans; [by apply Hall|]. by apply improves_asym.
    + exists r'. set_solver.
    + intros r2 [Hr2| ->%list_elem_of_singleton]%elem_of_app Hb2; [by apply Hall|done].
  - rewrite best_None in E. apply best_is_best. split; [exists r; set_solver|].
    intros r2 [Hr2| ->%list_elem_of_singleton]%elem_of_app Hb2; [by apply E in Hr2|].
    apply improves_irrefl.
Qed.

Lemma best_update_shares buy l1 r l2 s :
  best buy (l1 ++ set_r_shares s r :: l2) = best buy (l1 ++ r :: l2).
Proof.
  apply best_ext. intros p. split; intros (r' & Hr' & Hb' & Hp');
    apply elem_of_app in Hr' as [Hr'|[->|Hr']%elem_of_cons].
  - exists r'. set_solver.
  - exists r. set_solver.
  - exists r'. set_solver.
  - exists r'. set_solver.
  - exists (set_r_shares s r). set_solver.
  - exists r'. set_solver.
Qed.

End Spec.
