(* ===== verification/BookInvariant.v ===== *)
(** * The order book's representation invariant

    [core b L free] relates the concrete book to the ghost list [L] of resting
    orders, each with its pool slot, in arrival order: pool, index map, price
    levels, their queues and their running totals all agree with [L].  [exact]
    says the cached best prices are the best prices of [L]; [weak] is what
    survives when a level's 32-bit total wraps.  The lemmas here say what the
    building blocks of book/order_book.cpp do to these relations. *)

From S2P Require Import Prelude HashMap IntrusiveList ObjectPool OrderBook BookSpec.

Local Open Scope Z_scope.

Implicit Types (b : OrderBook) (L : list (nat * Rest)) (r : Rest) (lr : LevelRef) (lv : PriceLevel).

(** The level a price belongs to. *)
Definition lref b (p : Z) : LevelRef :=
  match flat_index_for b p with Some i => FlatLevel i | None => OutlierLevel p end.

Record geom b : Prop := {
  g_ref : 0 <= reference_price_ b < 2 ^ 32;
  g_hw : 0 <= flat_array_half_width_ b < 2 ^ 62;
  g_len : Z.of_nat (length (flat_levels_ b)) = 2 * flat_array_half_width_ b + 1;
  g_flat : forall i lv, flat_levels_ b !! i = Some lv ->
    level_price lv = u32 (reference_price_ b + (Z.of_nat i - flat_array_half_width_ b));
  g_out : forall k lv, outlier_levels_ b !! k = Some lv ->
    level_price lv = k /\ flat_index_for b k = None
}.

(** The resting orders of one side of one level. *)
Definition on_side b lr (buy : bool) (x : nat * Rest) : Prop :=
  r_buy x.2 = buy /\ lref b (r_price x.2) = lr.
#[global] Instance on_side_dec b lr buy x : Decision (on_side b lr buy x).
Proof. unfold on_side. apply _. Defined.

Definition ids b lr buy L : list nat := (filter (on_side b lr buy) L).*1.
Definition sum_side b lr buy L : Z := sumZ (fun x => r_shares x.2) (filter (on_side b lr buy) L).

Definition levels_ok b L : Prop :=
  forall lr lv buy, get_level b lr = Some lv ->
    IList.is_list (order_pool_ b) (queue buy lv) (ids b lr buy L) /\
    total buy lv = u32 (sum_side b lr buy L).

Record matches (o : Order) r lr : Prop := {
  m_ref : order_ref o = r_ref r;
  m_price : price o = r_price r;
  m_shares : shares o = r_shares r;
  m_buy : is_buy o = r_buy r;
  m_trader : trader_id o = r_trader r;
  m_level : level o = Some lr
}.

Definition orders_ok b L : Prop :=
  forall i r, (i, r) ∈ L -> exists o, load (order_pool_ b) i = Some o /\
    matches o r (lref b (r_price r)) /\ is_Some (get_level b (lref b (r_price r))).

Definition index_map L : gmap Z ptr := list_to_map ((fun x => (r_ref x.2, Some x.1)) <$> L).

Record index_ok b L : Prop := {
  ix_wf : OAMap.wf (order_index_ b);
  ix_map : OAMap.to_map (order_index_ b) = index_map L;
  ix_cap : Pool.capacity_ (order_pool_ b) <= OAMap.capacity_ (order_index_ b)
}.

Record core b L (free : list nat) : Prop := {
  c_geom : geom b;
  c_pool : Pool.wf (order_pool_ b) free;
  c_index : index_ok b L;
  c_levels : levels_ok b L;
  c_orders : orders_ok b L;
  c_ptrs : NoDup L.*1;
  c_refs : NoDup (r_ref <$> L.*2);
  c_count : Z.of_nat (length L) + Z.of_nat (length free) = Pool.capacity_ (order_pool_ b);
  c_prices : forall x, x ∈ L -> 0 <= r_price x.2 < 2 ^ 32
}.

Definition cached b (buy : bool) : option Z := if buy then best_bid b else best_ask b.

Definition weak b L : Prop :=
  forall buy p, cached b buy = Some p -> exists x, x ∈ L /\ r_buy x.2 = buy /\ r_price x.2 = p.

Definition exact b L : Prop := forall buy, cached b buy = Spec.best buy L.*2.

Definition positive L : Prop := forall x, x ∈ L -> 0 < r_shares x.2 < 2 ^ 32.

(** ** Level references *)

Lemma i64_small (x : Z) : - 2 ^ 63 <= x < 2 ^ 63 -> i64 x = x.
Proof. intros. unfold i64. rewrite Z.mod_small by lia. lia. Qed.

Lemma flat_index_Some b p i :
  geom b -> 0 <= p < 2 ^ 32 ->
  flat_index_for b p = Some i <->
  Z.of_nat i = p - reference_price_ b + flat_array_half_width_ b /\
  0 <= p - reference_price_ b + flat_array_half_width_ b <= 2 * flat_array_half_width_ b.
Proof.
  intros Hg Hp. pose proof (g_ref _ Hg). pose proof (g_hw _ Hg). unfold flat_index_for.
  rewrite !i64_small by lia.
  destruct (Z.ltb_spec (p - reference_price_ b) (- flat_array_half_width_ b));
    destruct (Z.ltb_spec (flat_array_half_width_ b) (p - reference_price_ b)); cbn [orb];
    (split; [intros; simplify_eq|intros []]); try lia; f_equal; lia.
Qed.

Lemma lref_inj b p q :
  geom b -> 0 <= p < 2 ^ 32 -> 0 <= q < 2 ^ 32 -> lref b p = lref b q -> p = q.
Proof.
  intros Hg Hp Hq. unfold lref.
  destruct (flat_index_for b p) as [i|] eqn:Ei; destruct (flat_index_for b q) as [j|] eqn:Ej;
    intros Heq; simplify_eq; [|done].
  apply flat_index_Some in Ei; [|done..]. apply flat_index_Some in Ej; [|done..]. lia.
Qed.

Lemma lref_on_side b L p :
  geom b -> 0 <= p < 2 ^ 32 -> (forall x, x ∈ L -> 0 <= r_price x.2 < 2 ^ 32) ->
  forall x buy, x ∈ L -> on_side b (lref b p) buy x <-> Spec.at_level buy p x.2.
Proof.
  intros Hg Hp Hr x buy Hx. unfold on_side, Spec.at_level. split; intros [Hb He]; (split; [done|]).
  - eapply lref_inj; eauto.
  - by rewrite He.
Qed.

(** A level that holds an order has that order's price. *)
Lemma get_level_price b p lv :
  geom b -> 0 <= p < 2 ^ 32 -> get_level b (lref b p) = Some lv -> level_price lv = p.
Proof.
  intros Hg Hp. unfold lref. destruct (flat_index_for b p) as [i|] eqn:Ei; cbn [get_level]; intros Hl.
  - apply flat_index_Some in Ei; [|done..]. rewrite (g_flat _ Hg _ _ Hl).
    rewrite u32_small; lia.
  - by apply (g_out _ Hg) in Hl as [-> _].
Qed.

Lemma get_level_flat b p i :
  geom b -> 0 <= p < 2 ^ 32 -> flat_index_for b p = Some i -> is_Some (flat_levels_ b !! i).
Proof.
  intros Hg Hp Hi. apply flat_index_Some in Hi; [|done..]. apply lookup_lt_is_Some.
  pose proof (g_len _ Hg). lia.
Qed.

(** ** Updating a level *)

Lemma get_set_level b lr lr' lv0 lv :
  get_level b lr = Some lv0 ->
  get_level (set_level b lr lv) lr' = if decide (lr = lr') then Some lv else get_level b lr'.
Proof.
  intros Hl. destruct lr as [i|k], lr' as [j|k']; cbn in *.
  - destruct (decide (i = j)) as [->|Hne].
    + rewrite decide_True by done. apply list_lookup_insert_eq. by eapply lookup_lt_Some.
    + rewrite decide_False by congruence. by apply list_lookup_insert_ne.
  - by rewrite decide_False.
  - by rewrite decide_False.
  - destruct (decide (k = k')) as [->|Hne].
    + rewrite decide_True by done. by rewrite lookup_insert_eq.
    + rewrite decide_False by congruence. by rewrite lookup_insert_ne.
Qed.

Lemma set_level_lref b lr lv p : lref (set_level b lr lv) p = lref b p.
Proof. by destruct lr. Qed.
Lemma set_level_pool b lr lv : order_pool_ (set_level b lr lv) = order_pool_ b.
Proof. by destruct lr. Qed.
Lemma set_level_index b lr lv : order_index_ (set_level b lr lv) = order_index_ b.
Proof. by destruct lr. Qed.
Lemma set_level_ids b lr lv lr' buy L : ids (set_level b lr lv) lr' buy L = ids b lr' buy L.
Proof. by destruct lr. Qed.
Lemma set_level_sum b lr lv lr' buy L : sum_side (set_level b lr lv) lr' buy L = sum_side b lr' buy L.
Proof. by destruct lr. Qed.
Lemma set_level_cached b lr lv buy : cached (set_level b lr lv) buy = cached b buy.
Proof. by destruct lr. Qed.
Lemma set_level_with_pool b lr lv pool :
  set_level (with_pool b pool) lr lv = with_pool (set_level b lr lv) pool.
Proof. by destruct lr. Qed.

#[export] Hint Rewrite set_level_lref set_level_pool set_level_index set_level_ids
  set_level_sum set_level_cached : liqui.

Lemma set_level_geom b lr lv0 lv :
  geom b -> get_level b lr = Some lv0 -> level_price lv = level_price lv0 ->
  geom (set_level b lr lv).
Proof.
  intros [Hr Hh Hn Hf Ho] Hl Hp. destruct lr as [i|k]; cbn in *.
  - split; cbn; try done; [by rewrite length_insert|].
    intros j lv' [(<- & <- & _)|[_ Hj]]%list_lookup_insert_Some; [rewrite Hp|]; by apply Hf.
  - split; cbn; try done. intros j lv'. rewrite lookup_insert_Some.
    intros [(<- & <-)|[_ Hj]]; [rewrite Hp|]; by apply Ho.
Qed.

Lemma set_side_price buy lv q s : level_price (set_side buy lv q s) = level_price lv.
Proof. by destruct buy. Qed.
Lemma queue_set_side buy buy' lv q s :
  queue buy' (set_side buy lv q s) = if Bool.eqb buy buy' then q else queue buy' lv.
Proof. by destruct buy, buy'. Qed.
Lemma total_set_side buy buy' lv q s :
  total buy' (set_side buy lv q s) = if Bool.eqb buy buy' then s else total buy' lv.
Proof. by destruct buy, buy'. Qed.

(** ** The ghost list *)

Lemma nodup_fst_inj L i r r' : NoDup L.*1 -> (i, r) ∈ L -> (i, r') ∈ L -> r = r'.
Proof.
  intros Hnd [j Hj]%list_elem_of_lookup [k Hk]%list_elem_of_lookup.
  assert (j = k); [|naive_solver]. eapply (NoDup_lookup L.*1 _ _ i); [done| |];
    by rewrite list_lookup_fmap, ?Hj, ?Hk.
Qed.

Lemma elem_of_ids b lr buy L i :
  i ∈ ids b lr buy L <-> exists r, (i, r) ∈ L /\ r_buy r = buy /\ lref b (r_price r) = lr.
Proof.
  unfold ids. rewrite list_elem_of_fmap. setoid_rewrite list_elem_of_filter. split.
  - intros ([j r] & -> & [Hb Hl] & Hin). by exists r.
  - intros (r & Hin & Hb & Hl). by exists (i, r).
Qed.

Lemma ids_disjoint b lr lr' buy buy' L i :
  NoDup L.*1 -> i ∈ ids b lr buy L -> i ∈ ids b lr' buy' L -> lr = lr' /\ buy = buy'.
Proof.
  intros Hnd (r & Hr & <- & <-)%elem_of_ids (r' & Hr' & <- & <-)%elem_of_ids.
  by rewrite (nodup_fst_inj L i r r').
Qed.

Lemma ids_app b lr buy L L' : ids b lr buy (L ++ L') = ids b lr buy L ++ ids b lr buy L'.
Proof. unfold ids. by rewrite filter_app, fmap_app. Qed.

Lemma sum_side_app b lr buy L L' :
  sum_side b lr buy (L ++ L') = sum_side b lr buy L + sum_side b lr buy L'.
Proof. unfold sum_side. by rewrite filter_app, sumZ_app. Qed.

Lemma ids_cons b lr buy x L :
  ids b lr buy (x :: L) = if decide (on_side b lr buy x) then x.1 :: ids b lr buy L else ids b lr buy L.
Proof. unfold ids. rewrite filter_cons. by case_decide. Qed.

Lemma sum_side_cons b lr buy x L :
  sum_side b lr buy (x :: L) =
  (if decide (on_side b lr buy x) then r_shares x.2 else 0) + sum_side b lr buy L.
Proof. unfold sum_side. rewrite filter_cons. by case_decide. Qed.

Lemma ids_subset b lr buy L i : i ∈ ids b lr buy L -> i ∈ L.*1.
Proof. intros (r & Hr & _)%elem_of_ids. apply list_elem_of_fmap. by exists (i, r). Qed.

(** ** Relinking one side of a level *)

(** One side of [lr] gets a new queue and total, the pool changes inside
    [touched] only; every other queue is where it was. *)
Lemma levels_update b L L' lr buy lv pool' q' t' touched :
  levels_ok b L -> get_level b lr = Some lv ->
  IList.frame (order_pool_ b) pool' touched ->
  (forall lr' buy' i, (lr', buy') <> (lr, buy) -> i ∈ ids b lr' buy' L -> i ∉ touched) ->
  IList.is_list pool' q' (ids b lr buy L') -> t' = u32 (sum_side b lr buy L') ->
  (forall lr' buy', (lr', buy') <> (lr, buy) ->
     ids b lr' buy' L' = ids b lr' buy' L /\ sum_side b lr' buy' L' = sum_side b lr' buy' L) ->
  levels_ok (set_level (with_pool b pool') lr (set_side buy lv q' t')) L'.
Proof.
  intros Hlv Hl Hf Hd Hq Ht Hsame lr' lv' buy' Hl'.
  rewrite set_level_pool, set_level_ids, set_level_sum.
  change (ids (with_pool b pool')) with (ids b).
  change (sum_side (with_pool b pool')) with (sum_side b). cbn [with_pool order_pool_].
  rewrite (get_set_level _ _ _ lv) in Hl' by (by destruct lr).
  destruct (decide ((lr', buy') = (lr, buy))) as [[= -> ->]|Hne].
  - rewrite decide_True in Hl' by done. simplify_eq.
    by rewrite queue_set_side, total_set_side, eqb_reflx.
  - destruct (Hsame _ _ Hne) as [-> ->].
    assert (exists lv0, get_level b lr' = Some lv0 /\ queue buy' lv' = queue buy' lv0 /\
              total buy' lv' = total buy' lv0) as (lv0 & Hl0 & -> & ->).
    { case_decide as Heq.
      - simplify_eq. exists lv. rewrite queue_set_side, total_set_side.
        destruct (Bool.eqb_spec buy buy'); [naive_solver|done].
      - exists lv'. by destruct lr'. }
    destruct (Hlv lr' lv0 buy' Hl0) as [Hil Htot]. split; [|done].
    eapply IList.is_list_frame; [done| |done]. intros i Hi. by eapply Hd.
Qed.

(** Link updates keep every order's payload. *)
Lemma matches_links o o' r lr : IList.links_only o o' -> matches o r lr -> matches o' r lr.
Proof. intros (p & q & ->) []. by split. Qed.

Lemma orders_frame b b' L touched :
  orders_ok b L -> IList.frame (order_pool_ b) (order_pool_ b') touched ->
  (forall p, lref b' p = lref b p) ->
  (forall lr, is_Some (get_level b lr) -> is_Some (get_level b' lr)) ->
  orders_ok b' L.
Proof.
  intros Ho Hf Hlr Hg i r Hi. destruct (Ho i r Hi) as (o & Hl & Hm & Hs).
  destruct (IList.fr_links _ _ _ Hf _ _ Hl) as (o' & Hl' & Hlo).
  exists o'. rewrite Hlr. split; [done|]. split; [by eapply matches_links|auto].
Qed.

Lemma get_set_level_some b lr lr' lv0 lv :
  get_level b lr = Some lv0 -> is_Some (get_level b lr') ->
  is_Some (get_level (set_level b lr lv) lr').
Proof. intros Hl Hs. rewrite (get_set_level _ _ _ lv0) by done. by case_decide. Qed.

(** What a step on one level leaves alone. *)
Record same_outside b b' : Prop := {
  so_index : order_index_ b' = order_index_ b;
  so_cached : forall buy, cached b' buy = cached b buy;
  so_ref : reference_price_ b' = reference_price_ b;
  so_hw : flat_array_half_width_ b' = flat_array_half_width_ b;
  so_level : forall lr, is_Some (get_level b lr) -> is_Some (get_level b' lr);
  so_slots : Pool.same_slots (order_pool_ b) (order_pool_ b')
}.

Lemma same_params_lref b b' p :
  reference_price_ b' = reference_price_ b ->
  flat_array_half_width_ b' = flat_array_half_width_ b -> lref b' p = lref b p.
Proof. intros Hr Hh. unfold lref, flat_index_for. by rewrite Hr, Hh. Qed.

Lemma set_level_same_outside b lr lv0 lv pool :
  get_level b lr = Some lv0 -> Pool.same_slots (order_pool_ b) pool ->
  same_outside b (set_level (with_pool b pool) lr lv).
Proof.
  intros Hl Hs. split; autorewrite with liqui; try done; try (by destruct lr).
  intros lr' Hx. eapply (get_set_level_some _ _ _ lv0); [by destruct lr|by destruct lr'].
Qed.

(** Linking a fresh node at the end of its queue. *)
Lemma level_push_back_spec b L i r lr lv o :
  geom b -> levels_ok b L -> orders_ok b L -> NoDup L.*1 ->
  lref b (r_price r) = lr -> get_level b lr = Some lv ->
  load (order_pool_ b) i = Some o -> matches o r lr -> i ∉ L.*1 ->
  exists b', level_push_back b lr (r_buy r) i (r_shares r) = Some b' /\
    geom b' /\ levels_ok b' (L ++ [(i, r)]) /\ orders_ok b' (L ++ [(i, r)]) /\
    same_outside b b'.
Proof.
  intros Hg Hlv Hord Hnd Hlr Hl Ho Hm Hni.
  destruct (Hlv lr lv (r_buy r) Hl) as [Hil Htot].
  assert (i ∉ ids b lr (r_buy r) L) as Hni' by (intros ?%ids_subset; done).
  destruct (IList.push_back_spec _ _ _ _ _ Hil Ho Hni') as (pool' & q' & Hpb & Hil' & Hf).
  unfold level_push_back. rewrite Hl. cbn [mbind option_bind]. rewrite Hpb. cbn [mbind option_bind].
  assert (same_outside b (set_level (with_pool b pool') lr
    (set_side (r_buy r) lv q' (total (r_buy r) lv +u32 r_shares r)))) as Hso.
  { eapply set_level_same_outside; [done|]. by eapply Pool.push_back_same. }
  assert (on_side b lr (r_buy r) (i, r)) as Hon by done.
  eexists. split; [reflexivity|]. split; [|split; [|split; [|done]]].
  - eapply set_level_geom; [by destruct Hg|by destruct lr|apply set_side_price].
  - eapply levels_update; try done.
    + intros lr' buy' j Hne Hj [->|Hj']%elem_of_cons; [by apply ids_subset in Hj|].
      destruct (ids_disjoint _ _ _ _ _ _ _ Hnd Hj Hj'). naive_solver.
    + rewrite ids_app, ids_cons. by rewrite decide_True.
    + rewrite sum_side_app, sum_side_cons, decide_True by done. rewrite Htot, u32_add_l.
      f_equal. cbn. lia.
    + intros lr' buy' Hne. rewrite ids_app, ids_cons, sum_side_app, sum_side_cons.
      assert (¬ on_side b lr' buy' (i, r)) by (intros [<- <-]; apply Hne; by subst lr).
      rewrite !decide_False by done. cbn. split; [apply app_nil_r|lia].
  - assert (orders_ok b (L ++ [(i, r)])) as Hord'.
    { intros j r' [Hj|Hj%list_elem_of_singleton]%elem_of_app; [by apply Hord|].
      simplify_eq. exists o. split; [done|]. split; [done|by exists lv]. }
    eapply orders_frame; [done|by rewrite set_level_pool| |apply Hso].
    intros p. by rewrite set_level_lref.
Qed.

(** Unlinking a node; its shares leave the total. *)
Lemma level_remove_spec b L1 L2 i r lr lv :
  let L := L1 ++ (i, r) :: L2 in
  geom b -> levels_ok b L -> orders_ok b L -> NoDup L.*1 ->
  lref b (r_price r) = lr -> get_level b lr = Some lv ->
  exists b', level_remove b lr (r_buy r) i (r_shares r) = Some b' /\
    geom b' /\ levels_ok b' (L1 ++ L2) /\ orders_ok b' L /\ same_outside b b'.
Proof.
  intros L Hg Hlv Hord Hnd Hlr Hl.
  destruct (Hlv lr lv (r_buy r) Hl) as [Hil Htot].
  assert (on_side b lr (r_buy r) (i, r)) as Hon by done.
  unfold L in Hil, Htot.
  rewrite ids_app, ids_cons, decide_True in Hil by done.
  rewrite sum_side_app, sum_side_cons, decide_True in Htot by done. cbn [fst snd] in *.
  destruct (IList.remove_spec _ _ _ _ _ Hil) as (pool' & q' & Hrm & Hil' & Hf).
  unfold level_remove. rewrite Hl. cbn [mbind option_bind]. rewrite Hrm. cbn [mbind option_bind].
  assert (same_outside b (set_level (with_pool b pool') lr
    (set_side (r_buy r) lv q' (total (r_buy r) lv -u32 r_shares r)))) as Hso.
  { eapply set_level_same_outside; [done|]. by eapply Pool.remove_same. }
  eexists. split; [reflexivity|]. split; [|split; [|split; [|done]]].
  - eapply set_level_geom; [by destruct Hg|by destruct lr|apply set_side_price].
  - eapply (levels_update b L); try done.
    + intros lr' buy' j Hne Hj Hj'.
      assert (j ∈ ids b lr (r_buy r) L) as Hj2.
      { unfold L. by rewrite ids_app, ids_cons, decide_True. }
      destruct (ids_disjoint _ _ _ _ _ _ _ Hnd Hj Hj2). naive_solver.
    + by rewrite ids_app.
    + rewrite sum_side_app, Htot, u32_sub_l. f_equal. lia.
    + intros lr' buy' Hne. unfold L. rewrite !ids_app, ids_cons, !sum_side_app, sum_side_cons.
      assert (¬ on_side b lr' buy' (i, r)) by (intros [<- <-]; apply Hne; by subst lr).
      by rewrite !decide_False.
  - eapply orders_frame; [done|by rewrite set_level_pool| |apply Hso].
    intros p. by rewrite set_level_lref.
Qed.
