(* ===== verification/BookBest.v ===== *)
(** * Scanning the book for a best price

    [recompute_best_after_level_emptied] and [next_level_after] share one
    pattern: the first hit of a directional scan of the flat array, the best hit
    of the outlier map, and the better of the two.  [scan_spec] says what the
    pattern computes: the best price among the orders it can see, which are the
    orders whose level total has not wrapped to zero. *)

From S2P Require Import Prelude HashMap IntrusiveList ObjectPool OrderBook BookSpec.
From S2P Require Import BookInvariant.

Local Open Scope Z_scope.

Lemma find_first {A} (f : A -> bool) l x :
  List.find f l = Some x ->
  exists l1 l2, l = l1 ++ x :: l2 /\ f x = true /\ (forall y, y ∈ l1 -> f y = false).
Proof.
  induction l as [|y l IH]; [done|]. cbn. destruct (f y) eqn:Ey.
  - intros [= ->]. exists [], l. split_and!; [done|done|set_solver].
  - intros (l1 & l2 & -> & Hx & Hl1)%IH. exists (y :: l1), l2. split_and!; [done|done|set_solver].
Qed.

Section scan.
Variables (b : OrderBook) (L : list (nat * Rest)) (buy : bool).
Variables (ok : Z -> bool) (test : PriceLevel -> bool) (skip : Z -> bool).
Hypotheses (Hgeom : geom b) (Hlv : levels_ok b L) (Hord : orders_ok b L).
Hypothesis Hprices : forall x, x ∈ L -> 0 <= r_price x.2 < 2 ^ 32.
Hypothesis Htest : forall lv, test lv = ok (level_price lv) && (0 <? total buy lv).
Hypothesis Hskip : forall p, skip p = negb (ok p).

(** An order the scan can see. *)
Definition visible (x : nat * Rest) : Prop :=
  x ∈ L /\ r_buy x.2 = buy /\ ok (r_price x.2) = true /\
  u32 (sum_side b (lref b (r_price x.2)) buy L) <> 0.

Lemma visible_level x :
  visible x -> exists lv, get_level b (lref b (r_price x.2)) = Some lv /\
    level_price lv = r_price x.2 /\ total buy lv <> 0 /\ test lv = true.
Proof.
  intros (Hx & Hb & Hok & Hs). destruct x as [i r].
  destruct (Hord i r Hx) as (o & _ & _ & lv & Hl). exists lv.
  destruct (Hlv _ _ buy Hl) as [_ Ht].
  assert (level_price lv = r_price r) as Hp by (by eapply get_level_price; [|apply (Hprices _ Hx)|]).
  assert (total buy lv <> 0) by (rewrite Ht; done).
  split_and!; try done. cbn [snd] in *. rewrite Htest, Hp, Hok.
  pose proof (u32_range (sum_side b (lref b (r_price r)) buy L)). lia.
Qed.

Lemma level_visible lr lv :
  get_level b lr = Some lv -> total buy lv <> 0 -> ok (level_price lv) = true ->
  exists x, visible x /\ r_price x.2 = level_price lv /\ lref b (r_price x.2) = lr.
Proof.
  intros Hl Ht Hok. destruct (Hlv _ _ buy Hl) as [_ Hts].
  destruct (filter (on_side b lr buy) L) as [|x k] eqn:Ef.
  { unfold sum_side in Hts. rewrite Ef in Hts. done. }
  assert (x ∈ filter (on_side b lr buy) L) as [[Hb Hr] Hx]%list_elem_of_filter.
  { rewrite Ef. left. }
  exists x. assert (level_price lv = r_price x.2) as Hp.
  { eapply get_level_price; [done|by apply Hprices|by rewrite Hr]. }
  split_and!; try done. split_and!; try done; [by rewrite <- Hp|]. by rewrite Hr, <- Hts.
Qed.

Lemma scan_flat_None :
  scan_flat buy test (flat_levels_ b) = None ->
  forall x, visible x -> flat_index_for b (r_price x.2) = None.
Proof.
  unfold scan_flat. intros Hf x Hv.
  destruct (flat_index_for b (r_price x.2)) as [i|] eqn:Ei; [|done].
  destruct (visible_level x Hv) as (lv & Hl & _ & _ & Htrue).
  unfold lref in Hl. rewrite Ei in Hl. cbn in Hl.
  destruct (List.find test _) eqn:E; [done|].
  assert (lv ∈ (if buy then reverse (flat_levels_ b) else flat_levels_ b)) as Hin.
  { destruct buy; [apply elem_of_reverse|]; by eapply list_elem_of_lookup_2. }
  rewrite list_elem_of_In in Hin. pose proof (find_none _ _ E _ Hin). congruence.
Qed.

(** The slot where the directional scan stops. *)
Lemma scan_flat_Some p :
  scan_flat buy test (flat_levels_ b) = Some p ->
  exists i lv, flat_levels_ b !! i = Some lv /\ test lv = true /\ level_price lv = p /\
    forall j lv', flat_levels_ b !! j = Some lv' -> test lv' = true ->
      if buy then (j <= i)%nat else (i <= j)%nat.
Proof.
  unfold scan_flat. destruct (List.find test _) as [lv|] eqn:E; [|done]. intros [= <-].
  apply find_first in E as (l1 & l2 & Hl & Ht & Hno). destruct buy.
  - apply (f_equal reverse) in Hl. rewrite reverse_involutive, reverse_app, reverse_cons in Hl.
    rewrite <- app_assoc in Hl. cbn in Hl. exists (length l2), lv. rewrite Hl. split_and!.
    + rewrite lookup_app_r by (by rewrite length_reverse).
      by rewrite length_reverse, Nat.sub_diag.
    + done.
    + done.
    + intros j lv' Hj Ht'. destruct (le_lt_dec j (length l2)) as [|Hgt]; [done|]. exfalso.
      rewrite lookup_app_r in Hj by (rewrite length_reverse; lia).
      rewrite length_reverse in Hj. destruct (j - length l2)%nat as [|m] eqn:Em; [lia|].
      cbn in Hj. apply list_elem_of_lookup_2, elem_of_reverse, Hno in Hj. congruence.
  - exists (length l1), lv. rewrite Hl. split_and!; [|done|done|].
    + by rewrite lookup_app_r, Nat.sub_diag.
    + intros j lv' Hj Ht'. destruct (le_lt_dec (length l1) j) as [|Hlt]; [done|]. exfalso.
      rewrite lookup_app_l in Hj by done. apply list_elem_of_lookup_2, Hno in Hj. congruence.
Qed.

Lemma scan_flat_best p :
  scan_flat buy test (flat_levels_ b) = Some p ->
  (exists x, visible x /\ r_price x.2 = p) /\
  (forall x, visible x -> is_Some (flat_index_for b (r_price x.2)) ->
     Spec.improves buy (r_price x.2) p = false).
Proof.
  intros (i & lv & Hi & Ht & <- & Hmax)%scan_flat_Some.
  rewrite Htest in Ht. apply andb_prop in Ht as [Hok Hpos%Z.ltb_lt].
  destruct (level_visible (FlatLevel i) lv) as (x & Hv & Hp & Hr); [done|lia|done|].
  split; [by exists x|]. intros y Hy [j Hj].
  destruct (visible_level y Hy) as (lv' & Hl' & Hp' & _ & Ht').
  unfold lref in Hl', Hr. rewrite Hj in Hl'. cbn in Hl'. specialize (Hmax _ _ Hl' Ht').
  destruct Hv as (Hx & _). destruct Hy as (Hyl & _).
  destruct (flat_index_for b (r_price x.2)) as [i'|] eqn:Ei'; simplify_eq.
  apply flat_index_Some in Hj; [|done|by apply Hprices].
  apply flat_index_Some in Ei'; [|done|by apply Hprices].
  rewrite <- Hp. unfold Spec.improves. destruct buy; lia.
Qed.

(** The accumulating loop over the outlier map. *)
Definition outlier_step (best : option Z) (e : Z * PriceLevel) : option Z :=
  let '(p, lv) := e in
  if skip p then best
  else if total buy lv =? 0 then best
  else match best with
       | None => Some p
       | Some q => if better buy p q then Some p else best
       end.

Definition hit (e : Z * PriceLevel) : Prop := ok e.1 = true /\ total buy e.2 <> 0.

Lemma outlier_step_eq best e :
  outlier_step best e =
    if decide (hit e) then
      match best with
      | None => Some e.1
      | Some q => if Spec.improves buy e.1 q then Some e.1 else best
      end
    else best.
Proof.
  destruct e as [p lv]. unfold outlier_step, hit. rewrite Hskip. cbn [fst snd].
  change (better buy p) with (Spec.improves buy p).
  destruct (ok p); cbn [negb]; [|by rewrite decide_False by naive_solver].
  destruct (Z.eqb_spec (total buy lv) 0); [by rewrite decide_False by naive_solver|].
  by rewrite decide_True.
Qed.

Lemma outlier_fold es : forall acc,
  match foldl outlier_step acc es with
  | None => acc = None /\ forall e, e ∈ es -> ¬ hit e
  | Some p =>
      (acc = Some p \/ exists e, e ∈ es /\ hit e /\ e.1 = p) /\
      (forall e, e ∈ es -> hit e -> Spec.improves buy e.1 p = false) /\
      (forall q, acc = Some q -> Spec.improves buy q p = false)
  end.
Proof.
  induction es as [|e es IH]; intros acc.
  { cbn. destruct acc; [|by split; [|intros ? ?%elem_of_nil]]. split_and!; [by left| |].
    - by intros ? ?%elem_of_nil.
    - intros q [= ->]. apply Spec.improves_irrefl. }
  cbn [foldl]. specialize (IH (outlier_step acc e)). rewrite outlier_step_eq in *.
  destruct (decide (hit e)) as [Hh|Hh].
  - assert (exists q, match acc with None => Some e.1 | Some q =>
               if Spec.improves buy e.1 q then Some e.1 else acc end = Some q /\
             (acc = Some q \/ e.1 = q) /\ Spec.improves buy e.1 q = false /\
             (forall q', acc = Some q' -> Spec.improves buy q' q = false)) as (q & Hq & Hfrom & He & Ha).
    { destruct acc as [q|]; [destruct (Spec.improves buy e.1 q) eqn:Ei|];
        eexists; (split; [reflexivity|]).
      - split_and!; [by right|apply Spec.improves_irrefl|].
        intros q' [= <-]. by apply Spec.improves_asym.
      - split_and!; [by left|done|]. intros q' [= <-]. apply Spec.improves_irrefl.
      - split_and!; [by right|apply Spec.improves_irrefl|done]. }
    rewrite Hq in IH |- *. destruct (foldl outlier_step (Some q) es) as [p|]; [|naive_solver].
    destruct IH as (Hf & Hall & Hacc). specialize (Hacc q eq_refl). split_and!.
    + destruct Hf as [[= ->]|(e' & He' & Hh' & <-)].
      * destruct Hfrom as [|<-]; [by left|right; exists e; split; [left|done]].
      * right. exists e'. split; [by right|done].
    + intros e' [->|He']%elem_of_cons Hh'; [|by apply Hall].
      by eapply Spec.improves_trans.
    + intros q' Hq'. eapply Spec.improves_trans; [by apply Ha|done].
  - destruct (foldl outlier_step acc es) as [p|].
    + destruct IH as (Hf & Hall & Hacc). split_and!; [|intros e' [->|He']%elem_of_cons ?; [done|auto]|done].
      destruct Hf as [|(e' & He' & Hx)]; [by left|right; exists e'; split; [by right|done]].
    + destruct IH as [-> Hno]. split; [done|].
      intros e' [->|He']%elem_of_cons; [done|auto].
Qed.

Lemma scan_outliers_best :
  match scan_outliers buy skip (outlier_levels_ b) with
  | None => forall x, visible x -> flat_index_for b (r_price x.2) <> None
  | Some p =>
      (exists x, visible x /\ r_price x.2 = p) /\
      (forall x, visible x -> flat_index_for b (r_price x.2) = None ->
         Spec.improves buy (r_price x.2) p = false)
  end.
Proof.
  assert (forall x, visible x -> flat_index_for b (r_price x.2) = None ->
    exists lv, (r_price x.2, lv) ∈ map_entries (outlier_levels_ b) /\ hit (r_price x.2, lv)) as Hvis.
  { intros x Hx Hn. destruct (visible_level x Hx) as (lv & Hl & Hp & Ht & _).
    unfold lref in Hl. rewrite Hn in Hl. cbn in Hl. exists lv. split.
    - unfold map_entries. rewrite merge_sort_Permutation. by apply elem_of_map_to_list.
    - destruct Hx as (_ & _ & Hok & _). by split. }
  assert (forall e, e ∈ map_entries (outlier_levels_ b) -> hit e ->
    exists x, visible x /\ r_price x.2 = e.1) as Hhit.
  { intros [k lv] He [Hok Ht]. unfold map_entries in He. rewrite merge_sort_Permutation in He.
    apply elem_of_map_to_list in He. cbn [fst snd] in *.
    destruct (g_out _ Hgeom _ _ He) as [Hk _].
    destruct (level_visible (OutlierLevel k) lv) as (x & Hx & Hp & _); [done|done|by rewrite Hk|].
    exists x. split; [done|]. congruence. }
  change (scan_outliers buy skip (outlier_levels_ b))
    with (foldl outlier_step None (map_entries (outlier_levels_ b))).
  pose proof (outlier_fold (map_entries (outlier_levels_ b)) None) as Hf.
  destruct (foldl outlier_step None _) as [p|].
  - destruct Hf as ([|(e & He & Hh & <-)] & Hall & _); [done|]. split; [by apply Hhit|].
    intros x Hx Hn. destruct (Hvis x Hx Hn) as (lv & Hin & Hh'). by apply (Hall _ Hin).
  - destruct Hf as [_ Hno]. intros x Hx Hn. destruct (Hvis x Hx Hn) as (lv & Hin & Hh').
    by apply (Hno _ Hin).
Qed.

(** The whole pattern. *)
Lemma scan_spec :
  match pick buy (scan_flat buy test (flat_levels_ b)) (scan_outliers buy skip (outlier_levels_ b)) with
  | None => forall x, ¬ visible x
  | Some p =>
      (exists x, visible x /\ r_price x.2 = p) /\
      (forall x, visible x -> Spec.improves buy (r_price x.2) p = false)
  end.
Proof.
  pose proof scan_outliers_best as Ho.
  destruct (scan_flat buy test (flat_levels_ b)) as [f|] eqn:Ef.
  - apply scan_flat_best in Ef as [(x & Hx & Hxp) Hf].
    destruct (scan_outliers buy skip (outlier_levels_ b)) as [o|]; cbn [pick].
    + destruct Ho as [(y & Hy & Hyp) Ho]. split.
      * assert ((if buy then Z.max f o else Z.min f o) = f \/
                (if buy then Z.max f o else Z.min f o) = o) as [->| ->] by (destruct buy; lia);
          [by exists x|by exists y].
      * intros z Hz. destruct (flat_index_for b (r_price z.2)) as [i|] eqn:Ei.
        { specialize (Hf z Hz ltac:(by eexists)). unfold Spec.improves in *. destruct buy; lia. }
        { specialize (Ho z Hz Ei). unfold Spec.improves in *. destruct buy; lia. }
    + split; [by exists x|]. intros z Hz. apply Hf; [done|].
      destruct (flat_index_for b (r_price z.2)) eqn:Ei; [by eexists|]. by apply Ho in Hz.
  - pose proof (scan_flat_None Ef) as Hf.
    destruct (scan_outliers buy skip (outlier_levels_ b)) as [o|]; cbn [pick].
    + destruct Ho as [He Ho]. split; [done|]. intros z Hz. apply Ho; [done|by apply Hf].
    + intros z Hz. apply (Ho z Hz). by apply Hf.
Qed.
End scan.
