(* ===== verification/BookRefinement.v ===== *)
(** * The order book refines its specification

    Every operation of book/order_book.cpp, run on a book that represents a list
    of resting orders, is defined (no null or dangling access, no read of an
    inactive union member), returns what the specification returns and leaves a
    book that represents the specified list. *)

From S2P Require Import Prelude HashMap IntrusiveList ObjectPool ByteOrder Messages OrderBook.
From S2P Require Import BookSpec BookInvariant BookBest.

Local Open Scope Z_scope.

Implicit Types (b : OrderBook) (L : list (nat * Rest)) (r : Rest) (lr : LevelRef) (lv : PriceLevel).

(** ** Best prices *)

Lemma sum_side_shares_at b L p buy :
  geom b -> 0 <= p < 2 ^ 32 -> (forall x, x ∈ L -> 0 <= r_price x.2 < 2 ^ 32) ->
  sum_side b (lref b p) buy L = Spec.shares_at buy p L.*2.
Proof.
  intros Hg Hp. induction L as [|x L IH]; intros Hr; [done|].
  rewrite sum_side_cons, IH by (intros; apply Hr; by right).
  unfold Spec.shares_at, Spec.queue_at. cbn [fmap list_fmap]. rewrite filter_cons.
  pose proof (lref_on_side b (x :: L) p Hg Hp Hr x buy ltac:(left)) as Hiff.
  destruct (decide (on_side b (lref b p) buy x)) as [Hon|Hon].
  - by rewrite decide_True by (by apply Hiff).
  - by rewrite decide_False by (by rewrite <- Hiff).
Qed.

Lemma shares_at_pos l r :
  (forall r', r' ∈ l -> 0 < r_shares r') -> r ∈ l ->
  0 < Spec.shares_at (r_buy r) (r_price r) l.
Proof.
  intros Hpos Hr. unfold Spec.shares_at.
  assert (r ∈ Spec.queue_at (r_buy r) (r_price r) l) as Hq by (by apply list_elem_of_filter).
  assert (forall y, y ∈ Spec.queue_at (r_buy r) (r_price r) l -> 0 <= r_shares y) as Hnn.
  { intros y [_ Hy]%list_elem_of_filter. specialize (Hpos y Hy). lia. }
  pose proof (sumZ_ge_elem r_shares _ _ Hnn Hq). specialize (Hpos r Hr). lia.
Qed.

(** With no wrapped total, a scan sees every order of the side. *)
Lemma visible_all b L buy ok x :
  geom b -> (forall y, y ∈ L -> 0 <= r_price y.2 < 2 ^ 32) -> positive L -> Spec.fits L.*2 ->
  visible b L buy ok x <-> x ∈ L /\ r_buy x.2 = buy /\ ok (r_price x.2) = true.
Proof.
  intros Hg Hr Hpos Hfit. unfold visible. split; [naive_solver|]. intros (Hx & Hb & Hok).
  split_and!; try done. rewrite sum_side_shares_at by auto. subst buy.
  assert (0 < Spec.shares_at (r_buy x.2) (r_price x.2) L.*2).
  { apply shares_at_pos; [|by apply list_elem_of_fmap_2].
    intros r' (y & -> & Hy)%list_elem_of_fmap. by apply Hpos. }
  rewrite u32_small; [lia|]. specialize (Hfit (r_buy x.2) (r_price x.2)). lia.
Qed.

Definition set_best b (buy : bool) (o : option Z) : OrderBook :=
  match o with
  | Some p => if buy then with_best_bid b true p else with_best_ask b true p
  | None => if buy then with_best_bid b false (best_bid_price_ b)
            else with_best_ask b false (best_ask_price_ b)
  end.

Lemma set_best_cached b buy buy' o :
  cached (set_best b buy o) buy' = if Bool.eqb buy buy' then o else cached b buy'.
Proof. by destruct o, buy, buy'. Qed.

Lemma set_best_core b buy o L free : core b L free -> core (set_best b buy o) L free.
Proof.
  intros [[] ? [] ? ? ? ? ? ?]. destruct o, buy; (split; [by split|done|by split|..]); done.
Qed.

Lemma recompute_spec b L free buy :
  core b L free -> positive L ->
  exists o, recompute_best_after_level_emptied b buy = set_best b buy o /\
    (forall p, o = Some p -> exists x, x ∈ L /\ r_buy x.2 = buy /\ r_price x.2 = p) /\
    (Spec.fits L.*2 -> o = Spec.best buy L.*2).
Proof.
  intros Hc Hpos. unfold recompute_best_after_level_emptied.
  pose proof (scan_spec b L buy (fun _ => true) (fun lv => 0 <? total buy lv) (fun _ => false)
    (c_geom _ _ _ Hc) (c_levels _ _ _ Hc) (c_orders _ _ _ Hc) (c_prices _ _ _ Hc)
    ltac:(done) ltac:(done)) as Hs.
  set (o := pick _ _ _) in *. exists o. split; [by destruct o|]. split.
  - intros p ->. destruct Hs as [(x & (Hx & Hb & _) & Hp) _]. by exists x.
  - intros Hfit.
    pose proof (fun x => visible_all b L buy (fun _ => true) x (c_geom _ _ _ Hc)
      (c_prices _ _ _ Hc) Hpos Hfit) as Hv.
    symmetry. destruct o as [p|].
    + destruct Hs as [(x & Hx & Hp) Hall]. apply Spec.best_is_best. split.
      * apply Hv in Hx as (Hx & Hb & _). exists x.2. split; [by apply list_elem_of_fmap_2|done].
      * intros r (y & -> & Hy)%list_elem_of_fmap Hb. apply Hall, Hv. done.
    + apply Spec.best_None. intros r (y & -> & Hy)%list_elem_of_fmap Hb. apply (Hs y), Hv. done.
Qed.

(** ** The reference index *)

Lemma index_map_keys L :
  ((fun x : nat * Rest => (r_ref x.2, Some x.1)) <$> L).*1 = r_ref <$> L.*2.
Proof. by rewrite <- !list_fmap_compose. Qed.

Lemma index_map_Some L k v :
  NoDup (r_ref <$> L.*2) ->
  index_map L !! k = Some v <-> exists i r, (i, r) ∈ L /\ r_ref r = k /\ v = Some i.
Proof.
  intros Hnd. unfold index_map. rewrite <- elem_of_list_to_map by (by rewrite index_map_keys).
  rewrite list_elem_of_fmap. split.
  - intros ([i r] & [= -> ->] & Hx). by exists i, r.
  - intros (i & r & Hx & <- & ->). by exists (i, r).
Qed.

Lemma index_map_None L k :
  NoDup (r_ref <$> L.*2) -> index_map L !! k = None <-> Spec.find_ref k L.*2 = None.
Proof.
  intros Hnd. rewrite Spec.find_ref_None, eq_None_not_Some. split.
  - intros Hn r ([i r'] & -> & Hx)%list_elem_of_fmap Hk. apply Hn. exists (Some i).
    apply index_map_Some; [done|]. by exists i, r'.
  - intros Hn [v (i & r & Hx & Hk & _)%index_map_Some]; [|done].
    apply (Hn r); [|done]. apply list_elem_of_fmap. by exists (i, r).
Qed.

Lemma index_map_split L1 i r L2 :
  NoDup (r_ref <$> (L1 ++ (i, r) :: L2).*2) ->
  index_map (L1 ++ (i, r) :: L2) = <[r_ref r := Some i]> (index_map (L1 ++ L2)).
Proof.
  intros Hnd. unfold index_map. rewrite !fmap_app, fmap_cons.
  rewrite (list_to_map_proper _ ((r_ref r, Some i) ::
    ((fun x : nat * Rest => (r_ref x.2, Some x.1)) <$> L1) ++
    ((fun x : nat * Rest => (r_ref x.2, Some x.1)) <$> L2))); [done| |].
  - rewrite <- fmap_cons with (f := fun x : nat * Rest => (r_ref x.2, Some x.1)) (x := (i, r)),
      <- fmap_app, index_map_keys. done.
  - cbn. by rewrite Permutation_middle.
Qed.

Lemma nodup_refs_remove L1 i r L2 :
  NoDup (r_ref <$> (L1 ++ (i, r) :: L2).*2) ->
  NoDup (r_ref <$> (L1 ++ L2).*2) /\
  (forall x, x ∈ L1 ++ L2 -> r_ref x.2 <> r_ref r).
Proof.
  rewrite !fmap_app. cbn. intros (H1 & Hd & (Hn & H2)%NoDup_cons)%NoDup_app. split.
  - apply NoDup_app. split_and!; [done| |done]. intros x Hx. set_solver.
  - intros x [Hx|Hx]%elem_of_app Heq.
    + apply (Hd (r_ref r)); [|left]. rewrite <- Heq. by apply list_elem_of_fmap_2, list_elem_of_fmap_2.
    + apply Hn. rewrite <- Heq. by apply list_elem_of_fmap_2, list_elem_of_fmap_2.
Qed.

Lemma nodup_ptrs_remove L1 i r L2 :
  NoDup (L1 ++ (i, r) :: L2).*1 ->
  NoDup (L1 ++ L2).*1 /\ i ∉ (L1 ++ L2).*1.
Proof.
  rewrite !fmap_app. cbn. intros (H1 & Hd & (Hn & H2)%NoDup_cons)%NoDup_app.
  split; [|set_solver]. apply NoDup_app. split_and!; [done|set_solver|done].
Qed.

(** ** Removing an order *)

(** Everything of [core] except the links survives a release of a node that is
    in no list. *)
Lemma release_levels b L i pool :
  levels_ok b L -> (forall j, j <> i -> load pool j = load (order_pool_ b) j) -> i ∉ L.*1 ->
  levels_ok (with_pool b pool) L.
Proof.
  intros Hlv Hp Hi lr lv buy Hl. destruct (Hlv lr lv buy) as [Hil Ht]; [by destruct lr|].
  split; [|exact Ht]. eapply IList.is_list_same; [|exact Hil].
  intros j Hj. apply Hp. intros ->. by apply ids_subset in Hj.
Qed.

Lemma release_orders b L i pool :
  orders_ok b L -> (forall j, j <> i -> load pool j = load (order_pool_ b) j) -> i ∉ L.*1 ->
  orders_ok (with_pool b pool) L.
Proof.
  intros Ho Hp Hi j r Hj. destruct (Ho j r Hj) as (o & Hl & Hm & Hs).
  exists o. split; [|split; [done|]].
  - cbn [with_pool order_pool_]. rewrite Hp; [done|]. intros ->. apply Hi.
    apply list_elem_of_fmap. by exists (i, r).
  - change (lref (with_pool b pool)) with (lref b). by destruct (lref b (r_price r)).
Qed.

(** Up to its queue being empty, [remove_order_fully] restores [core]. *)
Lemma unlink_spec b L1 i r L2 free :
  core b (L1 ++ (i, r) :: L2) free ->
  exists b1 index pool lv,
    let lr := lref b (r_price r) in
    let b' := with_pool (with_index b1 index) pool in
    (o ← load (order_pool_ b) i;
     lr ← level o;
     b ← level_remove b lr (is_buy o) i (shares o);
     o' ← load (order_pool_ b) i;
     '(index, _) ← OAMap.erase (order_index_ b) (order_ref o');
     let b := with_index b index in
     pool ← Pool.release (order_pool_ b) i;
     Some (with_pool b pool)) = Some b' /\
    core b' (L1 ++ L2) (i :: free) /\ get_level b' lr = Some lv /\
    (forall buy, cached b' buy = cached b buy) /\
    reference_price_ b' = reference_price_ b /\
    flat_array_half_width_ b' = flat_array_half_width_ b /\
    Pool.capacity_ (order_pool_ b') = Pool.capacity_ (order_pool_ b).
Proof.
  intros Hc. destruct Hc as [Hg Hp [Hiw Him Hic] Hlv Hord Hpt Hrf Hcnt Hpr].
  set (lr := lref b (r_price r)).
  destruct (Hord i r) as (o & Ho & [Hmr Hmp Hms Hmb Hmt Hml] & [lv Hlvl]); [set_solver|].
  destruct (level_remove_spec b L1 L2 i r lr lv) as (b1 & Hrm & Hg1 & Hlv1 & Hord1 & Hso);
    [done..|].
  destruct (Hord1 i r) as (o1 & Ho1 & [Hmr1 _ _ _ _ _] & _); [set_solver|].
  assert (OAMap.to_map (order_index_ b1) !! r_ref r = Some (Some i)) as Hlk.
  { rewrite (so_index _ _ Hso), Him, index_map_split by done. apply lookup_insert_eq. }
  pose proof Hso as [Hsi Hsc Hsr Hsh Hsl [Hcap Hwf]].
  destruct (OAMap.erase_present (order_index_ b1) (r_ref r) (Some i)) as
    (index & Her & Hiw' & Him' & _ & Hicap); [by rewrite Hsi|done|].
  destruct (Pool.release_spec (order_pool_ b1) free i o1) as (pool & Hrel & Hpw & Hnone & Hoth & Hpc);
    [auto|done|].
  destruct (nodup_ptrs_remove _ _ _ _ Hpt) as [Hpt' Hni].
  destruct (nodup_refs_remove _ _ _ _ Hrf) as [Hrf' Hnr].
  destruct (Hsl lr) as [lv1 Hlv1']; [by exists lv|].
  exists b1, index, pool, lv1. cbn zeta. split_and!.
  - rewrite Ho. cbn [mbind option_bind]. rewrite Hml. cbn [mbind option_bind].
    fold lr. rewrite Hmb, Hms, Hrm. cbn [mbind option_bind]. rewrite Ho1. cbn [mbind option_bind].
    rewrite Hmr1, Her. cbn [mbind option_bind with_index order_pool_]. by rewrite Hrel.
  - split; cbn [with_pool with_index order_pool_ order_index_].
    + by destruct Hg1.
    + done.
    + split; cbn [with_pool with_index order_pool_ order_index_]; [done| |].
      * rewrite Him', Hsi, Him, index_map_split by done. apply delete_insert_id.
        rewrite index_map_None by done. apply Spec.find_ref_None.
        intros r' (x & -> & Hx)%list_elem_of_fmap. by apply Hnr.
      * rewrite Hicap, Hsi. lia.
    + eapply (release_levels (with_index b1 index)); [exact Hlv1|exact Hoth|done].
    + eapply (release_orders (with_index b1 index)); [|exact Hoth|done].
      intros j r' Hj. apply (Hord1 j r'). set_solver.
    + done.
    + done.
    + rewrite Hpc, Hcap, <- Hcnt. rewrite !length_app. cbn. lia.
    + intros x Hx. apply Hpr. set_solver.
  - by destruct lr.
  - intros buy. rewrite <- Hsc. by destruct buy.
  - done.
  - done.
  - cbn. by rewrite Hpc.
Qed.

Lemma was_best_cached b (buy : bool) p :
  (if buy then has_best_bid_ b && (p =? best_bid_price_ b)
   else has_best_ask_ b && (p =? best_ask_price_ b)) = bool_decide (cached b buy = Some p).
Proof.
  destruct buy; cbn [cached]; unfold best_bid, best_ask.
  - destruct (has_best_bid_ b); [|done]. cbn [andb]. destruct (Z.eqb_spec p (best_bid_price_ b)).
    + subst. by rewrite bool_decide_true.
    + rewrite bool_decide_false; congruence.
  - destruct (has_best_ask_ b); [|done]. cbn [andb]. destruct (Z.eqb_spec p (best_ask_price_ b)).
    + subst. by rewrite bool_decide_true.
    + rewrite bool_decide_false; congruence.
Qed.

(** The caches need no update when a price level stays inhabited, or when it was
    not the best one. *)
Lemma weak_remove b b' L1 i r L2 :
  (forall buy, cached b' buy = cached b buy) -> weak b (L1 ++ (i, r) :: L2) ->
  (cached b (r_buy r) = Some (r_price r) ->
     exists x, x ∈ L1 ++ L2 /\ r_buy x.2 = r_buy r /\ r_price x.2 = r_price r) ->
  weak b' (L1 ++ L2).
Proof.
  intros Hc Hw Hd buy p Hp. rewrite Hc in Hp.
  destruct (Hw buy p Hp) as (x & Hx & Hb & Hxp).
  destruct (decide (x = (i, r))) as [->|Hne].
  - cbn in Hb, Hxp. subst. auto.
  - exists x. split; [set_solver|done].
Qed.

Lemma exact_remove b b' L1 i r L2 :
  (forall buy, cached b' buy = cached b buy) -> exact b (L1 ++ (i, r) :: L2) ->
  (cached b (r_buy r) = Some (r_price r) ->
     exists x, x ∈ L1 ++ L2 /\ r_buy x.2 = r_buy r /\ r_price x.2 = r_price r) ->
  exact b' (L1 ++ L2).
Proof.
  intros Hc He Hd buy. rewrite Hc, He, !fmap_app. cbn.
  destruct (decide (r_buy r = buy)) as [<-|Hne]; [|by apply Spec.best_remove_other].
  destruct (decide (Spec.best (r_buy r) (L1 ++ (i, r) :: L2).*2 = Some (r_price r))) as [Hb|Hb].
  - destruct Hd as (x & Hx & Hxb & Hxp); [by rewrite He|].
    apply (Spec.best_remove_dup _ _ _ x.2); [|done|done].
    rewrite <- fmap_app. by apply list_elem_of_fmap_2.
  - rewrite fmap_app in Hb. by apply Spec.best_remove_worse.
Qed.

Record same_shape b b' : Prop := {
  ss_ref : reference_price_ b' = reference_price_ b;
  ss_hw : flat_array_half_width_ b' = flat_array_half_width_ b;
  ss_cap : Pool.capacity_ (order_pool_ b') = Pool.capacity_ (order_pool_ b)
}.

#[export] Instance same_shape_preorder : PreOrder same_shape.
Proof. split; [by split|]. intros b1 b2 b3 [] []. split; congruence. Qed.

Lemma set_best_shape b buy o : same_shape b (set_best b buy o).
Proof. by destruct o, buy. Qed.

Lemma remove_order_fully_spec b L1 i r L2 free :
  core b (L1 ++ (i, r) :: L2) free -> positive (L1 ++ L2) -> weak b (L1 ++ (i, r) :: L2) ->
  exists b', remove_order_fully b i = Some b' /\ core b' (L1 ++ L2) (i :: free) /\
    weak b' (L1 ++ L2) /\ same_shape b b' /\
    (exact b (L1 ++ (i, r) :: L2) -> Spec.fits (L1 ++ L2).*2 -> exact b' (L1 ++ L2)).
Proof.
  intros Hc Hpos Hw.
  destruct (c_orders _ _ _ Hc i r) as (o & Ho & [_ Hmp _ Hmb _ Hml] & _); [set_solver|].
  destruct (unlink_spec _ _ _ _ _ _ Hc) as (b1 & index & pool & lv & Heq & Hc' & Hl' & Hca & Hr & Hh & Hcp).
  cbn zeta in *. rewrite Ho in Heq. cbn [mbind option_bind] in Heq. rewrite Hml in Heq.
  cbn [mbind option_bind] in Heq. minv Heq. minv Heq. minv Heq. minv Heq.
  unfold remove_order_fully. rewrite Ho. cbn [mbind option_bind]. rewrite Hml.
  cbn [mbind option_bind]. rewrite E. cbn [mbind option_bind]. rewrite E0.
  cbn [mbind option_bind]. rewrite E1. cbn [mbind option_bind]. rewrite E2.
  cbn [mbind option_bind]. apply (inj Some) in Heq.
  set (b' := with_pool (with_index b1 index) pool) in *. rewrite Heq, Hl', Hmb, Hmp.
  cbn [mbind option_bind].
  assert (same_shape b b') as Hss by (by split).
  destruct (c_levels _ _ _ Hc' _ _ (r_buy r) Hl') as [Hil _].
  destruct (IList.is_empty (queue (r_buy r) lv)) eqn:Hemp; cbn [negb].
  2:{ (* the level still holds an order on this side *)
    assert (exists x, x ∈ L1 ++ L2 /\ r_buy x.2 = r_buy r /\ r_price x.2 = r_price r) as Hd.
    { destruct (ids b' (lref b (r_price r)) (r_buy r) (L1 ++ L2)) as [|j k] eqn:Ei.
      { pose proof (proj2 (IList.is_empty_spec _ _ _ Hil) eq_refl). congruence. }
      assert (j ∈ ids b' (lref b (r_price r)) (r_buy r) (L1 ++ L2)) as Hj by (rewrite Ei; left).
      apply elem_of_ids in Hj as (r' & Hx & Hb & Hlr). exists (j, r'). split_and!; try done.
      rewrite (same_params_lref b b') in Hlr by done.
      eapply lref_inj; [apply Hc| | |exact Hlr].
      - apply (c_prices _ _ _ Hc (j, r')). set_solver.
      - apply (c_prices _ _ _ Hc (i, r)). set_solver. }
    eexists. split_and!; [reflexivity|done|by eapply weak_remove|done|].
    intros He _. by eapply exact_remove. }
  rewrite was_best_cached, Hca. case_bool_decide as Hbest.
  - destruct (recompute_spec b' (L1 ++ L2) (i :: free) (r_buy r) Hc' Hpos) as (o' & -> & Ho1 & Ho2).
    eexists. split_and!; [reflexivity|by apply set_best_core| | |].
    + intros buy p. rewrite set_best_cached. destruct (Bool.eqb_spec (r_buy r) buy) as [<-|Hne].
      * apply Ho1.
      * rewrite Hca. intros Hp. destruct (Hw buy p Hp) as (y' & Hy & Hyb & Hyp).
        exists y'. split; [|done]. assert (y' <> (i, r)) by (by intros ->). set_solver.
    + etransitivity; [done|apply set_best_shape].
    + intros He Hfit buy. rewrite set_best_cached.
      destruct (Bool.eqb_spec (r_buy r) buy) as [<-|Hne]; [by apply Ho2|].
      rewrite Hca, He, !fmap_app. cbn. by apply Spec.best_remove_other.
  - eexists. split_and!; [reflexivity|done| |done|].
    + eapply weak_remove; [done|done|]. intros Hx. by apply Hbest in Hx.
    + intros He _. eapply exact_remove; [done|done|]. intros Hx. by apply Hbest in Hx.
Qed.

(** ** Adding an order *)

(** Opening a level: an empty one appears if the price had none. *)
Lemma level_for_mutation_spec b L p b' lr :
  geom b -> levels_ok b L -> orders_ok b L -> 0 <= p < 2 ^ 32 ->
  level_for_mutation b p = (b', lr) ->
  geom b' /\ levels_ok b' L /\ orders_ok b' L /\ lr = lref b p /\ is_Some (get_level b' lr) /\
  order_pool_ b' = order_pool_ b /\ order_index_ b' = order_index_ b /\
  reference_price_ b' = reference_price_ b /\ flat_array_half_width_ b' = flat_array_half_width_ b /\
  (forall buy, cached b' buy = cached b buy).
Proof.
  intros Hg Hlv Hord Hp. unfold level_for_mutation, lref.
  destruct (flat_index_for b p) as [i|] eqn:Ei.
  { intros [= <- <-]. pose proof (get_level_flat _ _ _ Hg Hp Ei) as Hi. split_and!; done. }
  destruct (outlier_levels_ b !! p) as [lv|] eqn:El; intros [= <- <-].
  { split_and!; try done; cbn; by rewrite El. }
  set (b' := with_outliers b _).
  assert (forall lr lv buy, get_level b' lr = Some lv -> get_level b lr = Some lv \/
    (lr = OutlierLevel p /\ queue buy lv = IList.empty_list /\ total buy lv = 0 /\
     level_price lv = p)) as Hget.
  { intros [j|k] lv buy; [by left|]. cbn. rewrite lookup_insert_Some.
    intros [(<- & <-)|[_ Hk]]; [right|by left]. by destruct buy. }
  assert (forall lr, is_Some (get_level b lr) -> is_Some (get_level b' lr)) as Hsome.
  { intros [j|k]; [done|]. cbn. rewrite lookup_insert. by case_decide. }
  assert (forall buy, ids b (OutlierLevel p) buy L = []) as Hids.
  { intros buy. destruct (ids b (OutlierLevel p) buy L) as [|j k] eqn:E; [done|].
    assert (j ∈ ids b (OutlierLevel p) buy L) as (r & Hr & _ & Hlr)%elem_of_ids by (rewrite E; left).
    destruct (Hord _ _ Hr) as (_ & _ & _ & [lv Hl]). rewrite Hlr in Hl. cbn in Hl. congruence. }
  split_and!; try done.
  - destruct Hg as [H1 H2 H3 H4 H5]. split; try done. intros k lv Hk.
    destruct (Hget (OutlierLevel k) lv true Hk) as [Hx|([= ->] & _ & _ & Hx)]; [by apply H5|by split].
  - intros lr lv buy Hl. change (ids b') with (ids b). change (sum_side b') with (sum_side b).
    destruct (Hget lr lv buy Hl) as [Hx|(-> & -> & -> & _)]; [by apply Hlv|].
    rewrite Hids. split; [apply IList.is_list_empty|].
    unfold sum_side. specialize (Hids buy). unfold ids in Hids. by apply fmap_nil_inv in Hids as ->.
  - intros j r Hr. destruct (Hord j r Hr) as (o & ? & ? & ?). exists o. split_and!; [done|done|].
    by apply Hsome.
  - cbn. by rewrite lookup_insert_eq.
Qed.

Lemma update_best_cached b p buy buy' :
  cached (update_best_on_add b p buy) buy' =
    if Bool.eqb buy buy' then
      match cached b buy with
      | None => Some p
      | Some q => if Spec.improves buy p q then Some p else Some q
      end
    else cached b buy'.
Proof.
  unfold update_best_on_add, cached, best_bid, best_ask, Spec.improves.
  destruct b as [? ? ? ? ? ? [] bid [] ask], buy, buy'; cbn; try done;
    first [by destruct (bid <? p) | by destruct (p <? ask)].
Qed.

Lemma update_best_core b p buy L free : core b L free -> core (update_best_on_add b p buy) L free.
Proof.
  intros Hc. unfold update_best_on_add.
  destruct buy; case_match; try done.
  - by apply (set_best_core b true (Some p)).
  - by apply (set_best_core b false (Some p)).
Qed.

Lemma update_best_shape b p buy : same_shape b (update_best_on_add b p buy).
Proof. unfold update_best_on_add. destruct buy; by case_match. Qed.

(** A newly acquired node is in no list. *)
Lemma acquired_fresh b L i : orders_ok b L -> load (order_pool_ b) i = None -> i ∉ L.*1.
Proof.
  intros Ho Hn ([j r] & -> & Hx)%list_elem_of_fmap. destruct (Ho j r Hx) as (o & Hl & _).
  cbn in Hn. cbn in Hl. congruence.
Qed.

Lemma index_size b L free :
  core b L free -> OAMap.size_ (order_index_ b) = Z.of_nat (length L).
Proof.
  intros Hc. destruct (c_index _ _ _ Hc) as [Hiw Him _]. rewrite <- (OAMap.size_to_map _ Hiw), Him.
  unfold index_map. rewrite map_size_list_to_map by (rewrite index_map_keys; apply Hc).
  by rewrite length_fmap.
Qed.

Lemma with_pool_id b : with_pool b (order_pool_ b) = b.
Proof. by destruct b. Qed.

(** ** The representation relation and [add_order] *)

Definition Rep b (l : list Rest) : Prop :=
  exists L free, core b L free /\ positive L /\ weak b L /\ L.*2 = l.

(** The cached best prices are the best prices. *)
Definition best_exact b (l : list Rest) : Prop := forall buy, cached b buy = Spec.best buy l.

Definition book_capacity b : Z := Pool.capacity_ (order_pool_ b).

(** Initialising an acquired node, which no list contains. *)
Lemma init_order_spec b L i o0 ref p s buy trader lr :
  levels_ok b L -> orders_ok b L -> i ∉ L.*1 -> load (order_pool_ b) i = Some o0 ->
  exists pool, modify (order_pool_ b) i (init_order ref p s buy trader lr) = Some pool /\
    load pool i = Some (init_order ref p s buy trader lr o0) /\
    levels_ok (with_pool b pool) L /\ orders_ok (with_pool b pool) L /\
    Pool.same_slots (order_pool_ b) pool.
Proof.
  intros Hlv Hord Hi Ho.
  destruct (IList.modify_spec _ _ _ (init_order ref p s buy trader lr) Ho) as (pool & Hm & Hld).
  assert (forall j, j <> i -> load pool j = load (order_pool_ b) j) as Hoth.
  { intros j Hj. rewrite Hld. by rewrite decide_False. }
  exists pool. split_and!; [done| | | |by eapply Pool.modify_same].
  - rewrite Hld. by rewrite decide_True.
  - by eapply release_levels.
  - by eapply release_orders.
Qed.

(** The successful path of [add_order], up to the insertion in the index. *)
Lemma link_new_spec b L i free ref p s buy trader :
  core b L (i :: free) -> 0 <= p < 2 ^ 32 ->
  exists pool1 pool2 b2 lr b3,
    Pool.acquire (order_pool_ b) default_order = Some (pool1, Some i) /\
    level_for_mutation (with_pool b pool1) p = (b2, lr) /\
    modify (order_pool_ b2) i (init_order ref p s buy trader lr) = Some pool2 /\
    level_push_back (with_pool b2 pool2) lr buy i s = Some b3 /\
    geom b3 /\ levels_ok b3 (L ++ [(i, MkRest ref p s buy trader)]) /\
    orders_ok b3 (L ++ [(i, MkRest ref p s buy trader)]) /\
    Pool.wf (order_pool_ b3) free /\ order_index_ b3 = order_index_ b /\
    (forall side, cached b3 side = cached b side) /\ same_shape b b3 /\ i ∉ L.*1.
Proof.
  intros Hc Hp. destruct Hc as [Hg Hpw _ Hlv Hord Hpt _ _ _].
  destruct (Pool.acquire_free _ default_order _ _ Hpw) as (pool1 & Hacq & Hpw1 & Hn & Hld1 & Hoth1 & Hcap1).
  pose proof (acquired_fresh _ _ _ Hord Hn) as Hni.
  assert (levels_ok (with_pool b pool1) L) as Hlv1 by (by eapply release_levels).
  assert (orders_ok (with_pool b pool1) L) as Hord1 by (by eapply release_orders).
  destruct (level_for_mutation (with_pool b pool1) p) as [b2 lr] eqn:Hlm.
  assert (geom (with_pool b pool1)) as Hg1 by (by destruct Hg).
  destruct (level_for_mutation_spec _ L _ _ _ Hg1 Hlv1 Hord1 Hp Hlm)
    as (Hg2 & Hlv2 & Hord2 & Hlr & [lv Hl] & Hp2 & Hi2 & Hr2 & Hh2 & Hc2).
  assert (load (order_pool_ b2) i = Some default_order) as Hld2 by (by rewrite Hp2).
  destruct (init_order_spec b2 L i default_order ref p s buy trader lr Hlv2 Hord2 Hni Hld2)
    as (pool2 & Hm & Hld3 & Hlv3 & Hord3 & [Hcap3 Hwf3]).
  set (r := MkRest ref p s buy trader).
  assert (lref b2 p = lr) as Hlr2.
  { rewrite Hlr. by apply same_params_lref. }
  destruct (level_push_back_spec (with_pool b2 pool2) L i r lr lv
              (init_order ref p s buy trader lr default_order)) as
    (b3 & Hpb & Hg3 & Hlv4 & Hord4 & [Hsi Hsc Hsr Hsh _ [Hsp Hsw]]); try done.
  { by destruct Hg2. }
  exists pool1, pool2, b2, lr, b3. split_and!; try done.
  - apply Hsw. cbn. apply Hwf3. by rewrite Hp2.
  - rewrite Hsi. by cbn.
  - intros side. rewrite Hsc. transitivity (cached b2 side); [by destruct side|].
    rewrite Hc2. by destruct side.
  - split; [by rewrite Hsr|by rewrite Hsh|]. rewrite Hsp. cbn. by rewrite Hcap3, Hp2.
Qed.

Lemma add_order_core b L free ref p s buy trader :
  core b L free -> 0 <= p < 2 ^ 32 -> s <> 0 -> Spec.find_ref ref L.*2 = None ->
  match free with
  | [] => add_order b ref p s buy trader = Some (b, false)
  | i :: free' =>
      let L' := L ++ [(i, MkRest ref p s buy trader)] in
      exists b', add_order b ref p s buy trader = Some (update_best_on_add b' p buy, true) /\
        core b' L' free' /\ (forall side, cached b' side = cached b side) /\ same_shape b b'
  end.
Proof.
  intros Hc Hp Hs Hf. unfold add_order. rewrite (proj2 (Z.eqb_neq _ _) Hs).
  pose proof (c_index _ _ _ Hc) as [Hiw Him Hic].
  assert (OAMap.to_map (order_index_ b) !! ref = None) as Hnone.
  { rewrite Him. apply index_map_None; [apply Hc|done]. }
  rewrite (OAMap.find_absent _ _ Hiw Hnone). cbn [mbind option_bind].
  destruct free as [|i free'].
  { rewrite (Pool.acquire_empty _ _ (c_pool _ _ _ Hc)). cbn [mbind option_bind].
    by rewrite with_pool_id. }
  destruct (link_new_spec b L i free' ref p s buy trader Hc Hp) as
    (pool1 & pool2 & b2 & lr & b3 & -> & Hlm & Hm & Hpb & Hg3 & Hlv3 & Hord3 & Hpw3 & Hi3 & Hca3 &
     Hss & Hni).
  cbn [mbind option_bind]. rewrite Hlm, Hm. cbn [mbind option_bind]. rewrite Hpb.
  cbn [mbind option_bind]. rewrite Hi3.
  pose proof (c_count _ _ _ Hc) as Hcnt. cbn [length] in Hcnt.
  destruct (OAMap.insert_fresh (order_index_ b) ref (Some i)) as
    (index & Hins & Hiw' & Him' & _ & Hic'); [done|done| |].
  { rewrite (index_size _ _ _ Hc). lia. }
  rewrite Hins. cbn [mbind option_bind negb].
  assert (NoDup (r_ref <$> (L ++ [(i, MkRest ref p s buy trader)]).*2)) as Hrf.
  { rewrite !fmap_app. apply NoDup_app. split_and!; [apply Hc| |apply NoDup_singleton].
    intros x ([r] & -> & Hr)%list_elem_of_fmap Hx%list_elem_of_singleton.
    by apply (proj1 (Spec.find_ref_None _ _) Hf _ Hr). }
  exists (with_index b3 index). split_and!; [done| |by intros []; rewrite <- Hca3|by destruct Hss].
  split; cbn [with_index order_pool_ order_index_].
  - by destruct Hg3.
  - done.
  - split; cbn [with_index order_pool_ order_index_]; [done| |].
    + rewrite Him', Him, index_map_split by done. by rewrite app_nil_r.
    + rewrite (ss_cap _ _ Hss), Hic'. done.
  - done.
  - done.
  - rewrite fmap_app. apply NoDup_app. split_and!; [apply Hc|set_solver|apply NoDup_singleton].
  - done.
  - rewrite (ss_cap _ _ Hss), length_app. cbn [length]. lia.
  - intros x [Hx| ->%list_elem_of_singleton]%elem_of_app; [by eapply c_prices|done].
Qed.

Lemma Rep_update_best b b' L free i r :
  core b' (L ++ [(i, r)]) free -> (forall side, cached b' side = cached b side) ->
  positive L -> 0 < r_shares r < 2 ^ 32 -> weak b L ->
  Rep (update_best_on_add b' (r_price r) (r_buy r)) (L.*2 ++ [r]) /\
  (best_exact b L.*2 -> best_exact (update_best_on_add b' (r_price r) (r_buy r)) (L.*2 ++ [r])).
Proof.
  intros Hc Hca Hpos Hs Hw. split.
  - exists (L ++ [(i, r)]), free. split_and!.
    + by apply update_best_core.
    + intros x [Hx| ->%list_elem_of_singleton]%elem_of_app; [by apply Hpos|done].
    + assert (exists x, x ∈ L ++ [(i, r)] /\ r_buy x.2 = r_buy r /\ r_price x.2 = r_price r) as Hnew.
      { exists (i, r). set_solver. }
      assert (forall buy p, cached b buy = Some p ->
        exists x, x ∈ L ++ [(i, r)] /\ r_buy x.2 = buy /\ r_price x.2 = p) as Hold.
      { intros buy p Hp. destruct (Hw buy p Hp) as (x & Hx & Hxx). exists x. set_solver. }
      intros buy p. rewrite update_best_cached, !Hca. destruct (Bool.eqb_spec (r_buy r) buy) as [<-|]; [|auto].
      destruct (cached b (r_buy r)) as [q|] eqn:Eq; [case_match|]; intros [= <-]; auto.
    + by rewrite fmap_app.
  - intros He buy. rewrite update_best_cached, !Hca, Spec.best_add, !He.
    by destruct (Bool.eqb_spec (r_buy r) buy) as [<-|].
Qed.

Lemma add_order_rep b l ref p s buy trader :
  Rep b l -> 0 <= p < 2 ^ 32 -> 0 <= s < 2 ^ 32 ->
  let res := Spec.add (book_capacity b) l ref p s buy trader in
  exists b', add_order b ref p s buy trader = Some (b', res.2) /\ Rep b' res.1 /\
    same_shape b b' /\ (best_exact b l -> best_exact b' res.1).
Proof.
  intros (L & free & Hc & Hpos & Hw & <-) Hp Hs. unfold Spec.add.
  destruct (Z.eqb_spec s 0) as [->|Hs0].
  { exists b. unfold add_order. cbn. split_and!; try done. by exists L, free. }
  destruct (Spec.find_ref ref L.*2) as [r|] eqn:Hf.
  { exists b. split_and!; try done; [|by exists L, free].
    unfold add_order. rewrite (proj2 (Z.eqb_neq _ _) Hs0).
    apply Spec.find_ref_Some in Hf as [([i r'] & -> & Hx)%list_elem_of_fmap Hr].
    destruct (OAMap.find_present (order_index_ b) ref (Some i)) as (j & sl & -> & _); [apply Hc| |done].
    rewrite (ix_map _ _ (c_index _ _ _ Hc)). apply index_map_Some; [apply Hc|]. by exists i, r'. }
  pose proof (add_order_core b L free ref p s buy trader Hc Hp Hs0 Hf) as Hadd.
  pose proof (c_count _ _ _ Hc) as Hcnt. unfold book_capacity. rewrite length_fmap.
  destruct free as [|i free'].
  - rewrite (proj2 (Z.ltb_ge _ _)) by (cbn in Hcnt; lia). exists b.
    split_and!; try done. by exists L, [].
  - rewrite (proj2 (Z.ltb_lt _ _)) by (cbn [length] in Hcnt; lia).
    destruct Hadd as (b' & -> & Hc' & Hca & Hss). eexists. split; [reflexivity|].
    destruct (Rep_update_best b b' L free' i (MkRest ref p s buy trader)) as [HR HE];
      [done..|cbn; lia|done|].
    split_and!; [done|by etransitivity; [|apply update_best_shape]|done].
Qed.

(** ** Reducing, deleting and replacing *)

Lemma find_split L ref r :
  NoDup (r_ref <$> L.*2) -> Spec.find_ref ref L.*2 = Some r ->
  exists L1 i L2, L = L1 ++ (i, r) :: L2 /\ r_ref r = ref.
Proof.
  intros Hnd Hf. apply Spec.find_ref_Some in Hf as [([i r'] & -> & Hx)%list_elem_of_fmap Hr].
  apply list_elem_of_split in Hx as (L1 & L2 & ->). by exists L1, i, L2.
Qed.

Lemma remove_ref_split L1 i r L2 :
  NoDup (r_ref <$> (L1 ++ (i, r) :: L2).*2) ->
  Spec.remove_ref (r_ref r) (L1 ++ (i, r) :: L2).*2 = (L1 ++ L2).*2.
Proof.
  intros Hnd. destruct (nodup_refs_remove _ _ _ _ Hnd) as [_ Hn]. unfold Spec.remove_ref.
  rewrite !fmap_app. cbn. rewrite filter_app, filter_cons_False by (by intros []).
  rewrite <- filter_app. apply filter_all.
  intros r' Hr'. rewrite <- fmap_app in Hr'.
  apply list_elem_of_fmap in Hr' as (x & -> & Hx). by apply Hn.
Qed.

Lemma update_ref_split L1 i r L2 s :
  NoDup (r_ref <$> (L1 ++ (i, r) :: L2).*2) ->
  Spec.update_ref (r_ref r) s (L1 ++ (i, r) :: L2).*2 =
  (L1 ++ (i, Spec.set_r_shares s r) :: L2).*2.
Proof.
  intros Hnd. destruct (nodup_refs_remove _ _ _ _ Hnd) as [_ Hn]. unfold Spec.update_ref.
  rewrite !fmap_app. cbn. rewrite Z.eqb_refl.
  assert (forall k : list (nat * Rest), (forall x, x ∈ k -> x ∈ L1 ++ L2) ->
    (fun x => if r_ref x =? r_ref r then Spec.set_r_shares s x else x) <$> k.*2 = k.*2) as Hid.
  { intros k Hk. rewrite <- (list_fmap_id k.*2) at 2. apply list_fmap_ext; cbn.
    intros j y Hy. apply list_elem_of_lookup_2 in Hy.
    apply list_elem_of_fmap in Hy as (x & -> & Hx).
    by rewrite (proj2 (Z.eqb_neq _ _) (Hn x (Hk x Hx))). }
  rewrite !Hid; [done|set_solver|set_solver].
Qed.

(** Changing the shares of one order, in its node and in its level's total. *)
Section set_shares.
Context (b : OrderBook) (L1 : list (nat * Rest)) (i : nat) (r : Rest) (L2 : list (nat * Rest)).
Context (delta : Z) (o : Order) (pool : Pool.t Order) (lv : PriceLevel).

Local Abbreviation L := (L1 ++ (i, r) :: L2).
Local Abbreviation lr0 := (lref b (r_price r)).
Local Abbreviation r' := (Spec.set_r_shares (r_shares r - delta) r).
Local Abbreviation L' := (L1 ++ (i, r') :: L2).
Local Abbreviation lv' :=
  (set_side (r_buy r) lv (queue (r_buy r) lv) (total (r_buy r) lv -u32 delta)).
Local Abbreviation b' := (set_level (with_pool b pool) lr0 lv').

Hypothesis Ho : load (order_pool_ b) i = Some o.
Hypothesis Hmo : matches o r lr0.
Hypothesis Hl : get_level b lr0 = Some lv.
Hypothesis Hld : forall j, load pool j =
  if decide (i = j) then Some (set_shares (r_shares r - delta) o) else load (order_pool_ b) j.

Lemma set_shares_ids lr buy : ids b' lr buy L' = ids b lr buy L.
Proof.
  rewrite set_level_ids, !ids_app, !ids_cons. by change (ids (with_pool b pool)) with (ids b).
Qed.

Lemma set_shares_sum lr buy :
  sum_side b' lr buy L' =
  sum_side b lr buy L - (if decide (on_side b lr buy (i, r)) then delta else 0).
Proof.
  rewrite set_level_sum, !sum_side_app, !sum_side_cons.
  change (sum_side (with_pool b pool)) with (sum_side b).
  destruct (decide (on_side b lr buy (i, r)));
    destruct (decide (on_side (with_pool b pool) lr buy (i, r'))); try done; cbn; lia.
Qed.

(** Every level keeps its queues; one total drops by [delta]. *)
Lemma set_shares_level lr lv2 buy :
  get_level b' lr = Some lv2 ->
  exists lv0, get_level b lr = Some lv0 /\ queue buy lv2 = queue buy lv0 /\
    total buy lv2 = if decide (on_side b lr buy (i, r)) then total buy lv0 -u32 delta
                    else total buy lv0.
Proof.
  rewrite (get_set_level _ _ _ lv) by (by destruct lr0). unfold on_side. cbn [snd].
  destruct (decide (lr0 = lr)) as [<-|Hne].
  - intros [= <-]. exists lv. rewrite queue_set_side, total_set_side.
    destruct (Bool.eqb_spec (r_buy r) buy) as [<-|Hb].
    + by rewrite decide_True.
    + by rewrite decide_False by naive_solver.
  - intros Hlv. exists lv2. rewrite decide_False by naive_solver. by destruct lr.
Qed.

Lemma set_shares_levels_ok : levels_ok b L -> levels_ok b' L'.
Proof.
  intros Hlv lr lv2 buy (lv0 & Hl0 & -> & ->)%(set_shares_level _ _ buy).
  destruct (Hlv lr lv0 buy Hl0) as [Hil ->].
  rewrite set_shares_ids, set_shares_sum, set_level_pool. cbn [with_pool order_pool_]. split.
  - eapply IList.is_list_links; [|exact Hil]. intros j m Hj Hmj.
    rewrite Hld. destruct (decide (i = j)) as [<-|]; [|by exists m].
    assert (m = o) as -> by congruence. by eexists.
  - destruct (decide _); [by rewrite u32_sub_l|by rewrite Z.sub_0_r].
Qed.

Lemma set_shares_orders_ok : NoDup L.*1 -> orders_ok b L -> orders_ok b' L'.
Proof.
  intros Hnd Hord j r2 Hj. rewrite set_level_pool, set_level_lref. cbn [with_pool order_pool_].
  change (lref (with_pool b pool)) with (lref b).
  assert (forall lr, is_Some (get_level b lr) -> is_Some (get_level b' lr)) as Hsome.
  { intros lr Hx. eapply (get_set_level_some _ _ _ lv); [by destruct lr0|by destruct lr]. }
  rewrite Hld. destruct (decide (i = j)) as [<-|Hne].
  - assert (r2 = r') as ->.
    { eapply (nodup_fst_inj L'); [by rewrite fmap_app in *|done|set_solver]. }
    eexists. split; [done|]. split; [by destruct Hmo|]. apply Hsome. by exists lv.
  - assert ((j, r2) ∈ L) as Hj2 by set_solver.
    destruct (Hord j r2 Hj2) as (o2 & ? & ? & ?). exists o2. auto.
Qed.

Lemma set_shares_core free :
  core b L free -> Pool.same_slots (order_pool_ b) pool -> core b' L' free.
Proof.
  intros [Hg Hpw [Hiw Him Hic] Hlv Hord Hpt Hrf Hcnt Hpr] [Hcap Hwf].
  split.
  - eapply set_level_geom; [by destruct Hg|by destruct lr0|apply set_side_price].
  - rewrite set_level_pool. by apply Hwf.
  - split; rewrite ?set_level_index, ?set_level_pool; [done| |by cbn; rewrite Hcap].
    cbn [with_pool order_index_]. rewrite Him, !index_map_split by (by rewrite ?fmap_app in *).
    done.
  - by apply set_shares_levels_ok.
  - by apply set_shares_orders_ok.
  - by rewrite fmap_app in *.
  - by rewrite !fmap_app in *.
  - rewrite set_level_pool. cbn. rewrite Hcap, <- Hcnt, !length_app. cbn. lia.
  - intros x [Hx|[->|Hx]%elem_of_cons]%elem_of_app; [apply Hpr; set_solver| |apply Hpr; set_solver].
    apply (Hpr (i, r)). set_solver.
Qed.
End set_shares.
