(* ===== verification/BookOps.v ===== *)
(** * Reductions, deletions, replacements, construction and queries

    The remaining operations of book/order_book.cpp refine their
    specifications; [book_step] packages the shape all these statements share. *)

From S2P Require Import Prelude HashMap IntrusiveList ObjectPool ByteOrder Messages OrderBook.
From S2P Require Import BookSpec BookInvariant BookBest BookRefinement.

Local Open Scope Z_scope.

Implicit Types (b : OrderBook) (L : list (nat * Rest)) (l : list Rest) (r : Rest)
  (lr : LevelRef) (lv : PriceLevel).

(** ** Following a reference *)

(** [order_index_.find] and the dereferences that follow it. *)
Lemma find_live b L1 i r L2 free :
  core b (L1 ++ (i, r) :: L2) free ->
  exists slot o lv,
    OAMap.find (order_index_ b) (r_ref r) = Some (Some slot) /\ deref_slot b slot = Some i /\
    load (order_pool_ b) i = Some o /\ matches o r (lref b (r_price r)) /\
    get_level b (lref b (r_price r)) = Some lv.
Proof.
  intros Hc. destruct (c_orders _ _ _ Hc i r) as (o & Ho & Hm & [lv Hl]); [set_solver|].
  destruct (c_index _ _ _ Hc) as [Hiw Him _].
  destruct (OAMap.find_present (order_index_ b) (r_ref r) (Some i)) as (slot & s & Hf & Hs & Hoc & _ & Hv);
    [done| |].
  { rewrite Him. apply index_map_Some; [apply Hc|]. exists i, r. set_solver. }
  exists slot, o, lv. split_and!; try done.
  unfold deref_slot, OAMap.deref. rewrite Hs. cbn. exact Hv.
Qed.

Lemma find_dead b L free ref :
  core b L free -> Spec.find_ref ref L.*2 = None -> OAMap.find (order_index_ b) ref = Some None.
Proof.
  intros Hc Hf. destruct (c_index _ _ _ Hc) as [Hiw Him _]. apply OAMap.find_absent; [done|].
  rewrite Him. apply index_map_None; [apply Hc|done].
Qed.

(** ** The abstract side *)

Lemma shares_at_nonneg buy p l :
  (forall r, r ∈ l -> 0 < r_shares r) -> 0 <= Spec.shares_at buy p l.
Proof.
  intros Hp. apply sumZ_nonneg. intros r [_ Hr]%list_elem_of_filter. specialize (Hp r Hr). lia.
Qed.

Lemma shares_at_app buy p l l' :
  Spec.shares_at buy p (l ++ l') = Spec.shares_at buy p l + Spec.shares_at buy p l'.
Proof. unfold Spec.shares_at, Spec.queue_at. by rewrite filter_app, sumZ_app. Qed.

Lemma shares_at_cons buy p r l :
  Spec.shares_at buy p (r :: l) =
  (if decide (Spec.at_level buy p r) then r_shares r else 0) + Spec.shares_at buy p l.
Proof. unfold Spec.shares_at, Spec.queue_at. rewrite filter_cons. by case_decide. Qed.

Lemma fits_remove l1 r l2 : 0 < r_shares r -> Spec.fits (l1 ++ r :: l2) -> Spec.fits (l1 ++ l2).
Proof.
  intros Hr Hf buy p. specialize (Hf buy p). rewrite shares_at_app in *.
  rewrite shares_at_cons in Hf. case_decide; lia.
Qed.

Lemma positive_remove L1 x L2 : positive (L1 ++ x :: L2) -> positive (L1 ++ L2).
Proof. intros Hp y Hy. apply Hp. set_solver. Qed.

Lemma weak_same_prices b b' L1 i r s L2 :
  (forall buy, cached b' buy = cached b buy) -> weak b (L1 ++ (i, r) :: L2) ->
  weak b' (L1 ++ (i, Spec.set_r_shares s r) :: L2).
Proof.
  intros Hca Hw buy p Hp. rewrite Hca in Hp. destruct (Hw buy p Hp) as (x & Hx & Hb & Hxp).
  apply elem_of_app in Hx as [Hx|[->|Hx]%elem_of_cons]; [| |].
  - exists x. set_solver.
  - exists (i, Spec.set_r_shares s r). set_solver.
  - exists x. set_solver.
Qed.

Lemma best_exact_same_prices b b' l1 r s l2 :
  (forall buy, cached b' buy = cached b buy) ->
  best_exact b (l1 ++ r :: l2) -> best_exact b' (l1 ++ Spec.set_r_shares s r :: l2).
Proof. intros Hca He buy. by rewrite Hca, He, Spec.best_update_shares. Qed.

(** ** The shape of an operation *)

(** [f], run on a book that represents [l], is defined, returns the result of
    the specification, keeps the parameters of the book and, when no level's
    total wraps, keeps the cached best prices right. *)
Definition book_step b l (f : ub (OrderBook * bool)) (res : list Rest * bool) : Prop :=
  exists b', f = Some (b', res.2) /\ Rep b' res.1 /\ same_shape b b' /\
    (best_exact b l -> Spec.fits l -> best_exact b' res.1).

Lemma book_step_refused b l : Rep b l -> book_step b l (Some (b, false)) (l, false).
Proof. intros HR. by exists b. Qed.

Lemma add_order_step b l ref p s buy trader :
  Rep b l -> 0 <= p < 2 ^ 32 -> 0 <= s < 2 ^ 32 ->
  book_step b l (add_order b ref p s buy trader)
    (Spec.add (book_capacity b) l ref p s buy trader).
Proof.
  intros HR Hp Hs. destruct (add_order_rep b l ref p s buy trader HR Hp Hs) as (b' & ? & ? & ? & ?).
  exists b'. auto.
Qed.

Lemma remove_step b L1 i r L2 free :
  core b (L1 ++ (i, r) :: L2) free -> positive (L1 ++ (i, r) :: L2) ->
  weak b (L1 ++ (i, r) :: L2) ->
  exists b', remove_order_fully b i = Some b' /\ Rep b' (L1 ++ L2).*2 /\ same_shape b b' /\
    (best_exact b (L1 ++ (i, r) :: L2).*2 -> Spec.fits (L1 ++ (i, r) :: L2).*2 ->
     best_exact b' (L1 ++ L2).*2).
Proof.
  intros Hc Hpos Hw.
  destruct (remove_order_fully_spec b L1 i r L2 free Hc) as (b' & Hr & Hc' & Hw' & Hss & He); try done.
  { by eapply positive_remove. }
  exists b'. split_and!; try done.
  - exists (L1 ++ L2), (i :: free). split_and!; try done. by eapply positive_remove.
  - intros Hx Hfit. apply He; [done|]. rewrite fmap_app in *. eapply fits_remove; [|exact Hfit].
    apply (Hpos (i, r)). set_solver.
Qed.

Lemma delete_step b l ref : Rep b l -> book_step b l (delete_order b ref) (Spec.delete l ref).
Proof.
  intros HR. pose proof HR as (L & free & Hc & Hpos & Hw & <-). unfold delete_order, Spec.delete.
  destruct (Spec.find_ref ref L.*2) as [r|] eqn:Hf.
  2:{ rewrite (find_dead _ _ _ _ Hc Hf). by apply book_step_refused. }
  destruct (find_split L ref r (c_refs _ _ _ Hc) Hf) as (L1 & i & L2 & -> & <-).
  destruct (find_live _ _ _ _ _ _ Hc) as (slot & o & lv & -> & Hd & _).
  cbn [mbind option_bind]. rewrite Hd. cbn [mbind option_bind].
  destruct (remove_step _ _ _ _ _ _ Hc Hpos Hw) as (b' & -> & HR' & Hss & He).
  cbn [mbind option_bind]. rewrite remove_ref_split by apply Hc. by exists b'.
Qed.

(** The node and total updates of [reduce_shares]. *)
Lemma reduce_in_place b L1 i r L2 free delta :
  core b (L1 ++ (i, r) :: L2) free -> 0 <= r_shares r - delta < 2 ^ 32 ->
  exists o pool lv,
    let lr := lref b (r_price r) in
    let r' := Spec.set_r_shares (r_shares r - delta) r in
    let b' := set_level (with_pool b pool) lr
                (set_side (r_buy r) lv (queue (r_buy r) lv) (total (r_buy r) lv -u32 delta)) in
    load (order_pool_ b) i = Some o /\ shares o = r_shares r /\ is_buy o = r_buy r /\
    level o = Some lr /\
    modify (order_pool_ b) i (fun o => set_shares (shares o -u32 delta) o) = Some pool /\
    get_level (with_pool b pool) lr = Some lv /\
    load (order_pool_ b') i = Some (set_shares (r_shares r - delta) o) /\
    core b' (L1 ++ (i, r') :: L2) free /\
    (forall side, cached b' side = cached b side) /\ same_shape b b'.
Proof.
  intros Hc Hs.
  destruct (find_live _ _ _ _ _ _ Hc) as (_ & o & lv & _ & _ & Ho & Hm & Hl).
  destruct (IList.modify_spec _ _ _ (fun o => set_shares (shares o -u32 delta) o) Ho)
    as (pool & Hmod & Hld).
  rewrite (m_shares _ _ _ Hm), u32_small in Hld by done.
  pose proof (Pool.modify_same _ _ _ _ Hmod) as Hsame.
  exists o, pool, lv. cbn zeta. split_and!; try done; try apply Hm.
  - rewrite set_level_pool. cbn [with_pool order_pool_]. rewrite Hld. by rewrite decide_True.
  - eapply set_shares_core; eauto.
  - intros side. by rewrite set_level_cached.
  - split; [by destruct (lref b _)|by destruct (lref b _)|]. rewrite set_level_pool. apply Hsame.
Qed.

Lemma reduce_step b l ref delta :
  Rep b l -> 0 <= delta -> book_step b l (reduce_shares b ref delta) (Spec.reduce l ref delta).
Proof.
  intros HR Hdelta. pose proof HR as (L & free & Hc & Hpos & Hw & <-).
  unfold reduce_shares, Spec.reduce.
  destruct (Spec.find_ref ref L.*2) as [r|] eqn:Hf.
  2:{ rewrite (find_dead _ _ _ _ Hc Hf). by apply book_step_refused. }
  destruct (find_split L ref r (c_refs _ _ _ Hc) Hf) as (L1 & i & L2 & -> & <-).
  destruct (find_live _ _ _ _ _ _ Hc) as (slot & _ & _ & -> & Hd & _).
  cbn [mbind option_bind]. rewrite Hd. cbn [mbind option_bind].
  assert (0 < r_shares r < 2 ^ 32) as Hr by (apply (Hpos (i, r)); set_solver).
  destruct (Z.ltb_spec (r_shares r) delta) as [Hgt|Hle].
  { destruct (c_orders _ _ _ Hc i r) as (o & -> & Hm & _); [set_solver|].
    cbn [mbind option_bind]. rewrite (m_shares _ _ _ Hm), (proj2 (Z.ltb_lt _ _)), !orb_true_r by lia.
    by apply book_step_refused. }
  destruct (reduce_in_place b L1 i r L2 free delta Hc ltac:(lia)) as
    (o & pool & lv & Ho & Hsh & Hbuy & Hlev & Hmod & Hl & Hld & Hc' & Hca & Hss).
  rewrite Ho. cbn [mbind option_bind]. rewrite Hsh, (proj2 (Z.ltb_ge _ _)), orb_false_r by lia.
  destruct (Z.eqb_spec delta 0) as [->|Hnz]; [by apply book_step_refused|].
  rewrite Hmod. cbn [mbind option_bind]. rewrite Hlev. cbn [mbind option_bind].
  rewrite Hl. cbn [mbind option_bind]. rewrite Hbuy, Hld. cbn [mbind option_bind].
  change (shares (set_shares (r_shares r - delta) o)) with (r_shares r - delta).
  set (b' := set_level _ _ _) in *.
  assert (weak b' (L1 ++ (i, Spec.set_r_shares (r_shares r - delta) r) :: L2)) as Hw'.
  { by apply (weak_same_prices b). }
  assert (best_exact b (L1 ++ (i, r) :: L2).*2 ->
          best_exact b' (L1 ++ (i, Spec.set_r_shares (r_shares r - delta) r) :: L2).*2) as He'.
  { rewrite !fmap_app. by apply best_exact_same_prices. }
  destruct (Z.eqb_spec (r_shares r - delta) 0) as [Hz|Hz].
  - rewrite (proj2 (Z.eqb_eq _ _)) by lia.
    destruct (remove_order_fully_spec b' L1 i _ L2 free Hc') as (b2 & -> & Hc2 & Hw2 & Hss2 & He2);
      [by eapply positive_remove|done|].
    cbn [mbind option_bind]. rewrite remove_ref_split by apply Hc.
    exists b2. split_and!; [done| |by etransitivity|].
    + exists (L1 ++ L2), (i :: free). split_and!; try done. by eapply positive_remove.
    + intros He Hfit. apply He2; [by apply He'|]. rewrite fmap_app in *.
      eapply fits_remove; [|exact Hfit]. cbn. lia.
  - rewrite (proj2 (Z.eqb_neq _ _)) by lia. rewrite update_ref_split by apply Hc.
    exists b'. split_and!; [done| |done|auto].
    eexists _, free. split_and!; [done| |done|done].
    intros x [Hx|[->|Hx]%elem_of_cons]%elem_of_app; [apply Hpos; set_solver| |apply Hpos; set_solver].
    cbn. lia.
Qed.

Lemma remove_ref_length l ref r :
  Spec.find_ref ref l = Some r -> (length (Spec.remove_ref ref l) < length l)%nat.
Proof.
  intros [Hr He]%Spec.find_ref_Some. apply list_elem_of_split in Hr as (l1 & l2 & ->).
  unfold Spec.remove_ref. rewrite filter_app, filter_cons_False, !length_app by (by intros []).
  cbn. pose proof (length_filter (fun r => r_ref r <> ref) l1).
  pose proof (length_filter (fun r => r_ref r <> ref) l2). lia.
Qed.

Lemma find_ref_remove l ref ref' :
  Spec.find_ref ref' (Spec.remove_ref ref l) =
  if decide (ref' = ref) then None else Spec.find_ref ref' l.
Proof.
  induction l as [|r l IH]; [by case_decide|]. unfold Spec.remove_ref. rewrite filter_cons.
  destruct (decide (r_ref r <> ref)) as [Hr|Hr].
  - cbn [Spec.find_ref List.find]. unfold Spec.find_ref in *. cbn [List.find].
    destruct (Z.eqb_spec (r_ref r) ref') as [Heq|]; [by rewrite decide_False by congruence|]. apply IH.
  - unfold Spec.remove_ref in IH. rewrite IH. destruct (decide (ref' = ref)) as [->|Hne]; [done|].
    unfold Spec.find_ref. cbn [List.find]. by rewrite (proj2 (Z.eqb_neq (r_ref r) ref')) by lia.
Qed.

Lemma Rep_count b l : Rep b l -> Z.of_nat (length l) <= book_capacity b.
Proof.
  intros (L & free & Hc & _ & _ & <-). rewrite length_fmap. pose proof (c_count _ _ _ Hc).
  unfold book_capacity. lia.
Qed.

(** Re-adding under a free reference after a removal always succeeds. *)
Lemma add_after_remove b l old new s p buy r :
  Rep b l -> Spec.find_ref old l = Some r -> s <> 0 ->
  (new = old \/ Spec.find_ref new l = None) ->
  Spec.add (book_capacity b) (Spec.remove_ref old l) new p s buy 0 =
  (Spec.remove_ref old l ++ [MkRest new p s buy 0], true).
Proof.
  intros HR Hf Hs Hn. unfold Spec.add. rewrite (proj2 (Z.eqb_neq _ _) Hs), find_ref_remove.
  assert ((if decide (new = old) then None else Spec.find_ref new l) = None) as ->.
  { destruct Hn as [->|Hn]; [by rewrite decide_True|by case_decide]. }
  pose proof (remove_ref_length _ _ _ Hf). pose proof (Rep_count _ _ HR).
  by rewrite (proj2 (Z.ltb_lt _ _)) by lia.
Qed.

Lemma collision_check b L free old new :
  core b L free ->
  (if old =? new then Some false
   else other ← OAMap.find (order_index_ b) new;
        Some (match other with Some _ => true | None => false end)) =
  Some (negb (old =? new) && bool_decide (is_Some (Spec.find_ref new L.*2))).
Proof.
  intros Hc. destruct (old =? new); [done|]. cbn [negb andb].
  destruct (Spec.find_ref new L.*2) as [r|] eqn:Hf.
  - destruct (find_split L new r (c_refs _ _ _ Hc) Hf) as (L1 & i & L2 & -> & <-).
    by destruct (find_live _ _ _ _ _ _ Hc) as (slot & _ & _ & -> & _).
  - by rewrite (find_dead _ _ _ _ Hc Hf).
Qed.

Lemma replace_step b l old new s p :
  Rep b l -> 0 <= p < 2 ^ 32 -> 0 <= s < 2 ^ 32 ->
  book_step b l (replace_order b old new s p) (Spec.replace l old new s p).
Proof.
  intros HR Hp Hs. pose proof HR as (L & free & Hc & Hpos & Hw & <-).
  unfold replace_order, Spec.replace.
  destruct (Spec.find_ref old L.*2) as [r|] eqn:Hf.
  2:{ rewrite (find_dead _ _ _ _ Hc Hf). by apply book_step_refused. }
  pose proof (collision_check b L free old new Hc) as Hcol.
  destruct (find_split L old r (c_refs _ _ _ Hc) Hf) as (L1 & i & L2 & -> & <-).
  destruct (find_live _ _ _ _ _ _ Hc) as (slot & o & lv & -> & Hd & Ho & Hm & _).
  cbn [mbind option_bind]. destruct (Z.eqb_spec s 0) as [Hs0|Hs0]; [by apply book_step_refused|].
  rewrite Hcol. cbn [mbind option_bind].
  destruct (negb (r_ref r =? new) && _) eqn:Ecol; [by apply book_step_refused|].
  rewrite Hd. cbn [mbind option_bind]. rewrite Ho. cbn [mbind option_bind].
  rewrite (m_buy _ _ _ Hm).
  destruct (remove_step _ _ _ _ _ _ Hc Hpos Hw) as (b1 & -> & HR1 & Hss1 & He1).
  cbn [mbind option_bind]. rewrite <- (remove_ref_split L1 i r L2) in HR1, He1 by apply Hc.
  destruct (add_order_rep b1 _ new p s (r_buy r) 0 HR1 Hp Hs) as (b2 & Ha & HR2 & Hss2 & He2).
  assert (book_capacity b1 = book_capacity b) as Hcap by apply Hss1.
  assert (new = r_ref r \/ Spec.find_ref new (L1 ++ (i, r) :: L2).*2 = None) as Hfree.
  { destruct (Z.eqb_spec (r_ref r) new) as [|Hne]; [by left|right]. cbn [negb andb] in Ecol.
    apply bool_decide_eq_false in Ecol. by apply eq_None_not_Some. }
  rewrite Hcap, (add_after_remove b _ _ _ _ _ _ r HR Hf Hs0 Hfree) in Ha, HR2, He2.
  exists b2. split_and!; [done|done|by etransitivity|auto].
Qed.

(** ** A fresh book *)

Lemma make_flat reference hw cap b i lv :
  make reference hw cap = Some b -> 0 <= reference < 2 ^ 32 -> 0 <= hw < 2 ^ 62 ->
  flat_levels_ b !! i = Some lv ->
  lv = MkLevel (u32 (reference + (Z.of_nat i - hw))) IList.empty_list IList.empty_list 0 0.
Proof.
  unfold make. intros Hm Hr Hh Hl. minv Hm. apply (inj Some) in Hm as <-. cbn in Hl.
  rewrite list_lookup_imap in Hl. destruct (replicate _ _ !! i) as [lv0|] eqn:Er; [|done].
  apply lookup_replicate in Er as [-> Hi]. cbn in Hl. apply (inj Some) in Hl as <-.
  unfold u64 in Hi. rewrite Z.mod_small in Hi by lia.
  unfold flat_price. by rewrite !i64_small by lia.
Qed.

Lemma make_core reference hw cap :
  0 <= reference < 2 ^ 32 -> 0 <= hw < 2 ^ 62 -> 0 <= cap <= 2 ^ 63 ->
  exists b, make reference hw cap = Some b /\ core b [] (seq 0 (Z.to_nat cap)) /\
    (forall buy, cached b buy = None).
Proof.
  intros Hr Hh Hc. destruct (OAMap.make_map_wf (K := Z) (V := ptr) cap Hc) as (index & Hi & Hiw & Him & Hic & _).
  destruct (make reference hw cap) as [b|] eqn:Hm.
  2:{ unfold make in Hm. by rewrite Hi in Hm. }
  exists b. split; [done|].
  pose proof (fun i lv => make_flat reference hw cap b i lv Hm Hr Hh) as Hflat.
  unfold make in Hm. rewrite Hi in Hm. cbn [mbind option_bind] in Hm. apply (inj Some) in Hm.
  split; [|by rewrite <- Hm; intros []].
  assert (outlier_levels_ b = ∅ /\ order_pool_ b = Pool.make cap /\ order_index_ b = index /\
    reference_price_ b = reference /\ flat_array_half_width_ b = hw /\
    Z.of_nat (length (flat_levels_ b)) = 2 * hw + 1) as (Ho & Hp & Hx & Hrf & Hhw & Hlen).
  { rewrite <- Hm. cbn. rewrite length_imap, length_replicate, u64_small by lia.
    split_and!; try done. lia. }
  split.
  - split; rewrite ?Hrf, ?Hhw; try done.
    + intros i lv ->%Hflat. done.
    + intros k lv. by rewrite Ho, lookup_empty.
  - rewrite Hp. apply Pool.make_pool_wf. lia.
  - split; rewrite Hx; [done|done|]. by rewrite Hp.
  - intros [i|k] lv buy; cbn; [intros ->%Hflat|by rewrite Ho, lookup_empty].
    destruct buy; (split; [apply IList.is_list_empty|done]).
  - by intros i r ?%not_elem_of_nil.
  - constructor.
  - constructor.
  - rewrite Hp, length_seq. cbn. lia.
  - by intros x ?%not_elem_of_nil.
Qed.

Lemma make_rep reference hw cap :
  0 <= reference < 2 ^ 32 -> 0 <= hw < 2 ^ 62 -> 0 <= cap <= 2 ^ 63 ->
  exists b, make reference hw cap = Some b /\ Rep b [] /\ best_exact b [] /\ book_capacity b = cap.
Proof.
  intros Hr Hh Hc. destruct (make_core reference hw cap Hr Hh Hc) as (b & Hm & Hcore & Hca).
  exists b. split_and!; [done| | |].
  - exists [], (seq 0 (Z.to_nat cap)). split_and!; try done.
    + by intros x ?%not_elem_of_nil.
    + intros buy p. by rewrite Hca.
  - intros buy. by rewrite Hca.
  - pose proof (c_count _ _ _ Hcore) as Hx. rewrite length_seq in Hx. unfold book_capacity. cbn in Hx. lia.
Qed.

Lemma Rep_positive b l : Rep b l -> forall r, r ∈ l -> 0 < r_shares r < 2 ^ 32.
Proof.
  intros (L & free & _ & Hpos & _ & <-) r (x & -> & Hx)%list_elem_of_fmap. by apply Hpos.
Qed.

(** ** The newest order *)

(** An order under an unused reference rests at the back. *)
Lemma add_fresh b l ref p s buy :
  Rep b l -> (forall r, r ∈ l -> r_ref r <> ref) -> Z.of_nat (length l) < book_capacity b ->
  0 <= p < 2 ^ 32 -> 0 < s < 2 ^ 32 ->
  exists b', add_order b ref p s buy 0 = Some (b', true) /\ Rep b' (l ++ [MkRest ref p s buy 0]) /\
    book_capacity b' = book_capacity b /\
    (best_exact b l -> best_exact b' (l ++ [MkRest ref p s buy 0])).
Proof.
  intros HR Hf Hl Hp Hs. destruct (add_order_rep b l ref p s buy 0 HR Hp ltac:(lia)) as (b' & Ha & HR' & Hss & He).
  assert (Spec.add (book_capacity b) l ref p s buy 0 = (l ++ [MkRest ref p s buy 0], true)) as Heq.
  { unfold Spec.add. rewrite (proj2 (Z.eqb_neq s 0)), (proj2 (Spec.find_ref_None ref l) Hf) by lia.
    by rewrite (proj2 (Z.ltb_lt _ _) Hl). }
  rewrite Heq in *. exists b'. split_and!; [done|done|apply Hss|exact He].
Qed.

(** Taking half of the newest order, then the rest. *)
Lemma reduce_newest l ref p s buy d :
  (forall r, r ∈ l -> r_ref r <> ref) -> 0 < d <= s ->
  Spec.reduce (l ++ [MkRest ref p s buy 0]) ref d =
    (if s =? d then l else l ++ [MkRest ref p (s - d) buy 0], true).
Proof.
  intros Hf Hd. unfold Spec.reduce.
  assert (Spec.find_ref ref (l ++ [MkRest ref p s buy 0]) = Some (MkRest ref p s buy 0)) as ->.
  { clear Hd. induction l as [|r l IH]; cbn [Spec.find_ref List.find app]; cbn [r_ref]; [by rewrite Z.eqb_refl|].
    rewrite (proj2 (Z.eqb_neq _ _)) by (apply Hf; left). apply IH. intros r' Hr'. apply Hf. by right. }
  cbn [r_shares]. rewrite (proj2 (Z.eqb_neq d 0)), (proj2 (Z.ltb_ge s d)) by lia. cbn [orb].
  destruct (s =? d).
  - f_equal. unfold Spec.remove_ref. rewrite filter_app, (filter_all _ l Hf), filter_cons_False by (by intros []).
    by rewrite app_nil_r.
  - f_equal. unfold Spec.update_ref. rewrite fmap_app. cbn. rewrite Z.eqb_refl. f_equal.
    rewrite <- (list_fmap_id l) at 2. apply list_fmap_ext. intros i r Hr. cbn.
    by rewrite (proj2 (Z.eqb_neq _ _)) by (apply Hf; by eapply list_elem_of_lookup_2).
Qed.

Lemma reduce_fresh b l ref p s buy d :
  Rep b (l ++ [MkRest ref p s buy 0]) -> (forall r, r ∈ l -> r_ref r <> ref) -> 0 < d <= s ->
  exists b', reduce_shares b ref d = Some (b', true) /\
    Rep b' (if s =? d then l else l ++ [MkRest ref p (s - d) buy 0]) /\
    book_capacity b' = book_capacity b.
Proof.
  intros HR Hf Hd. destruct (reduce_step b _ ref d HR ltac:(lia)) as (b' & Hr & HR' & Hss & _).
  rewrite (reduce_newest l ref p s buy d Hf Hd) in *. exists b'. split_and!; [done|done|apply Hss].
Qed.
