(* ===== verification/BookQueries.v ===== *)
(** * Queries and ITCH messages

    What the const members of book/order_book.hpp return on a book that
    represents a list of resting orders, and [OrderBook::apply]: an ITCH message
    is one abstract step. *)

From S2P Require Import Prelude HashMap IntrusiveList ObjectPool ByteOrder Messages Decode.
From S2P Require Import OrderBook BookSpec BookInvariant BookBest BookRefinement BookOps.

Local Open Scope Z_scope.

Implicit Types (b : OrderBook) (L : list (nat * Rest)) (l : list Rest) (r : Rest)
  (lr : LevelRef) (lv : PriceLevel).

(** ** Levels *)

Lemma level_for_query_spec b p :
  geom b -> 0 <= p < 2 ^ 32 ->
  level_for_query b p = (fun _ => lref b p) <$> get_level b (lref b p).
Proof.
  intros Hg Hp. unfold level_for_query, lref.
  destruct (flat_index_for b p) as [i|] eqn:Ei; cbn [get_level].
  - destruct (get_level_flat _ _ _ Hg Hp Ei) as [lv Hl]. by rewrite Hl.
  - by destruct (outlier_levels_ b !! p).
Qed.

Lemma live_level b L free buy p :
  core b L free -> (exists r, r ∈ L.*2 /\ r_buy r = buy /\ r_price r = p) ->
  0 <= p < 2 ^ 32 /\ level_for_query b p = Some (lref b p).
Proof.
  intros Hc (r & ([i r'] & -> & Hx)%list_elem_of_fmap & _ & <-). cbn.
  pose proof (c_prices _ _ _ Hc _ Hx) as Hp. cbn in Hp. split; [done|].
  destruct (c_orders _ _ _ Hc i r' Hx) as (_ & _ & _ & lv & Hl).
  rewrite level_for_query_spec by (by try apply Hc). by rewrite Hl.
Qed.

Lemma shares_at_rep b l p buy :
  Rep b l -> 0 <= p < 2 ^ 32 -> shares_at b p buy = Some (u32 (Spec.shares_at buy p l)).
Proof.
  intros (L & free & Hc & Hpos & _ & <-) Hp. unfold shares_at.
  rewrite level_for_query_spec by (by try apply Hc).
  rewrite <- (sum_side_shares_at b) by (try apply Hc; done).
  destruct (get_level b (lref b p)) as [lv|] eqn:Hl; cbn [fmap option_fmap option_map].
  - rewrite Hl. cbn [mbind option_bind]. by destruct (c_levels _ _ _ Hc _ _ buy Hl) as [_ ->].
  - unfold sum_side. rewrite filter_none; [done|]. intros [i r] Hx [_ Hlr].
    destruct (c_orders _ _ _ Hc i r Hx) as (_ & _ & _ & lv & Hl2). cbn in Hlr. congruence.
Qed.

Lemma order_count_rep b l : Rep b l -> order_count b = Z.of_nat (length l).
Proof.
  intros (L & free & Hc & _ & _ & <-). unfold order_count, OAMap.size.
  by rewrite (index_size _ _ _ Hc), length_fmap.
Qed.

(** The orders of one side of a level, read off through the links from the head:
    what a range-for over [level->bids] or [level->asks] sees. *)
Definition order_rest (o : Order) : Rest :=
  MkRest (order_ref o) (price o) (shares o) (is_buy o) (trader_id o).

Definition level_orders b lr (buy : bool) : ub (list Rest) :=
  lv ← get_level b lr;
  nodes ← IList.traverse (Z.to_nat (IList.size (queue buy lv))) (order_pool_ b)
            (IList.iter_begin (queue buy lv));
  mapM (fun i => order_rest <$> load (order_pool_ b) i) nodes.

Lemma matches_rest o r lr : matches o r lr -> order_rest o = r.
Proof. intros []. destruct r. unfold order_rest. by f_equal. Qed.

Lemma queue_at_ghost b L free p buy :
  core b L free -> 0 <= p < 2 ^ 32 ->
  (filter (on_side b (lref b p) buy) L).*2 = Spec.queue_at buy p L.*2.
Proof.
  intros Hc Hp. pose proof (fun x => lref_on_side b L p (c_geom _ _ _ Hc) Hp (c_prices _ _ _ Hc) x buy) as Hi.
  revert Hi. clear. unfold Spec.queue_at. induction L as [|x L IH]; intros Hi; [done|].
  cbn [fmap list_fmap]. rewrite !filter_cons. specialize (IH (fun y Hy => Hi y ltac:(by right))).
  pose proof (Hi x ltac:(left)) as Hx. do 2 case_decide; try tauto. cbn. by f_equal.
Qed.

Lemma core_small b L free : core b L free -> Z.of_nat (length L) < 2 ^ 64.
Proof.
  intros Hc. pose proof (c_count _ _ _ Hc). pose proof (Pool.wf_cap _ _ (c_pool _ _ _ Hc)). lia.
Qed.

Lemma level_orders_rep b l p buy lv :
  Rep b l -> 0 <= p < 2 ^ 32 -> get_level b (lref b p) = Some lv ->
  level_orders b (lref b p) buy = Some (Spec.queue_at buy p l).
Proof.
  intros (L & free & Hc & _ & _ & <-) Hp Hl. unfold level_orders. rewrite Hl.
  cbn [mbind option_bind]. destruct (c_levels _ _ _ Hc _ _ buy Hl) as [Hil _].
  assert (Z.to_nat (IList.size (queue buy lv)) = length (ids b (lref b p) buy L)) as ->.
  { unfold IList.size. rewrite (IList.il_size _ _ _ Hil), u64_small; [lia|].
    unfold ids. rewrite length_fmap. pose proof (core_small _ _ _ Hc).
    pose proof (length_filter (on_side b (lref b p) buy) L). lia. }
  rewrite (IList.traverse_spec _ _ _ Hil). cbn [mbind option_bind].
  rewrite <- (queue_at_ghost b L free) by done. unfold ids.
  apply mapM_Some. apply Forall2_fmap_l, Forall2_fmap_r, Forall_Forall2_diag, Forall_forall.
  intros [i r] [_ Hx]%list_elem_of_filter.
  destruct (c_orders _ _ _ Hc i r Hx) as (o & Ho & Hm & _). 
  change (order_rest <$> load (order_pool_ b) i = Some r). rewrite Ho. cbn. f_equal. by eapply matches_rest.
Qed.

(** The best level behind [p]: its price, in the abstract state. *)
Definition next_price (buy : bool) (p : Z) l : option Z :=
  Spec.best buy (filter (fun r => Spec.improves buy p (r_price r) = true) l).

Lemma best_level_rep b l (buy : bool) :
  Rep b l -> best_exact b l ->
  (if buy then best_bid_level b else best_ask_level b) = lref b <$> Spec.best buy l.
Proof.
  intros (L & free & Hc & _ & _ & <-) He. rewrite <- He.
  assert ((if buy then best_bid_level b else best_ask_level b) =
          p ← cached b buy; level_for_query b p) as ->.
  { unfold best_bid_level, best_ask_level, cached, best_bid, best_ask.
    by destruct buy, (has_best_bid_ b), (has_best_ask_ b). }
  destruct (cached b buy) as [p|] eqn:Ep; [|done]. cbn. rewrite He in Ep.
  apply Spec.best_is_best in Ep as [Hp _]. by apply (live_level _ _ _ _ _ Hc Hp).
Qed.

Lemma next_level_rep b l p (buy : bool) :
  Rep b l -> Spec.fits l -> next_level_after b p buy = lref b <$> next_price buy p l.
Proof.
  intros (L & free & Hc & Hpos & _ & <-) Hfit. unfold next_level_after, next_price.
  pose proof (scan_spec b L buy (fun q => better buy p q)
    (fun lv => better buy p (level_price lv) && (0 <? total buy lv))
    (fun q => negb (better buy p q)) (c_geom _ _ _ Hc) (c_levels _ _ _ Hc) (c_orders _ _ _ Hc)
    (c_prices _ _ _ Hc) ltac:(done) ltac:(done)) as Hs.
  pose proof (fun x => visible_all b L buy (fun q => better buy p q) x (c_geom _ _ _ Hc)
    (c_prices _ _ _ Hc) Hpos Hfit) as Hv.
  set (o := pick _ _ _) in *. set (k := filter _ _).
  assert (forall r, r ∈ k <-> r ∈ L.*2 /\ better buy p (r_price r) = true) as Hk.
  { intros r. unfold k. rewrite list_elem_of_filter. unfold Spec.improves, better. tauto. }
  assert (o = Spec.best buy k) as <-.
  { symmetry. destruct o as [q|].
    - destruct Hs as [(x & Hx & Hp) Hall]. apply Spec.best_is_best. split.
      + apply Hv in Hx as (Hx & Hb & Hok). exists x.2. rewrite Hk.
        split_and!; [by apply list_elem_of_fmap_2|done..].
      + intros r [(y & -> & Hy)%list_elem_of_fmap Hok]%Hk Hb. by apply Hall, Hv.
    - apply Spec.best_None. intros r [(y & -> & Hy)%list_elem_of_fmap Hok]%Hk Hb. by apply (Hs y), Hv. }
  destruct o as [q|]; [|done]. cbn. destruct Hs as [(x & Hx & <-) _].
  apply (live_level _ _ _ buy _ Hc). apply Hv in Hx as (Hx & Hb & _).
  exists x.2. by split; [apply list_elem_of_fmap_2|].
Qed.
