(* ===== verification/Feed.v ===== *)
(** * Feeding ITCH messages to the book

    [OrderBook::apply] over the messages that [decode] produces from arbitrary
    bytes: the decoder establishes the union and range contracts that [apply]
    needs, so a feed of any spans at all leaves a well-formed book. *)

From S2P Require Import Prelude HashMap IntrusiveList ObjectPool ByteOrder Messages Decode.
From S2P Require Import OrderBook BookSpec BookInvariant BookBest BookRefinement BookOps.
From S2P Require Import BookQueries.

Local Open Scope Z_scope.

Implicit Types (b : OrderBook) (l : list Rest) (msg : DecodedMessage).

(** What [apply] relies on: the active union member is the one the header names
    and the integer fields fit their C++ types. *)
Definition fields_in_range msg : Prop :=
  match payload msg with
  | Messages.add_order p => 0 <= ao_shares p < 2 ^ 32 /\ 0 <= ao_price p < 2 ^ 32
  | order_executed p => 0 <= oe_executed_shares p < 2 ^ 32
  | order_executed_with_price p => 0 <= oep_executed_shares p < 2 ^ 32
  | order_cancel p => 0 <= oc_cancelled_shares p < 2 ^ 32
  | order_replace p => 0 <= or_shares p < 2 ^ 32 /\ 0 <= or_price p < 2 ^ 32
  | _ => True
  end.

Definition msg_ok msg : Prop := payload_matches msg /\ fields_in_range msg.

(** The abstract step of a message. *)
Definition spec_apply (cap : Z) l msg : list Rest :=
  match payload msg with
  | Messages.add_order p =>
      (Spec.add cap l (ao_order_reference_number p) (ao_price p) (ao_shares p)
         (is_B (ao_buy_sell_indicator p)) 0).1
  | order_executed p => (Spec.reduce l (oe_order_reference_number p) (oe_executed_shares p)).1
  | order_executed_with_price p =>
      (Spec.reduce l (oep_order_reference_number p) (oep_executed_shares p)).1
  | order_cancel p => (Spec.reduce l (oc_order_reference_number p) (oc_cancelled_shares p)).1
  | order_delete p => (Spec.delete l (od_order_reference_number p)).1
  | order_replace p =>
      (Spec.replace l (or_original_order_reference_number p) (or_new_order_reference_number p)
         (or_shares p) (or_price p)).1
  | system_event _ | stock_directory _ | trade _ => l
  end.

(** The state part of a [book_step]. *)
Lemma book_step_state b l f res :
  book_step b l f res ->
  exists b', (r ← f; Some r.1) = Some b' /\ Rep b' res.1 /\ same_shape b b' /\
    (best_exact b l -> Spec.fits l -> best_exact b' res.1).
Proof. intros (b' & -> & H). by exists b'. Qed.

Lemma apply_step b l msg :
  Rep b l -> msg_ok msg ->
  exists b', apply b msg = Some b' /\ Rep b' (spec_apply (book_capacity b) l msg) /\
    same_shape b b' /\
    (best_exact b l -> Spec.fits l -> best_exact b' (spec_apply (book_capacity b) l msg)).
Proof.
  intros HR [Hp Hr]. unfold apply, spec_apply, as_add_order, as_order_executed,
    as_order_executed_with_price, as_order_cancel, as_order_delete, as_order_replace,
    payload_matches, fields_in_range in *.
  destruct (type (header msg)); destruct (payload msg) as [p|p|p|p|p|p|p|p|p]; try done;
    cbn [mbind option_bind]; try (by exists b);
    apply book_step_state.
  - apply add_order_step; tauto.
  - apply add_order_step; tauto.
  - apply reduce_step; [done|lia].
  - apply reduce_step; [done|lia].
  - apply reduce_step; [done|lia].
  - by apply delete_step.
  - apply replace_step; tauto.
Qed.

(** ** The decoder meets the contract *)

Lemma be_value_window_lt raw p n :
  (p + n <= length raw)%nat -> 0 <= be_value (window raw p n) < 256 ^ Z.of_nat n.
Proof.
  intros Hl. pose proof (be_value_range (window raw p n)) as Hr.
  assert (length (window raw p n) = n) as Hw; [|by rewrite Hw in Hr].
  unfold window. rewrite length_take, length_drop. lia.
Qed.

Lemma decode_msg_ok raw msg : decode raw = Some (Some msg) -> msg_ok msg.
Proof.
  intros Hd. destruct raw as [|c raw'] eqn:Hraw; [done|].
  unfold decode in Hd. cbn [read_char mbind option_bind lookup list_lookup] in Hd.
  destruct ((wire_length _ =? 0) || _) eqn:Hlen; [done|].
  apply orb_false_iff in Hlen as [Hz%Z.eqb_neq Hl%Z.ltb_ge].
  rewrite <- Hraw in *. clear Hraw. revert Hd. decoders.
  destruct (message_type_of_char c) eqn:Ht; cbn [wire_length] in *; reads;
    try (rewrite decide_True by done); try (rewrite decide_False by done); reads; try done;
    intros Hd; apply (inj Some), (inj Some) in Hd as <-; (split; [done|]); cbn; try done;
    repeat split; try (apply (be_value_window_lt _ _ 4); lia);
    try (apply (be_value_window_lt _ _ 4); cbn; lia).
Qed.

(** Every span either decodes or is refused; the decoder never leaves it. *)
Lemma decode_total raw : exists r, decode raw = Some r.
Proof.
  destruct raw as [|c raw'] eqn:Hraw; [by exists None|]. rewrite <- Hraw.
  assert (raw !! 0%nat = Some c) as Hc by (by rewrite Hraw).
  destruct (decide (wire_length (message_type_of_char c) = 0)) as [Hz|Hz].
  { exists None. apply decode_rejects. right. exists c. auto. }
  destruct (decide (Z.of_nat (length raw) < wire_length (message_type_of_char c))) as [Hl|Hl].
  { exists None. apply decode_rejects. right. exists c. auto. }
  destruct (decode_supported raw c Hc Hz ltac:(lia)) as (msg & -> & _). by exists (Some msg).
Qed.

(** ** A whole feed *)

(** The single-threaded replay of a feed: decode each span, skip what does not
    decode, apply the rest. *)
Fixpoint feed b (spans : list (list byte)) : ub OrderBook :=
  match spans with
  | [] => Some b
  | raw :: spans =>
      d ← decode raw;
      b ← (match d with Some msg => apply b msg | None => Some b end);
      feed b spans
  end.

(** The abstract run, over the messages that decode. *)
Definition decoded (spans : list (list byte)) : list DecodedMessage :=
  omap (fun raw => match decode raw with Some (Some msg) => Some msg | _ => None end) spans.

Lemma feed_rep spans b l :
  Rep b l ->
  exists b', feed b spans = Some b' /\
    Rep b' (foldl (spec_apply (book_capacity b)) l (decoded spans)) /\ same_shape b b'.
Proof.
  revert b l. induction spans as [|raw spans IH]; intros b l HR; [by exists b|].
  cbn [feed]. destruct (decode_total raw) as [[msg|] Hd]; rewrite Hd; cbn [mbind option_bind].
  - destruct (apply_step b l msg HR (decode_msg_ok _ _ Hd)) as (b1 & -> & HR1 & Hss1 & _).
    cbn [mbind option_bind]. destruct (IH b1 _ HR1) as (b2 & Hf & HR2 & Hss2).
    exists b2. split_and!; [done| |by etransitivity].
    unfold decoded. cbn [omap list_omap]. rewrite Hd. cbn [foldl].
    assert (book_capacity b1 = book_capacity b) as Hcap by apply Hss1. by rewrite Hcap in HR2.
  - destruct (IH b _ HR) as (b2 & Hf & HR2 & Hss2). exists b2. split_and!; [done| |done].
    unfold decoded. cbn [omap list_omap]. by rewrite Hd.
Qed.
