(* ===== verification/RefBook.v ===== *)
(** * The reference book and the differential test

    [ReferenceOrderBook] of book/tests/reference_order_book.hpp: a map from
    references to orders and O(n) scans.  The iteration order of
    [std::unordered_map] is unspecified; the scans are folds over some
    enumeration of the map, and [best_price_rep] and [ref_shares_at_rep] show that
    what they compute does not depend on it.  Differential.v plays operation
    streams on both books. *)

From S2P Require Import Prelude HashMap IntrusiveList ObjectPool OrderBook BookSpec.
From S2P Require Import BookInvariant BookBest BookRefinement BookOps BookQueries.

Local Open Scope Z_scope.

Module Reference.

Record RefOrder := MkRefOrder { ro_price : Z; ro_shares : Z; ro_is_buy : bool }.

Abbreviation t := (gmap Z RefOrder).

Implicit Types (m : t) (l : list Rest) (r : Rest).

Definition add_order m (ref p s : Z) (is_buy : bool) : t * bool :=
  if (s =? 0) || bool_decide (is_Some (m !! ref)) then (m, false)
  else (<[ref := MkRefOrder p s is_buy]> m, true).

Definition reduce_shares m (ref delta : Z) : t * bool :=
  match m !! ref with
  | None => (m, false)
  | Some o =>
      if (delta =? 0) || (ro_shares o <? delta) then (m, false)
      else
        let s := ro_shares o -u32 delta in
        if s =? 0 then (delete ref m, true)
        else (<[ref := MkRefOrder (ro_price o) s (ro_is_buy o)]> m, true)
  end.

Definition execute_order m (ref executed_shares : Z) : t * bool := reduce_shares m ref executed_shares.
Definition cancel_order m (ref cancelled_shares : Z) : t * bool := reduce_shares m ref cancelled_shares.

Definition delete_order m (ref : Z) : t * bool :=
  match m !! ref with Some _ => (delete ref m, true) | None => (m, false) end.

Definition replace_order m (old_ref new_ref new_shares new_price : Z) : t * bool :=
  match m !! old_ref with
  | None => (m, false)
  | Some o =>
      if new_shares =? 0 then (m, false)
      else if negb (old_ref =? new_ref) && bool_decide (is_Some (m !! new_ref)) then (m, false)
      else (<[new_ref := MkRefOrder new_price new_shares (ro_is_buy o)]> (delete old_ref m), true)
  end.

Definition best_price m (is_buy : bool) : option Z :=
  foldl (fun best '(_, o) =>
    if negb (Bool.eqb (ro_is_buy o) is_buy) then best
    else match best with
         | None => Some (ro_price o)
         | Some q =>
             if (if is_buy then q <? ro_price o else ro_price o <? q) then Some (ro_price o) else best
         end) None (map_to_list m).

Definition best_bid m : option Z := best_price m true.
Definition best_ask m : option Z := best_price m false.

Definition shares_at m (p : Z) (is_buy : bool) : Z :=
  foldl (fun total '(_, o) =>
    if (ro_price o =? p) && Bool.eqb (ro_is_buy o) is_buy then total +u32 ro_shares o else total)
    0 (map_to_list m).

Definition order_count m : Z := Z.of_nat (size m).

(** ** What the map represents *)

Definition ref_order r : RefOrder := MkRefOrder (r_price r) (r_shares r) (r_buy r).

Record rep m l : Prop := {
  rep_find : forall ref, m !! ref = ref_order <$> Spec.find_ref ref l;
  rep_nodup : NoDup (r_ref <$> l)
}.

Lemma rep_entries m l : rep m l -> map_to_list m ≡ₚ (fun r => (r_ref r, ref_order r)) <$> l.
Proof.
  intros [Hf Hnd]. set (k := _ <$> l). assert (k.*1 = r_ref <$> l) as Hk.
  { unfold k. by rewrite <- list_fmap_compose. }
  assert (m = list_to_map k) as ->; [|apply map_to_list_to_map; by rewrite Hk].
  apply map_eq. intros ref. rewrite Hf. apply option_eq. intros o.
  rewrite <- elem_of_list_to_map by (by rewrite Hk). unfold k. rewrite list_elem_of_fmap. split.
  - intros (r & Hr & ->)%fmap_Some. apply Spec.find_ref_Some in Hr as [Hr <-].
    by exists r.
  - intros (r & [= -> ->] & Hr). by rewrite (Spec.find_ref_unique (r_ref r) l r).
Qed.

(** Any enumeration of the map gives the best price, and the total. *)
Lemma best_price_rep m l is_buy : rep m l -> best_price m is_buy = Spec.best is_buy l.
Proof.
  intros Hr. pose proof (rep_entries _ _ Hr) as Hp. unfold best_price.
  set (back := fun x : Z * RefOrder => MkRest x.1 (ro_price x.2) (ro_shares x.2) (ro_is_buy x.2) 0).
  transitivity (Spec.best is_buy (back <$> map_to_list m)).
  - generalize (map_to_list m). clear. intros k. induction k as [|[ref o] k IH] using rev_ind; [done|].
    rewrite foldl_app, fmap_app, IH. cbn [foldl fmap list_fmap]. rewrite Spec.best_add. cbn.
    destruct (Bool.eqb (ro_is_buy o) is_buy); [|done]. cbn [negb].
    destruct (Spec.best _ _); [|done]. unfold Spec.improves. by destruct is_buy; case_match.
  - apply Spec.best_ext. intros p. split.
    + intros (r & Hx & Hb & Hq). rewrite Hp in Hx.
      apply list_elem_of_fmap in Hx as (x & -> & (r & -> & Hx)%list_elem_of_fmap). by exists r.
    + intros (r & Hx & Hb & Hq). exists (back (r_ref r, ref_order r)). split; [|done].
      rewrite Hp. by apply list_elem_of_fmap_2, (list_elem_of_fmap_2 (fun r => (r_ref r, ref_order r))).
Qed.

Lemma ref_shares_at_rep m l p is_buy : rep m l -> shares_at m p is_buy = u32 (Spec.shares_at is_buy p l).
Proof.
  intros Hr. pose proof (rep_entries _ _ Hr) as Hp. unfold shares_at.
  set (f := fun x : Z * RefOrder =>
    if (ro_price x.2 =? p) && Bool.eqb (ro_is_buy x.2) is_buy then ro_shares x.2 else 0).
  transitivity (u32 (sumZ f (map_to_list m))).
  - generalize (map_to_list m). clear. intros k. induction k as [|[ref o] k IH] using rev_ind; [done|].
    rewrite foldl_app, sumZ_app, IH. cbn [foldl sumZ foldr].
    assert (f (ref, o) = if (ro_price o =? p) && Bool.eqb (ro_is_buy o) is_buy
                         then ro_shares o else 0) as -> by done.
    destruct (_ && _); [rewrite u32_add_l|]; f_equal; lia.
  - rewrite Hp. f_equal. clear. unfold Spec.shares_at, Spec.queue_at.
    induction l as [|r l IH]; [done|]. cbn [fmap list_fmap sumZ foldr]. rewrite filter_cons.
    change (foldr _ 0 ?k) with (sumZ f k). rewrite IH. unfold f at 1. cbn.
    unfold Spec.at_level. case_decide as Hd.
    + destruct Hd as [-> ->]. by rewrite Z.eqb_refl, eqb_reflx.
    + destruct (Z.eqb_spec (r_price r) p); destruct (Bool.eqb_spec (r_buy r) is_buy); cbn; naive_solver.
Qed.

Lemma ref_order_count_rep m l : rep m l -> order_count m = Z.of_nat (length l).
Proof.
  intros Hr. unfold order_count. rewrite <- (length_map_to_list m), (rep_entries _ _ Hr).
  by rewrite length_fmap.
Qed.

(** ** Each operation follows the specification *)

Lemma find_ref_app l r ref :
  Spec.find_ref ref (l ++ [r]) =
  match Spec.find_ref ref l with
  | Some r' => Some r' | None => if r_ref r =? ref then Some r else None end.
Proof. induction l as [|r' l IH]; [done|]. cbn. by destruct (r_ref r' =? ref). Qed.

Lemma find_ref_update l ref s ref' :
  Spec.find_ref ref' (Spec.update_ref ref s l) =
  (fun r => if decide (ref' = ref) then Spec.set_r_shares s r else r) <$> Spec.find_ref ref' l.
Proof.
  induction l as [|r l IH]; [done|]. unfold Spec.find_ref, Spec.update_ref in *.
  cbn [fmap list_fmap List.find].
  assert (r_ref (if r_ref r =? ref then Spec.set_r_shares s r else r) = r_ref r) as Hr
    by (by destruct (r_ref r =? ref)).
  rewrite Hr. destruct (Z.eqb_spec (r_ref r) ref') as [<-|Hne]; [|apply IH].
  cbn. f_equal. case_decide as Hd; [by rewrite (proj2 (Z.eqb_eq _ _) Hd)|].
  by rewrite (proj2 (Z.eqb_neq _ _) Hd).
Qed.

Lemma refs_update l ref s : r_ref <$> Spec.update_ref ref s l = r_ref <$> l.
Proof.
  unfold Spec.update_ref. rewrite <- list_fmap_compose. apply list_fmap_ext. intros i r _. cbn.
  by destruct (r_ref r =? ref).
Qed.

Lemma nodup_remove_ref l ref : NoDup (r_ref <$> l) -> NoDup (r_ref <$> Spec.remove_ref ref l).
Proof. intros Hnd. eapply sublist_NoDup; [exact Hnd|]. apply fmap_sublist, sublist_filter. Qed.

Lemma rep_remove m l ref : rep m l -> rep (delete ref m) (Spec.remove_ref ref l).
Proof.
  intros [Hf Hnd]. split; [|by apply nodup_remove_ref]. intros ref'. rewrite find_ref_remove.
  case_decide as Hd; [subst; by rewrite lookup_delete_eq|]. by rewrite lookup_delete_ne.
Qed.

Lemma rep_append m l r :
  rep m l -> Spec.find_ref (r_ref r) l = None -> rep (<[r_ref r := ref_order r]> m) (l ++ [r]).
Proof.
  intros [Hf Hnd] Hn. split.
  - intros ref. rewrite find_ref_app. destruct (Z.eqb_spec (r_ref r) ref) as [<-|Hne].
    + by rewrite lookup_insert_eq, Hn.
    + rewrite lookup_insert_ne, Hf by done. by destruct (Spec.find_ref ref l).
  - rewrite fmap_app. apply NoDup_app. split_and!; [done| |apply NoDup_singleton].
    intros x (r' & -> & Hr')%list_elem_of_fmap Hx%list_elem_of_singleton.
    by apply (proj1 (Spec.find_ref_None _ _) Hn) in Hr'.
Qed.

Lemma rep_update m l ref s r :
  rep m l -> Spec.find_ref ref l = Some r ->
  rep (<[ref := MkRefOrder (r_price r) s (r_buy r)]> m) (Spec.update_ref ref s l).
Proof.
  intros [Hf Hnd] Hr. split; [|by rewrite refs_update].
  intros ref'. rewrite find_ref_update. destruct (decide (ref' = ref)) as [->|Hne].
  - by rewrite lookup_insert_eq, Hr.
  - rewrite lookup_insert_ne, Hf by done. by destruct (Spec.find_ref ref' l).
Qed.

Lemma some_ref m l ref : rep m l -> is_Some (m !! ref) <-> is_Some (Spec.find_ref ref l).
Proof. intros [Hf _]. by rewrite Hf, fmap_is_Some. Qed.

Lemma add_rep m l cap ref p s is_buy trader :
  rep m l -> Z.of_nat (length l) < cap ->
  (add_order m ref p s is_buy).2 = (Spec.add cap l ref p s is_buy trader).2 /\
  rep (add_order m ref p s is_buy).1 (Spec.add cap l ref p s is_buy trader).1.
Proof.
  intros Hr Hc. unfold add_order, Spec.add. destruct (s =? 0); [done|]. cbn [orb].
  rewrite (bool_decide_ext _ _ (some_ref _ _ ref Hr)).
  destruct (Spec.find_ref ref l) eqn:Hf; [done|].
  rewrite (proj2 (Z.ltb_lt _ _) Hc). split; [done|]. by apply (rep_append m l (MkRest ref p s is_buy trader)).
Qed.

Lemma reduce_rep m l ref delta :
  rep m l -> (forall r, r ∈ l -> 0 < r_shares r < 2 ^ 32) -> 0 <= delta ->
  (reduce_shares m ref delta).2 = (Spec.reduce l ref delta).2 /\
  rep (reduce_shares m ref delta).1 (Spec.reduce l ref delta).1.
Proof.
  intros Hr Hpos Hd. unfold reduce_shares, Spec.reduce. rewrite (rep_find _ _ Hr).
  destruct (Spec.find_ref ref l) as [r|] eqn:Hf; [|done]. cbn [fmap option_fmap option_map ref_order ro_shares].
  destruct ((delta =? 0) || (r_shares r <? delta)) eqn:Hg; [done|].
  apply orb_false_iff in Hg as [Hz%Z.eqb_neq Hlt%Z.ltb_ge].
  pose proof (Hpos r (proj1 (Spec.find_ref_Some _ _ _ Hf))).
  rewrite u32_small by lia.
  assert ((r_shares r - delta =? 0) = (r_shares r =? delta)) as -> by lia.
  destruct (r_shares r =? delta); (split; [done|]); [by apply rep_remove|by apply rep_update].
Qed.

Lemma delete_rep m l ref :
  rep m l ->
  (delete_order m ref).2 = (Spec.delete l ref).2 /\
  rep (delete_order m ref).1 (Spec.delete l ref).1.
Proof.
  intros Hr. unfold delete_order, Spec.delete. rewrite (rep_find _ _ Hr).
  destruct (Spec.find_ref ref l) as [r|] eqn:Hf; [|done]. split; [done|]. by apply rep_remove.
Qed.

Lemma replace_rep m l old new s p :
  rep m l ->
  (replace_order m old new s p).2 = (Spec.replace l old new s p).2 /\
  rep (replace_order m old new s p).1 (Spec.replace l old new s p).1.
Proof.
  intros Hr. unfold replace_order, Spec.replace. rewrite (rep_find _ _ Hr old).
  destruct (Spec.find_ref old l) as [r|] eqn:Hf; [|done]. cbn [fmap option_fmap option_map].
  destruct (s =? 0); [done|]. rewrite (bool_decide_ext _ _ (some_ref _ _ new Hr)).
  destruct (negb (old =? new) && _) eqn:Hcol; [done|]. split; [done|].
  apply (rep_append (delete old m) _ (MkRest new p s (r_buy r) 0)); [by apply rep_remove|].
  cbn. rewrite find_ref_remove. case_decide as Hd; [done|].
  rewrite (proj2 (Z.eqb_neq old new)) in Hcol by congruence. cbn in Hcol.
  apply bool_decide_eq_false in Hcol. by apply eq_None_not_Some.
Qed.

End Reference.
