(* ===== verification/Tracking.v ===== *)
(** * A client's map of live orders against the resting orders

    The feed generator and the random tests keep an unordered map of the orders
    they believe to be live.  [view] says which resting order an entry stands for;
    the lemmas carry [view <$> um_entries m ≡ₚ l] through each operation and show
    that the book accepts it. *)

From S2P Require Import Prelude StdModel HashMap IntrusiveList ObjectPool OrderBook BookSpec.
From S2P Require Import BookInvariant BookBest BookRefinement BookOps.

Local Open Scope Z_scope.

Section tracking.
Context {V M : Type} `{!UnorderedMap V M, !UnorderedMapLaws V M}.
Variable view : Z * V -> Rest.
Hypothesis view_ref : forall e, r_ref (view e) = e.1.
Variables (m : M) (l : list Rest).
Hypothesis Hl : view <$> um_entries m ≡ₚ l.

Lemma tracks_find ref o : (ref, o) ∈ um_entries m -> Spec.find_ref ref l = Some (view (ref, o)).
Proof.
  intros He. apply Spec.find_ref_unique; [| |apply view_ref].
  - rewrite <- Hl, <- list_fmap_compose. rewrite (list_fmap_ext _ fst (um_entries m)); [apply um_entries_nodup|].
    intros i e _. apply view_ref.
  - rewrite <- Hl. by apply list_elem_of_fmap_2.
Qed.

Lemma tracks_fresh ref : (forall e, e ∈ um_entries m -> e.1 <> ref) -> Spec.find_ref ref l = None.
Proof.
  intros Hf. apply Spec.find_ref_None. intros r Hr. rewrite <- Hl in Hr.
  apply list_elem_of_fmap in Hr as (e & -> & He). rewrite view_ref. by apply Hf.
Qed.

Lemma tracks_remove ref : view <$> others ref (um_entries m) ≡ₚ Spec.remove_ref ref l.
Proof.
  unfold Spec.remove_ref. rewrite <- Hl. clear Hl. unfold others.
  induction (um_entries m) as [|e es IH]; [done|]. cbn [fmap list_fmap]. rewrite !filter_cons, view_ref.
  case_decide; [cbn [fmap list_fmap]; by constructor|done].
Qed.

Lemma tracks_update ref o o' s :
  (ref, o) ∈ um_entries m -> view (ref, o') = Spec.set_r_shares s (view (ref, o)) ->
  view <$> (ref, o') :: others ref (um_entries m) ≡ₚ Spec.update_ref ref s l.
Proof.
  intros He Hv. unfold Spec.update_ref. rewrite <- Hl. clear Hl. unfold others.
  pose proof (um_entries_nodup m) as Hnd. apply list_elem_of_split in He as (e1 & e2 & Hes).
  rewrite Hes in *. rewrite fmap_app, fmap_cons in Hnd. apply NoDup_app in Hnd as (_ & H1 & H2).
  apply NoDup_cons in H2 as [H2 _]. cbn in H1, H2.
  assert (forall e, e ∈ e1 ++ e2 -> e.1 <> ref) as Hne.
  { intros e [Hin|Hin]%elem_of_app <-.
    - apply (H1 e.1); [by apply list_elem_of_fmap_2|left].
    - apply H2. by apply list_elem_of_fmap_2. }
  rewrite filter_app, filter_cons_False, <- filter_app, filter_all by (done || by intros []).
  rewrite <- Permutation_middle. cbn [fmap list_fmap]. rewrite view_ref, Z.eqb_refl, Hv. constructor.
  clear H1 H2 Hes. induction (e1 ++ e2) as [|e es' IH]; [done|]. cbn [fmap list_fmap].
  rewrite view_ref, (proj2 (Z.eqb_neq _ _)) by (apply (Hne e); left). constructor.
  apply IH. intros e' He'. apply Hne. by right.
Qed.

(** A new order under a fresh reference. *)
Lemma add_tracks cap ref o :
  (forall e, e ∈ um_entries m -> e.1 <> ref) -> r_shares (view (ref, o)) <> 0 ->
  r_trader (view (ref, o)) = 0 -> Z.of_nat (length l) < cap ->
  Spec.add cap l ref (r_price (view (ref, o))) (r_shares (view (ref, o))) (r_buy (view (ref, o))) 0 =
    (l ++ [view (ref, o)], true) /\
  view <$> um_entries (um_set ref o m) ≡ₚ l ++ [view (ref, o)].
Proof.
  intros Hf Hs Ht Hc. unfold Spec.add.
  rewrite (proj2 (Z.eqb_neq _ 0) Hs), (tracks_fresh ref Hf), (proj2 (Z.ltb_lt _ _) Hc). split.
  - f_equal. pose proof (view_ref (ref, o)) as Hr. destruct (view (ref, o)). cbn in *. by subst.
  - rewrite set_fresh by done. cbn [fmap list_fmap]. rewrite Hl. apply Permutation_cons_append.
Qed.

(** Taking shares from a live order, which disappears at zero. *)
Lemma take_tracks ref o o' delta :
  (ref, o) ∈ um_entries m -> 0 < delta <= r_shares (view (ref, o)) ->
  view (ref, o') = Spec.set_r_shares (r_shares (view (ref, o)) - delta) (view (ref, o)) ->
  let m' := if r_shares (view (ref, o)) - delta =? 0 then um_erase ref (um_set ref o' m)
            else um_set ref o' m in
  exists l', Spec.reduce l ref delta = (l', true) /\ view <$> um_entries m' ≡ₚ l' /\
    (length l' <= length l)%nat /\
    (forall e, e ∈ um_entries m' ->
       e ∈ um_entries m \/ e = (ref, o') /\ 0 < r_shares (view (ref, o)) - delta).
Proof.
  intros He Hd Hv. cbn zeta. unfold Spec.reduce. rewrite (tracks_find _ _ He).
  set (s := r_shares (view (ref, o))) in *.
  rewrite (proj2 (Z.eqb_neq delta 0)), (proj2 (Z.ltb_ge _ _)) by lia. cbn [orb].
  destruct (Z.eqb_spec s delta) as [Heq|Hne].
  - rewrite (proj2 (Z.eqb_eq _ 0)) by lia. eexists. split; [done|].
    assert (um_entries (um_erase ref (um_set ref o' m)) ≡ₚ others ref (um_entries m)) as Hp.
    { rewrite um_entries_erase, um_entries_set, filter_cons_False by (by intros []).
      change (others ref (others ref (um_entries m)) ≡ₚ others ref (um_entries m)).
      by rewrite others_others. }
    split_and!.
    + rewrite Hp. apply tracks_remove.
    + apply length_filter.
    + intros e He'. rewrite Hp in He'. left. by eapply others_elem.
  - rewrite (proj2 (Z.eqb_neq _ 0)) by lia. eexists. split; [done|]. split_and!.
    + rewrite um_entries_set. by apply (tracks_update ref o).
    + unfold Spec.update_ref. by rewrite length_fmap.
    + intros e He'. rewrite um_entries_set in He'. apply elem_of_cons in He' as [->|He'].
      * right. split; [done|lia].
      * left. by eapply others_elem.
Qed.

Lemma erased_elem ref e : e ∈ um_entries (um_erase ref m) -> e ∈ um_entries m.
Proof. rewrite um_entries_erase. apply others_elem. Qed.

Lemma delete_tracks ref o :
  (ref, o) ∈ um_entries m ->
  Spec.delete l ref = (Spec.remove_ref ref l, true) /\
  view <$> um_entries (um_erase ref m) ≡ₚ Spec.remove_ref ref l /\
  (length (Spec.remove_ref ref l) < length l)%nat.
Proof.
  intros He. unfold Spec.delete. rewrite (tracks_find _ _ He). split; [done|]. split.
  - rewrite um_entries_erase. apply tracks_remove.
  - apply (remove_ref_length _ _ _ (tracks_find _ _ He)).
Qed.

(** Replacing a live order under a fresh reference. *)
Lemma replace_tracks ref o new o' :
  (ref, o) ∈ um_entries m -> (forall e, e ∈ um_entries m -> e.1 <> new) ->
  r_shares (view (new, o')) <> 0 -> r_buy (view (new, o')) = r_buy (view (ref, o)) ->
  r_trader (view (new, o')) = 0 ->
  exists l', Spec.replace l ref new (r_shares (view (new, o'))) (r_price (view (new, o'))) = (l', true) /\
    view <$> um_entries (um_set new o' (um_erase ref m)) ≡ₚ l' /\ (length l' <= length l)%nat /\
    (forall e, e ∈ um_entries (um_set new o' (um_erase ref m)) -> e ∈ um_entries m \/ e = (new, o')).
Proof.
  intros He Hf Hs Hb Ht. destruct (delete_tracks ref o He) as (_ & Hl' & Hlen).
  assert (forall e, e ∈ um_entries (um_erase ref m) -> e.1 <> new) as Hf'.
  { intros e Hin. apply Hf. by apply (erased_elem ref). }
  exists (Spec.remove_ref ref l ++ [view (new, o')]). split_and!.
  - unfold Spec.replace. rewrite (tracks_find ref o He), (tracks_fresh new Hf).
    rewrite (proj2 (Z.eqb_neq _ 0) Hs), bool_decide_eq_false_2, andb_false_r by (by intros [? [=]]).
    do 3 f_equal. pose proof (view_ref (new, o')) as Hr. destruct (view (new, o')). cbn in *. by subst.
  - rewrite set_fresh by done. cbn [fmap list_fmap]. rewrite Hl'. apply Permutation_cons_append.
  - rewrite length_app. cbn. lia.
  - intros e Hin. rewrite set_fresh in Hin by done. apply elem_of_cons in Hin as [->|Hin]; [by right|].
    left. by apply (erased_elem ref).
Qed.
End tracking.
