(* ===== verification/Differential.v ===== *)
(** * The differential test as a theorem

    book/tests/test_order_book_differential.cpp drives the real book and the
    reference book with one random stream of operations and compares results and
    observables after each.  [book_run] and [reference_run] play an arbitrary
    stream; the simulation lemma [runs_agree] carries the comparison through. *)

From S2P Require Import Prelude HashMap IntrusiveList ObjectPool OrderBook BookSpec.
From S2P Require Import BookInvariant BookBest BookRefinement BookOps BookQueries RefBook.

Local Open Scope Z_scope.

Inductive book_op :=
  | OpAdd (ref p s : Z) (buy : bool)
  | OpExecute (ref s : Z)
  | OpCancel (ref s : Z)
  | OpDelete (ref : Z)
  | OpReplace (old_ref new_ref s p : Z).

(** The arguments fit [Price4] and [Shares]. *)
Definition op_ok (o : book_op) : Prop :=
  match o with
  | OpAdd _ p s _ | OpReplace _ _ s p => 0 <= p < 2 ^ 32 /\ 0 <= s < 2 ^ 32
  | OpExecute _ s | OpCancel _ s => 0 <= s < 2 ^ 32
  | OpDelete _ => True
  end.

Definition book_do (b : OrderBook) (o : book_op) : ub (OrderBook * bool) :=
  match o with
  | OpAdd ref p s buy => add_order b ref p s buy 0
  | OpExecute ref s => execute_order b ref s
  | OpCancel ref s => cancel_order b ref s
  | OpDelete ref => delete_order b ref
  | OpReplace old new s p => replace_order b old new s p
  end.

Definition reference_do (m : Reference.t) (o : book_op) : Reference.t * bool :=
  match o with
  | OpAdd ref p s buy => Reference.add_order m ref p s buy
  | OpExecute ref s => Reference.execute_order m ref s
  | OpCancel ref s => Reference.cancel_order m ref s
  | OpDelete ref => Reference.delete_order m ref
  | OpReplace old new s p => Reference.replace_order m old new s p
  end.

(** The abstract step of a book that never fills up. *)
Definition spec_do (cap : Z) (l : list Rest) (o : book_op) : list Rest * bool :=
  match o with
  | OpAdd ref p s buy => Spec.add cap l ref p s buy 0
  | OpExecute ref s | OpCancel ref s => Spec.reduce l ref s
  | OpDelete ref => Spec.delete l ref
  | OpReplace old new s p => Spec.replace l old new s p
  end.

(** After each operation: its result and the state it left. *)
Fixpoint book_run (b : OrderBook) (ops : list book_op) : ub (list (OrderBook * bool)) :=
  match ops with
  | [] => Some []
  | o :: ops =>
      '(b', r) ← book_do b o;
      rest ← book_run b' ops;
      Some ((b', r) :: rest)
  end.

Fixpoint reference_run (m : Reference.t) (ops : list book_op) : list (Reference.t * bool) :=
  match ops with
  | [] => []
  | o :: ops => let res := reference_do m o in res :: reference_run res.1 ops
  end.

(** The abstract states an unbounded book goes through, the first included. *)
Fixpoint spec_states (l : list Rest) (ops : list book_op) : list (list Rest) :=
  l :: match ops with
       | [] => []
       | o :: ops => spec_states (spec_do (Z.of_nat (length l) + 1) l o).1 ops
       end.

(** The comparison of the test, at every price. *)
Definition agree (x : OrderBook * bool) (y : Reference.t * bool) : Prop :=
  x.2 = y.2 /\ best_bid x.1 = Reference.best_bid y.1 /\ best_ask x.1 = Reference.best_ask y.1 /\
  order_count x.1 = Reference.order_count y.1 /\
  (forall p buy, 0 <= p < 2 ^ 32 ->
     shares_at x.1 p buy = Some (Reference.shares_at y.1 p buy)).

(** The orders never outgrow the pool, the totals never outgrow 32 bits. *)
Definition roomy (cap : Z) (l : list Rest) : Prop := Z.of_nat (length l) <= cap /\ Spec.fits l.

Lemma book_do_step b l o :
  Rep b l -> op_ok o -> book_step b l (book_do b o) (spec_do (book_capacity b) l o).
Proof.
  intros HR Ho. destruct o; cbn in *.
  - apply add_order_step; tauto.
  - apply reduce_step; [done|lia].
  - apply reduce_step; [done|lia].
  - by apply delete_step.
  - apply replace_step; tauto.
Qed.

Lemma reference_do_rep m l b cap o :
  Reference.rep m l -> Rep b l -> op_ok o -> Z.of_nat (length l) < cap ->
  (reference_do m o).2 = (spec_do cap l o).2 /\
  Reference.rep (reference_do m o).1 (spec_do cap l o).1.
Proof.
  intros Hm HR Ho Hc. destruct o; cbn in *.
  - by apply Reference.add_rep.
  - apply Reference.reduce_rep; [done|by eapply Rep_positive|lia].
  - apply Reference.reduce_rep; [done|by eapply Rep_positive|lia].
  - by apply Reference.delete_rep.
  - by apply Reference.replace_rep.
Qed.

(** A book with room for the outcome behaves like an unbounded one. *)
Lemma spec_do_cap cap l o :
  Z.of_nat (length (spec_do (Z.of_nat (length l) + 1) l o).1) <= cap ->
  spec_do cap l o = spec_do (Z.of_nat (length l) + 1) l o.
Proof.
  destruct o; try done. cbn. unfold Spec.add. destruct (s =? 0); [done|].
  destruct (Spec.find_ref ref l); [done|]. rewrite (proj2 (Z.ltb_lt _ (_ + 1))) by lia. cbn.
  rewrite length_app. cbn. intros Hc. by rewrite (proj2 (Z.ltb_lt _ _)) by lia.
Qed.

Lemma agree_states b m l r :
  Rep b l -> best_exact b l -> Reference.rep m l -> agree (b, r) (m, r).
Proof.
  intros HR He Hm. unfold agree. cbn [fst snd]. split_and!; [done| | | |].
  - unfold Reference.best_bid. rewrite (Reference.best_price_rep _ _ _ Hm). apply (He true).
  - unfold Reference.best_ask. rewrite (Reference.best_price_rep _ _ _ Hm). apply (He false).
  - by rewrite (order_count_rep _ _ HR), (Reference.ref_order_count_rep _ _ Hm).
  - intros p buy Hp. by rewrite (shares_at_rep _ _ _ _ HR Hp), (Reference.ref_shares_at_rep _ _ _ _ Hm).
Qed.

Lemma runs_agree ops b m l :
  Rep b l -> best_exact b l -> Reference.rep m l -> Forall op_ok ops ->
  Forall (roomy (book_capacity b)) (spec_states l ops) ->
  exists outs, book_run b ops = Some outs /\ Forall2 agree outs (reference_run m ops).
Proof.
  revert b m l. induction ops as [|o ops IH]; intros b m l HR He Hm Hok Hroom.
  { exists []. by split. }
  apply Forall_cons in Hok as [Ho Hok]. cbn [spec_states] in Hroom.
  apply Forall_cons in Hroom as [[_ Hfit] Hroom].
  assert (spec_do (book_capacity b) l o = spec_do (Z.of_nat (length l) + 1) l o) as Hcap.
  { apply spec_do_cap. destruct ops; by apply Forall_cons in Hroom as [[? _] _]. }
  destruct (book_do_step b l o HR Ho) as (b' & Hdo & HR' & Hss & He').
  destruct (reference_do_rep m l b (Z.of_nat (length l) + 1) o Hm HR Ho ltac:(lia)) as [Hres Hm'].
  rewrite Hcap in *. specialize (He' He Hfit).
  destruct (IH b' _ _ HR' He' Hm' Hok) as (outs & Hrun & Hag).
  { replace (book_capacity b') with (book_capacity b) by (symmetry; apply Hss). done. }
  cbn [book_run reference_run]. rewrite Hdo. cbn [mbind option_bind]. rewrite Hrun. cbn [mbind option_bind].
  eexists. split; [reflexivity|]. constructor; [|done].
  destruct (reference_do m o) as [m' r]. cbn [fst snd] in *. rewrite <- Hres. by eapply agree_states.
Qed.
