(* ===== verification/DifferentialTest.v ===== *)
(** * book/tests/test_order_book_differential.cpp: the random test itself

    The TEST body, over any random source and any iteration order of its map: one
    iteration draws an operation, runs it on the book and on the reference book,
    asserts equal results and compares every observable at every touched price.
    A failed assertion is a value, not undefined behaviour.  [test_inv] shows that
    no iteration can fail. *)

From S2P Require Import Prelude StdModel HashMap IntrusiveList ObjectPool OrderBook BookSpec.
From S2P Require Import BookInvariant BookBest BookRefinement BookOps BookQueries RefBook.
From S2P Require Import Differential Tracking.

Local Open Scope Z_scope.

Module DiffTest.

Record LiveOrder := MkLive { lo_price : Z; lo_shares : Z; lo_is_buy : bool }.

Definition kRef : Z := 1000000.
Definition kHalfWidth : Z := 200.
Definition kCapacity : Z := 5000.
Definition kNumOrders : Z := 400.

(** [EXPECT_EQ] on both sides of one touched price. *)
Definition shares_match (b : OrderBook) (m : Reference.t) (p : Z) : ub bool :=
  bid ← shares_at b p true;
  ask ← shares_at b p false;
  Some ((bid =? Reference.shares_at m p true) && (ask =? Reference.shares_at m p false)).

Fixpoint all_shares_match (b : OrderBook) (m : Reference.t) (touched : list Z) : ub bool :=
  match touched with
  | [] => Some true
  | p :: touched =>
      here ← shares_match b m p;
      rest ← all_shares_match b m touched;
      Some (here && rest)
  end.

Definition expect_books_match (b : OrderBook) (m : Reference.t) (touched : list Z) : ub bool :=
  prices ← all_shares_match b m touched;
  Some (bool_decide (best_bid b = Reference.best_bid m) &&
        bool_decide (best_ask b = Reference.best_ask m) &&
        (order_count b =? Reference.order_count m) && prices).

Section test.
Context {R : Type} `{!Random R} {M : Type} `{!UnorderedMap LiveOrder M}.

Record state := MkTest {
  book : OrderBook;
  reference : Reference.t;
  rng : R;
  live : M;
  touched_prices : list Z;
  next_ref : Z;
  orders_added : Z
}.

(** [ASSERT_EQ(book.op(...), reference.op(...))]: [None] inside is a failure. *)
Definition both (st : state) (o : book_op) : ub (option (OrderBook * Reference.t * bool)) :=
  '(b, book_ok) ← book_do (book st) o;
  let '(m, ref_ok) := reference_do (reference st) o in
  Some (if Bool.eqb book_ok ref_ok then Some (b, m, book_ok) else None).

(** The price of an addition or a replacement. *)
Definition draw_price (r : R) : Z * R :=
  let '(jitter, r) := jitter_dist (-400) 400 r in (u32 (kRef + jitter), r).

Definition add_action (st : state) (r : R) : ub (option state) :=
  let '(p, r) := draw_price r in
  let '(s, r) := shares_dist 10 500 r in
  let '(side, r) := side_dist r in
  let is_buy := side =? 0 in
  let ref := next_ref st in
  res ← both st (OpAdd ref p s is_buy);
  Some (match res with
        | None => None
        | Some (b, m, true) =>
            Some (MkTest b m r (um_set ref (MkLive p s is_buy) (live st)) (p :: touched_prices st)
                    (ref +u64 1) (orders_added st +u64 1))
        | Some (b, m, false) =>
            Some (MkTest b m r (live st) (touched_prices st) (ref +u64 1) (orders_added st))
        end).

(** Executions and cancellations: [std::min], the assertion, the bookkeeping. *)
Definition reduce_action (st : state) (r : R) (op : Z -> Z -> book_op) (ref : Z) (order : LiveOrder)
    : ub (option state) :=
  let '(draw, r) := shares_dist 10 500 r in
  let delta := Z.min (lo_shares order) draw in
  res ← both st (op ref delta);
  Some (match res with
        | None => None
        | Some (b, m, _) =>
            let left := lo_shares order -u32 delta in
            let kept := um_set ref (MkLive (lo_price order) left (lo_is_buy order)) (live st) in
            Some (MkTest b m r (if left =? 0 then um_erase ref kept else kept) (touched_prices st)
                    (next_ref st) (orders_added st))
        end).

Definition delete_action (st : state) (r : R) (ref : Z) : ub (option state) :=
  res ← both st (OpDelete ref);
  Some (match res with
        | None => None
        | Some (b, m, _) =>
            Some (MkTest b m r (um_erase ref (live st)) (touched_prices st) (next_ref st)
                    (orders_added st))
        end).

Definition replace_action (st : state) (r : R) (ref : Z) (order : LiveOrder) : ub (option state) :=
  let '(p, r) := draw_price r in
  let '(s, r) := shares_dist 10 500 r in
  let new_ref := next_ref st in
  res ← both st (OpReplace ref new_ref s p);
  Some (match res with
        | None => None
        | Some (b, m, _) =>
            Some (MkTest b m r
                    (um_set new_ref (MkLive p s (lo_is_buy order)) (um_erase ref (live st)))
                    (p :: touched_prices st) (new_ref +u64 1) (orders_added st))
        end).

(** One operation of the stream, without the comparison. *)
Definition act (st : state) : ub (option state) :=
  let entries := um_entries (live st) in
  let '(action, r) := if decide (entries = []) then (0, rng st) else action_dist (rng st) in
  if action <? 55 then add_action st r
  else
    let '(draw, r) := next_u64 r in
    '(ref, order) ← entries !! Z.to_nat (draw mod Z.of_nat (length entries));
    if action <? 70 then reduce_action st r OpExecute ref order
    else if action <? 80 then reduce_action st r OpCancel ref order
    else if action <? 90 then delete_action st r ref
    else replace_action st r ref order.

(** One iteration: the operation, then [expect_books_match]. *)
Definition test_step (st : state) : ub (option state) :=
  res ← act st;
  match res with
  | None => Some None
  | Some st =>
      ok ← expect_books_match (book st) (reference st) (touched_prices st);
      Some (if ok : bool then Some st else None)
  end.

Inductive verdict := Passed | Failed | Running.

(** The two final expectations. *)
Definition final_check (st : state) : bool :=
  (order_count (book st) =? Z.of_nat (length (um_entries (live st)))) &&
  (Reference.order_count (reference st) =? Z.of_nat (length (um_entries (live st)))).

(** The loop, for at most [fuel] iterations. *)
Fixpoint test_loop (fuel : nat) (st : state) : ub verdict :=
  if negb (orders_added st <? kNumOrders) then Some (if final_check st then Passed else Failed)
  else
    match fuel with
    | O => Some Running
    | S fuel =>
        res ← test_step st;
        match res with None => Some Failed | Some st => test_loop fuel st end
    end.

Definition run_test (fuel : nat) : ub verdict :=
  b ← make kRef kHalfWidth kCapacity;
  test_loop fuel (MkTest b ∅ (seeded 42) um_empty [] 1 0).
End test.

(** ** No iteration can fail *)

Definition view (e : Z * LiveOrder) : Rest :=
  MkRest e.1 (lo_price e.2) (lo_shares e.2) (lo_is_buy e.2) 0.

Lemma test_view_ref e : r_ref (view e) = e.1.
Proof. done. Qed.

(** The two books agree with a list of orders. *)
Record books (b : OrderBook) (m : Reference.t) (l : list Rest) : Prop := {
  b_rep : Rep b l;
  b_exact : best_exact b l;
  b_capacity : book_capacity b = kCapacity;
  b_reference : Reference.rep m l
}.

Section proofs.
Context {R : Type} `{!Random R, !RandomRanges R}.
Context {M : Type} `{!UnorderedMap LiveOrder M, !UnorderedMapLaws LiveOrder M}.
Implicit Types (st : @state R M) (l : list Rest).

(** An operation the specification accepts passes the assertion. *)
Lemma both_accepted st l o l' :
  books (book st) (reference st) l -> Z.of_nat (length l) < kCapacity -> Spec.fits l -> op_ok o ->
  spec_do kCapacity l o = (l', true) ->
  exists b m, both st o = Some (Some (b, m, true)) /\ books b m l'.
Proof.
  intros [HR He Hc Hm] Hlen Hfit Ho Hs.
  destruct (book_do_step _ l o HR Ho) as (b & Hb & HR' & Hss & He'). rewrite Hc, Hs in *.
  destruct (reference_do_rep _ l (book st) kCapacity o Hm HR Ho Hlen) as [Hr Hm']. rewrite Hs in Hr, Hm'.
  unfold both. rewrite Hb. cbn [mbind option_bind]. destruct (reference_do _ o) as [m ok]. cbn in Hr, Hm'. subst ok.
  exists b, m. split; [done|]. split; [done|by apply He'| |done].
  replace (book_capacity b) with (book_capacity (book st)); [done|]. symmetry. apply Hss.
Qed.

(** Agreeing books match at every touched price. *)
Lemma books_match b m l touched :
  books b m l -> Forall (fun p => 0 <= p < 2 ^ 32) touched -> expect_books_match b m touched = Some true.
Proof.
  intros [HR He _ Hm] Ht. destruct (agree_states b m l true HR He Hm) as (_ & Hb & Ha & Hc & Hs).
  cbn in Hb, Ha, Hc, Hs. unfold expect_books_match.
  assert (all_shares_match b m touched = Some true) as ->.
  { induction Ht as [|p touched Hp _ IH]; [done|]. cbn [all_shares_match]. unfold shares_match.
    rewrite !Hs by done. cbn [mbind option_bind]. by rewrite IH, !Z.eqb_refl. }
  cbn [mbind option_bind]. by rewrite Hb, Ha, Hc, !bool_decide_eq_true_2, Z.eqb_refl.
Qed.

Record test_inv (n : nat) st l : Prop := {
  t_books : books (book st) (reference st) l;
  t_live : view <$> um_entries (live st) ≡ₚ l;
  t_ok : forall e, e ∈ um_entries (live st) ->
    1 <= e.1 < next_ref st /\ 0 < lo_shares e.2 <= 500 /\ 0 <= lo_price e.2 < 2 ^ 32;
  t_next : 1 <= next_ref st <= Z.of_nat n + 1;
  t_added : Z.of_nat (length l) <= orders_added st <= kNumOrders;
  t_touched : Forall (fun p => 0 <= p < 2 ^ 32) (touched_prices st)
}.

(** At most 400 orders of at most 500 shares: no total leaves 32 bits. *)
Lemma test_fits n st l : test_inv n st l -> Spec.fits l.
Proof.
  intros Hi buy p. unfold Spec.shares_at, Spec.queue_at.
  assert (forall r, r ∈ l -> 0 < r_shares r <= 500) as Hb.
  { intros r Hr. rewrite <- (t_live _ _ _ Hi) in Hr. apply list_elem_of_fmap in Hr as (e & -> & He).
    apply (t_ok _ _ _ Hi e He). }
  assert (sumZ r_shares (filter (Spec.at_level buy p) l) <= sumZ r_shares l) as Hle.
  { apply sumZ_filter_le. intros r Hr. specialize (Hb r Hr). lia. }
  assert (sumZ r_shares l <= 500 * Z.of_nat (length l)) as Hsum.
  { clear -Hb. induction l as [|r l IH]; [done|].
    rewrite sumZ_cons, length_cons. pose proof (Hb r ltac:(left)).
    assert (sumZ r_shares l <= 500 * Z.of_nat (length l)) by (apply IH; intros; apply Hb; by right). lia. }
  pose proof (t_added _ _ _ Hi). unfold kNumOrders in *. lia.
Qed.

Lemma test_room n st l : test_inv n st l -> Z.of_nat (length l) < kCapacity.
Proof. intros Hi. pose proof (t_added _ _ _ Hi). unfold kNumOrders, kCapacity in *. lia. Qed.

Lemma draw_price_range (r : R) : 0 <= (draw_price r).1 < 2 ^ 32.
Proof. unfold draw_price. destruct (jitter_dist _ _ r). apply u32_range. Qed.

Lemma add_action_inv n st l r :
  test_inv n st l -> orders_added st < kNumOrders -> Z.of_nat n + 2 < 2 ^ 64 ->
  exists st' l', add_action st r = Some (Some st') /\ test_inv (S n) st' l' /\
    orders_added st' = orders_added st + 1.
Proof.
  intros Hi Hlt Hn. pose proof (test_fits _ _ _ Hi) as Hfit. pose proof (test_room _ _ _ Hi) as Hroom.
  destruct Hi as [Hb Hl Hok Hnext Hadd Ht]. unfold add_action.
  pose proof (draw_price_range r) as Hp. destruct (draw_price r) as [p r1]. cbn in Hp.
  pose proof (shares_range 10 500 r1 ltac:(lia)) as Hs. destruct (shares_dist _ _ r1) as [s r2]. cbn in Hs.
  destruct (side_dist r2) as [side r3]. set (o := MkLive p s (side =? 0)).
  assert (forall e, e ∈ um_entries (live st) -> e.1 <> next_ref st) as Hnew.
  { intros e He. destruct (Hok e He). lia. }
  destruct (add_tracks view test_view_ref _ _ Hl kCapacity (next_ref st) o Hnew) as [Hspec Hl'];
    [cbn; lia|done|done|].
  destruct (both_accepted st l (OpAdd (next_ref st) p s (side =? 0)) _ Hb Hroom Hfit ltac:(cbn; lia) Hspec)
    as (b & m & -> & Hb').
  cbn [mbind option_bind]. unfold kNumOrders in *. eexists _, _. split; [done|].
  split; [|cbn; by rewrite u64_small by lia].
  split; cbn; [exact Hb'|exact Hl'| | | |by constructor]; rewrite ?u64_small by lia.
  - intros e He. rewrite set_fresh in He by done. apply elem_of_cons in He as [->|He]; [cbn; lia|].
    specialize (Hok e He). lia.
  - lia.
  - rewrite length_app. cbn. unfold kNumOrders. lia.
Qed.

Lemma reduce_action_inv n st l r op ref o :
  test_inv n st l -> (ref, o) ∈ um_entries (live st) ->
  op = OpExecute \/ op = OpCancel ->
  exists st' l', reduce_action st r op ref o = Some (Some st') /\ test_inv n st' l'.
Proof.
  intros Hi He Hop. pose proof (test_fits _ _ _ Hi) as Hfit. pose proof (test_room _ _ _ Hi) as Hroom.
  destruct Hi as [Hb Hl Hok Hnext Hadd Ht]. destruct (Hok _ He) as (Hr & Hs & Hp). cbn in Hr, Hs, Hp.
  unfold reduce_action. pose proof (shares_range 10 500 r ltac:(lia)) as Hd.
  destruct (shares_dist _ _ r) as [draw r1]. cbn in Hd. set (delta := Z.min (lo_shares o) draw).
  destruct (take_tracks view test_view_ref _ _ Hl ref o (MkLive (lo_price o) (lo_shares o - delta) (lo_is_buy o))
    delta He ltac:(cbn; lia) eq_refl) as (l' & Hspec & Hl' & Hlen & Hes).
  cbn [view r_shares fst snd] in Hl', Hes.
  destruct (both_accepted st l (op ref delta) l' Hb Hroom Hfit) as (b & m & -> & Hb').
  { destruct Hop as [-> | ->]; cbn; lia. }
  { by destruct Hop as [-> | ->]. }
  cbn [mbind option_bind]. rewrite u32_small by lia. eexists _, l'. split; [done|].
  split; cbn; [exact Hb'|exact Hl'| |done|lia|done].
  intros e [Hin|[-> Hpos]]%Hes; [by apply Hok|]. cbn. lia.
Qed.

Lemma delete_action_inv n st l r ref o :
  test_inv n st l -> (ref, o) ∈ um_entries (live st) ->
  exists st' l', delete_action st r ref = Some (Some st') /\ test_inv n st' l'.
Proof.
  intros Hi He. pose proof (test_fits _ _ _ Hi) as Hfit. pose proof (test_room _ _ _ Hi) as Hroom.
  destruct Hi as [Hb Hl Hok Hnext Hadd Ht]. unfold delete_action.
  destruct (delete_tracks view test_view_ref _ _ Hl ref o He) as (Hspec & Hl' & Hlen).
  destruct (both_accepted st l (OpDelete ref) _ Hb Hroom Hfit I Hspec) as (b & m & -> & Hb').
  cbn [mbind option_bind]. eexists _, _. split; [done|].
  split; cbn; [exact Hb'|exact Hl'| |done|lia|done].
  intros e Hin. apply Hok. by eapply erased_elem.
Qed.

Lemma replace_action_inv n st l r ref o :
  test_inv n st l -> (ref, o) ∈ um_entries (live st) -> Z.of_nat n + 2 < 2 ^ 64 ->
  exists st' l', replace_action st r ref o = Some (Some st') /\ test_inv (S n) st' l'.
Proof.
  intros Hi He Hn. pose proof (test_fits _ _ _ Hi) as Hfit. pose proof (test_room _ _ _ Hi) as Hroom.
  destruct Hi as [Hb Hl Hok Hnext Hadd Ht]. unfold replace_action.
  pose proof (draw_price_range r) as Hp. destruct (draw_price r) as [p r1]. cbn in Hp.
  pose proof (shares_range 10 500 r1 ltac:(lia)) as Hs. destruct (shares_dist _ _ r1) as [s r2]. cbn in Hs.
  assert (forall e, e ∈ um_entries (live st) -> e.1 <> next_ref st) as Hnew.
  { intros e Hin. destruct (Hok e Hin). lia. }
  destruct (replace_tracks view test_view_ref _ _ Hl ref o (next_ref st) (MkLive p s (lo_is_buy o)) He Hnew)
    as (l' & Hspec & Hl' & Hlen & Hes); [cbn; lia|done|done|].
  destruct (both_accepted st l (OpReplace ref (next_ref st) s p) l' Hb Hroom Hfit ltac:(cbn; lia) Hspec)
    as (b & m & -> & Hb').
  cbn [mbind option_bind]. eexists _, l'. split; [done|].
  split; cbn; [exact Hb'|exact Hl'| | |lia|by constructor]; rewrite ?u64_small by lia; [|lia].
  intros e [Hin| ->]%Hes; [|cbn; lia]. specialize (Hok e Hin). lia.
Qed.

Lemma test_inv_S n st l : test_inv n st l -> test_inv (S n) st l.
Proof. intros [????? ?]. split; try done. lia. Qed.

(** One iteration succeeds: the assertion and every comparison hold. *)
Lemma test_step_inv n st l :
  test_inv n st l -> orders_added st < kNumOrders -> Z.of_nat n + 2 < 2 ^ 64 ->
  exists st' l', test_step st = Some (Some st') /\ test_inv (S n) st' l'.
Proof.
  intros Hi Hlt Hn.
  assert (exists st' l', act st = Some (Some st') /\ test_inv (S n) st' l') as (st' & l' & Hact & Hi').
  { unfold act. set (es := um_entries (live st)).
    destruct (if decide (es = []) then (0, rng st) else action_dist (rng st)) as [action r] eqn:Ha.
    destruct (Z.ltb_spec action 55) as [_|Hge].
    { destruct (add_action_inv n st l r Hi Hlt Hn) as (st' & l' & ? & ? & _). by exists st', l'. }
    assert (es <> []) as Hne by (intros Hz; rewrite decide_True in Ha by done; simplify_eq; lia).
    destruct (next_u64 r) as [draw r'].
    destruct (lookup_lt_is_Some_2 es (Z.to_nat (draw mod Z.of_nat (length es)))) as [[ref o] Hlk].
    { destruct es as [|e es']; [done|].
      pose proof (Z.mod_pos_bound draw (Z.of_nat (length (e :: es'))) ltac:(cbn; lia)). lia. }
    rewrite Hlk. cbn [mbind option_bind]. apply list_elem_of_lookup_2 in Hlk.
    destruct (action <? 70); [|destruct (action <? 80); [|destruct (action <? 90)]].
    - destruct (reduce_action_inv n st l r' OpExecute ref o Hi Hlk) as (st' & l' & ? & ?); [by left|].
      exists st', l'. split; [done|by apply test_inv_S].
    - destruct (reduce_action_inv n st l r' OpCancel ref o Hi Hlk) as (st' & l' & ? & ?); [by right|].
      exists st', l'. split; [done|by apply test_inv_S].
    - destruct (delete_action_inv n st l r' ref o Hi Hlk) as (st' & l' & ? & ?).
      exists st', l'. split; [done|by apply test_inv_S].
    - by eapply replace_action_inv. }
  exists st', l'. unfold test_step. rewrite Hact. cbn [mbind option_bind].
  rewrite (books_match _ _ _ _ (t_books _ _ _ Hi') (t_touched _ _ _ Hi')). done.
Qed.

Lemma final_check_inv n st l : test_inv n st l -> final_check st = true.
Proof.
  intros [[HR _ _ Hm] Hl _ _ _ _]. unfold final_check.
  rewrite (order_count_rep _ _ HR), (Reference.ref_order_count_rep _ _ Hm).
  rewrite <- Hl, length_fmap. by rewrite !Z.eqb_refl.
Qed.

Lemma test_loop_inv fuel n st l :
  test_inv n st l -> Z.of_nat n + Z.of_nat fuel + 1 < 2 ^ 64 ->
  exists v, test_loop fuel st = Some v /\ v <> Failed.
Proof.
  revert n st l. induction fuel as [|fuel IH]; intros n st l Hi Hn; cbn [test_loop];
    destruct (Z.ltb_spec (orders_added st) kNumOrders) as [Hlt|Hge]; cbn [negb];
    rewrite ?(final_check_inv _ _ _ Hi); try (by eexists).
  destruct (test_step_inv n st l Hi Hlt ltac:(lia)) as (st' & l' & -> & Hi'). cbn [mbind option_bind].
  apply (IH (S n) st' l' Hi'). lia.
Qed.

(** With fair draws the loop ends. *)
Section fair.
Context `{!FairRandom R}.

(** No order added, and the waiting time has not grown. *)
Definition no_add st (r : R) st' : Prop :=
  orders_added st' = orders_added st /\ (wait (rng st') <= wait r)%nat.

Ltac draws :=
  repeat match goal with
  | |- context [shares_dist ?lo ?hi ?r] =>
      pose proof (wait_shares lo hi r); destruct (shares_dist lo hi r); cbn [snd] in *
  | |- context [jitter_dist ?lo ?hi ?r] =>
      pose proof (wait_jitter lo hi r); destruct (jitter_dist lo hi r); cbn [snd] in *
  end.

Lemma action_progress st r op ref o st' :
  reduce_action st r op ref o = Some (Some st') \/ delete_action st r ref = Some (Some st') \/
  replace_action st r ref o = Some (Some st') -> no_add st r st'.
Proof.
  unfold reduce_action, delete_action, replace_action, draw_price, no_add.
  intros [Hst|[Hst|Hst]]; revert Hst; draws; intros Hst; minv Hst;
    destruct x as [[[? ?] ?]|]; simplify_eq; cbn; (split; [done|lia]).
Qed.

Lemma test_step_progress n st l st' :
  test_inv n st l -> orders_added st < kNumOrders -> Z.of_nat n + 2 < 2 ^ 64 ->
  test_step st = Some (Some st') ->
  orders_added st' = orders_added st + 1 \/
  (orders_added st' = orders_added st /\ (wait (rng st') < wait (rng st))%nat).
Proof.
  intros Hi Hlt Hn Hst. unfold test_step in Hst. minv Hst. destruct x as [x|]; [|done].
  minv Hst. destruct x0; [|done]. simplify_eq. clear E0. revert E. unfold act.
  destruct (decide (um_entries (live st) = [])) as [_|_].
  { change (0 <? 55) with true. cbn iota.
    destruct (add_action_inv n st l (rng st) Hi Hlt Hn) as (st2 & l' & -> & _ & Ha). intros ?.
    simplify_eq. by left. }
  pose proof (wait_action (rng st)) as Hw. destruct (action_dist (rng st)) as [action r].
  destruct (Z.ltb_spec action 55) as [_|Hact].
  { destruct (add_action_inv n st l r Hi Hlt Hn) as (st2 & l' & -> & _ & Ha). intros ?.
    simplify_eq. by left. }
  specialize (Hw Hact). cbn [snd] in Hw. pose proof (wait_next r).
  destruct (next_u64 r) as [draw r']. cbn [snd] in *. intros Hs. minv Hs. right.
  assert (no_add st r' st') as [Ha Hle]; [|lia].
  apply (action_progress st r' (if action <? 70 then OpExecute else OpCancel) y z).
  repeat case_match; auto.
Qed.

Lemma test_loop_ends fuel n st l :
  test_inv n st l -> Z.of_nat n + Z.of_nat fuel + 1 < 2 ^ 64 ->
  (kNumOrders - orders_added st) * (Z.of_nat patience + 1) + Z.of_nat (wait (rng st)) < Z.of_nat fuel ->
  test_loop fuel st = Some Passed.
Proof.
  revert n st l. induction fuel as [|fuel IH]; intros n st l Hi Hn Hf; cbn [test_loop];
    pose proof (t_added _ _ _ Hi);
    destruct (Z.ltb_spec (orders_added st) kNumOrders) as [Hlt|Hge]; cbn [negb];
    rewrite ?(final_check_inv _ _ _ Hi); try done; [nia|].
  destruct (test_step_inv n st l Hi Hlt ltac:(lia)) as (st' & l' & Hst & Hi').
  pose proof (test_step_progress n st l st' Hi Hlt ltac:(lia) Hst) as Hp.
  rewrite Hst. cbn [mbind option_bind]. apply (IH (S n) st' l' Hi'); [lia|].
  pose proof (wait_bound (rng st')). destruct Hp as [Ha|[Ha Hw]]; rewrite Ha; nia.
Qed.
End fair.

Lemma run_test_start :
  exists b, make kRef kHalfWidth kCapacity = Some b /\
    test_inv 0 (MkTest b ∅ (seeded 42 : R) (um_empty : M) [] 1 0) [].
Proof.
  destruct (make_rep kRef kHalfWidth kCapacity) as (b & Hm & HR & He & Hc);
    [unfold kRef, kHalfWidth, kCapacity; lia..|].
  exists b. split; [done|]. split; cbn.
  - split; [done|done|done|]. split; [|constructor]. intros ref. by rewrite lookup_empty.
  - by rewrite um_entries_empty.
  - intros e. rewrite um_entries_empty. by intros ?%elem_of_nil.
  - lia.
  - unfold kNumOrders. lia.
  - done.
Qed.

Lemma run_test_verdict fuel :
  Z.of_nat fuel + 1 < 2 ^ 64 ->
  exists v, run_test (R := R) (M := M) fuel = Some v /\ v <> Failed.
Proof.
  intros Hf. unfold run_test. destruct run_test_start as (b & -> & Hi). cbn [mbind option_bind].
  by apply (test_loop_inv fuel 0 _ []).
Qed.

Lemma run_test_passes `{!FairRandom R} fuel :
  kNumOrders * (Z.of_nat patience + 1) + Z.of_nat patience < Z.of_nat fuel < 2 ^ 64 - 1 ->
  run_test (R := R) (M := M) fuel = Some Passed.
Proof.
  intros Hf. unfold run_test. destruct run_test_start as (b & -> & Hi). cbn [mbind option_bind].
  apply (test_loop_ends fuel 0 _ []); [done|lia|]. cbn [orders_added rng].
  pose proof (wait_bound (seeded 42 : R)). lia.
Qed.
End proofs.
End DiffTest.
