(* ===== verification/BookInterface.v ===== *)
(** * What the matching engine sees of a book

    [engine/matching_engine.hpp] only uses the public members of
    [book::OrderBook]: the level queries, reads through [const PriceLevel*] and
    [const Order&], [execute_order] and [add_order].  [Book] lists those
    operations, [BookLaws] what they promise about the list of resting orders a
    book represents; the engine is defined and proved against the two classes,
    and the [OrderBook] instances below discharge them. *)

From S2P Require Import Prelude HashMap IntrusiveList ObjectPool OrderBook BookSpec.
From S2P Require Import BookInvariant BookBest BookRefinement BookOps BookQueries.

Local Open Scope Z_scope.

Class Book (B : Type) := {
  level_ptr : Type;
  (** [best_bid_level()] for true, [best_ask_level()] for false. *)
  best_level : B -> bool -> option level_ptr;
  next_level : B -> Z -> bool -> option level_ptr;
  (** [level->price]; the totals and the queues by side. *)
  level_price_at : B -> level_ptr -> ub Z;
  level_total_at : B -> level_ptr -> bool -> ub Z;
  (** The orders a range-for over the queue visits. *)
  level_queue_at : B -> level_ptr -> bool -> ub (list Rest);
  book_execute : B -> Z -> Z -> ub (B * bool);
  book_add : B -> Z -> Z -> Z -> bool -> Z -> ub (B * bool);
  book_count : B -> Z;
  book_cap : B -> Z
}.

(** A pointer to a live level, seen from the abstract state. *)
Record level_view `{Book B} (b : B) (l : list Rest) (side : bool) (lev : level_ptr) (p : Z) : Prop := {
  lv_price : level_price_at b lev = Some p;
  lv_total : level_total_at b lev side = Some (u32 (Spec.shares_at side p l));
  lv_queue : level_queue_at b lev side = Some (Spec.queue_at side p l)
}.

(** A nullable level pointer against the price it should have. *)
Definition level_matches `{Book B} (b : B) (l : list Rest) (side : bool)
    (lev : option level_ptr) (p : option Z) : Prop :=
  match lev, p with
  | Some lev, Some p => level_view b l side lev p
  | None, None => True
  | _, _ => False
  end.

Record resting_ok (l : list Rest) : Prop := {
  rok_refs : NoDup (r_ref <$> l);
  rok_shares : forall r, r ∈ l -> 0 < r_shares r < 2 ^ 32;
  rok_prices : forall r, r ∈ l -> 0 <= r_price r < 2 ^ 32
}.

Class BookLaws (B : Type) `{!Book B} := {
  represents : B -> list Rest -> Prop;
  book_ok b l : represents b l -> resting_ok l;
  book_count_law b l : represents b l -> book_count b = Z.of_nat (length l);
  best_law b l side :
    represents b l -> level_matches b l side (best_level b side) (Spec.best side l);
  next_law b l p side :
    represents b l -> Spec.fits l ->
    level_matches b l side (next_level b p side) (next_price side p l);
  execute_law b l ref s :
    represents b l -> Spec.fits l -> 0 <= s ->
    exists b', book_execute b ref s = Some (b', (Spec.reduce l ref s).2) /\
      represents b' (Spec.reduce l ref s).1 /\ book_cap b' = book_cap b;
  add_law b l ref p s buy trader :
    represents b l -> 0 <= p < 2 ^ 32 -> 0 <= s < 2 ^ 32 ->
    exists b', book_add b ref p s buy trader =
        Some (b', (Spec.add (book_cap b) l ref p s buy trader).2) /\
      represents b' (Spec.add (book_cap b) l ref p s buy trader).1 /\ book_cap b' = book_cap b
}.

(** ** The order book is such a book *)

#[export] Instance OrderBook_book : Book OrderBook := {|
  level_ptr := LevelRef;
  best_level b side := if side : bool then best_bid_level b else best_ask_level b;
  next_level b p side := next_level_after b p side;
  level_price_at b lr := level_price <$> get_level b lr;
  level_total_at b lr side := total side <$> get_level b lr;
  level_queue_at b lr side := level_orders b lr side;
  book_execute := execute_order;
  book_add := add_order;
  book_count := order_count;
  book_cap := book_capacity
|}.

Lemma Rep_resting b l : Rep b l -> resting_ok l.
Proof.
  intros HR. pose proof (Rep_positive _ _ HR) as Hpos. destruct HR as (L & free & Hc & _ & _ & <-).
  split; [apply Hc|done|]. intros r (x & -> & Hx)%list_elem_of_fmap. by eapply c_prices.
Qed.

Lemma OrderBook_level b l side p :
  Rep b l -> (exists r, r ∈ l /\ r_buy r = side /\ r_price r = p) -> level_view b l side (lref b p) p.
Proof.
  intros HR Hx. assert (0 <= p < 2 ^ 32) as Hp.
  { destruct Hx as (r & Hr & _ & <-). by apply (rok_prices _ (Rep_resting _ _ HR)). }
  assert (exists lv, get_level b (lref b p) = Some lv /\ level_price lv = p) as (lv & Hl & Hlp).
  { destruct HR as (L & free & Hc & _ & _ & <-).
    destruct Hx as (r & ([i r'] & -> & Hx)%list_elem_of_fmap & _ & <-).
    destruct (c_orders _ _ _ Hc i r' Hx) as (_ & _ & _ & lv & Hl). exists lv.
    split; [done|]. by eapply get_level_price; [apply Hc| |]. }
  split; cbn.
  - by rewrite Hl, <- Hlp.
  - pose proof (shares_at_rep b l p side HR Hp) as Hs. unfold shares_at in Hs.
    destruct HR as (L & free & Hc & _). rewrite level_for_query_spec, Hl in Hs by (by try apply Hc).
    cbn in Hs. rewrite Hl in *. by cbn in *.
  - by eapply level_orders_rep.
Qed.

Lemma best_inhabited side l p :
  Spec.best side l = Some p -> exists r, r ∈ l /\ r_buy r = side /\ r_price r = p.
Proof. by intros [Hx _]%Spec.best_is_best. Qed.

Lemma next_inhabited side q l p :
  next_price side q l = Some p -> exists r, r ∈ l /\ r_buy r = side /\ r_price r = p.
Proof.
  intros (r & [_ Hr]%list_elem_of_filter & Hb & Hp)%best_inhabited. by exists r.
Qed.

Lemma OrderBook_level_option b l side o :
  Rep b l -> (forall p, o = Some p -> exists r, r ∈ l /\ r_buy r = side /\ r_price r = p) ->
  level_matches b l side (lref b <$> o) o.
Proof. intros HR Ho. destruct o as [p|]; [|done]. by apply OrderBook_level; [|apply Ho]. Qed.

#[export] Program Instance OrderBook_laws : BookLaws OrderBook := {|
  represents b l := Rep b l /\ best_exact b l
|}.
Next Obligation. intros b l [HR _]. by eapply Rep_resting. Qed.
Next Obligation. intros b l [HR _]. by apply order_count_rep. Qed.
Next Obligation.
  intros b l side [HR He]. cbn. rewrite (best_level_rep b l side HR He).
  apply OrderBook_level_option; [done|]. apply best_inhabited.
Qed.
Next Obligation.
  intros b l p side [HR He] Hfit. cbn. rewrite (next_level_rep b l p side HR Hfit).
  apply OrderBook_level_option; [done|]. apply next_inhabited.
Qed.
Next Obligation.
  intros b l ref s [HR He] Hfit Hs.
  destruct (reduce_step b l ref s HR Hs) as (b' & ? & ? & [_ _ Hc] & Hx).
  exists b'. split_and!; try done. auto.
Qed.
Next Obligation.
  intros b l ref p s buy trader [HR He] Hp Hs.
  destruct (add_order_rep b l ref p s buy trader HR Hp Hs) as (b' & ? & ? & [_ _ Hc] & Hx).
  exists b'. split_and!; try done. auto.
Qed.
