(* ===== verification/MatchingEngine.v ===== *)
(** * engine/: the matching engine

    [MatchingEngine] of engine/matching_engine.hpp over any [Book] and any event
    handler.  The handler is a template parameter of the source, so it is a class
    here: three callbacks on a state of its own; [Trace] records the callbacks in
    order.  The two loops carry fuel; [submit] gives them one more step than the
    book has orders, which MatchingProofs.v proves to be enough. *)

From S2P Require Import Prelude BookSpec BookInterface.

Local Open Scope Z_scope.

(** ** engine/order_types.hpp and engine/events.hpp *)

Inductive OrderType := Limit | Market | IOC | FOK.

#[global] Instance OrderType_eq_dec : EqDecision OrderType.
Proof. solve_decision. Defined.

Record IncomingOrder := MkIncoming {
  in_ref : Z;
  in_price : Z;
  in_quantity : Z;
  in_is_buy : bool;
  in_type : OrderType;
  in_trader : Z
}.

Record FillEvent := MkFill {
  aggressor_ref : Z;
  resting_ref : Z;
  fill_price : Z;
  fill_quantity : Z
}.

Record RestEvent := MkRestEvent {
  rest_ref : Z;
  rest_price : Z;
  rest_quantity : Z;
  rest_is_buy : bool
}.

Record KillEvent := MkKill { kill_ref : Z; unfilled_quantity : Z }.

Class EventHandler (H : Type) := {
  on_fill : H -> FillEvent -> H;
  on_rest : H -> RestEvent -> H;
  on_kill : H -> KillEvent -> H
}.

(** The recording handler of the tests. *)
Inductive Event := Fill (e : FillEvent) | Rested (e : RestEvent) | Killed (e : KillEvent).

#[global] Instance Trace : EventHandler (list Event) := {|
  on_fill h e := h ++ [Fill e];
  on_rest h e := h ++ [Rested e];
  on_kill h e := h ++ [Killed e]
|}.

Section engine.
Context {B : Type} `{!Book B} {H : Type} `{!EventHandler H}.
(** [prevent_self_trade_]. *)
Variable stp : bool.
Implicit Types (b : B) (h : H) (order : IncomingOrder).

Definition eligible order (candidate : Rest) : bool :=
  if negb stp || (in_trader order =? 0) then true
  else negb (r_trader candidate =? in_trader order).

Definition crosses order (level_price : Z) : bool :=
  if decide (in_type order = Market) then true
  else if in_is_buy order then level_price <=? in_price order
  else in_price order <=? level_price.

(** The inner loop of [available_liquidity]: [total += candidate.shares]. *)
Definition add_eligible order (queue : list Rest) (total : Z) : Z :=
  foldl (fun total candidate =>
    if eligible order candidate then total +u32 r_shares candidate else total) total queue.

Fixpoint liquidity_loop (fuel : nat) b order (level : option level_ptr) (total : Z) : ub Z :=
  match level with
  | None => Some total
  | Some lev =>
      if negb (total <? in_quantity order) then Some total
      else
        match fuel with
        | O => None
        | S fuel =>
            p ← level_price_at b lev;
            if negb (crosses order p) then Some total
            else
              total ←
                (if negb stp || (in_trader order =? 0) then
                   s ← level_total_at b lev (negb (in_is_buy order));
                   Some (total +u32 s)
                 else
                   queue ← level_queue_at b lev (negb (in_is_buy order));
                   Some (add_eligible order queue total));
              liquidity_loop fuel b order (next_level b p (negb (in_is_buy order))) total
        end
  end.

Definition available_liquidity (fuel : nat) b order : ub Z :=
  liquidity_loop fuel b order (best_level b (negb (in_is_buy order))) 0.

(** The [while (remaining > 0)] loop; returns what remains. *)
Fixpoint match_loop (fuel : nat) b h order (remaining : Z) : ub (B * H * Z) :=
  if negb (0 <? remaining) then Some (b, h, remaining)
  else
    match fuel with
    | O => None
    | S fuel =>
        match best_level b (negb (in_is_buy order)) with
        | None => Some (b, h, remaining)
        | Some lev =>
            p ← level_price_at b lev;
            if negb (crosses order p) then Some (b, h, remaining)
            else
              queue ← level_queue_at b lev (negb (in_is_buy order));
              match List.find (eligible order) queue with
              | None => Some (b, h, remaining)
              | Some resting =>
                  let fill_qty := Z.min remaining (r_shares resting) in
                  '(b, _) ← book_execute b (r_ref resting) fill_qty;
                  let h := on_fill h (MkFill (in_ref order) (r_ref resting) (r_price resting) fill_qty) in
                  match_loop fuel b h order (remaining -u32 fill_qty)
              end
        end
    end.

Definition execute_match (fuel : nat) b h order : ub (B * H * Z) :=
  '(b, h, remaining) ← match_loop fuel b h order (in_quantity order);
  Some (b, h, in_quantity order -u32 remaining).

Definition submit b h order : ub (B * H) :=
  if in_quantity order =? 0 then Some (b, h)
  else
    let fuel := S (Z.to_nat (book_count b)) in
    killed ←
      (if decide (in_type order = FOK) then
         available ← available_liquidity fuel b order;
         Some (available <? in_quantity order)
       else Some false);
    if killed : bool then Some (b, on_kill h (MkKill (in_ref order) (in_quantity order)))
    else
      '(b, h, filled) ← execute_match fuel b h order;
      let remaining := in_quantity order -u32 filled in
      if remaining =? 0 then Some (b, h)
      else if decide (in_type order = Limit) then
        '(b, _) ← book_add b (in_ref order) (in_price order) remaining (in_is_buy order)
                    (in_trader order);
        Some (b, on_rest h (MkRestEvent (in_ref order) (in_price order) remaining (in_is_buy order)))
      else Some (b, on_kill h (MkKill (in_ref order) remaining)).
End engine.

(** ** The class

    Its two references are the book and the handler that every call is given here, so
    that what is left of the object is the flag; the constructor's argument has a
    default. *)
Record MatchingEngine := MkEngine { prevent_self_trade_ : bool }.

Definition make_engine (prevent_self_trade : option bool) : MatchingEngine :=
  MkEngine (default false prevent_self_trade).

Definition engine_submit {B H : Type} `{!Book B, !EventHandler H} (engine : MatchingEngine) (b : B) (h : H)
    (order : IncomingOrder) : ub (B * H) :=
  submit (prevent_self_trade_ engine) b h order.
