(* ===== verification/MatchingSpec.v ===== *)
(** * Price-time priority, stated on the list of resting orders

    [priority] orders one side by price and, within a price, by arrival;
    [reachable] is the part of it self-trade prevention lets an order trade with;
    [alloc] hands the quantity out greedily.  [spec_submit] is the abstract
    outcome of [MatchingEngine::submit]. *)

From S2P Require Import Prelude BookSpec BookOps BookInterface MatchingEngine.

Local Open Scope Z_scope.

Implicit Types (l s : list Rest) (r : Rest) (order : IncomingOrder).

(** ** The queue of one side *)

(** Stable insertion: behind every strictly better price, before equal ones. *)
Fixpoint insert_rest (side : bool) r s : list Rest :=
  match s with
  | [] => [r]
  | e :: s' =>
      if Spec.improves side (r_price e) (r_price r) then e :: insert_rest side r s' else r :: s
  end.

Definition priority (side : bool) l : list Rest :=
  foldr (insert_rest side) [] (filter (fun r => r_buy r = side) l).

(** No later order has a strictly better price. *)
Definition by_price (side : bool) r r' : Prop := Spec.improves side (r_price r') (r_price r) = false.

(** Once an order is blocked, its level stays the best one: only the eligible
    orders of that level remain. *)
Fixpoint reachable (ok : Rest -> bool) s : list Rest :=
  match s with
  | [] => []
  | r :: s' =>
      if ok r then r :: reachable ok s'
      else filter (fun r' => r_price r' = r_price r /\ ok r' = true) s'
  end.

Definition candidates (stp : bool) order l : list Rest :=
  reachable (eligible stp order)
    (filter (fun r => crosses order (r_price r) = true) (priority (negb (in_is_buy order)) l)).

(** Greedy allocation: who trades how much. *)
Fixpoint alloc (q : Z) s : list (Rest * Z) :=
  match s with
  | [] => []
  | r :: s' => if q <=? 0 then [] else (r, Z.min q (r_shares r)) :: alloc (q - Z.min q (r_shares r)) s'
  end.

Definition filled (fills : list (Rest * Z)) : Z := sumZ snd fills.

(** The book after the fills. *)
Definition after_fills l (fills : list (Rest * Z)) : list Rest :=
  foldl (fun l f => (Spec.reduce l (r_ref f.1) f.2).1) l fills.

Definition fill_event order (f : Rest * Z) : FillEvent :=
  MkFill (in_ref order) (r_ref f.1) (r_price f.1) f.2.

(** What the order could trade with if no level were blocked. *)
Definition liquidity (stp : bool) order l : Z :=
  sumZ r_shares (filter (fun r => r_buy r = negb (in_is_buy order) /\
    crosses order (r_price r) = true /\ eligible stp order r = true) l).

Definition spec_submit (stp : bool) (cap : Z) l order : list Rest * list Event :=
  if in_quantity order =? 0 then (l, [])
  else if bool_decide (in_type order = FOK) && (liquidity stp order l <? in_quantity order) then
    (l, [Killed (MkKill (in_ref order) (in_quantity order))])
  else
    let fills := alloc (in_quantity order) (candidates stp order l) in
    let l' := after_fills l fills in
    let remaining := in_quantity order - filled fills in
    let events := (fun f => Fill (fill_event order f)) <$> fills in
    if remaining =? 0 then (l', events)
    else if decide (in_type order = Limit) then
      ((Spec.add cap l' (in_ref order) (in_price order) remaining (in_is_buy order) (in_trader order)).1,
       events ++ [Rested (MkRestEvent (in_ref order) (in_price order) remaining (in_is_buy order))])
    else (l', events ++ [Killed (MkKill (in_ref order) remaining)]).

(** ** [priority] is a stable sort by price *)

Lemma insert_perm side r s : insert_rest side r s ≡ₚ r :: s.
Proof.
  induction s as [|e s IH]; [done|]. cbn. case_match; [|done]. rewrite IH. by constructor.
Qed.

Lemma priority_perm side l : priority side l ≡ₚ filter (fun r => r_buy r = side) l.
Proof.
  unfold priority. induction (filter _ l) as [|r k IH]; [done|]. cbn. by rewrite insert_perm, IH.
Qed.

Lemma priority_elem side l r : r ∈ priority side l <-> r ∈ l /\ r_buy r = side.
Proof. rewrite priority_perm, list_elem_of_filter. tauto. Qed.

Lemma insert_sorted side r s :
  StronglySorted (by_price side) s -> StronglySorted (by_price side) (insert_rest side r s).
Proof.
  induction 1 as [|e s Hs IH Hf]; cbn; [repeat constructor|].
  rewrite Forall_forall in Hf. destruct (Spec.improves side (r_price e) (r_price r)) eqn:Ei.
  - constructor; [done|]. apply Forall_forall. intros x. rewrite insert_perm.
    intros [->|Hx]%elem_of_cons; [by apply Spec.improves_asym|by apply Hf].
  - constructor; [by constructor; [|apply Forall_forall]|]. apply Forall_forall.
    intros x [->|Hx]%elem_of_cons; [done|]. eapply Spec.improves_trans; [by apply Hf|done].
Qed.

Lemma priority_sorted side l : StronglySorted (by_price side) (priority side l).
Proof. unfold priority. induction (filter _ l); cbn; [constructor|by apply insert_sorted]. Qed.

Lemma insert_queue side r s p :
  Spec.queue_at side p (insert_rest side r s) = Spec.queue_at side p (r :: s).
Proof.
  unfold Spec.queue_at. induction s as [|e s IH]; [done|]. cbn [insert_rest].
  destruct (Spec.improves side (r_price e) (r_price r)) eqn:Ei; [|done].
  rewrite filter_cons, IH, !filter_cons.
  destruct (decide (Spec.at_level side p e)) as [[_ He]|]; [|done].
  assert (¬ Spec.at_level side p r) as Hr.
  { intros [_ Hr]. by rewrite He, Hr, Spec.improves_irrefl in Ei. }
  by rewrite !decide_False by done.
Qed.

(** Within a price, arrival order is kept. *)
Lemma priority_queue side l p : Spec.queue_at side p (priority side l) = Spec.queue_at side p l.
Proof.
  assert (Spec.queue_at side p l = Spec.queue_at side p (filter (fun r => r_buy r = side) l)) as ->.
  { unfold Spec.queue_at. rewrite list_filter_filter_l; [done|]. by intros r [-> _]. }
  unfold priority. induction (filter _ l) as [|r k IH]; [done|]. cbn [foldr].
  rewrite insert_queue. unfold Spec.queue_at in *. by rewrite !filter_cons, IH.
Qed.

(** Sorted lists of one side are determined by their queues. *)
Lemma sorted_unique side s1 s2 :
  StronglySorted (by_price side) s1 -> StronglySorted (by_price side) s2 ->
  (forall r, r ∈ s1 -> r_buy r = side) -> (forall r, r ∈ s2 -> r_buy r = side) ->
  (forall p, Spec.queue_at side p s1 = Spec.queue_at side p s2) -> s1 = s2.
Proof.
  intros H1. revert s2. induction H1 as [|r1 t1 Hs1 IH Hf1]; intros s2 H2 Hb1 Hb2 Hq.
  { destruct s2 as [|r2 t2]; [done|]. specialize (Hq (r_price r2)). unfold Spec.queue_at in Hq.
    rewrite filter_cons_True in Hq; [done|]. split; [apply Hb2; left|done]. }
  assert (r1 ∈ s2) as Hin.
  { assert (r1 ∈ Spec.queue_at side (r_price r1) s2) as [_ ?]%list_elem_of_filter; [|done].
    rewrite <- Hq. apply list_elem_of_filter. split; [split; [apply Hb1; left|done]|left]. }
  destruct H2 as [|r2 t2 Hs2 Hf2]; [by apply not_elem_of_nil in Hin|].
  rewrite Forall_forall in Hf1, Hf2.
  assert (r2 ∈ r1 :: t1) as Hin2.
  { assert (r2 ∈ Spec.queue_at side (r_price r2) (r1 :: t1)) as [_ ?]%list_elem_of_filter; [|done].
    rewrite Hq. apply list_elem_of_filter. split; [split; [apply Hb2; left|done]|left]. }
  assert (r_price r1 = r_price r2) as Hp.
  { apply elem_of_cons in Hin as [->|Hin]; [done|]. apply elem_of_cons in Hin2 as [->|Hin2]; [done|].
    apply (Spec.improves_total side); [by apply Hf2|by apply Hf1]. }
  assert (r1 = r2) as <-.
  { specialize (Hq (r_price r1)). unfold Spec.queue_at in Hq.
    assert (Spec.at_level side (r_price r1) r1) by (split; [apply Hb1; left|done]).
    assert (Spec.at_level side (r_price r1) r2) by (split; [apply Hb2; left|done]).
    rewrite !filter_cons_True in Hq by done. by simplify_eq. }
  f_equal. apply IH; [done|..].
  - intros r Hr. apply Hb1. by right.
  - intros r Hr. apply Hb2. by right.
  - intros p. specialize (Hq p). unfold Spec.queue_at in *. rewrite !filter_cons in Hq.
    case_decide; by simplify_eq.
Qed.

Lemma sorted_filter side (P : Rest -> Prop) `{!forall r, Decision (P r)} s :
  StronglySorted (by_price side) s -> StronglySorted (by_price side) (filter P s).
Proof.
  induction 1 as [|r s Hs IH Hf]; [constructor|]. rewrite filter_cons. case_decide; [|done].
  constructor; [done|]. rewrite Forall_forall in *. intros x [_ Hx]%list_elem_of_filter. by apply Hf.
Qed.

Lemma queue_filter side p (P : Rest -> Prop) `{!forall r, Decision (P r)} s :
  Spec.queue_at side p (filter P s) = filter P (Spec.queue_at side p s).
Proof. unfold Spec.queue_at. rewrite !list_filter_filter. apply list_filter_iff. tauto. Qed.

Lemma priority_filter side (P : Rest -> Prop) `{!forall r, Decision (P r)} l :
  priority side (filter P l) = filter P (priority side l).
Proof.
  apply (sorted_unique side).
  - apply priority_sorted.
  - apply sorted_filter, priority_sorted.
  - by intros r [_ ?]%priority_elem.
  - by intros r [_ [_ ?]%priority_elem]%list_elem_of_filter.
  - intros p. by rewrite priority_queue, !queue_filter, priority_queue.
Qed.

(** The head of the priority queue has the best price. *)
Lemma priority_best side l :
  match priority side l with
  | [] => Spec.best side l = None
  | r :: _ => Spec.best side l = Some (r_price r)
  end.
Proof.
  pose proof (priority_sorted side l) as Hs. pose proof (fun r => priority_elem side l r) as He.
  destruct (priority side l) as [|r s].
  - apply Spec.best_None. intros r Hr Hb. by apply (not_elem_of_nil r), He.
  - apply Spec.best_is_best. inversion_clear Hs as [|?? Hs' Hf]. rewrite Forall_forall in Hf. split.
    + exists r. apply and_assoc, and_comm. split; [done|]. destruct (proj1 (He r)) as [? ?]; [left|].
      done.
    + intros r' Hr' Hb. assert (r' ∈ r :: s) as [->|Hx]%elem_of_cons by (by apply He).
      * apply Spec.improves_irrefl.
      * by apply Hf.
Qed.
