(* ===== verification/MatchingProofs.v ===== *)
(** * The matching engine implements price-time priority

    The loops of engine/matching_engine.hpp, over any book that satisfies
    [BookLaws] and any event handler, terminate, never run into undefined
    behaviour and compute what MatchingSpec.v specifies. *)

From S2P Require Import Prelude BookSpec BookOps BookQueries RefBook BookInterface.
From S2P Require Import MatchingEngine MatchingSpec.

Local Open Scope Z_scope.

Implicit Types (l s : list Rest) (r : Rest) (order : IncomingOrder).

(** Delivering one event to a handler. *)
Definition notify {H} `{EventHandler H} (h : H) (e : Event) : H :=
  match e with
  | Fill e => on_fill h e
  | Rested e => on_rest h e
  | Killed e => on_kill h e
  end.

(** ** Small facts about the abstract book *)

Lemma shares_at_update buy p ref (s : Z) l :
  (forall r, r ∈ l -> r_ref r = ref -> s <= r_shares r) ->
  Spec.shares_at buy p (Spec.update_ref ref s l) <= Spec.shares_at buy p l.
Proof.
  induction l as [|r l IH]; intros Hs; [done|]. unfold Spec.update_ref. cbn [fmap list_fmap].
  change (_ <$> l) with (Spec.update_ref ref s l). rewrite !shares_at_cons.
  specialize (IH (fun r' Hr' => Hs r' ltac:(by right))). specialize (Hs r ltac:(left)).
  destruct (Z.eqb_spec (r_ref r) ref) as [Heq|]; [|case_decide; lia].
  specialize (Hs Heq).
  destruct (decide (Spec.at_level buy p r)); destruct (decide (Spec.at_level buy p (Spec.set_r_shares s r)));
    try done; cbn; lia.
Qed.

Lemma shares_at_filter buy p (P : Rest -> Prop) `{!forall r, Decision (P r)} l :
  (forall r, r ∈ l -> 0 < r_shares r) ->
  Spec.shares_at buy p (filter P l) <= Spec.shares_at buy p l.
Proof.
  intros Hp. unfold Spec.shares_at. rewrite queue_filter. apply sumZ_filter_le.
  intros r [_ Hr]%list_elem_of_filter. specialize (Hp r Hr). lia.
Qed.

Lemma fits_reduce l ref (s : Z) :
  resting_ok l -> 0 <= s -> Spec.fits l -> Spec.fits (Spec.reduce l ref s).1.
Proof.
  intros [Hnd Hpos _] Hs Hf buy p. unfold Spec.reduce.
  destruct (Spec.find_ref ref l) as [r|] eqn:Hr; [|apply Hf]. case_match; [apply Hf|].
  specialize (Hf buy p). apply Spec.find_ref_Some in Hr as [Hin Href]. case_match; cbn.
  - eapply Z.le_lt_trans; [|exact Hf]. apply shares_at_filter. intros x Hx. by apply Hpos.
  - eapply Z.le_lt_trans; [|exact Hf]. apply shares_at_update. intros x Hx Hxr.
    assert (x = r) as ->; [|lia].
    pose proof (Spec.find_ref_unique ref l x Hnd Hx Hxr). pose proof (Spec.find_ref_unique ref l r Hnd Hin Href).
    congruence.
Qed.

Lemma reduce_exact l r q :
  resting_ok l -> r ∈ l -> 0 < q ->
  (Spec.reduce l (r_ref r) (Z.min q (r_shares r))).1 =
  if q <? r_shares r then Spec.update_ref (r_ref r) (r_shares r - q) l
  else Spec.remove_ref (r_ref r) l.
Proof.
  intros [Hnd Hpos _] Hr Hq. specialize (Hpos r Hr). unfold Spec.reduce.
  rewrite (Spec.find_ref_unique _ _ _ Hnd Hr eq_refl).
  assert ((Z.min q (r_shares r) =? 0) || (r_shares r <? Z.min q (r_shares r)) = false) as -> by lia.
  destruct (Z.ltb_spec q (r_shares r)).
  - assert ((r_shares r =? Z.min q (r_shares r)) = false) as -> by lia.
    by replace (Z.min q (r_shares r)) with q by lia.
  - by assert ((r_shares r =? Z.min q (r_shares r)) = true) as -> by lia.
Qed.

(** ** Candidates *)

Lemma reachable_subset ok s r : r ∈ reachable ok s -> r ∈ s /\ ok r = true.
Proof.
  induction s as [|e s IH]; [by intros ?%not_elem_of_nil|]. cbn. destruct (ok e) eqn:Ee.
  - intros [->|Hr]%elem_of_cons; [split; [left|done]|]. apply IH in Hr as [? ?]. split; [by right|done].
  - intros [[_ Ho] Hr]%list_elem_of_filter. split; [by right|done].
Qed.

Lemma candidates_elem stp order l r :
  r ∈ candidates stp order l ->
  r ∈ l /\ r_buy r = negb (in_is_buy order) /\ crosses order (r_price r) = true /\
  eligible stp order r = true.
Proof.
  intros [[Hc [Hr Hb]%priority_elem]%list_elem_of_filter He]%reachable_subset. done.
Qed.

(** Everything is reachable when nothing is blocked. *)
Lemma reachable_all ok s : (forall r, r ∈ s -> ok r = true) -> reachable ok s = s.
Proof.
  induction s as [|r s IH]; intros Ho; [done|]. cbn. rewrite (Ho r) by left. f_equal.
  apply IH. intros x Hx. apply Ho. by right.
Qed.

Lemma find_filter_head (P : Rest -> Prop) `{!forall r, Decision (P r)} (ok : Rest -> bool) s :
  List.find ok (filter P s) = head (filter (fun r => P r /\ ok r = true) s).
Proof.
  induction s as [|r s IH]; [done|]. rewrite !filter_cons.
  destruct (decide (P r)) as [Hp|Hp].
  - cbn. destruct (ok r) eqn:Eo; [by rewrite decide_True|]. by rewrite decide_False by (intros []; congruence).
  - by rewrite decide_False by tauto.
Qed.

(** The first eligible order of the best level is the first reachable one. *)
Lemma reachable_head ok side s r s' :
  s = r :: s' -> (forall x, x ∈ s -> r_buy x = side) ->
  List.find ok (Spec.queue_at side (r_price r) s) = head (reachable ok s).
Proof.
  intros -> Hb. unfold Spec.queue_at. cbn [reachable]. rewrite filter_cons_True.
  2:{ split; [apply Hb; left|done]. }
  cbn [List.find]. destruct (ok r) eqn:Eo; [done|]. rewrite find_filter_head. f_equal.
  apply filter_ext_in. intros x Hx. specialize (Hb x ltac:(by right)).
  unfold Spec.at_level. naive_solver.
Qed.

Lemma crosses_worse order p q :
  Spec.improves (negb (in_is_buy order)) q p = false -> crosses order p = false ->
  crosses order q = false.
Proof.
  unfold crosses, Spec.improves. case_decide; [done|]. destruct (in_is_buy order); cbn; lia.
Qed.

(** What one iteration of the engine's loop looks at. *)
Lemma candidates_pick stp order l :
  match Spec.best (negb (in_is_buy order)) l with
  | None => candidates stp order l = []
  | Some p =>
      if crosses order p then
        List.find (eligible stp order) (Spec.queue_at (negb (in_is_buy order)) p l) =
        head (candidates stp order l)
      else candidates stp order l = []
  end.
Proof.
  set (side := negb (in_is_buy order)). unfold candidates. fold side.
  pose proof (priority_best side l) as Hb. pose proof (priority_sorted side l) as Hs.
  pose proof (priority_queue side l) as Hq. pose proof (fun r => priority_elem side l r) as He.
  destruct (priority side l) as [|r s] eqn:Ep; rewrite Hb; [done|].
  inversion_clear Hs as [|?? Hs' Hf]. rewrite Forall_forall in Hf.
  destruct (crosses order (r_price r)) eqn:Ec.
  - rewrite <- Hq. set (k := filter _ (r :: s)).
    assert (k = r :: filter (fun r => crosses order (r_price r) = true) s) as Hk.
    { unfold k. by rewrite filter_cons_True. }
    rewrite <- (reachable_head (eligible stp order) side k r _ Hk).
    + f_equal. unfold k. rewrite queue_filter. symmetry. apply filter_all.
      by intros x [[_ ->] _]%list_elem_of_filter.
    + intros x [_ Hx]%list_elem_of_filter. by apply He.
  - rewrite filter_none; [done|]. intros x [->|Hx]%elem_of_cons; [congruence|].
    rewrite (crosses_worse order (r_price r)); [done| |done]. by apply Hf.
Qed.

(** Consuming the first candidate leaves the others. *)
Lemma candidates_remove stp order l r rest :
  NoDup (r_ref <$> l) -> candidates stp order l = r :: rest ->
  candidates stp order (Spec.remove_ref (r_ref r) l) = rest.
Proof.
  intros Hnd. unfold candidates, Spec.remove_ref. rewrite priority_filter, filter_comm.
  set (k := filter (fun r => crosses order (r_price r) = true) _).
  assert (NoDup (r_ref <$> k)) as Hk.
  { eapply sublist_NoDup; [|apply fmap_sublist, sublist_filter]. rewrite priority_perm.
    eapply sublist_NoDup; [exact Hnd|]. apply fmap_sublist, sublist_filter. }
  clearbody k. destruct k as [|e k]; [done|]. cbn [reachable].
  cbn [fmap list_fmap] in Hk. apply NoDup_cons in Hk as [Hne Hk].
  destruct (eligible stp order e) eqn:Ee.
  - intros [= -> <-]. rewrite filter_cons_False by (by intros []). f_equal.
    apply filter_all. intros x Hx Heq. apply Hne. rewrite <- Heq. by apply list_elem_of_fmap_2.
  - intros Hf. assert (r ∈ r :: rest) as Hin by left. rewrite <- Hf in Hin.
    apply list_elem_of_filter in Hin as [_ Hin].
    rewrite filter_cons_True.
    2:{ intros Heq. apply Hne. rewrite Heq. by apply list_elem_of_fmap_2. }
    cbn [reachable]. rewrite Ee, filter_comm, Hf, filter_cons_False by (by intros []).
    apply filter_all. intros x Hx Heq.
    assert (NoDup (r_ref <$> (r :: rest))) as Hnd2.
    { rewrite <- Hf. eapply sublist_NoDup; [exact Hk|]. apply fmap_sublist, sublist_filter. }
    apply NoDup_cons in Hnd2 as [Hn _]. apply Hn. rewrite <- Heq. by apply list_elem_of_fmap_2.
Qed.

Lemma length_update ref (s : Z) l : length (Spec.update_ref ref s l) = length l.
Proof. unfold Spec.update_ref. by rewrite length_fmap. Qed.

(** ** The matching loop *)

Section loops.
Context {B : Type} `{!Book B} `{!BookLaws B} {H : Type} `{!EventHandler H}.
Variable stp : bool.
Implicit Types (b : B) (h : H).

Definition fill_events order (fills : list (Rest * Z)) : list Event :=
  (fun f => Fill (fill_event order f)) <$> fills.

(** [execute_order] against a resting order of the book. *)
Lemma fill_step b l r q :
  represents b l -> Spec.fits l -> r ∈ l -> 0 < q ->
  exists b' ok, book_execute b (r_ref r) (Z.min q (r_shares r)) = Some (b', ok) /\
    let l' := (Spec.reduce l (r_ref r) (Z.min q (r_shares r))).1 in
    represents b' l' /\ Spec.fits l' /\ book_cap b' = book_cap b.
Proof.
  intros HR Hfit Hr Hq. pose proof (book_ok _ _ HR) as Hok. pose proof (rok_shares _ Hok r Hr).
  destruct (execute_law b l (r_ref r) (Z.min q (r_shares r)) HR Hfit ltac:(lia)) as (b' & He & HR' & Hc).
  eexists b', _. split; [done|]. split_and!; [done| |done]. apply fits_reduce; [done|lia|done].
Qed.

(** One iteration: stop, or trade with the first candidate. *)
Lemma match_loop_step fuel b h l order q :
  represents b l -> Spec.fits l -> 0 < q < 2 ^ 32 ->
  match candidates stp order l with
  | [] => match_loop stp (S fuel) b h order q = Some (b, h, q)
  | r :: _ =>
      let f := Z.min q (r_shares r) in
      let l' := (Spec.reduce l (r_ref r) f).1 in
      r ∈ l /\
      exists b', match_loop stp (S fuel) b h order q =
          match_loop stp fuel b' (notify h (Fill (fill_event order (r, f)))) order (q - f) /\
        represents b' l' /\ Spec.fits l' /\ book_cap b' = book_cap b
  end.
Proof.
  intros HR Hfit Hq. cbn [match_loop]. rewrite (proj2 (Z.ltb_lt 0 q)) by lia. cbn [negb].
  pose proof (candidates_pick stp order l) as Hpick.
  pose proof (best_law b l (negb (in_is_buy order)) HR) as Hbest. unfold level_matches in Hbest.
  destruct (best_level b _) as [lev|], (Spec.best _ l) as [p|] eqn:Eb; try done; [|by rewrite Hpick].
  destruct Hbest as [-> _ ->]. cbn [mbind option_bind].
  destruct (crosses order p) eqn:Ec; cbn [negb]; [|by rewrite Hpick].
  rewrite Hpick. destruct (candidates stp order l) as [|r rest] eqn:Ecand; cbn [head]; [done|].
  assert (r ∈ l) as Hr by (apply (candidates_elem stp order l r); rewrite Ecand; left).
  split; [done|]. pose proof (rok_shares _ (book_ok _ _ HR) r Hr) as Hsh.
  destruct (fill_step b l r q HR Hfit Hr ltac:(lia)) as (b1 & ok & -> & HR1 & Hfit1 & Hcap1).
  cbn [mbind option_bind]. rewrite u32_small by lia. by exists b1.
Qed.

Lemma filled_cons f fills : filled (f :: fills) = f.2 + filled fills.
Proof. done. Qed.

Lemma alloc_0 s : alloc 0 s = [].
Proof. by destruct s. Qed.

Lemma match_loop_0 fuel b h order : match_loop stp fuel b h order 0 = Some (b, h, 0).
Proof. by destruct fuel. Qed.

Lemma match_loop_spec fuel b h l order q :
  represents b l -> Spec.fits l -> 0 <= q < 2 ^ 32 -> (length l < fuel)%nat ->
  let fills := alloc q (candidates stp order l) in
  exists b', match_loop stp fuel b h order q =
      Some (b', foldl notify h (fill_events order fills), q - filled fills) /\
    represents b' (after_fills l fills) /\ book_cap b' = book_cap b.
Proof.
  cbn zeta. revert b h l q. induction fuel as [|fuel IH]; intros b h l q HR Hfit Hq Hfuel; [lia|].
  destruct (decide (q = 0)) as [->|Hnz].
  { rewrite alloc_0, match_loop_0. by exists b. }
  pose proof (match_loop_step fuel b h l order q HR Hfit ltac:(lia)) as Hstep.
  pose proof (book_ok _ _ HR) as Hok.
  destruct (candidates stp order l) as [|r rest] eqn:Ecand.
  { exists b. rewrite Hstep. split_and!; [|done|done]. unfold filled. cbn. by rewrite Z.sub_0_r. }
  destruct Hstep as (Hr & b1 & -> & HR1 & Hfit1 & Hcap1).
  pose proof (rok_shares _ Hok r Hr) as Hsh. cbn [alloc]. rewrite (proj2 (Z.leb_gt q 0)) by lia.
  rewrite (reduce_exact l r q Hok Hr ltac:(lia)) in HR1, Hfit1.
  assert (forall fills, after_fills l ((r, Z.min q (r_shares r)) :: fills) =
    after_fills (if q <? r_shares r then Spec.update_ref (r_ref r) (r_shares r - q) l
                 else Spec.remove_ref (r_ref r) l) fills) as Haf.
  { intros fills. cbn. by rewrite (reduce_exact l r q Hok Hr ltac:(lia)). }
  rewrite Haf. destruct (Z.ltb_spec q (r_shares r)) as [Hlt|Hge].
  - replace (q - Z.min q (r_shares r)) with 0 by lia. rewrite alloc_0, match_loop_0.
    exists b1. split_and!; [|done|done]. rewrite filled_cons. do 2 f_equal. cbn. lia.
  - pose proof (remove_ref_length l (r_ref r) r
      (Spec.find_ref_unique _ _ _ (rok_refs _ Hok) Hr eq_refl)) as Hlen.
    edestruct (IH b1) as (b2 & -> & HR2 & Hcap2); [exact HR1|exact Hfit1|lia|lia|].
    rewrite (candidates_remove stp order l r rest (rok_refs _ Hok) Ecand) in *.
    exists b2. split_and!; [|done|congruence]. rewrite filled_cons. do 2 f_equal. cbn. lia.
Qed.
End loops.
