(* ===== verification/Liquidity.v ===== *)
(** * The fill-or-kill liquidity check

    [available_liquidity] walks the opposite side level by level and stops as soon as
    the requested quantity is covered.  When no level that it visits takes the running
    total past 32 bits ([counts_exactly]), comparing its result with the quantity is
    comparing the whole crossing liquidity with it. *)

From S2P Require Import Prelude BookSpec BookOps BookQueries BookInterface MatchingEngine.
From S2P Require Import MatchingSpec MatchingProofs.

Local Open Scope Z_scope.

Implicit Types (l s : list Rest) (r : Rest) (order : IncomingOrder).

Section weights.
Variables (stp : bool) (order : IncomingOrder).
Local Abbreviation side := (negb (in_is_buy order)).

(** What an order contributes to the liquidity. *)
Definition weight r : Z :=
  if Bool.eqb (r_buy r) side && (crosses order (r_price r) && eligible stp order r)
  then r_shares r else 0.

Definition weight_if (f : Z -> bool) l : Z := sumZ (fun r => if f (r_price r) then weight r else 0) l.

(** The liquidity strictly better than a level, all of it past the last one. *)
Definition ahead (p : option Z) l : Z :=
  match p with
  | Some p => weight_if (fun q => Spec.improves side q p) l
  | None => liquidity stp order l
  end.

Lemma liquidity_weight l : liquidity stp order l = sumZ weight l.
Proof.
  unfold liquidity. induction l as [|r l IH]; [done|]. rewrite filter_cons. cbn [sumZ foldr].
  change (foldr _ 0 l) with (sumZ weight l). rewrite <- IH. unfold weight at 1.
  case_decide as Hd.
  - destruct Hd as (-> & -> & ->). by rewrite eqb_reflx.
  - destruct (Bool.eqb_spec (r_buy r) side), (crosses order (r_price r)), (eligible stp order r);
      naive_solver.
Qed.

Lemma weight_nonneg l : resting_ok l -> forall r, r ∈ l -> 0 <= weight r.
Proof. intros Hok r Hr. pose proof (rok_shares _ Hok r Hr). unfold weight. case_match; lia. Qed.

Lemma weight_if_le f l : resting_ok l -> 0 <= weight_if f l <= liquidity stp order l.
Proof.
  intros Hok. rewrite liquidity_weight. unfold weight_if. pose proof (weight_nonneg l Hok) as Hw.
  clear Hok. induction l as [|r l IH]; [done|]. cbn [sumZ foldr].
  specialize (IH (fun x Hx => Hw x ltac:(by right))). specialize (Hw r ltac:(left)).
  unfold sumZ in IH. case_match; lia.
Qed.

(** Adding the level at [p] to what is ahead of it. *)
Lemma weight_if_or f g h l :
  (forall r, r ∈ l -> r_buy r = side -> crosses order (r_price r) = true ->
     h (r_price r) = f (r_price r) || g (r_price r) /\ f (r_price r) && g (r_price r) = false) ->
  weight_if h l = weight_if f l + weight_if g l.
Proof.
  unfold weight_if. induction l as [|r l IH]; intros Hx; [done|]. cbn [sumZ foldr].
  specialize (IH (fun x Hy => Hx x ltac:(by right))). specialize (Hx r ltac:(left)).
  unfold sumZ in IH. rewrite IH.
  assert ((if h (r_price r) then weight r else 0) =
          (if f (r_price r) then weight r else 0) + (if g (r_price r) then weight r else 0)); [|lia].
  unfold weight. destruct (Bool.eqb_spec (r_buy r) side) as [Hb|]; [|by repeat case_match].
  destruct (crosses order (r_price r)) eqn:Ec; [|by repeat case_match].
  destruct (Hx Hb eq_refl) as [-> Hfg]. destruct (f (r_price r)), (g (r_price r)); try done; cbn;
    case_match; lia.
Qed.

(** The eligible shares of a queue. *)
Definition queue_weight s : Z := sumZ (fun r => if eligible stp order r then r_shares r else 0) s.

Lemma queue_weight_at p l :
  crosses order p = true ->
  queue_weight (Spec.queue_at side p l) = weight_if (fun q => q =? p) l.
Proof.
  intros Hc. unfold queue_weight, weight_if, Spec.queue_at. induction l as [|r l IH]; [done|].
  rewrite filter_cons. cbn [sumZ foldr]. unfold sumZ in IH. rewrite <- IH. unfold weight.
  case_decide as Hd.
  - destruct Hd as [Hb Hp]. rewrite Hb, Hp, Z.eqb_refl, eqb_reflx, Hc. done.
  - destruct (Z.eqb_spec (r_price r) p) as [Hp|]; [|done].
    destruct (Bool.eqb_spec (r_buy r) side); [|done]. by destruct Hd.
Qed.

Lemma add_eligible_spec s total :
  (forall r, r ∈ s -> 0 <= r_shares r) -> 0 <= total -> total + queue_weight s < 2 ^ 32 ->
  add_eligible stp order s total = total + queue_weight s.
Proof.
  unfold add_eligible, queue_weight. revert total.
  induction s as [|r s IH]; intros total Hs Ht Hlt; cbn [foldl sumZ foldr] in *; [lia|].
  assert (0 <= sumZ (fun r => if eligible stp order r then r_shares r else 0) s) as Hnn.
  { apply sumZ_nonneg. intros x Hx. specialize (Hs x ltac:(by right)).
    destruct (eligible stp order x); lia. }
  pose proof (Hs r ltac:(left)). unfold sumZ in *.
  rewrite IH; [|intros x Hx; apply Hs; by right| |].
  - destruct (eligible stp order r); [|lia]. rewrite u32_small; lia.
  - destruct (eligible stp order r); [apply u32_range|lia].
  - destruct (eligible stp order r); [rewrite u32_small|]; lia.
Qed.

(** No level wraps the running total before the quantity is covered. *)
Definition counts_exactly l : Prop :=
  forall p, ahead (Some p) l < in_quantity order -> ahead (Some p) l + weight_if (fun q => q =? p) l < 2 ^ 32.

(** It is enough that all crossing liquidity fits 32 bits. *)
Lemma counts_exactly_small l : resting_ok l -> liquidity stp order l < 2 ^ 32 -> counts_exactly l.
Proof.
  intros Hok Hl p _. cbn [ahead].
  rewrite <- (weight_if_or _ _ (fun q => Spec.improves side q p || (q =? p))).
  - pose proof (weight_if_le (fun q => Spec.improves side q p || (q =? p)) l Hok). lia.
  - intros r _ _ _. split; [done|]. unfold Spec.improves. destruct side; lia.
Qed.

(** It is also enough that the quantity and the total of each level fit together. *)
Lemma counts_exactly_levels l :
  resting_ok l -> (forall p, in_quantity order + Spec.shares_at side p l <= 2 ^ 32) -> counts_exactly l.
Proof.
  intros Hok Hl p Ha. specialize (Hl p).
  assert (weight_if (fun q => q =? p) l <= Spec.shares_at side p l); [|lia].
  clear Ha Hl. pose proof (rok_shares _ Hok) as Hs. clear Hok.
  unfold weight_if, Spec.shares_at, Spec.queue_at. induction l as [|r l IH]; [done|].
  specialize (IH (fun x Hx => Hs x ltac:(by right))). specialize (Hs r ltac:(left)).
  rewrite filter_cons. cbn [sumZ foldr]. unfold sumZ in *. unfold weight at 1.
  destruct (Z.eqb_spec (r_price r) p) as [Hp|Hp]; [|case_decide as Hd; [by destruct Hd|lia]].
  destruct (Bool.eqb_spec (r_buy r) side) as [Hb|Hb].
  - rewrite decide_True by done. cbn [andb foldr]. case_match; lia.
  - rewrite decide_False by (by intros []). cbn [andb]. lia.
Qed.
End weights.

Section liquidity.
Context {B : Type} `{!Book B} `{!BookLaws B}.
Variables (stp : bool) (order : IncomingOrder).
Local Abbreviation side := (negb (in_is_buy order)).
Implicit Types (b : B).

(** Either branch of the loop body adds the eligible shares of the level. *)
Lemma level_weight b l lev p total :
  represents b l -> Spec.fits l -> level_view b l side lev p -> 0 <= total ->
  total + queue_weight stp order (Spec.queue_at side p l) < 2 ^ 32 ->
  (if negb stp || (in_trader order =? 0) then
     s ← level_total_at b lev side; Some (total +u32 s)
   else queue ← level_queue_at b lev side; Some (add_eligible stp order queue total)) =
  Some (total + queue_weight stp order (Spec.queue_at side p l)).
Proof.
  intros HR Hfit [_ Ht Hq] H0 Hlt. pose proof (book_ok _ _ HR) as Hok.
  destruct (negb stp || (in_trader order =? 0)) eqn:Estp.
  - rewrite Ht. cbn [mbind option_bind].
    assert (queue_weight stp order (Spec.queue_at side p l) = Spec.shares_at side p l) as Heq.
    { unfold queue_weight, Spec.shares_at. apply sumZ_ext. intros r _. unfold eligible. by rewrite Estp. }
    rewrite Heq in *. specialize (Hfit side p).
    pose proof (shares_at_nonneg side p l ltac:(intros; by apply (rok_shares _ Hok))).
    by rewrite (u32_small (Spec.shares_at _ _ _)), u32_small by lia.
  - rewrite Hq. cbn [mbind option_bind]. rewrite add_eligible_spec; [done| |done|done].
    intros r [_ Hr]%list_elem_of_filter. pose proof (rok_shares _ Hok r Hr). lia.
Qed.

(** The orders at or behind a level, which bound the levels left to visit. *)
Definition behind (p : option Z) l : list Rest :=
  match p with
  | Some p => filter (fun r => r_buy r = side /\ Spec.improves side (r_price r) p = false) l
  | None => []
  end.

Lemma next_improves p q l :
  next_price side p l = Some q -> Spec.improves side p q = true /\
    (forall r, r ∈ l -> r_buy r = side -> Spec.improves side (r_price r) q = true ->
       Spec.improves side p (r_price r) = false).
Proof.
  intros Hn. apply Spec.best_is_best in Hn as [(r & [Hi Hr]%list_elem_of_filter & Hb & <-) Hall].
  split; [done|]. intros x Hx Hxb Himp. destruct (Spec.improves side p (r_price x)) eqn:E; [|done].
  rewrite (Hall x) in Himp; [done| |done]. by apply list_elem_of_filter.
Qed.

Lemma next_None p l :
  next_price side p l = None ->
  forall r, r ∈ l -> r_buy r = side -> Spec.improves side p (r_price r) = false.
Proof.
  intros Hn r Hr Hb. destruct (Spec.improves side p (r_price r)) eqn:E; [|done].
  exfalso. apply (proj1 (Spec.best_None _ _) Hn r); [|done]. by apply list_elem_of_filter.
Qed.

(** Moving to the next level adds exactly the level just visited. *)
Lemma ahead_next p l :
  ahead stp order (next_price side p l) l =
  ahead stp order (Some p) l + weight_if stp order (fun q => q =? p) l.
Proof.
  destruct (next_price side p l) as [q|] eqn:En; cbn [ahead].
  - apply next_improves in En as [Hpq Hall]. apply weight_if_or. intros r Hr Hb _.
    specialize (Hall r Hr Hb). unfold Spec.improves in *. destruct side; lia.
  - rewrite liquidity_weight. pose proof (next_None p l En) as Hall.
    transitivity (weight_if stp order (fun _ => true) l); [done|]. apply weight_if_or. intros r Hr Hb _.
    specialize (Hall r Hr Hb). unfold Spec.improves in *. destruct side; lia.
Qed.

Lemma behind_next p l :
  (exists r, r ∈ l /\ r_buy r = side /\ r_price r = p) ->
  (length (behind (next_price side p l) l) < length (behind (Some p) l))%nat.
Proof.
  intros (r & Hr & Hb & Hp). cbn [behind].
  assert (r ∈ behind (Some p) l) as Hin.
  { apply list_elem_of_filter. split; [split; [done|]|done]. rewrite Hp. apply Spec.improves_irrefl. }
  destruct (next_price side p l) as [q|] eqn:En; cbn [behind].
  - apply next_improves in En as [Hpq _].
    rewrite (filter_ext_in (fun r => r_buy r = side /\ Spec.improves side (r_price r) q = false)
      (fun r => Spec.improves side (r_price r) q = false /\
                (r_buy r = side /\ Spec.improves side (r_price r) p = false)) l).
    + rewrite <- list_filter_filter. cbn [behind] in Hin.
      apply list_elem_of_split in Hin as (k1 & k2 & ->).
      rewrite filter_app, filter_cons_False, !length_app by (rewrite Hp; congruence). cbn.
      pose proof (length_filter (fun r => Spec.improves side (r_price r) q = false) k1).
      pose proof (length_filter (fun r => Spec.improves side (r_price r) q = false) k2). lia.
    + intros x _. assert (Spec.improves side (r_price x) q = false ->
                          Spec.improves side (r_price x) p = false); [|tauto].
      intros Hx. eapply Spec.improves_trans; [exact Hx|]. by apply Spec.improves_asym.
  - cbn [behind] in Hin. destruct (filter _ l); [by apply not_elem_of_nil in Hin|]. cbn. lia.
Qed.

(** Past a level that does not cross there is no liquidity. *)
Lemma ahead_uncrossed p l :
  crosses order p = false -> liquidity stp order l = ahead stp order (Some p) l.
Proof.
  intros Hc. rewrite liquidity_weight. cbn [ahead]. unfold weight_if. apply sumZ_ext. intros r _.
  destruct (Spec.improves side (r_price r) p) eqn:Ei; [done|]. unfold weight.
  rewrite (crosses_worse order p (r_price r) Ei Hc). by destruct (Bool.eqb _ _).
Qed.

Lemma liquidity_loop_spec fuel b l lev p :
  represents b l -> Spec.fits l -> counts_exactly stp order l ->
  level_matches b l side lev p -> (length (behind p l) <= fuel)%nat ->
  (forall q, p = Some q -> exists r, r ∈ l /\ r_buy r = side /\ r_price r = q) ->
  exists t, liquidity_loop stp fuel b order lev (ahead stp order p l) = Some t /\
    0 <= t <= liquidity stp order l /\
    (t <? in_quantity order) = (liquidity stp order l <? in_quantity order).
Proof.
  intros HR Hfit Hliq. pose proof (book_ok _ _ HR) as Hok.
  assert (forall p, 0 <= ahead stp order p l <= liquidity stp order l) as Hah.
  { intros [q|]; cbn [ahead]; [by apply weight_if_le|]. rewrite liquidity_weight.
    pose proof (sumZ_nonneg (weight stp order) l (weight_nonneg stp order l Hok)). lia. }
  revert lev p. induction fuel as [|fuel IH]; intros lev p Hlev Hfuel Hin; cbn [liquidity_loop];
    destruct lev as [lev|], p as [p|]; try done;
    try (exists (ahead stp order None l); split_and!; [done|apply Hah|apply Hah|done]).
  - exfalso. destruct (Hin p eq_refl) as (r & Hr & Hb & Hp).
    assert (r ∈ behind (Some p) l) as Hx.
    { apply list_elem_of_filter. split; [split; [done|]|done]. rewrite Hp. apply Spec.improves_irrefl. }
    destruct (behind (Some p) l); [by apply not_elem_of_nil in Hx|]. cbn in Hfuel. lia.
  - pose proof (Hah (Some p)) as Hp. destruct (Z.ltb_spec (ahead stp order (Some p) l) (in_quantity order)) as [Hq|Hq];
      cbn [negb]; [|exists (ahead stp order (Some p) l); split_and!; [done|lia|lia|lia]].
    destruct Hlev as [Hlp Hlt Hlq]. rewrite Hlp. cbn [mbind option_bind].
    destruct (crosses order p) eqn:Ec; cbn [negb].
    2:{ rewrite (ahead_uncrossed p l Ec). eexists. split_and!; [done|lia|lia|done]. }
    pose proof (ahead_next p l) as Hnext. rewrite <- (queue_weight_at stp order p l Ec) in Hnext.
    pose proof (Hah (next_price side p l)).
    pose proof (Hliq p Hq) as Hfit32. rewrite <- (queue_weight_at stp order p l Ec) in Hfit32.
    rewrite (level_weight b l lev p) by (done || lia). cbn [mbind option_bind]. rewrite <- Hnext.
    apply IH; [by apply next_law| |intros q Hn; by eapply next_inhabited].
    pose proof (behind_next p l (Hin p eq_refl)). lia.
Qed.

Lemma available_liquidity_spec fuel b l :
  represents b l -> Spec.fits l -> counts_exactly stp order l -> (length l <= fuel)%nat ->
  exists t, available_liquidity stp fuel b order = Some t /\
    (t <? in_quantity order) = (liquidity stp order l <? in_quantity order).
Proof.
  intros HR Hfit Hliq Hfuel.
  assert (ahead stp order (Spec.best side l) l = 0) as Hz.
  { destruct (Spec.best side l) as [p|] eqn:Eb.
    - apply Spec.best_is_best in Eb as [_ Hall]. cbn [ahead]. unfold weight_if.
      rewrite (sumZ_ext _ (fun _ => 0)), sumZ_const; [lia|]. intros r Hr.
      unfold weight. destruct (Bool.eqb_spec (r_buy r) side); [|by case_match].
      by rewrite (Hall r Hr).
    - cbn [ahead]. rewrite liquidity_weight, (sumZ_ext _ (fun _ => 0)), sumZ_const; [lia|].
      intros r Hr. unfold weight. apply (proj1 (Spec.best_None _ _) Eb) in Hr.
      by destruct (Bool.eqb_spec (r_buy r) side). }
  destruct (liquidity_loop_spec fuel b l (best_level b side) (Spec.best side l)) as (t & Hl & _ & Ht);
    [done..|by apply best_law| |intros q; apply best_inhabited|].
  - destruct (Spec.best side l); cbn [behind]; [|cbn; lia].
    etransitivity; [apply length_filter|done].
  - rewrite Hz in Hl. by exists t.
Qed.
End liquidity.
