(* ===== verification/Submit.v ===== *)
(** * MatchingEngine::submit

    [submit] computes [spec_submit] for every order type, every book that keeps
    [BookLaws] and every event handler; then the facts about [spec_submit] that a
    venue relies on: quantities are conserved, the limit is honoured, self trades
    are prevented, fill-or-kill is atomic, the book stays uncrossed. *)

From S2P Require Import Prelude BookSpec BookOps BookQueries BookInterface MatchingEngine.
From S2P Require Import MatchingSpec MatchingProofs Liquidity.

Local Open Scope Z_scope.

Implicit Types (l s : list Rest) (r : Rest) (order : IncomingOrder).

Definition order_in_range order : Prop :=
  0 <= in_quantity order < 2 ^ 32 /\ 0 <= in_price order < 2 ^ 32.

(** ** Allocation *)

Lemma alloc_filled q s :
  0 <= q -> (forall r, r ∈ s -> 0 < r_shares r) -> filled (alloc q s) = Z.min q (sumZ r_shares s).
Proof.
  revert q. induction s as [|r s IH]; intros q Hq Hs; cbn [alloc]; [unfold filled; cbn; lia|].
  pose proof (Hs r ltac:(left)). pose proof (sumZ_nonneg r_shares s) as Hnn.
  assert (0 <= sumZ r_shares s) by (apply Hnn; intros x Hx; specialize (Hs x ltac:(by right)); lia).
  cbn [sumZ foldr]. change (foldr _ 0 s) with (sumZ r_shares s).
  destruct (Z.leb_spec q 0); [unfold filled; cbn; lia|].
  rewrite filled_cons, IH; [cbn; lia|lia|]. intros x Hx. apply Hs. by right.
Qed.

Lemma alloc_elem q s r f :
  (forall r, r ∈ s -> 0 < r_shares r) -> (r, f) ∈ alloc q s -> r ∈ s /\ 0 < f <= r_shares r.
Proof.
  revert q. induction s as [|e s IH]; intros q Hs; cbn [alloc]; [by intros ?%not_elem_of_nil|].
  destruct (Z.leb_spec q 0); [by intros ?%not_elem_of_nil|].
  intros [[= -> ->]|Hin]%elem_of_cons.
  - pose proof (Hs e ltac:(left)). split; [left|lia].
  - apply IH in Hin as [? ?]; [split; [by right|done]|]. intros x Hx. apply Hs. by right.
Qed.

Lemma candidates_positive stp order l :
  resting_ok l -> forall r, r ∈ candidates stp order l -> 0 < r_shares r.
Proof. intros Hok r [Hr _]%candidates_elem. by apply (rok_shares _ Hok). Qed.

Lemma filled_bounds stp order l q :
  resting_ok l -> 0 <= q -> 0 <= filled (alloc q (candidates stp order l)) <= q.
Proof.
  intros Hok Hq. pose proof (candidates_positive stp order l Hok) as Hp.
  rewrite alloc_filled by done.
  assert (0 <= sumZ r_shares (candidates stp order l)); [|lia].
  apply sumZ_nonneg. intros r Hr. specialize (Hp r Hr). lia.
Qed.

(** ** The whole operation *)

Section submit.
Context {B : Type} `{!Book B} `{!BookLaws B} {H : Type} `{!EventHandler H}.
Variable stp : bool.
Implicit Types (b : B) (h : H).

Lemma fok_check b l order :
  represents b l -> Spec.fits l ->
  (in_type order = FOK -> counts_exactly stp order l) ->
  (if decide (in_type order = FOK) then
     available ← available_liquidity stp (S (Z.to_nat (book_count b))) b order;
     Some (available <? in_quantity order)
   else Some false) =
  Some (bool_decide (in_type order = FOK) && (liquidity stp order l <? in_quantity order)).
Proof.
  intros HR Hfit Hliq. destruct (decide (in_type order = FOK)) as [Hf|Hf].
  - rewrite bool_decide_true by done. cbn [andb].
    destruct (available_liquidity_spec stp order (S (Z.to_nat (book_count b))) b l)
      as (t & -> & Ht); [done|done|auto| |].
    + rewrite (book_count_law _ _ HR). lia.
    + cbn. by rewrite Ht.
  - by rewrite bool_decide_false.
Qed.

Lemma submit_spec b h l order :
  represents b l -> Spec.fits l -> order_in_range order ->
  (in_type order = FOK -> counts_exactly stp order l) ->
  let res := spec_submit stp (book_cap b) l order in
  exists b', submit stp b h order = Some (b', foldl notify h res.2) /\
    represents b' res.1 /\ book_cap b' = book_cap b.
Proof.
  intros HR Hfit [Hq Hp] Hliq. unfold submit, spec_submit.
  destruct (in_quantity order =? 0); [by exists b|].
  rewrite (fok_check b l order HR Hfit Hliq). cbn [mbind option_bind].
  destruct (bool_decide _ && _); [by exists b|].
  destruct (match_loop_spec stp (S (Z.to_nat (book_count b))) b h l order (in_quantity order))
    as (b1 & Hm & HR1 & Hcap1); [done|done|done|rewrite (book_count_law _ _ HR); lia|].
  unfold execute_match. rewrite Hm. cbn [mbind option_bind].
  set (fills := alloc _ _) in *.
  pose proof (filled_bounds stp order l (in_quantity order) (book_ok _ _ HR) ltac:(lia)) as Hb.
  fold fills in Hb. rewrite !u32_small by (rewrite ?u32_small; lia).
  replace (in_quantity order - (in_quantity order - (in_quantity order - filled fills)))
    with (in_quantity order - filled fills) by lia.
  destruct (in_quantity order - filled fills =? 0); [by exists b1|].
  destruct (decide (in_type order = Limit)).
  - destruct (add_law b1 (after_fills l fills) (in_ref order) (in_price order)
      (in_quantity order - filled fills) (in_is_buy order) (in_trader order)) as
      (b2 & -> & HR2 & Hcap2); [done|done|lia|].
    cbn [mbind option_bind]. rewrite Hcap1 in *. exists b2. cbn [fst snd]. rewrite foldl_app.
    split_and!; [done|done|congruence].
  - exists b1. cbn [fst snd]. by rewrite foldl_app.
Qed.
End submit.

(** ** The book after the fills *)

Lemma update_ref_elem ref (s : Z) l r' :
  r' ∈ Spec.update_ref ref s l ->
  exists r, r ∈ l /\ r' = (if r_ref r =? ref then Spec.set_r_shares s r else r).
Proof. intros (r & -> & Hr)%list_elem_of_fmap. by exists r. Qed.

(** A reduction keeps every identity and price and never grows an order. *)
Lemma reduce_elem l ref (s : Z) r' :
  resting_ok l -> 0 <= s -> r' ∈ (Spec.reduce l ref s).1 ->
  exists r, r ∈ l /\ r_ref r' = r_ref r /\ r_price r' = r_price r /\ r_buy r' = r_buy r /\
    r_trader r' = r_trader r /\ 0 < r_shares r' <= r_shares r.
Proof.
  intros Hok Hs. unfold Spec.reduce.
  assert (forall r, r ∈ l -> 0 < r_shares r) as Hpos by (intros; by apply (rok_shares _ Hok)).
  destruct (Spec.find_ref ref l) as [r|] eqn:Hf; [|intros Hx; exists r'; pose proof (Hpos r' Hx); naive_solver lia].
  destruct ((s =? 0) || (r_shares r <? s)) eqn:Eg;
    [intros Hx; exists r'; pose proof (Hpos r' Hx); naive_solver lia|].
  destruct (Z.eqb_spec (r_shares r) s); cbn [fst].
  - intros [_ Hx]%list_elem_of_filter. exists r'. pose proof (Hpos r' Hx). naive_solver lia.
  - apply Spec.find_ref_Some in Hf as [Hr Href].
    intros (x & Hx & ->)%update_ref_elem. exists x. pose proof (Hpos x Hx).
    destruct (Z.eqb_spec (r_ref x) ref) as [Hxr|]; [|naive_solver lia].
    assert (x = r) as ->; [|cbn; naive_solver lia].
    pose proof (Spec.find_ref_unique ref l x (rok_refs _ Hok) Hx Hxr).
    pose proof (Spec.find_ref_unique ref l r (rok_refs _ Hok) Hr Href). congruence.
Qed.

Lemma reduce_ok l ref (s : Z) : resting_ok l -> 0 <= s -> resting_ok (Spec.reduce l ref s).1.
Proof.
  intros Hok Hs. split.
  - unfold Spec.reduce. pose proof (rok_refs _ Hok). repeat case_match; cbn [fst]; try done.
    + by apply RefBook.Reference.nodup_remove_ref.
    + by rewrite RefBook.Reference.refs_update.
  - intros r' Hr'. apply reduce_elem in Hr' as (r & Hr & _ & _ & _ & _ & Hx); [|done..].
    pose proof (rok_shares _ Hok r Hr). lia.
  - intros r' Hr'. apply reduce_elem in Hr' as (r & Hr & _ & -> & _); [|done..].
    by apply (rok_prices _ Hok).
Qed.

Lemma total_split (f : Rest -> Z) l r :
  NoDup (r_ref <$> l) -> r ∈ l -> sumZ f l = f r + sumZ f (Spec.remove_ref (r_ref r) l).
Proof.
  intros Hnd Hr. apply list_elem_of_split in Hr as (l1 & l2 & ->).
  assert (Spec.remove_ref (r_ref r) (l1 ++ r :: l2) = l1 ++ l2) as ->.
  { rewrite fmap_app in Hnd. apply NoDup_app in Hnd as (_ & Hd & [Hn _]%NoDup_cons).
    unfold Spec.remove_ref. rewrite filter_app, filter_cons_False by (by intros []).
    rewrite <- filter_app. apply filter_all. intros x [Hx|Hx]%elem_of_app Heq.
    - apply (Hd (r_ref x)); [by apply list_elem_of_fmap_2|]. rewrite Heq. left.
    - apply Hn. rewrite <- Heq. by apply list_elem_of_fmap_2. }
  rewrite !sumZ_app, sumZ_cons. lia.
Qed.

Lemma update_remove ref (s : Z) l : Spec.remove_ref ref (Spec.update_ref ref s l) = Spec.remove_ref ref l.
Proof.
  induction l as [|r l IH]; [done|]. unfold Spec.remove_ref, Spec.update_ref in *. cbn [fmap list_fmap].
  rewrite !filter_cons, IH. destruct (Z.eqb_spec (r_ref r) ref) as [Heq|Hne].
  - by rewrite !decide_False by (cbn; congruence).
  - by rewrite !decide_True.
Qed.

(** Executing [s] shares takes exactly [s] shares off the book. *)
Lemma reduce_total l r (s : Z) :
  resting_ok l -> r ∈ l -> 0 < s <= r_shares r ->
  sumZ r_shares (Spec.reduce l (r_ref r) s).1 = sumZ r_shares l - s.
Proof.
  intros Hok Hr Hs. pose proof (reduce_exact l r s Hok Hr ltac:(lia)) as Hred.
  replace (Z.min s (r_shares r)) with s in Hred by lia. rewrite Hred.
  rewrite (total_split r_shares l r (rok_refs _ Hok) Hr).
  destruct (Z.ltb_spec s (r_shares r)); [|lia].
  assert (Spec.set_r_shares (r_shares r - s) r ∈ Spec.update_ref (r_ref r) (r_shares r - s) l) as Hin.
  { apply list_elem_of_fmap. exists r. by rewrite Z.eqb_refl. }
  pose proof (total_split r_shares _ _ ltac:(rewrite RefBook.Reference.refs_update; apply Hok) Hin) as Ht.
  cbn in Ht. rewrite update_remove in Ht. lia.
Qed.

(** The first fill of an allocation leaves the rest of its orders untouched. *)
Lemma reduce_other l r x (s : Z) :
  resting_ok l -> r ∈ l -> x ∈ l -> r_ref x <> r_ref r -> x ∈ (Spec.reduce l (r_ref r) s).1.
Proof.
  intros Hok Hr Hx Hne. unfold Spec.reduce. rewrite (Spec.find_ref_unique _ _ _ (rok_refs _ Hok) Hr eq_refl).
  repeat case_match; cbn [fst]; try done.
  - by apply list_elem_of_filter.
  - apply list_elem_of_fmap. exists x. by rewrite (proj2 (Z.eqb_neq _ _) Hne).
Qed.

Lemma after_fills_spec q s l :
  resting_ok l -> NoDup (r_ref <$> s) -> (forall r, r ∈ s -> r ∈ l) ->
  let l' := after_fills l (alloc q s) in
  resting_ok l' /\ sumZ r_shares l' = sumZ r_shares l - filled (alloc q s) /\
  (forall r', r' ∈ l' -> exists r, r ∈ l /\ r_ref r' = r_ref r /\ r_price r' = r_price r /\
     r_buy r' = r_buy r /\ r_trader r' = r_trader r /\ 0 < r_shares r' <= r_shares r).
Proof.
  assert (forall l, resting_ok l -> let l' := after_fills l [] in
    resting_ok l' /\ sumZ r_shares l' = sumZ r_shares l - filled [] /\
    (forall r', r' ∈ l' -> exists r, r ∈ l /\ r_ref r' = r_ref r /\ r_price r' = r_price r /\
       r_buy r' = r_buy r /\ r_trader r' = r_trader r /\ 0 < r_shares r' <= r_shares r)) as Hnil.
  { intros k Hk. split_and!; [done|by rewrite Z.sub_0_r|]. intros x Hx. exists x.
    pose proof (rok_shares _ Hk x Hx). naive_solver lia. }
  revert q l. induction s as [|r s IH]; intros q l Hok Hnd Hin; cbn [alloc]; [by apply Hnil|].
  destruct (Z.leb_spec q 0); [by apply Hnil|].
  assert (r ∈ l) as Hr by (apply Hin; left). pose proof (rok_shares _ Hok r Hr) as Hsh.
  cbn [fmap list_fmap] in Hnd. apply NoDup_cons in Hnd as [Hn Hnd].
  change (after_fills l (?x :: ?k)) with (after_fills (Spec.reduce l (r_ref x.1) x.2).1 k). cbn [fst snd].
  set (f := Z.min q (r_shares r)). set (l1 := (Spec.reduce l (r_ref r) f).1).
  destruct (IH (q - f) l1) as (Hok' & Ht & Hel).
  - apply reduce_ok; [done|lia].
  - done.
  - intros x Hx. apply reduce_other; [done|done|apply Hin; by right|].
    intros Heq. apply Hn. rewrite <- Heq. by apply list_elem_of_fmap_2.
  - split_and!; [done| |].
    + rewrite Ht, filled_cons. unfold l1. rewrite reduce_total by (done || lia). cbn. lia.
    + intros x Hx. destruct (Hel x Hx) as (y & Hy & ? & ? & ? & ? & ?).
      apply reduce_elem in Hy as (z & Hz & ? & ? & ? & ? & ?); [|done|lia].
      exists z. split_and!; [done|congruence..|lia|lia].
Qed.

(** The orders of one side, in arrival order. *)
Definition side_orders (side : bool) l : list Rest := filter (fun r => r_buy r = side) l.

Lemma update_ref_side side ref (s : Z) l :
  (forall x, x ∈ l -> r_buy x = side -> r_ref x <> ref) ->
  side_orders side (Spec.update_ref ref s l) = side_orders side l.
Proof.
  unfold side_orders, Spec.update_ref. induction l as [|x l IH]; intros Hn; [done|].
  cbn [fmap list_fmap]. rewrite !filter_cons, IH by (intros y Hy; apply Hn; by right).
  pose proof (Hn x ltac:(left)) as Hx. destruct (Z.eqb_spec (r_ref x) ref); [|done].
  rewrite !decide_False by (cbn; tauto). done.
Qed.

Lemma reduce_side side l r (s : Z) :
  resting_ok l -> r ∈ l -> r_buy r <> side ->
  side_orders side (Spec.reduce l (r_ref r) s).1 = side_orders side l.
Proof.
  intros Hok Hr Hb. assert (forall x, x ∈ l -> r_buy x = side -> r_ref x <> r_ref r) as Hn.
  { intros x Hx Hbx Heq. pose proof (Spec.find_ref_unique _ _ _ (rok_refs _ Hok) Hx Heq) as Hfx.
    rewrite (Spec.find_ref_unique _ _ _ (rok_refs _ Hok) Hr eq_refl) in Hfx. congruence. }
  unfold Spec.reduce. rewrite (Spec.find_ref_unique _ _ _ (rok_refs _ Hok) Hr eq_refl).
  repeat case_match; cbn [fst]; [done| |by apply update_ref_side].
  unfold side_orders, Spec.remove_ref. rewrite list_filter_filter. apply filter_ext_in.
  intros x Hx. split; [tauto|]. intros Hbx. split; [done|by apply Hn].
Qed.

Lemma reduce_length l ref (s : Z) : (length (Spec.reduce l ref s).1 <= length l)%nat.
Proof.
  unfold Spec.reduce. repeat case_match; cbn [fst]; try done.
  - apply length_filter.
  - unfold Spec.update_ref. by rewrite length_fmap.
Qed.

Lemma after_fills_length l fills : (length (after_fills l fills) <= length l)%nat.
Proof.
  revert l. induction fills as [|f fills IH]; intros l; [done|].
  change (after_fills l (f :: fills)) with (after_fills (Spec.reduce l (r_ref f.1) f.2).1 fills).
  etransitivity; [apply IH|apply reduce_length].
Qed.

(** Fills against one side leave the other as it is. *)
Lemma after_fills_side side q s l :
  resting_ok l -> NoDup (r_ref <$> s) -> (forall r, r ∈ s -> r ∈ l /\ r_buy r <> side) ->
  side_orders side (after_fills l (alloc q s)) = side_orders side l.
Proof.
  revert q l. induction s as [|r s IH]; intros q l Hok Hnd Hin; cbn [alloc]; [done|].
  destruct (Z.leb_spec q 0); [done|]. destruct (Hin r ltac:(left)) as [Hr Hb].
  pose proof (rok_shares _ Hok r Hr). cbn [fmap list_fmap] in Hnd. apply NoDup_cons in Hnd as [Hn Hnd].
  change (after_fills l (?x :: ?k)) with (after_fills (Spec.reduce l (r_ref x.1) x.2).1 k). cbn [fst snd].
  rewrite IH; [by apply reduce_side|by apply reduce_ok; [|lia]|done|].
  intros x Hx. split; [|apply Hin; by right]. apply reduce_other; [done|done|apply Hin; by right|].
  intros Heq. apply Hn. rewrite <- Heq. by apply list_elem_of_fmap_2.
Qed.

(** ** Facts about [spec_submit] *)

Lemma reachable_sublist ok s : sublist (reachable ok s) s.
Proof.
  induction s as [|r s IH]; [constructor|]. cbn. case_match; [by constructor|].
  constructor. apply sublist_filter.
Qed.

Lemma candidates_nodup stp order l : NoDup (r_ref <$> l) -> NoDup (r_ref <$> candidates stp order l).
Proof.
  intros Hnd. eapply sublist_NoDup; [|apply fmap_sublist, reachable_sublist].
  eapply sublist_NoDup; [|apply fmap_sublist, sublist_filter]. rewrite priority_perm.
  eapply sublist_NoDup; [exact Hnd|]. apply fmap_sublist, sublist_filter.
Qed.

Lemma submit_fills stp order l q :
  resting_ok l ->
  let fills := alloc q (candidates stp order l) in
  let l' := after_fills l fills in
  resting_ok l' /\ sumZ r_shares l' = sumZ r_shares l - filled fills /\
  (forall r', r' ∈ l' -> exists r, r ∈ l /\ r_ref r' = r_ref r /\ r_price r' = r_price r /\
     r_buy r' = r_buy r /\ r_trader r' = r_trader r /\ 0 < r_shares r' <= r_shares r).
Proof.
  intros Hok. apply after_fills_spec; [done|apply candidates_nodup, Hok|].
  by intros r [Hr _]%candidates_elem.
Qed.

Definition event_quantity (e : Event) : Z :=
  match e with
  | Fill e => fill_quantity e
  | Rested e => rest_quantity e
  | Killed e => unfilled_quantity e
  end.

Lemma fill_events_total order fills : sumZ event_quantity (fill_events order fills) = filled fills.
Proof. induction fills as [|f fills IH]; [done|]. cbn [fill_events fmap list_fmap]. rewrite sumZ_cons, filled_cons. by f_equal. Qed.

Lemma spec_submit_total stp cap l order :
  sumZ event_quantity (spec_submit stp cap l order).2 = in_quantity order.
Proof.
  unfold spec_submit. destruct (Z.eqb_spec (in_quantity order) 0) as [->|]; [done|].
  case_match; [cbn; lia|]. fold (fill_events order (alloc (in_quantity order) (candidates stp order l))).
  set (fills := alloc _ _). destruct (Z.eqb_spec (in_quantity order - filled fills) 0).
  - cbn [snd]. rewrite fill_events_total. lia.
  - destruct (decide (in_type order = Limit)); cbn [snd]; rewrite sumZ_app, fill_events_total; cbn; lia.
Qed.

(** The shares the events report as filled and as resting. *)
Definition filled_quantity (evs : list Event) : Z :=
  sumZ (fun e => match e with Fill e => fill_quantity e | _ => 0 end) evs.

Definition rested_quantity (evs : list Event) : Z :=
  sumZ (fun e => match e with Rested e => rest_quantity e | _ => 0 end) evs.

Lemma fill_events_filled order fills : filled_quantity (fill_events order fills) = filled fills.
Proof.
  induction fills as [|f fills IH]; [done|]. unfold filled_quantity in *.
  cbn [fill_events fmap list_fmap]. rewrite sumZ_cons, filled_cons. by f_equal.
Qed.

Lemma fill_events_rested order fills : rested_quantity (fill_events order fills) = 0.
Proof. by induction fills. Qed.

(** The outcome of a submission by the shares it leaves: the other side pays for the
    fills, and the remainder rests, is refused by the book or is killed. *)
Inductive outcome (cap : Z) order l : list Rest * list Event -> Prop :=
  | outcome_no_rest l' evs :
      rested_quantity evs = 0 -> sumZ r_shares l' = sumZ r_shares l - filled_quantity evs ->
      outcome cap order l (l', evs)
  | outcome_rested l1 evs :
      in_type order = Limit -> 0 < rested_quantity evs ->
      sumZ r_shares l1 = sumZ r_shares l - filled_quantity evs ->
      outcome cap order l
        (l1 ++ [MkRest (in_ref order) (in_price order) (rested_quantity evs) (in_is_buy order) (in_trader order)],
         evs)
  | outcome_refused l' evs :
      in_type order = Limit -> 0 < rested_quantity evs ->
      in_ref order ∈ r_ref <$> l' \/ cap <= Z.of_nat (length l') ->
      (forall r', r' ∈ l' -> exists r, r ∈ l /\ r_ref r' = r_ref r) -> (length l' <= length l)%nat ->
      sumZ r_shares l' = sumZ r_shares l - filled_quantity evs ->
      outcome cap order l (l', evs).

Lemma spec_submit_outcome stp cap l order :
  resting_ok l -> 0 <= in_quantity order -> outcome cap order l (spec_submit stp cap l order).
Proof.
  intros Hok Hq. unfold spec_submit.
  destruct (in_quantity order =? 0); [apply outcome_no_rest; [done|symmetry; apply Z.sub_0_r]|].
  destruct (bool_decide _ && _); [apply outcome_no_rest; [done|symmetry; apply Z.sub_0_r]|].
  fold (fill_events order (alloc (in_quantity order) (candidates stp order l))).
  destruct (submit_fills stp order l (in_quantity order) Hok) as (_ & Htot & Hel).
  pose proof (after_fills_length l (alloc (in_quantity order) (candidates stp order l))) as Hlen.
  pose proof (filled_bounds stp order l (in_quantity order) Hok Hq) as Hb.
  set (fills := alloc _ _) in *. destruct (Z.eqb_spec (in_quantity order - filled fills) 0) as [|Hne].
  { apply outcome_no_rest; [apply fill_events_rested|by rewrite fill_events_filled]. }
  set (rem := in_quantity order - filled fills) in *. assert (0 < rem) as Hrem by (unfold rem in *; lia).
  destruct (decide (in_type order = Limit)) as [Hl|Hl]; last first.
  { apply outcome_no_rest; unfold rested_quantity, filled_quantity; rewrite sumZ_app.
    - fold (rested_quantity (fill_events order fills)). by rewrite fill_events_rested.
    - fold (filled_quantity (fill_events order fills)). rewrite fill_events_filled. cbn. lia. }
  set (evs := fill_events order fills ++ _).
  assert (rested_quantity evs = rem) as Hr.
  { unfold evs, rested_quantity. rewrite sumZ_app. fold (rested_quantity (fill_events order fills)).
    rewrite fill_events_rested. cbn. lia. }
  assert (filled_quantity evs = filled fills) as Hf.
  { unfold evs, filled_quantity. rewrite sumZ_app. fold (filled_quantity (fill_events order fills)).
    rewrite fill_events_filled. cbn. lia. }
  assert (forall r', r' ∈ after_fills l fills -> exists r, r ∈ l /\ r_ref r' = r_ref r) as Hrefs.
  { intros r' (r & Hx & Href & _)%Hel. by exists r. }
  unfold Spec.add. rewrite (proj2 (Z.eqb_neq _ _) Hne).
  destruct (Spec.find_ref (in_ref order) (after_fills l fills)) as [r|] eqn:Efr.
  - cbn [fst]. apply outcome_refused; [done|lia| |done|done|lia]. left.
    apply Spec.find_ref_Some in Efr as [Hin <-]. by apply list_elem_of_fmap_2.
  - destruct (Z.ltb_spec (Z.of_nat (length (after_fills l fills))) cap); cbn [fst].
    + rewrite <- Hr. apply outcome_rested; [done|lia|lia].
    + apply outcome_refused; [done|lia|by right|done|done|lia].
Qed.

(** The book is sure to refuse what a limit order leaves: an order of its own side,
    which no fill can remove, has its reference, or the pool is full and nothing
    crosses. *)
Definition refuses_remainder (cap : Z) order l : Prop :=
  (exists r, r ∈ l /\ r_ref r = in_ref order /\ r_buy r = in_is_buy order) \/
  (cap <= Z.of_nat (length l) /\
   forall r, r ∈ l -> r_buy r = negb (in_is_buy order) -> crosses order (r_price r) = false).

Lemma refuses_remainder_add stp cap l order (s : Z) :
  resting_ok l -> refuses_remainder cap order l ->
  let l' := after_fills l (alloc (in_quantity order) (candidates stp order l)) in
  (Spec.add cap l' (in_ref order) (in_price order) s (in_is_buy order) (in_trader order)).1 = l'.
Proof.
  intros Hok Href l'. unfold Spec.add. destruct (s =? 0); [done|].
  destruct (Spec.find_ref (in_ref order) l') as [|] eqn:Efr; [done|].
  destruct (Z.ltb_spec (Z.of_nat (length l')) cap) as [Hc|Hc]; [|done]. exfalso.
  destruct Href as [(r & Hr & Heq & Hb)|[Hcap Hx]].
  - apply (proj1 (Spec.find_ref_None _ _) Efr r); [|done].
    assert (r ∈ side_orders (in_is_buy order) l') as [_ Hin]%list_elem_of_filter; [|done].
    unfold l'. rewrite after_fills_side; [by apply list_elem_of_filter|done|apply candidates_nodup, Hok|].
    intros x (Hx & -> & _)%candidates_elem. split; [done|]. by destruct (in_is_buy order).
  - assert (candidates stp order l = []) as Hnil; [|unfold l' in Hc; rewrite Hnil in Hc; cbn in Hc; lia].
    destruct (candidates stp order l) as [|x k] eqn:Ec; [done|].
    assert (x ∈ candidates stp order l) as (Hin & Hb & Hcr & _)%candidates_elem by (rewrite Ec; left).
    by rewrite (Hx x Hin Hb) in Hcr.
Qed.

Lemma spec_submit_refused stp cap l order :
  resting_ok l -> 0 <= in_quantity order -> in_type order = Limit -> refuses_remainder cap order l ->
  let res := spec_submit stp cap l order in
  side_orders (in_is_buy order) res.1 = side_orders (in_is_buy order) l /\
  sumZ r_shares res.1 = sumZ r_shares l - filled_quantity res.2 /\
  (filled_quantity res.2 < in_quantity order ->
   last res.2 = Some (Rested (MkRestEvent (in_ref order) (in_price order)
     (in_quantity order - filled_quantity res.2) (in_is_buy order)))).
Proof.
  intros Hok Hq Hl Href. unfold spec_submit.
  destruct (Z.eqb_spec (in_quantity order) 0) as [->|Hnz].
  { split_and!; [done|symmetry; apply Z.sub_0_r|by cbn; lia]. }
  rewrite bool_decide_eq_false_2 by congruence. cbn [andb].
  fold (fill_events order (alloc (in_quantity order) (candidates stp order l))).
  destruct (submit_fills stp order l (in_quantity order) Hok) as (_ & Htot & _).
  assert (side_orders (in_is_buy order) (after_fills l (alloc (in_quantity order) (candidates stp order l))) =
          side_orders (in_is_buy order) l) as Hside.
  { apply after_fills_side; [done|apply candidates_nodup, Hok|].
    intros x (Hx & -> & _)%candidates_elem. split; [done|]. by destruct (in_is_buy order). }
  pose proof (fun q => refuses_remainder_add stp cap l order q Hok Href) as Hadd. cbn zeta in Hadd.
  set (fills := alloc _ _) in *. destruct (Z.eqb_spec (in_quantity order - filled fills) 0) as [He|Hne].
  { cbn [fst snd]. rewrite fill_events_filled. split_and!; [done|done|lia]. }
  rewrite decide_True by done. cbn [fst snd]. rewrite Hadd.
  assert (forall k, filled_quantity (fill_events order fills ++ [Rested k]) = filled fills) as Hf.
  { intros k. unfold filled_quantity. rewrite sumZ_app. fold (filled_quantity (fill_events order fills)).
    rewrite fill_events_filled. cbn. lia. }
  rewrite !Hf. split_and!; [done|done|]. intros _. by rewrite last_snoc.
Qed.

(** Every fill trades with a resting, eligible order of the other side, at its
    price, for at most its size. *)
Lemma spec_submit_fill stp cap l order e :
  resting_ok l -> Fill e ∈ (spec_submit stp cap l order).2 ->
  exists r, r ∈ l /\ aggressor_ref e = in_ref order /\ resting_ref e = r_ref r /\
    fill_price e = r_price r /\ 0 < fill_quantity e <= r_shares r /\
    r_buy r = negb (in_is_buy order) /\ crosses order (r_price r) = true /\
    eligible stp order r = true.
Proof.
  intros Hok Hin.
  assert (Fill e ∈ fill_events order (alloc (in_quantity order) (candidates stp order l))) as Hf.
  { revert Hin. unfold spec_submit. fold (fill_events order (alloc (in_quantity order) (candidates stp order l))).
    repeat case_match; cbn [snd]; rewrite ?elem_of_app, ?list_elem_of_singleton, ?elem_of_nil; naive_solver. }
  apply list_elem_of_fmap in Hf as ([r f] & [= ->] & Hx).
  apply alloc_elem in Hx as [Hc Hfq]; [|by apply candidates_positive].
  apply candidates_elem in Hc as (? & ? & ? & ?). exists r. by cbn.
Qed.

(** Nothing is blocked when self-trade prevention does not apply. *)
Lemma candidates_unblocked stp order l :
  stp = false \/ in_trader order = 0 ->
  candidates stp order l =
  filter (fun r => crosses order (r_price r) = true) (priority (negb (in_is_buy order)) l).
Proof.
  intros Hs. unfold candidates. apply reachable_all. intros r _. unfold eligible.
  destruct Hs as [-> | ->]; [done|]. by rewrite orb_true_r.
Qed.

Lemma liquidity_candidates stp order l :
  stp = false \/ in_trader order = 0 ->
  sumZ r_shares (candidates stp order l) = liquidity stp order l.
Proof.
  intros Hs. rewrite candidates_unblocked by done. rewrite priority_perm, list_filter_filter.
  unfold liquidity. f_equal. apply list_filter_iff. intros r. unfold eligible.
  assert (negb stp || (in_trader order =? 0) = true) as ->; [|tauto].
  destruct Hs as [-> | ->]; [done|]. by rewrite orb_true_r.
Qed.

Lemma spec_submit_fok stp cap l order :
  resting_ok l -> stp = false \/ in_trader order = 0 -> in_type order = FOK -> 0 < in_quantity order ->
  let res := spec_submit stp cap l order in
  (liquidity stp order l < in_quantity order /\
     res = (l, [Killed (MkKill (in_ref order) (in_quantity order))])) \/
  (in_quantity order <= liquidity stp order l /\
     exists fills, res.2 = fill_events order fills /\ filled fills = in_quantity order).
Proof.
  intros Hok Hs Ht Hq. unfold spec_submit. rewrite (proj2 (Z.eqb_neq _ 0)) by lia.
  rewrite bool_decide_true by done. cbn [andb].
  destruct (Z.ltb_spec (liquidity stp order l) (in_quantity order)) as [Hl|Hl]; [by left|right].
  split; [done|]. pose proof (liquidity_candidates stp order l Hs) as Hlc.
  pose proof (candidates_positive stp order l Hok) as Hp.
  pose proof (alloc_filled (in_quantity order) _ ltac:(lia) Hp) as Hf.
  rewrite Hlc, Z.min_l in Hf by done. set (fills := alloc _ _) in *. exists fills.
  by rewrite Hf, Z.sub_diag.
Qed.

(** ** Crossed books *)

Definition uncrossed l : Prop :=
  forall r r', r ∈ l -> r' ∈ l -> r_buy r = true -> r_buy r' = false -> r_price r < r_price r'.

(** An allocation that does not exhaust the quantity consumes every candidate. *)
Lemma alloc_all q s :
  0 <= q -> (forall r, r ∈ s -> 0 < r_shares r) -> filled (alloc q s) < q ->
  alloc q s = (fun r => (r, r_shares r)) <$> s.
Proof.
  revert q. induction s as [|r s IH]; intros q Hq Hs; cbn [alloc]; [done|].
  pose proof (Hs r ltac:(left)). destruct (Z.leb_spec q 0); [unfold filled; cbn; lia|].
  rewrite filled_cons. cbn [snd fmap list_fmap]. intros Hlt.
  assert (forall x, x ∈ s -> 0 < r_shares x) as Hs' by (intros; apply Hs; by right).
  assert (0 <= filled (alloc (q - Z.min q (r_shares r)) s)).
  { rewrite alloc_filled by (done || lia).
    assert (0 <= sumZ r_shares s); [|lia]. apply sumZ_nonneg. intros x Hx. specialize (Hs' x Hx). lia. }
  rewrite IH by (done || lia). by replace (Z.min q (r_shares r)) with (r_shares r) by lia.
Qed.

Lemma after_fills_all s l :
  resting_ok l -> NoDup (r_ref <$> s) -> (forall r, r ∈ s -> r ∈ l) ->
  after_fills l ((fun r => (r, r_shares r)) <$> s) = filter (fun r => r_ref r ∉ r_ref <$> s) l.
Proof.
  revert l. induction s as [|r s IH]; intros l Hok Hnd Hin.
  { cbn. symmetry. apply filter_all. intros x _. apply not_elem_of_nil. }
  assert (r ∈ l) as Hr by (apply Hin; left). pose proof (rok_shares _ Hok r Hr).
  cbn [fmap list_fmap] in *. apply NoDup_cons in Hnd as [Hn Hnd].
  change (after_fills l (?x :: ?k)) with (after_fills (Spec.reduce l (r_ref x.1) x.2).1 k). cbn [fst snd].
  assert ((Spec.reduce l (r_ref r) (r_shares r)).1 = Spec.remove_ref (r_ref r) l) as Hred.
  { pose proof (reduce_exact l r (r_shares r) Hok Hr ltac:(lia)) as He.
    by rewrite Z.min_id, Z.ltb_irrefl in He. }
  rewrite IH; [|by apply reduce_ok; [|lia]|done|].
  - rewrite Hred. unfold Spec.remove_ref. rewrite list_filter_filter. apply list_filter_iff.
    intros x. rewrite not_elem_of_cons. tauto.
  - intros x Hx. rewrite Hred. apply list_elem_of_filter. split; [|apply Hin; by right].
    intros Heq. apply Hn. rewrite <- Heq. by apply list_elem_of_fmap_2.
Qed.

(** What is left on the other side of an order that was not filled does not
    cross it. *)
Lemma remainder_uncrossed stp order l q r :
  resting_ok l -> stp = false \/ in_trader order = 0 -> 0 <= q ->
  filled (alloc q (candidates stp order l)) < q ->
  r ∈ after_fills l (alloc q (candidates stp order l)) -> r_buy r = negb (in_is_buy order) ->
  crosses order (r_price r) = false.
Proof.
  intros Hok Hs Hq Hlt. rewrite alloc_all by (done || by apply candidates_positive).
  rewrite after_fills_all; [|done|apply candidates_nodup, Hok|by intros x [Hx _]%candidates_elem].
  intros [Hn Hr]%list_elem_of_filter Hb. destruct (crosses order (r_price r)) eqn:Ec; [|done].
  exfalso. apply Hn, list_elem_of_fmap_2. rewrite candidates_unblocked by done.
  apply list_elem_of_filter. split; [done|]. by apply priority_elem.
Qed.

Lemma spec_submit_uncrossed stp cap l order :
  resting_ok l -> stp = false \/ in_trader order = 0 -> 0 <= in_quantity order -> uncrossed l ->
  uncrossed (spec_submit stp cap l order).1.
Proof.
  intros Hok Hs Hq Hu. unfold spec_submit. case_match; [done|]. case_match; [done|].
  set (fills := alloc _ _).
  destruct (submit_fills stp order l (in_quantity order) Hok) as (Hok' & _ & Hel). fold fills in Hok', Hel.
  assert (uncrossed (after_fills l fills)) as Hu'.
  { intros r r' (x & Hx & _ & -> & -> & _)%Hel (y & Hy & _ & -> & -> & _)%Hel. by apply Hu. }
  destruct (Z.eqb_spec (in_quantity order - filled fills) 0) as [|Hne]; [done|].
  destruct (decide (in_type order = Limit)) as [Ht|Ht]; [|done]. cbn [fst].
  pose proof (filled_bounds stp order l (in_quantity order) Hok Hq) as Hbd. fold fills in Hbd.
  assert (forall r, r ∈ after_fills l fills -> r_buy r = negb (in_is_buy order) ->
    (if in_is_buy order then r_price r <=? in_price order else in_price order <=? r_price r) = false)
    as Hrem.
  { intros r Hr Hb.
    rewrite <- (remainder_uncrossed stp order l (in_quantity order) r Hok Hs Hq ltac:(fold fills; lia) Hr Hb).
    unfold crosses. by rewrite decide_False by congruence. }
  unfold Spec.add. rewrite (proj2 (Z.eqb_neq _ _) Hne).
  destruct (Spec.find_ref (in_ref order) (after_fills l fills)); [done|].
  destruct (Z.of_nat (length (after_fills l fills)) <? cap); [|done]. cbn [fst]. intros r r' [Hr| ->%list_elem_of_singleton]%elem_of_app [Hr'| ->%list_elem_of_singleton]%elem_of_app Hb Hb';
    cbn in *; [by apply Hu'| | |congruence].
  - specialize (Hrem r Hr). rewrite Hb' in Hrem. specialize (Hrem Hb). lia.
  - specialize (Hrem r' Hr'). rewrite Hb in Hrem. specialize (Hrem Hb'). lia.
Qed.
