(* ===== verification/Session.v ===== *)
(** * A sequence of submissions

    [submit_all] hands a list of orders to one engine, as its clients do.  As long
    as the shares on the book and the submitted quantities stay below 2^32 in
    total, nothing can wrap, and the run computes [spec_session], the specification
    of [submit] threaded through the list. *)

From S2P Require Import Prelude HashMap IntrusiveList ObjectPool OrderBook BookSpec.
From S2P Require Import BookInvariant BookBest BookRefinement BookOps BookQueries.
From S2P Require Import BookInterface MatchingEngine MatchingSpec MatchingProofs Liquidity.
From S2P Require Import Submit.

Local Open Scope Z_scope.

Implicit Types (l : list Rest) (order : IncomingOrder) (orders : list IncomingOrder).

Fixpoint submit_all {H : Type} `{!EventHandler H} (stp : bool) (b : OrderBook) (h : H) orders
    : ub (OrderBook * H) :=
  match orders with
  | [] => Some (b, h)
  | order :: orders => '(b, h) ← submit stp b h order; submit_all stp b h orders
  end.

(** The final list of resting orders and all events, in order. *)
Fixpoint spec_session (stp : bool) (cap : Z) l orders : list Rest * list Event :=
  match orders with
  | [] => (l, [])
  | order :: orders =>
      let step := spec_submit stp cap l order in
      let rest := spec_session stp cap step.1 orders in
      (rest.1, step.2 ++ rest.2)
  end.

(** All shares on the book. *)
Definition total_shares l : Z := sumZ r_shares l.

Section bounds.
Variable l : list Rest.
Hypothesis Hok : resting_ok l.

Lemma resting_nonneg : forall r, r ∈ l -> 0 <= r_shares r.
Proof. intros r Hr. pose proof (rok_shares _ Hok r Hr). lia. Qed.

Lemma total_fits : total_shares l < 2 ^ 32 -> Spec.fits l.
Proof.
  intros Ht buy p. unfold Spec.shares_at, Spec.queue_at.
  pose proof (sumZ_filter_le r_shares (Spec.at_level buy p) l resting_nonneg). unfold total_shares in Ht. lia.
Qed.

Lemma liquidity_total stp order : liquidity stp order l <= total_shares l.
Proof. unfold liquidity. apply sumZ_filter_le, resting_nonneg. Qed.

(** A submission adds at most its own quantity to the book. *)
Lemma spec_submit_shares stp cap order :
  0 <= in_quantity order ->
  total_shares (spec_submit stp cap l order).1 <= total_shares l + in_quantity order.
Proof.
  intros Hq. unfold spec_submit, total_shares.
  destruct (in_quantity order =? 0); [cbn [fst]; lia|]. case_match; [cbn [fst]; lia|].
  set (fills := alloc _ _).
  destruct (submit_fills stp order l (in_quantity order) Hok) as (_ & Hsum & _). fold fills in Hsum.
  pose proof (filled_bounds stp order l (in_quantity order) Hok Hq) as Hf. fold fills in Hf.
  destruct (_ =? 0); [cbn [fst]; lia|]. destruct (decide _); cbn [fst]; [|lia].
  unfold Spec.add. repeat case_match; cbn [fst]; rewrite ?sumZ_app; cbn; lia.
Qed.
End bounds.

(** One submission inside the bound. *)
Lemma submit_in_bounds {H} `{!EventHandler H} stp b (h : H) l order :
  Rep b l -> best_exact b l -> total_shares l < 2 ^ 32 -> order_in_range order ->
  let res := spec_submit stp (book_capacity b) l order in
  exists b', submit stp b h order = Some (b', foldl notify h res.2) /\ Rep b' res.1 /\
    best_exact b' res.1 /\ book_capacity b' = book_capacity b.
Proof.
  intros HR He Ht Ho. pose proof (Rep_resting b l HR) as Hok.
  assert (represents (B := OrderBook) b l) as Hrep by (by split).
  pose proof (liquidity_total l Hok stp order).
  destruct (submit_spec stp b h l order Hrep (total_fits l Hok Ht) Ho ltac:(intros _; apply counts_exactly_small; [done|lia]))
    as (b' & Hs & [HR' He'] & Hc).
  by exists b'.
Qed.

Lemma submit_all_spec {H} `{!EventHandler H} stp b (h : H) l orders :
  Rep b l -> best_exact b l -> Forall order_in_range orders ->
  total_shares l + sumZ in_quantity orders < 2 ^ 32 ->
  let res := spec_session stp (book_capacity b) l orders in
  exists b', submit_all stp b h orders = Some (b', foldl notify h res.2) /\ Rep b' res.1 /\
    best_exact b' res.1.
Proof.
  cbn zeta. intros HR He Ho. revert b h l HR He.
  induction Ho as [|order orders Hr Ho IH]; intros b h l HR He Ht; [by exists b|].
  rewrite sumZ_cons in Ht. cbn [submit_all spec_session fst snd].
  assert (0 <= sumZ in_quantity orders) as Hnn.
  { apply sumZ_nonneg. intros o Hin. rewrite Forall_forall in Ho. destruct (Ho o Hin). lia. }
  assert (0 <= in_quantity order) as Hq by (destruct Hr; lia).
  destruct (submit_in_bounds stp b h l order HR He ltac:(lia) Hr) as (b1 & -> & HR1 & He1 & Hc1).
  cbn [mbind option_bind]. pose proof (spec_submit_shares l (Rep_resting b l HR) stp (book_capacity b) order Hq).
  destruct (IH b1 (foldl notify h (spec_submit stp (book_capacity b) l order).2) _ HR1 He1 ltac:(lia))
    as (b' & Hs & HR' & He').
  rewrite Hc1 in Hs, HR', He'. exists b'. by rewrite foldl_app.
Qed.

(** The shape of the events of one submission: fills, then at most one rest of a
    limit order or one kill. *)
Lemma spec_submit_shape stp cap l order :
  exists fills tail, (spec_submit stp cap l order).2 = fill_events order fills ++ tail /\
    (tail = [] \/
     (in_type order = Limit /\ exists q, tail = [Rested (MkRestEvent (in_ref order) (in_price order) q (in_is_buy order))]) \/
     exists q, tail = [Killed (MkKill (in_ref order) q)]).
Proof.
  unfold spec_submit. destruct (_ =? 0); [exists [], []; auto|].
  case_match. { exists [], [Killed (MkKill (in_ref order) (in_quantity order))]. eauto. }
  fold (fill_events order (alloc (in_quantity order) (candidates stp order l))). cbn [snd].
  set (fills := alloc _ _). destruct (_ =? 0).
  - exists fills, []. rewrite app_nil_r. auto.
  - destruct (decide _); eexists fills, _; (split; [done|]); eauto.
Qed.
