(* ===== verification/ConservationTest.v ===== *)
(** * engine/tests/test_matching_engine_conservation.cpp: the random test itself

    The TEST body over any random source: 500 random orders through an engine with
    self-trade prevention and a recording handler, with the assertions on the
    events of each submission.  A failed assertion is [false]; [run_loop_passes]
    shows that none can fail. *)

From S2P Require Import Prelude StdModel HashMap IntrusiveList ObjectPool OrderBook BookSpec.
From S2P Require Import BookInvariant BookBest BookRefinement BookOps BookQueries.
From S2P Require Import BookInterface MatchingEngine MatchingSpec MatchingProofs Liquidity.
From S2P Require Import Submit Session.

Local Open Scope Z_scope.

Module ConservationTest.

(** [RecordingHandler]: one vector per kind of event. *)
Record RecordingHandler := MkRecording {
  fills : list FillEvent;
  rests : list RestEvent;
  kills : list KillEvent
}.

#[global] Instance recording : EventHandler RecordingHandler := {|
  on_fill h e := MkRecording (fills h ++ [e]) (rests h) (kills h);
  on_rest h e := MkRecording (fills h) (rests h ++ [e]) (kills h);
  on_kill h e := MkRecording (fills h) (rests h) (kills h ++ [e])
|}.

Definition kRef : Z := 1000000.
Definition kHalfWidth : Z := 200.
Definition kCapacity : Z := 5000.
Definition kNumOrders : nat := 500.

Section test.
Context {R : Type} `{!Random R}.

Definition order_type (draw : Z) : OrderType :=
  if draw =? 0 then Limit else if draw =? 1 then Market else if draw =? 2 then IOC else FOK.

(** The random order number [i]. *)
Definition draw_order (i : Z) (r : R) : IncomingOrder * R :=
  let '(jitter, r) := jitter_dist (-400) 400 r in
  let p := u32 (kRef + jitter) in
  let '(type_draw, r) := jitter_dist 0 3 r in
  let '(quantity, r) := shares_dist 10 200 r in
  let '(side, r) := side_dist r in
  let '(trader, r) := shares_dist 0 3 r in
  (MkIncoming (i +u64 1) p quantity (side =? 0) (order_type type_draw) trader, r).

(** [sum += e.quantity] over the new events of one kind. *)
Definition sum_new {E} (quantity : E -> Z) (new : list E) : Z :=
  foldl (fun sum e => sum +u32 quantity e) 0 new.

(** The assertions after one submission; the new events are those past the sizes
    taken before. *)
Definition check (before after : RecordingHandler) (order : IncomingOrder) : bool :=
  let new_fills := drop (length (fills before)) (fills after) in
  let new_rests := drop (length (rests before)) (rests after) in
  let new_kills := drop (length (kills before)) (kills after) in
  let filled := sum_new fill_quantity new_fills in
  let rested := sum_new rest_quantity new_rests in
  let killed := sum_new unfilled_quantity new_kills in
  forallb (fun e => aggressor_ref e =? in_ref order) new_fills &&
  forallb (fun e => rest_ref e =? in_ref order) new_rests &&
  forallb (fun e => kill_ref e =? in_ref order) new_kills &&
  (filled +u32 rested +u32 killed =? in_quantity order) &&
  (bool_decide (in_type order = Limit) || (rested =? 0)) &&
  ((rested =? 0) || (killed =? 0)).

(** [n] more iterations from number [i] on. *)
Fixpoint run_loop (n : nat) (i : Z) (b : OrderBook) (h : RecordingHandler) (r : R) : ub bool :=
  match n with
  | O => Some true
  | S n =>
      let '(order, r) := draw_order i r in
      '(b, h') ← submit true b h order;
      if check h h' order then run_loop n (i +u64 1) b h' r else Some false
  end.

Definition run_test : ub bool :=
  b ← make kRef kHalfWidth kCapacity;
  run_loop kNumOrders 0 b (MkRecording [] [] []) (seeded 123).
End test.

(** ** What the handler recorded *)

Definition fill_of (e : Event) : option FillEvent := match e with Fill e => Some e | _ => None end.
Definition rest_of (e : Event) : option RestEvent := match e with Rested e => Some e | _ => None end.
Definition kill_of (e : Event) : option KillEvent := match e with Killed e => Some e | _ => None end.

Lemma record_events h evs :
  foldl notify h evs =
  MkRecording (fills h ++ omap fill_of evs) (rests h ++ omap rest_of evs) (kills h ++ omap kill_of evs).
Proof.
  revert h. induction evs as [|e evs IH]; intros h.
  - cbn. rewrite !app_nil_r. by destruct h.
  - cbn [foldl]. rewrite IH. destruct e; cbn; by rewrite <- ?app_assoc.
Qed.

Lemma sum_new_spec {E} (quantity : E -> Z) new : sum_new quantity new = u32 (sumZ quantity new).
Proof.
  unfold sum_new. enough (forall acc, foldl (fun sum e => sum +u32 quantity e) (u32 acc) new =
    u32 (acc + sumZ quantity new)) as He by (apply (He 0)).
  induction new as [|e new IH]; intros acc; cbn [foldl]; [by rewrite Z.add_0_r|].
  rewrite u32_add_l, IH, sumZ_cons. f_equal. lia.
Qed.

(** The three sums together are the events' total. *)
Lemma omap_total evs :
  sumZ fill_quantity (omap fill_of evs) + sumZ rest_quantity (omap rest_of evs) +
  sumZ unfilled_quantity (omap kill_of evs) = sumZ event_quantity evs.
Proof.
  induction evs as [|[e|e|e] evs IH]; [done|..];
    cbn [omap list_omap fill_of rest_of kill_of] in *; rewrite !sumZ_cons; cbn [event_quantity]; lia.
Qed.

Lemma omap_fill_events order fs :
  omap fill_of (fill_events order fs) = fill_event order <$> fs /\
  omap rest_of (fill_events order fs) = [] /\ omap kill_of (fill_events order fs) = [].
Proof.
  induction fs as [|f fs (IH1 & IH2 & IH3)]; [done|].
  change (fill_events order (f :: fs)) with (Fill (fill_event order f) :: fill_events order fs).
  cbn [omap list_omap fill_of rest_of kill_of fmap list_fmap]. by rewrite IH1, IH2, IH3.
Qed.

Lemma forallb_all {A} (f : A -> bool) (l : list A) : (forall x, x ∈ l -> f x = true) -> forallb f l = true.
Proof.
  intros Hf. apply forallb_forall. intros x Hx. apply Hf. by rewrite list_elem_of_In.
Qed.

(** The assertions hold for the events of the specification. *)
Lemma check_spec stp cap l order h :
  0 <= in_quantity order < 2 ^ 32 ->
  check h (foldl notify h (spec_submit stp cap l order).2) order = true.
Proof.
  intros Hq. destruct (spec_submit_shape stp cap l order) as (fs & tail & Hevs & Htail).
  pose proof (spec_submit_total stp cap l order) as Htot. rewrite <- omap_total in Htot.
  rewrite record_events. unfold check. cbn [fills rests kills]. rewrite !drop_app_length, !sum_new_spec.
  destruct (omap_fill_events order fs) as (Hf & Hr & Hk).
  set (evs := (spec_submit stp cap l order).2) in *.
  assert (u32 (sumZ fill_quantity (omap fill_of evs)) +u32 u32 (sumZ rest_quantity (omap rest_of evs))
    +u32 u32 (sumZ unfilled_quantity (omap kill_of evs)) = in_quantity order) as ->.
  { rewrite <- (u32_small (in_quantity order) Hq), <- Htot. clear. zlia. }
  rewrite Z.eqb_refl, Hevs, !omap_app, Hf, Hr, Hk. cbn [app].
  assert (forall e, e ∈ (fill_event order <$> fs) -> (aggressor_ref e =? in_ref order) = true) as Hfs.
  { intros e (f & -> & _)%list_elem_of_fmap. apply Z.eqb_refl. }
  destruct Htail as [-> |[(Hlim & q & ->)|(q & ->)]]; cbn [omap list_omap fill_of rest_of kill_of];
    rewrite ?app_nil_r, (forallb_all _ _ Hfs); cbn [forallb rest_ref kill_ref]; rewrite ?Z.eqb_refl;
    cbn [andb]; change (u32 (sumZ rest_quantity [])) with 0; change (u32 (sumZ unfilled_quantity [])) with 0.
  - by rewrite orb_true_r.
  - rewrite bool_decide_eq_true_2 by done. by rewrite orb_true_r.
  - by rewrite orb_true_r.
Qed.

Section proofs.
Context {R : Type} `{!Random R, !RandomRanges R}.

Lemma draw_order_range i (r : R) :
  order_in_range (draw_order i r).1 /\ 10 <= in_quantity (draw_order i r).1 <= 200.
Proof.
  unfold draw_order. destruct (jitter_dist (-400) 400 r) as [j r1]. destruct (jitter_dist 0 3 r1) as [t r2].
  pose proof (shares_range 10 200 r2 ltac:(lia)) as Hq. destruct (shares_dist 10 200 r2) as [q r3].
  destruct (side_dist r3) as [s r4]. destruct (shares_dist 0 3 r4) as [tr r5]. cbn in *.
  split; [|done]. split; cbn; [lia|apply u32_range].
Qed.

Lemma run_loop_passes n i b h (r : R) l :
  Rep b l -> best_exact b l -> total_shares l + 200 * Z.of_nat n < 2 ^ 32 -> run_loop n i b h r = Some true.
Proof.
  revert i b h r l. induction n as [|n IH]; intros i b h r l HR He Ht; [done|]. cbn [run_loop].
  destruct (draw_order_range i r) as [Ho Hq]. destruct (draw_order i r) as [order r']. cbn [fst] in Ho, Hq.
  destruct (submit_in_bounds true b h l order HR He ltac:(lia) Ho) as (b' & -> & HR' & He' & _).
  cbn [mbind option_bind]. rewrite check_spec by (destruct Ho; lia). cbn iota.
  apply (IH _ _ _ _ _ HR' He').
  pose proof (spec_submit_shares l (Rep_resting b l HR) true (book_capacity b) order ltac:(lia)). lia.
Qed.

Lemma conservation_run_passes : run_test (R := R) = Some true.
Proof.
  unfold run_test. destruct (make_rep kRef kHalfWidth kCapacity) as (b & -> & HR & He & _);
    [unfold kRef, kHalfWidth, kCapacity; lia..|]. cbn [mbind option_bind].
  apply (run_loop_passes _ _ _ _ _ [] HR He). unfold kNumOrders. cbn. lia.
Qed.
End proofs.
End ConservationTest.
