(* ===== verification/FileReader.v ===== *)
(** * itch/file_reader.cpp: walking a length-prefixed ITCH file

    [ItchFileReader] over the bytes the mapping exposes.  The operating-system
    calls of the constructor are an argument ([os_outcome]: what open, fstat and
    mmap answered).  This file holds the reading side; ReaderOwnership.v adds the
    file descriptors, the mappings and the moves.  [frames] is the reference
    notion of a framed file: [next_raw_message] walks exactly its records. *)

From S2P Require Import Prelude ByteOrder Messages Decode.

Local Open Scope Z_scope.

(** [data_] is null for an empty or moved-from reader. *)
Record ItchFileReader := MkReader {
  data_ : option (list byte);
  size_ : Z;
  offset_ : Z
}.

(** What the system calls of the constructor returned: an errno, or the file. *)
Inductive os_outcome :=
  | OpenFailed (errno : Z)
  | FstatFailed (errno : Z)
  | MmapFailed (errno : Z) (st_size : Z)
  | Opened (bytes : list byte).

(** The constructor throws [std::system_error] with the errno, or builds a
    reader; an empty file is never mapped. *)
Definition open_reader (os : os_outcome) : Z + ItchFileReader :=
  match os with
  | OpenFailed e | FstatFailed e => inl e
  | MmapFailed e st_size =>
      if st_size =? 0 then inr (MkReader None 0 0) else inl e
  | Opened bytes =>
      if Z.of_nat (length bytes) =? 0 then inr (MkReader None 0 0)
      else inr (MkReader (Some bytes) (Z.of_nat (length bytes)) 0)
  end.

Definition next_raw_message (r : ItchFileReader) : ub (ItchFileReader * option (list byte)) :=
  match data_ r with
  | None => Some (r, None)
  | Some data =>
      if size_ r <? offset_ r +u64 2 then Some (r, None)
      else
        msg_len ← read_u16_be data (Z.to_nat (offset_ r));
        let msg_start := offset_ r +u64 2 in
        if size_ r <? msg_start +u64 msg_len then Some (r, None)
        else Some (MkReader (data_ r) (size_ r) (msg_start +u64 msg_len),
                   Some (window data (Z.to_nat msg_start) (Z.to_nat msg_len)))
  end.

Definition next_message (r : ItchFileReader) : ub (ItchFileReader * option DecodedMessage) :=
  '(r, raw) ← next_raw_message r;
  match raw with
  | None => Some (r, None)
  | Some raw => d ← decode raw; Some (r, d)
  end.

(** The usual client loop: [while (auto m = reader.next_raw_message())]. *)
Fixpoint read_all (fuel : nat) (r : ItchFileReader) : ub (list (list byte)) :=
  match fuel with
  | O => None
  | S fuel =>
      '(r, raw) ← next_raw_message r;
      match raw with
      | None => Some []
      | Some raw => rest ← read_all fuel r; Some (raw :: rest)
      end
  end.

(** ** Framing *)

(** The first record of a framed byte string and what follows it. *)
Definition split_frame (bytes : list byte) : option (list byte * list byte) :=
  match bytes with
  | b0 :: b1 :: rest =>
      let len := Z.to_nat (be_value [b0; b1]) in
      if decide (len <= length rest)%nat then Some (take len rest, drop len rest) else None
  | _ => None
  end.

Fixpoint unframe (fuel : nat) (bytes : list byte) : list (list byte) :=
  match fuel with
  | O => []
  | S fuel =>
      match split_frame bytes with
      | Some (msg, rest) => msg :: unframe fuel rest
      | None => []
      end
  end.

(** Every record takes at least two bytes, so the length is enough fuel. *)
Definition frames (bytes : list byte) : list (list byte) := unframe (length bytes) bytes.

Lemma split_frame_shorter bytes msg rest :
  split_frame bytes = Some (msg, rest) -> (length rest + 2 <= length bytes)%nat.
Proof.
  destruct bytes as [|b0 [|b1 tl]]; try done. cbn [split_frame]. case_decide; [|done].
  intros [= <- <-]. rewrite length_drop. cbn. lia.
Qed.

Lemma unframe_fuel n m bytes :
  (length bytes <= n)%nat -> (n <= m)%nat -> unframe m bytes = unframe n bytes.
Proof.
  revert m bytes. induction n as [|n IH]; intros m bytes Hn Hm.
  - destruct bytes; [|cbn in Hn; lia]. by destruct m.
  - destruct m as [|m]; [lia|]. cbn [unframe].
    destruct (split_frame bytes) as [[msg rest]|] eqn:Hs; [|done].
    apply split_frame_shorter in Hs. rewrite (IH m) by lia. done.
Qed.

Lemma frames_split bytes :
  frames bytes = match split_frame bytes with Some (msg, rest) => msg :: frames rest | None => [] end.
Proof.
  unfold frames. destruct bytes as [|b bytes]; [done|]. cbn [length unframe].
  destruct (split_frame (b :: bytes)) as [[msg rest]|] eqn:Hs; [|done].
  apply split_frame_shorter in Hs. f_equal. apply unframe_fuel; cbn in *; lia.
Qed.

(** [write_framed]'s output for one message. *)
Definition frame (msg : list byte) : list byte := be_bytes 2 (Z.of_nat (length msg)) ++ msg.

Lemma split_frame_app msg rest :
  Z.of_nat (length msg) < 2 ^ 16 -> split_frame (frame msg ++ rest) = Some (msg, rest).
Proof.
  intros Hl. unfold frame, split_frame. rewrite <- app_assoc. cbn [be_bytes app].
  change [_; _] with (be_bytes 2 (Z.of_nat (length msg))). rewrite be_value_be_bytes.
  rewrite Z.mod_small, Nat2Z.id by (change (256 ^ Z.of_nat 2) with (2 ^ 16); lia).
  rewrite decide_True by (rewrite length_app; lia). by rewrite take_app_length, drop_app_length.
Qed.

(** ** The reader walks the frames *)

(** A reader positioned inside its file. *)
Record reader_ok (r : ItchFileReader) (data : list byte) : Prop := {
  ro_data : data_ r = Some data;
  ro_size : size_ r = Z.of_nat (length data);
  ro_small : Z.of_nat (length data) < 2 ^ 63;
  ro_offset : 0 <= offset_ r <= size_ r
}.

Lemma next_raw_spec r data :
  reader_ok r data ->
  match split_frame (drop (Z.to_nat (offset_ r)) data) with
  | None => next_raw_message r = Some (r, None)
  | Some (msg, rest) =>
      exists r', next_raw_message r = Some (r', Some msg) /\ reader_ok r' data /\
        drop (Z.to_nat (offset_ r')) data = rest /\ offset_ r < offset_ r'
  end.
Proof.
  intros [Hd Hs Hsm Ho]. unfold next_raw_message. rewrite Hd, !(u64_small (offset_ r + 2)) by lia.
  destruct (Z.ltb_spec (size_ r) (offset_ r + 2)) as [Hend|Hin].
  { assert (length (drop (Z.to_nat (offset_ r)) data) < 2)%nat as Hl by (rewrite length_drop; lia).
    destruct (drop _ data) as [|b0 [|b1 tl]]; [done|done|cbn in Hl; lia]. }
  rewrite read_u16_be_spec by lia. cbn [mbind option_bind].
  assert (exists b0 b1 tl, drop (Z.to_nat (offset_ r)) data = b0 :: b1 :: tl) as (b0 & b1 & tl & Hdr).
  { assert (2 <= length (drop (Z.to_nat (offset_ r)) data))%nat as Hl by (rewrite length_drop; lia).
    destruct (drop _ data) as [|b0 [|b1 tl]]; cbn in Hl; [lia|lia|by exists b0, b1, tl]. }
  assert (window data (Z.to_nat (offset_ r)) 2 = [b0; b1]) as -> by (unfold window; by rewrite Hdr).
  assert (drop (Z.to_nat (offset_ r + 2)) data = tl) as Htl.
  { replace (Z.to_nat (offset_ r + 2)) with (Z.to_nat (offset_ r) + 2)%nat by lia.
    by rewrite <- drop_drop, Hdr. }
  assert (Z.of_nat (length tl) = size_ r - (offset_ r + 2)) as Hlen by (rewrite <- Htl, length_drop; lia).
  pose proof (be_value_range [b0; b1]) as Hr. change (256 ^ Z.of_nat (length [b0; b1])) with (2 ^ 16) in Hr.
  rewrite Hdr. cbn [split_frame]. set (len := be_value [b0; b1]) in *.
  rewrite (u64_small (offset_ r + 2 + len)) by lia.
  destruct (Z.ltb_spec (size_ r) (offset_ r + 2 + len)).
  - by rewrite decide_False by lia.
  - rewrite decide_True by lia. eexists. split.
    { do 3 f_equal. unfold window. by rewrite Htl. }
    cbn [offset_]. split; [|split; [|lia]].
    + split; cbn [data_ size_ offset_]; [done|done|done|lia].
    + replace (Z.to_nat (offset_ r + 2 + len)) with (Z.to_nat (offset_ r + 2) + Z.to_nat len)%nat by lia.
      by rewrite <- drop_drop, Htl.
Qed.

Lemma read_all_spec fuel r data :
  reader_ok r data -> (length data - Z.to_nat (offset_ r) < fuel)%nat ->
  read_all fuel r = Some (frames (drop (Z.to_nat (offset_ r)) data)).
Proof.
  revert r. induction fuel as [|fuel IH]; intros r Hr Hf; [lia|]. cbn [read_all].
  pose proof (next_raw_spec r data Hr) as Hn. rewrite frames_split.
  destruct (split_frame _) as [[msg rest]|] eqn:Hs.
  - destruct Hn as (r' & -> & Hr' & Hdrop & Hlt). cbn [mbind option_bind].
    pose proof (ro_offset _ _ Hr'). pose proof (ro_size _ _ Hr'). pose proof (ro_offset _ _ Hr).
    rewrite IH; [|done|lia]. cbn. by rewrite Hdrop.
  - by rewrite Hn.
Qed.

(** A freshly opened file. *)
Lemma open_read_all (bytes : list byte) (r : ItchFileReader) :
  Z.of_nat (length bytes) < 2 ^ 63 -> open_reader (Opened bytes) = inr r ->
  read_all (S (length bytes)) r = Some (frames bytes).
Proof.
  intros Hs. unfold open_reader. destruct (Z.eqb_spec (Z.of_nat (length bytes)) 0) as [Hz|Hz].
  - intros [= <-]. destruct bytes; [done|]. cbn in Hz. lia.
  - intros [= <-]. set (r := MkReader _ _ _). assert (reader_ok r bytes) as Hr.
    { split; cbn; [done|done|done|lia]. }
    rewrite (read_all_spec (S (length bytes)) r bytes Hr) by (cbn; lia). done.
Qed.

(** Framed messages, then nothing or a truncated record. *)
Lemma frames_concat msgs tail :
  Forall (fun m => Z.of_nat (length m) < 2 ^ 16) msgs -> split_frame tail = None ->
  frames (concat (frame <$> msgs) ++ tail) = msgs.
Proof.
  intros Hm Ht. induction Hm as [|m msgs Hlt _ IH].
  - cbn [fmap list_fmap concat app]. by rewrite frames_split, Ht.
  - cbn [fmap list_fmap concat]. rewrite frames_split, <- app_assoc, split_frame_app by done. by rewrite IH.
Qed.
