(* ===== verification/ReaderOwnership.v ===== *)
(** * itch/file_reader.cpp: who owns the mapping

    [ItchFileReader] as an object that owns an operating-system resource: the
    constructor opens, maps and closes, [reset] unmaps, the moves hand the pointer
    over.  [OS] holds the open descriptors and the live mappings; a [data_] pointer
    is an address, and reading through an address that is not mapped, or unmapping
    it, is undefined.  [own_inv] says that every mapping has exactly one owner;
    [client_step_refines] relates any client to readers that simply hold their
    bytes ([ItchFileReader] of FileReader.v). *)

From stdpp Require Import fin_maps.
From S2P Require Import Prelude ByteOrder Messages Decode FileReader.

Local Open Scope Z_scope.

Module Ownership.

Record OS := MkOS {
  open_fds : gset Z;
  mappings : gmap Z (list byte)
}.

(** The three fields of the object. *)
Record handle := MkHandle {
  h_data : option Z;
  h_size : Z;
  h_offset : Z
}.

Definition null_handle : handle := MkHandle None 0 0.

Definition close_fd (os : OS) (fd : Z) : OS := MkOS (open_fds os ∖ {[fd]}) (mappings os).

(** [munmap(data, size)] of a mapping of that size. *)
Definition munmap (os : OS) (addr size : Z) : ub OS :=
  bytes ← mappings os !! addr;
  if size =? Z.of_nat (length bytes) then Some (MkOS (open_fds os) (delete addr (mappings os))) else None.

(** The constructor: the errno it throws with, or the object. *)
Definition construct (os : OS) (outcome : os_outcome) : OS * (Z + handle) :=
  match outcome with
  | OpenFailed e => (os, inl e)
  | FstatFailed e =>
      let fd := fresh (open_fds os) in
      let os := MkOS ({[fd]} ∪ open_fds os) (mappings os) in
      (close_fd os fd, inl e)
  | MmapFailed e st_size =>
      let fd := fresh (open_fds os) in
      let os := MkOS ({[fd]} ∪ open_fds os) (mappings os) in
      if st_size =? 0 then (close_fd os fd, inr null_handle) else (close_fd os fd, inl e)
  | Opened bytes =>
      let fd := fresh (open_fds os) in
      let os := MkOS ({[fd]} ∪ open_fds os) (mappings os) in
      let size := Z.of_nat (length bytes) in
      if size =? 0 then (close_fd os fd, inr null_handle)
      else
        let addr := fresh (dom (mappings os)) in
        let os := close_fd (MkOS (open_fds os) (<[addr := bytes]> (mappings os))) fd in
        (os, inr (MkHandle (Some addr) size 0))
  end.

Definition reset (os : OS) (h : handle) : ub (OS * handle) :=
  os ← (match h_data h with Some addr => munmap os addr (h_size h) | None => Some os end);
  Some (os, null_handle).

(** The new object, and what is left in [other]. *)
Definition move_construct (other : handle) : handle * handle :=
  (MkHandle (h_data other) (h_size other) (h_offset other), null_handle).

(** [*this = std::move(other)]; [self] is [this == &other]. *)
Definition move_assign (os : OS) (self : bool) (this other : handle) : ub (OS * handle * handle) :=
  if self then Some (os, this, this)
  else
    '(os, _) ← reset os this;
    Some (os, MkHandle (h_data other) (h_size other) (h_offset other), null_handle).

Definition destruct_reader (os : OS) (h : handle) : ub OS := '(os, _) ← reset os h; Some os.

(** The object as its reading functions see it: undefined when it dangles. *)
Definition deref (os : OS) (h : handle) : ub ItchFileReader :=
  match h_data h with
  | None => Some (MkReader None (h_size h) (h_offset h))
  | Some addr => bytes ← mappings os !! addr; Some (MkReader (Some bytes) (h_size h) (h_offset h))
  end.

Definition next_raw (os : OS) (h : handle) : ub (handle * option (list byte)) :=
  r ← deref os h;
  '(r, span) ← next_raw_message r;
  Some (MkHandle (h_data h) (size_ r) (offset_ r), span).

(** ** A client that creates, moves, reads and destroys readers *)

Inductive client_op :=
  | Construct (id : nat) (outcome : os_outcome)
  | MoveConstruct (dst src : nat)
  | MoveAssign (dst src : nat)
  | Read (id : nat)
  | Destroy (id : nat).

Inductive observation := Threw (errno : Z) | Span (span : option (list byte)) | Done.

(** [None] also for a client that uses an object that does not exist. *)
Definition client_step (st : OS * gmap nat handle) (o : client_op)
    : ub (OS * gmap nat handle * observation) :=
  let '(os, readers) := st in
  match o with
  | Construct id outcome =>
      match readers !! id with
      | Some _ => None
      | None =>
          match construct os outcome with
          | (os, inl e) => Some (os, readers, Threw e)
          | (os, inr h) => Some (os, <[id := h]> readers, Done)
          end
      end
  | MoveConstruct dst src =>
      h ← readers !! src;
      match readers !! dst with
      | Some _ => None
      | None => let '(new, old) := move_construct h in Some (os, <[dst := new]> (<[src := old]> readers), Done)
      end
  | MoveAssign dst src =>
      this ← readers !! dst;
      other ← readers !! src;
      '(os, new, old) ← move_assign os (bool_decide (dst = src)) this other;
      Some (os, <[dst := new]> (<[src := old]> readers), Done)
  | Read id =>
      h ← readers !! id;
      '(h, span) ← next_raw os h;
      Some (os, <[id := h]> readers, Span span)
  | Destroy id =>
      h ← readers !! id;
      os ← destruct_reader os h;
      Some (os, delete id readers, Done)
  end.

(** The same client over readers that hold their bytes by value. *)
Definition value_step (readers : gmap nat ItchFileReader) (o : client_op)
    : ub (gmap nat ItchFileReader * observation) :=
  let null := MkReader None 0 0 in
  match o with
  | Construct id outcome =>
      match readers !! id with
      | Some _ => None
      | None =>
          match open_reader outcome with
          | inl e => Some (readers, Threw e)
          | inr r => Some (<[id := r]> readers, Done)
          end
      end
  | MoveConstruct dst src =>
      r ← readers !! src;
      match readers !! dst with
      | Some _ => None
      | None => Some (<[dst := r]> (<[src := null]> readers), Done)
      end
  | MoveAssign dst src =>
      this ← readers !! dst;
      other ← readers !! src;
      if decide (dst = src) then Some (readers, Done)
      else Some (<[dst := other]> (<[src := null]> readers), Done)
  | Read id =>
      r ← readers !! id;
      '(r, span) ← next_raw_message r;
      Some (<[id := r]> readers, Span span)
  | Destroy id => r ← readers !! id; Some (delete id readers, Done)
  end.

Fixpoint client_run (st : OS * gmap nat handle) (ops : list client_op)
    : ub (OS * gmap nat handle * list observation) :=
  match ops with
  | [] => Some (st, [])
  | o :: ops =>
      '(st, obs) ← client_step st o;
      '(st, rest) ← client_run st ops;
      Some (st, obs :: rest)
  end.

Fixpoint value_run (readers : gmap nat ItchFileReader) (ops : list client_op)
    : ub (gmap nat ItchFileReader * list observation) :=
  match ops with
  | [] => Some (readers, [])
  | o :: ops =>
      '(readers, obs) ← value_step readers o;
      '(readers, rest) ← value_run readers ops;
      Some (readers, obs :: rest)
  end.

(** ** Every mapping has exactly one owner *)

(** [h] stands for [r]: it does not dangle, and its size is the mapping's. *)
Definition owns (os : OS) (h : handle) (r : ItchFileReader) : Prop :=
  deref os h = Some r /\
  (forall a, h_data h = Some a ->
     exists bytes, mappings os !! a = Some bytes /\ h_size h = Z.of_nat (length bytes)).

Record own_inv (os : OS) (readers : gmap nat handle) (values : gmap nat ItchFileReader) : Prop := {
  o_fds : open_fds os = ∅;
  o_rel : map_Forall2 (fun _ => owns os) readers values;
  o_unique : forall i j h h' a, readers !! i = Some h -> readers !! j = Some h' ->
    h_data h = Some a -> h_data h' = Some a -> i = j;
  o_owned : forall a bytes, mappings os !! a = Some bytes ->
    exists i h, readers !! i = Some h /\ h_data h = Some a
}.

Definition null_reader : ItchFileReader := MkReader None 0 0.

Lemma owns_null os : owns os null_handle null_reader.
Proof. by split. Qed.

(** A handle does not notice a change of another mapping. *)
Lemma owns_frame os os' h r :
  owns os h r -> (forall a, h_data h = Some a -> mappings os' !! a = mappings os !! a) -> owns os' h r.
Proof.
  intros [Hd Hs] Hsame. split.
  - unfold deref in *. destruct (h_data h) as [a|]; [by rewrite Hsame|done].
  - intros a Ha. rewrite Hsame by done. by apply Hs.
Qed.

Section client.
Variables (os : OS) (readers : gmap nat handle) (values : gmap nat ItchFileReader).
Hypothesis Hinv : own_inv os readers values.

Lemma own_lookup i h :
  readers !! i = Some h -> exists r, values !! i = Some r /\ owns os h r.
Proof.
  intros Hi. pose proof (o_rel _ _ _ Hinv i) as Hr. rewrite Hi in Hr.
  inversion Hr as [? r Ho|]. by exists r.
Qed.

Lemma own_lookup_r i r :
  values !! i = Some r -> exists h, readers !! i = Some h /\ owns os h r.
Proof.
  intros Hi. pose proof (o_rel _ _ _ Hinv i) as Hr. rewrite Hi in Hr.
  inversion Hr as [h ? Ho|]. by exists h.
Qed.

Lemma own_lookup_None i : values !! i = None -> readers !! i = None.
Proof. intros Hi. pose proof (o_rel _ _ _ Hinv i) as Hr. rewrite Hi in Hr. by inversion Hr. Qed.

(** [reset] releases exactly the object's own mapping. *)
Lemma reset_spec i h :
  readers !! i = Some h ->
  exists os', reset os h = Some (os', null_handle) /\
    own_inv os' (<[i := null_handle]> readers) (<[i := null_reader]> values).
Proof.
  intros Hi. destruct (own_lookup i h Hi) as (r & Hr & Hd & Hs). unfold reset.
  assert (forall os', open_fds os' = ∅ ->
    (forall a, h_data h <> Some a -> mappings os' !! a = mappings os !! a) ->
    (forall a, h_data h = Some a -> mappings os' !! a = None) ->
    own_inv os' (<[i := null_handle]> readers) (<[i := null_reader]> values)) as Hfinish.
  { intros os' Hf Hsame Hgone. split; [done| | |].
    - intros j. destruct (decide (j = i)) as [->|Hne].
      + rewrite !lookup_insert_eq. constructor. apply owns_null.
      + rewrite !lookup_insert_ne by done. pose proof (o_rel _ _ _ Hinv j) as Hj.
        destruct (readers !! j) as [hj|] eqn:Ej; inversion Hj as [? r' Ho|]; subst; constructor.
        eapply owns_frame; [exact Ho|]. intros a Ha. apply Hsame. intros Hha.
        apply Hne. by eapply (o_unique _ _ _ Hinv j i).
    - intros j k hj hk a Hj Hk Haj Hak.
      apply lookup_insert_Some in Hj as [[<- <-]|[_ Hj]]; [done|].
      apply lookup_insert_Some in Hk as [[<- <-]|[_ Hk]]; [done|]. by eapply (o_unique _ _ _ Hinv).
    - intros a bytes Ha. destruct (decide (h_data h = Some a)) as [Hh|Hh]; [by rewrite Hgone in Ha|].
      rewrite Hsame in Ha by done. destruct (o_owned _ _ _ Hinv a bytes Ha) as (j & hj & Hj & Hja).
      exists j, hj. split; [|done]. rewrite lookup_insert_ne; [done|]. intros <-. congruence. }
  destruct (h_data h) as [a|] eqn:Eh.
  - destruct (Hs a eq_refl) as (bytes & Ha & Hsz). unfold munmap. rewrite Ha. cbn [mbind option_bind].
    rewrite Hsz, Z.eqb_refl. cbn [mbind option_bind]. eexists. split; [done|]. apply Hfinish; cbn.
    + apply (o_fds _ _ _ Hinv).
    + intros a' Hne. apply lookup_delete_ne. congruence.
    + intros a' [= <-]. apply lookup_delete_eq.
  - cbn [mbind option_bind]. exists os. split; [done|]. apply Hfinish; [apply (o_fds _ _ _ Hinv)|done|done].
Qed.

(** A null object can disappear. *)
Lemma drop_null i h :
  readers !! i = Some h -> h_data h = None -> own_inv os (delete i readers) (delete i values).
Proof.
  intros Hi Hh. destruct Hinv as [Hf Hrel Hu Ho]. split; [done| | |].
  - by apply map_Forall2_delete.
  - intros j k hj hk a [_ Hj]%lookup_delete_Some [_ Hk]%lookup_delete_Some. by apply Hu.
  - intros a bytes Ha. destruct (Ho a bytes Ha) as (j & hj & Hj & Hja). exists j, hj. split; [|done].
    rewrite lookup_delete_ne; [done|]. intros <-. congruence.
Qed.

(** Handing a pointer over to an object that owns nothing. *)
Lemma transfer src dst h r :
  readers !! src = Some h -> values !! src = Some r -> dst <> src ->
  (forall h', readers !! dst = Some h' -> h_data h' = None) ->
  own_inv os (<[dst := h]> (<[src := null_handle]> readers)) (<[dst := r]> (<[src := null_reader]> values)).
Proof.
  intros Hsrc Hr Hne Hdst. destruct (own_lookup src h Hsrc) as (r' & Hr' & Howns). simplify_eq.
  destruct Hinv as [Hf Hrel Hu Ho]. split; [done| | |].
  - apply map_Forall2_insert_2; [done|]. apply map_Forall2_insert_2; [apply owns_null|done].
  - assert (forall j hj a, <[dst := h]> (<[src := null_handle]> readers) !! j = Some hj ->
      h_data hj = Some a -> exists j', readers !! j' = Some hj /\ j = if decide (j' = src) then dst else j') as Hback.
    { intros j hj a Hj Ha. apply lookup_insert_Some in Hj as [[<- <-]|[Hnd Hj]].
      - exists src. split; [done|]. by rewrite decide_True.
      - apply lookup_insert_Some in Hj as [[<- <-]|[Hns Hj]]; [done|]. exists j. split; [done|].
        by rewrite decide_False by congruence. }
    intros j k hj hk a Hj Hk Haj Hak. destruct (Hback j hj a Hj Haj) as (j' & Hj' & ->).
    destruct (Hback k hk a Hk Hak) as (k' & Hk' & ->). by rewrite (Hu j' k' hj hk a Hj' Hk' Haj Hak).
  - intros a bytes Ha. destruct (Ho a bytes Ha) as (j & hj & Hj & Hja).
    destruct (decide (j = src)) as [->|Hjs].
    + exists dst, h. rewrite lookup_insert_eq. split; [done|]. congruence.
    + exists j, hj. split; [|done]. rewrite !lookup_insert_ne; [done|congruence|].
      intros <-. rewrite (Hdst hj Hj) in Hja. done.
Qed.

Lemma own_same_os os' :
  open_fds os' = ∅ -> mappings os' = mappings os -> own_inv os' readers values.
Proof.
  intros Hf Hm. destruct Hinv as [_ Hrel Hu Ho]. split; [done| |done|].
  - eapply map_Forall2_impl; [exact Hrel|]. intros i h r Howns. apply (owns_frame os); [exact Howns|].
    intros a _. by rewrite Hm.
  - intros a bytes. rewrite Hm. apply Ho.
Qed.

(** A new object that owns nothing. *)
Lemma add_null i : readers !! i = None ->
  own_inv os (<[i := null_handle]> readers) (<[i := null_reader]> values).
Proof.
  intros Hi. destruct Hinv as [Hf Hrel Hu Ho]. split; [done| | |].
  - apply map_Forall2_insert_2; [apply owns_null|done].
  - intros j k hj hk a Hj Hk Haj Hak.
    apply lookup_insert_Some in Hj as [[<- <-]|[_ Hj]]; [done|].
    apply lookup_insert_Some in Hk as [[<- <-]|[_ Hk]]; [done|]. by eapply Hu.
  - intros a bytes Ha. destruct (Ho a bytes Ha) as (j & hj & Hj & Hja). exists j, hj. split; [|done].
    rewrite lookup_insert_ne; [done|]. intros <-. congruence.
Qed.

(** A new object and its own fresh mapping. *)
Lemma add_mapping i addr bytes os' :
  readers !! i = None -> mappings os !! addr = None -> open_fds os' = ∅ ->
  mappings os' = <[addr := bytes]> (mappings os) ->
  own_inv os' (<[i := MkHandle (Some addr) (Z.of_nat (length bytes)) 0]> readers)
    (<[i := MkReader (Some bytes) (Z.of_nat (length bytes)) 0]> values).
Proof.
  intros Hi Haddr Hf Hm. destruct Hinv as [_ Hrel Hu Ho].
  assert (forall j hj a, readers !! j = Some hj -> h_data hj = Some a -> a <> addr) as Hfresh.
  { intros j hj a Hj Ha ->. destruct (own_lookup j hj Hj) as (r & _ & _ & Hs).
    destruct (Hs addr Ha) as (? & ? & _). congruence. }
  split; [done| | |].
  - apply map_Forall2_insert_2.
    + split.
      * unfold deref. cbn. by rewrite Hm, lookup_insert_eq.
      * intros a [= <-]. exists bytes. by rewrite Hm, lookup_insert_eq.
    + intros j. pose proof (Hrel j) as Hj. destruct (readers !! j) as [hj|] eqn:Ej;
        inversion Hj as [? r Howns|]; subst; constructor. eapply owns_frame; [done|].
      intros a Ha. rewrite Hm, lookup_insert_ne; [done|]. apply not_eq_sym. by eapply Hfresh.
  - intros j k hj hk a Hj Hk Haj Hak.
    apply lookup_insert_Some in Hj as [[<- <-]|[_ Hj]]; apply lookup_insert_Some in Hk as [[<- <-]|[_ Hk]].
    + done.
    + cbn in Haj. simplify_eq. by destruct (Hfresh k hk a Hk Hak).
    + cbn in Hak. simplify_eq. by destruct (Hfresh j hj a Hj Haj).
    + by eapply Hu.
  - intros a bs Ha. rewrite Hm in Ha. apply lookup_insert_Some in Ha as [[<- <-]|[_ Ha]].
    + eexists i, _. by rewrite lookup_insert_eq.
    + destruct (Ho a bs Ha) as (j & hj & Hj & Hja). exists j, hj. split; [|done].
      rewrite lookup_insert_ne; [done|]. intros <-. congruence.
Qed.

(** Reading moves the offset of the object and nothing else. *)
Lemma add_read i h r r' :
  readers !! i = Some h -> values !! i = Some r -> data_ r' = data_ r -> size_ r' = size_ r ->
  own_inv os (<[i := MkHandle (h_data h) (size_ r') (offset_ r')]> readers) (<[i := r']> values).
Proof.
  intros Hi Hr Hd Hs. destruct (own_lookup i h Hi) as (r0 & Hr0 & Hderef & Hsz). simplify_eq.
  destruct Hinv as [Hf Hrel Hu Ho]. split; [done| | |].
  - apply map_Forall2_insert_2; [|done]. unfold owns, deref in *. cbn. destruct (h_data h) as [a|] eqn:Eh.
    + destruct (mappings os !! a) as [bytes|] eqn:Ea; [|done]. cbn [mbind option_bind] in *. simplify_eq. cbn in *.
      split; [by destruct r'; cbn in *; subst|]. intros a' [= <-]. exists bytes. split; [done|].
      destruct (Hsz a eq_refl) as (bs & Hbs & Hlen). congruence.
    + simplify_eq. cbn in *. split; [by destruct r'; cbn in *; subst|done].
  - assert (forall j hj a, <[i := MkHandle (h_data h) (size_ r') (offset_ r')]> readers !! j = Some hj ->
      h_data hj = Some a -> exists hj', readers !! j = Some hj' /\ h_data hj' = Some a) as Hback.
    { intros j hj a Hj Ha. apply lookup_insert_Some in Hj as [[<- <-]|[_ Hj]]; [by exists h|by exists hj]. }
    intros j k hj hk a Hj Hk Haj Hak. destruct (Hback j hj a Hj Haj) as (? & ? & ?).
    destruct (Hback k hk a Hk Hak) as (? & ? & ?). by eapply Hu.
  - intros a bytes Ha. destruct (Ho a bytes Ha) as (j & hj & Hj & Hja). destruct (decide (j = i)) as [->|Hne].
    + eexists i, _. rewrite lookup_insert_eq. split; [done|]. cbn. congruence.
    + exists j, hj. by rewrite lookup_insert_ne.
Qed.
End client.

(** ** The client cannot tell *)

Lemma next_raw_fields r r' span :
  next_raw_message r = Some (r', span) -> data_ r' = data_ r /\ size_ r' = size_ r.
Proof.
  unfold next_raw_message. intros Hn. destruct (data_ r) eqn:Ed; [|by simplify_eq].
  repeat case_match; try (by simplify_eq). minv Hn. repeat case_match; by simplify_eq.
Qed.

Lemma opened_closed os fd m : open_fds os = ∅ -> open_fds (close_fd (MkOS ({[fd]} ∪ open_fds os) m) fd) = ∅.
Proof. intros Hf. cbn. rewrite Hf. set_solver. Qed.

Lemma construct_refines os readers values id outcome values' obs :
  own_inv os readers values -> value_step values (Construct id outcome) = Some (values', obs) ->
  exists os' readers', client_step (os, readers) (Construct id outcome) = Some (os', readers', obs) /\
    own_inv os' readers' values'.
Proof.
  intros Hi Hv. cbn in *. destruct (values !! id) eqn:Eid; [done|].
  pose proof (own_lookup_None os readers values Hi id Eid) as Hid. rewrite Hid.
  pose proof (o_fds _ _ _ Hi) as Hf.
  destruct outcome as [e|e|e st_size|bytes]; cbn [construct open_reader] in *.
  - simplify_eq. by eexists _, _.
  - simplify_eq. eexists _, _. split; [done|]. eapply own_same_os; [done|by apply opened_closed|done].
  - destruct (st_size =? 0); simplify_eq; eexists _, _; (split; [done|]).
    + eapply add_null; [|done]. eapply own_same_os; [done|by apply opened_closed|done].
    + eapply own_same_os; [done|by apply opened_closed|done].
  - destruct (Z.of_nat (length bytes) =? 0); simplify_eq; eexists _, _; (split; [done|]).
    + eapply add_null; [|done]. eapply own_same_os; [done|by apply opened_closed|done].
    + eapply add_mapping; [done|done| |by apply opened_closed|done].
      apply not_elem_of_dom, is_fresh.
Qed.

Lemma client_step_refines os readers values o values' obs :
  own_inv os readers values -> value_step values o = Some (values', obs) ->
  exists os' readers', client_step (os, readers) o = Some (os', readers', obs) /\
    own_inv os' readers' values'.
Proof.
  intros Hi Hv. destruct o as [id outcome|dst src|dst src|id|id]; [by eapply construct_refines| | | |];
    cbn in *; minv Hv; destruct (own_lookup_r _ _ _ Hi _ _ E) as (h & Hh & Howns); rewrite Hh;
    cbn [mbind option_bind].
  - destruct (values !! dst) eqn:Ed; [done|]. pose proof (own_lookup_None _ _ _ Hi dst Ed) as Hd.
    rewrite Hd. simplify_eq. destruct h as [hd hs ho]. eexists _, _. split; [done|].
    eapply transfer; [done|done|done|congruence|]. intros h'. congruence.
  - minv Hv. destruct (own_lookup_r _ _ _ Hi _ _ E0) as (h0 & Hh0 & Howns0). rewrite Hh0.
    cbn [mbind option_bind]. unfold move_assign. destruct (decide (dst = src)) as [->|Hne].
    + rewrite bool_decide_eq_true_2 by done. cbn [mbind option_bind]. simplify_eq.
      eexists _, _. split; [done|]. by rewrite insert_insert_eq, insert_id.
    + rewrite bool_decide_eq_false_2 by done.
      destruct (reset_spec os readers values Hi dst h Hh) as (os' & -> & Hi'). cbn [mbind option_bind].
      simplify_eq. eexists _, _. split; [done|]. destruct h0 as [hd hs ho].
      pose proof (transfer os' _ _ Hi' src dst (MkHandle hd hs ho) x0) as Ht.
      rewrite !(insert_insert_ne _ dst src), !insert_insert_eq in Ht by done.
      rewrite !lookup_insert_ne in Ht by done. rewrite !(insert_insert_ne _ dst src) by done.
      apply Ht; [done|done|done|]. intros h'. rewrite lookup_insert_eq. by intros [= <-].
  - minv Hv. simplify_eq. destruct Howns as [Hd Hs]. unfold next_raw. rewrite Hd. cbn [mbind option_bind].
    rewrite E0. cbn [mbind option_bind]. eexists _, _. split; [done|].
    destruct (next_raw_fields _ _ _ E0). by eapply add_read.
  - simplify_eq. unfold destruct_reader. destruct (reset_spec os readers values Hi id h Hh) as (os' & -> & Hi').
    cbn [mbind option_bind]. eexists _, _. split; [done|].
    pose proof (drop_null os' _ _ Hi' id null_handle ltac:(apply lookup_insert_eq) eq_refl) as Hd.
    by rewrite !delete_insert_eq in Hd.
Qed.

Lemma client_run_refines ops os readers values values' obs :
  own_inv os readers values -> value_run values ops = Some (values', obs) ->
  exists os' readers', client_run (os, readers) ops = Some (os', readers', obs) /\
    own_inv os' readers' values'.
Proof.
  revert os readers values obs. induction ops as [|o ops IH]; intros os readers values obs Hi Hv.
  - cbn in Hv. simplify_eq. by exists os, readers.
  - cbn [value_run] in Hv. minv Hv. minv Hv. simplify_eq.
    destruct (client_step_refines _ _ _ _ _ _ Hi E) as (os1 & readers1 & Hst & Hi1).
    destruct (IH _ _ _ _ Hi1 E0) as (os' & readers' & Hrun & Hi').
    exists os', readers'. cbn [client_run]. rewrite Hst. cbn [mbind option_bind]. by rewrite Hrun.
Qed.

Lemma own_start : own_inv (MkOS ∅ ∅) ∅ ∅.
Proof.
  split; [done|by apply map_Forall2_empty| |].
  - intros i j h h' a. by rewrite lookup_empty.
  - intros a bytes. cbn. by rewrite lookup_empty.
Qed.
End Ownership.
