(* ===== verification/Synth.v ===== *)
(** * itch/synth.cpp: the synthetic ITCH feed generator

    [generate] writes a framed stream of encoded messages, over any random source
    and any iteration order of its map (StdModel.v).  The main loop runs until
    enough orders were added, which depends on the draws, so it carries fuel and
    reports whether it finished. *)

From S2P Require Import Prelude StdModel ByteOrder Messages.

Local Open Scope Z_scope.

Module Synth.

(** [LiveOrder]; the side is the character on the wire. *)
Record LiveOrder := MkLive {
  symbol_index : Z;
  remaining_shares : Z;
  live_price : Z;
  side : byte
}.

Record SynthConfig := MkConfig {
  seed : Z;
  num_orders : Z;
  symbols : list (list byte);
  base_price : Z;
  price_spread : Z
}.

(** ** Appending to a message buffer *)

Definition append_u16 (buf : list byte) (v : Z) : list byte :=
  (buf ++ [to_byte (Z.shiftr v 8)]) ++ [to_byte v].

(** [for (shift = ...; shift >= 0; shift -= 8) buf.push_back((v >> shift) & 0xFF)]. *)
Definition append_shifted (shifts : list Z) (buf : list byte) (v : Z) : list byte :=
  foldl (fun buf shift => buf ++ [to_byte (Z.shiftr v shift)]) buf shifts.

Definition append_u32 : list byte -> Z -> list byte := append_shifted [24; 16; 8; 0].
Definition append_u48 : list byte -> Z -> list byte := append_shifted [40; 32; 24; 16; 8; 0].
Definition append_u64 : list byte -> Z -> list byte :=
  append_shifted [56; 48; 40; 32; 24; 16; 8; 0].

Definition append_char (buf : list byte) (c : byte) : list byte := buf ++ [c].

Definition append_str_padded (buf s : list byte) (width : nat) : list byte :=
  foldl (fun buf i => buf ++ [match s !! i with Some c => c | None => " "%byte end]) buf (seq 0 width).

Definition append_header (buf : list byte) (type : byte) (locate tracking ts : Z) : list byte :=
  let buf := append_char buf type in
  let buf := append_u16 buf locate in
  let buf := append_u16 buf tracking in
  append_u48 buf ts.

(** The two-byte length, then the message. *)
Definition write_framed (out msg : list byte) : ub (list byte) :=
  len ← write_u16_be [x00; x00] 0 (u16 (Z.of_nat (length msg)));
  Some (out ++ len ++ msg).

Section generate.
Context {R : Type} `{!Random R} {M : Type} `{!UnorderedMap LiveOrder M}.
Variable config : SynthConfig.

(** The local variables of [generate]. *)
Record state := MkGen {
  rng : R;
  tracking : Z;
  ts : Z;
  next_order_ref : Z;
  next_match_number : Z;
  live_orders : M;
  orders_added : Z;
  out : list byte
}.

Definition with_rng st r : state :=
  MkGen r (tracking st) (ts st) (next_order_ref st) (next_match_number st) (live_orders st)
    (orders_added st) (out st).
Definition with_live st m : state :=
  MkGen (rng st) (tracking st) (ts st) (next_order_ref st) (next_match_number st) m
    (orders_added st) (out st).
Definition bump_order_ref st : state :=
  MkGen (rng st) (tracking st) (ts st) (next_order_ref st +u64 1) (next_match_number st)
    (live_orders st) (orders_added st) (out st).
Definition bump_match_number st : state :=
  MkGen (rng st) (tracking st) (ts st) (next_order_ref st) (next_match_number st +u64 1)
    (live_orders st) (orders_added st) (out st).
Definition bump_orders_added st : state :=
  MkGen (rng st) (tracking st) (ts st) (next_order_ref st) (next_match_number st) (live_orders st)
    (orders_added st +u64 1) (out st).

(** A message: the header with [tracking++] and [next_ts()], the fields, and
    [write_framed]. *)
Definition emit st (type : byte) (locate : Z) (fields : list byte -> list byte) : ub state :=
  let now := ts st +u64 1000 in
  let msg := fields (append_header [] type locate (tracking st) now) in
  out ← write_framed (out st) msg;
  Some (MkGen (rng st) (u16 (tracking st + 1)) now (next_order_ref st) (next_match_number st)
          (live_orders st) (orders_added st) out).

(** ** The message bodies *)

Definition system_event_fields (code : byte) (msg : list byte) : list byte := append_char msg code.

Definition stock_directory_fields (symbol msg : list byte) : list byte :=
  let msg := append_str_padded msg symbol 8 in
  let msg := append_char msg "Q" in
  let msg := append_char msg "N" in
  let msg := append_u32 msg 100 in
  let msg := append_char msg "Y" in
  let msg := append_char msg "C" in
  let msg := append_str_padded msg [] 2 in
  let msg := append_char msg "P" in
  let msg := append_char msg "N" in
  let msg := append_char msg "N" in
  let msg := append_char msg "1" in
  let msg := append_char msg "N" in
  let msg := append_u32 msg 0 in
  append_char msg "N".

Definition add_order_fields (with_mpid : bool) (ref : Z) (side : byte) (shares : Z)
    (symbol : list byte) (price : Z) (msg : list byte) : list byte :=
  let msg := append_u64 msg ref in
  let msg := append_char msg side in
  let msg := append_u32 msg shares in
  let msg := append_str_padded msg symbol 8 in
  let msg := append_u32 msg price in
  if with_mpid then append_str_padded msg ["E"; "D"; "G"; "X"]%byte 4 else msg.

Definition order_executed_fields (ref exec_shares match_number : Z) (msg : list byte) : list byte :=
  append_u64 (append_u32 (append_u64 msg ref) exec_shares) match_number.

Definition order_cancel_fields (ref cancel_shares : Z) (msg : list byte) : list byte :=
  append_u32 (append_u64 msg ref) cancel_shares.

Definition order_delete_fields (ref : Z) (msg : list byte) : list byte := append_u64 msg ref.

Definition order_replace_fields (ref new_ref new_shares new_price : Z) (msg : list byte) : list byte :=
  append_u32 (append_u32 (append_u64 (append_u64 msg ref) new_ref) new_shares) new_price.

Definition trade_fields (ref : Z) (side : byte) (shares : Z) (symbol : list byte)
    (price match_number : Z) (msg : list byte) : list byte :=
  let msg := append_u64 msg ref in
  let msg := append_char msg side in
  let msg := append_u32 msg shares in
  let msg := append_str_padded msg symbol 8 in
  let msg := append_u32 msg price in
  append_u64 msg match_number.

(** ** The random order flow *)

(** The bounds of [jitter_dist]: undefined when negating the cast spread
    overflows or the range is empty. *)
Definition jitter_bounds : ub (Z * Z) :=
  let spread := (price_spread config + 2 ^ 31) mod 2 ^ 32 - 2 ^ 31 in
  if (spread =? - 2 ^ 31) || (spread <? - spread) then None else Some (- spread, spread).

Definition symbol_upper : Z :=
  if decide (symbols config = []) then 0 else Z.of_nat (length (symbols config)) - 1.

Definition symbol_at (index : Z) : ub (list byte) :=
  if decide (symbols config = []) then Some ["T"; "E"; "S"; "T"]%byte
  else symbols config !! Z.to_nat index.

Definition side_char (draw : Z) : byte := if draw =? 0 then "B"%byte else "S"%byte.

(** [action < 55]. *)
Definition emit_add st (bounds : Z * Z) (index locate : Z) : ub state :=
  let '(side_draw, r) := side_dist (rng st) in
  let side := side_char side_draw in
  let '(shares, r) := shares_dist 10 1000 r in
  let '(jitter, r) := jitter_dist bounds.1 bounds.2 r in
  let price := u32 (base_price config + jitter) in
  let '(mpid, r) := mpid_dist r in
  let with_mpid := mpid =? 0 in
  symbol ← symbol_at index;
  let st := with_rng st r in
  let ref := next_order_ref st in
  st ← emit st (if with_mpid then "F" else "A")%byte locate
         (add_order_fields with_mpid ref side shares symbol price);
  let st := with_live st (um_set ref (MkLive index shares price side) (live_orders st)) in
  Some (bump_orders_added (bump_order_ref st)).

(** [order.remaining_shares -= delta; if (order.remaining_shares == 0) erase]. *)
Definition take_shares st (ref : Z) (order : LiveOrder) (delta : Z) : state :=
  let left := remaining_shares order -u32 delta in
  let live := um_set ref (MkLive (symbol_index order) left (live_price order) (side order))
                (live_orders st) in
  with_live st (if left =? 0 then um_erase ref live else live).

(** [action < 70]. *)
Definition emit_execute st (ref : Z) (order : LiveOrder) (locate : Z) : ub state :=
  let '(draw, r) := shares_dist 10 1000 (rng st) in
  let exec_shares := Z.min (remaining_shares order) draw in
  let st := with_rng st r in
  st ← emit st "E" locate (order_executed_fields ref exec_shares (next_match_number st));
  Some (take_shares (bump_match_number st) ref order exec_shares).

(** [action < 80]. *)
Definition emit_cancel st (ref : Z) (order : LiveOrder) (locate : Z) : ub state :=
  let '(draw, r) := shares_dist 10 1000 (rng st) in
  let cancel_shares := Z.min (remaining_shares order) draw in
  let st := with_rng st r in
  st ← emit st "X" locate (order_cancel_fields ref cancel_shares);
  Some (take_shares st ref order cancel_shares).

(** [action < 90]. *)
Definition emit_delete st (ref locate : Z) : ub state :=
  st ← emit st "D" locate (order_delete_fields ref);
  Some (with_live st (um_erase ref (live_orders st))).

(** [action < 97]. *)
Definition emit_replace st (bounds : Z * Z) (ref : Z) (order : LiveOrder) (locate : Z) : ub state :=
  let '(new_shares, r) := shares_dist 10 1000 (rng st) in
  let '(jitter, r) := jitter_dist bounds.1 bounds.2 r in
  let new_price := u32 (live_price order + jitter) in
  let new_ref := next_order_ref st in
  let st := bump_order_ref (with_rng st r) in
  st ← emit st "U" locate (order_replace_fields ref new_ref new_shares new_price);
  let replaced := MkLive (symbol_index order) new_shares new_price (side order) in
  Some (with_live st (um_set new_ref replaced (um_erase ref (live_orders st)))).

(** The rest: a trade report that is not tied to the book. *)
Definition emit_trade st (order : LiveOrder) (index locate : Z) : ub state :=
  symbol ← symbol_at index;
  let ref := next_order_ref st in
  let '(side_draw, r) := side_dist (rng st) in
  let '(shares, r) := shares_dist 10 1000 r in
  let st := bump_order_ref (with_rng st r) in
  st ← emit st "P" locate
         (trade_fields ref (side_char side_draw) shares symbol (live_price order)
            (next_match_number st));
  Some (bump_match_number st).

(** One iteration of the main loop. *)
Definition flow_step (bounds : Z * Z) st : ub state :=
  let '(index, r) := symbol_dist symbol_upper (rng st) in
  let locate := u16 (index + 1) in
  let '(action, r) :=
    if decide (um_entries (live_orders st) = []) then (0, r) else action_dist r in
  if action <? 55 then emit_add (with_rng st r) bounds index locate
  else
    let '(draw, r) := next_u64 r in
    let entries := um_entries (live_orders st) in
    '(ref, order) ← entries !! Z.to_nat (draw mod Z.of_nat (length entries));
    let st := with_rng st r in
    if action <? 70 then emit_execute st ref order locate
    else if action <? 80 then emit_cancel st ref order locate
    else if action <? 90 then emit_delete st ref locate
    else if action <? 97 then emit_replace st bounds ref order locate
    else emit_trade st order index locate.

(** The loop; false when the fuel ran out before enough orders were added. *)
Fixpoint flow (fuel : nat) (bounds : Z * Z) st : ub (state * bool) :=
  if negb (orders_added st <? num_orders config) then Some (st, true)
  else
    match fuel with
    | O => Some (st, false)
    | S fuel => st ← flow_step bounds st; flow fuel bounds st
    end.

(** The stock directory loop, from symbol [i] on. *)
Fixpoint directory (i : Z) (names : list (list byte)) st : ub state :=
  match names with
  | [] => Some st
  | symbol :: names =>
      st ← emit st "R" (u16 (i + 1)) (stock_directory_fields symbol);
      directory (i + 1) names st
  end.

Definition start : state := MkGen (seeded (seed config)) 1 0 1 1 um_empty 0 [].

(** The last block: the closing system event. *)
Definition end_of_messages st : ub state := emit st "S" 0 (system_event_fields "C").

Definition generate (fuel : nat) : ub (list byte * bool) :=
  bounds ← jitter_bounds;
  st ← emit start "S" 0 (system_event_fields "O");
  st ← directory 0 (symbols config) st;
  '(st, finished) ← flow fuel bounds st;
  if finished : bool then
    st ← end_of_messages st;
    Some (out st, true)
  else Some (out st, false).
End generate.
End Synth.
