(* ===== verification/SynthCodec.v ===== *)
(** * The wire forms the generator writes

    Every message body of itch/synth.cpp, after its header, is the exact wire form
    of a message that [decode] reads back ([encodes]); the integers keep the bytes
    their field has ([cut]). *)

From S2P Require Import Prelude ByteOrder Messages Decode FileReader Synth.

Local Open Scope Z_scope.

Module SynthCodec.
Import Synth.

(** ** Encodings *)

Lemma append_u16_be buf v : append_u16 buf v = buf ++ be_bytes 2 v.
Proof.
  unfold append_u16. rewrite <- app_assoc. cbn [be_bytes app]. change (8 * Z.of_nat 0) with 0.
  by rewrite Z.shiftr_0_r.
Qed.

Lemma append_u32_be buf v : append_u32 buf v = buf ++ be_bytes 4 v.
Proof. unfold append_u32, append_shifted. cbn [foldl]. by rewrite <- !app_assoc. Qed.

Lemma append_u48_be buf v : append_u48 buf v = buf ++ be_bytes 6 v.
Proof. unfold append_u48, append_shifted. cbn [foldl]. by rewrite <- !app_assoc. Qed.

Lemma append_u64_be buf v : append_u64 buf v = buf ++ be_bytes 8 v.
Proof. unfold append_u64, append_shifted. cbn [foldl]. by rewrite <- !app_assoc. Qed.

(** A string cut or padded with blanks to a width. *)
Definition padded (s : list byte) (width : nat) : list byte :=
  (fun i => match s !! i with Some c => c | None => " "%byte end) <$> seq 0 width.

Lemma append_str_padded_eq buf s width : append_str_padded buf s width = buf ++ padded s width.
Proof.
  unfold append_str_padded, padded. revert buf. induction (seq 0 width) as [|i l IH]; intros buf.
  - by rewrite app_nil_r.
  - cbn [foldl fmap list_fmap]. rewrite IH. by rewrite <- app_assoc.
Qed.

Lemma length_padded s width : length (padded s width) = width.
Proof. unfold padded. by rewrite length_fmap, length_seq. Qed.

(** The common header of every message. *)
Definition header_bytes (type : byte) (locate tracking ts : Z) : list byte :=
  type :: be_bytes 2 locate ++ be_bytes 2 tracking ++ be_bytes 6 ts.

Lemma append_header_eq type locate tracking ts :
  append_header [] type locate tracking ts = header_bytes type locate tracking ts.
Proof.
  unfold append_header, append_char. by rewrite append_u48_be, !append_u16_be, <- !app_assoc.
Qed.

Lemma write_framed_eq out msg :
  Z.of_nat (length msg) < 2 ^ 16 -> write_framed out msg = Some (out ++ frame msg).
Proof.
  intros Hl. unfold write_framed. rewrite u16_small by lia.
  pose proof (write_u16_be_spec [] [x00; x00] [] (Z.of_nat (length msg)) eq_refl) as Hw.
  cbn [app length] in Hw. rewrite Hw. cbn [mbind option_bind]. by rewrite app_nil_r.
Qed.

(** [raw] is exactly the wire form of [msg]. *)
Definition encodes (raw : list byte) (msg : DecodedMessage) : Prop :=
  decode raw = Some (Some msg) /\ Z.of_nat (length raw) = wire_length (type (header msg)).

(** What [n] bytes keep of a value. *)
Definition cut (n : nat) (v : Z) : Z := v mod 256 ^ Z.of_nat n.

Lemma cut_be n v : cut n v = be_value (be_bytes n v).
Proof. by rewrite be_value_be_bytes. Qed.

Lemma cut_small n v : 0 <= v < 256 ^ Z.of_nat n -> cut n v = v.
Proof. apply Z.mod_small. Qed.

Definition sent_header (t : MessageType) (locate tracking ts : Z) : MessageHeader :=
  {| type := t; stock_locate := cut 2 locate; tracking_number := cut 2 tracking;
     timestamp := cut 6 ts |}.

(** Evaluates the single characters read from bytes that are spelled out. *)
Ltac chars :=
  repeat match goal with
  | |- context [read_char ?raw ?p] =>
      let o := eval hnf in (read_char raw p) in change (read_char raw p) with o
  end.

(** Proves [encodes] for a message whose bytes are spelled out. *)
Ltac encoded :=
  rewrite ?append_header_eq, ?append_u32_be, ?append_u64_be, ?append_str_padded_eq,
    ?append_u32_be, ?append_u64_be, ?append_str_padded_eq, <- ?app_assoc;
  unfold encodes, sent_header; split; [|reflexivity];
  rewrite ?cut_be; unfold decode, header_bytes; cbn [app mbind option_bind];
  cbn [read_char lookup list_lookup mbind option_bind]; cbn [message_type_of_char];
  match goal with |- context [(wire_length ?t =? 0) || ?x] =>
    replace ((wire_length t =? 0) || x) with false by reflexivity end;
  decoders; chars; reads; rewrite ?decide_True, ?decide_False by done; chars; reads; reflexivity.

Section encodings.
Variables (locate tracking ts : Z).
Local Abbreviation hdr c := (append_header [] c locate tracking ts).

Lemma encodes_order_delete ref :
  encodes (order_delete_fields ref (hdr "D"%byte))
    {| header := sent_header OrderDelete locate tracking ts;
       payload := order_delete {| od_order_reference_number := cut 8 ref |} |}.
Proof. unfold order_delete_fields. encoded. Qed.

Lemma encodes_system_event code :
  encodes (system_event_fields code (hdr "S"%byte))
    {| header := sent_header SystemEvent locate tracking ts;
       payload := system_event {| se_event_code := code |} |}.
Proof. unfold system_event_fields, append_char. encoded. Qed.

Lemma encodes_stock_directory symbol :
  encodes (stock_directory_fields symbol (hdr "R"%byte))
    {| header := sent_header StockDirectory locate tracking ts;
       payload := stock_directory {|
         sd_stock := padded symbol 8; sd_market_category := "Q";
         sd_financial_status_indicator := "N"; sd_round_lot_size := 100;
         sd_round_lots_only := "Y"; sd_issue_classification := "C";
         sd_issue_subtype := [" "; " "]%byte; sd_authenticity := "P";
         sd_short_sale_threshold_indicator := "N"; sd_ipo_flag := "N";
         sd_luld_reference_price_tier := "1"; sd_etp_flag := "N";
         sd_etp_leverage_factor := 0; sd_inverse_indicator := "N" |} |}.
Proof. unfold stock_directory_fields, append_char. encoded. Qed.

Lemma encodes_add_order (with_mpid : bool) ref side shares symbol price :
  encodes (add_order_fields with_mpid ref side shares symbol price
             (hdr (if with_mpid then "F" else "A")%byte))
    {| header := sent_header (if with_mpid then AddOrderMPID else AddOrder) locate tracking ts;
       payload := Messages.add_order {|
         ao_order_reference_number := cut 8 ref; ao_buy_sell_indicator := side;
         ao_shares := cut 4 shares; ao_stock := padded symbol 8; ao_price := cut 4 price;
         ao_attribution := if with_mpid then ["E"; "D"; "G"; "X"]%byte else replicate 4 x00 |} |}.
Proof. destruct with_mpid; unfold add_order_fields, append_char; encoded. Qed.

Lemma encodes_order_executed ref shares match_number :
  encodes (order_executed_fields ref shares match_number (hdr "E"%byte))
    {| header := sent_header OrderExecuted locate tracking ts;
       payload := order_executed {|
         oe_order_reference_number := cut 8 ref; oe_executed_shares := cut 4 shares;
         oe_match_number := cut 8 match_number |} |}.
Proof. unfold order_executed_fields. encoded. Qed.

Lemma encodes_order_cancel ref shares :
  encodes (order_cancel_fields ref shares (hdr "X"%byte))
    {| header := sent_header OrderCancel locate tracking ts;
       payload := order_cancel {|
         oc_order_reference_number := cut 8 ref; oc_cancelled_shares := cut 4 shares |} |}.
Proof. unfold order_cancel_fields. encoded. Qed.

Lemma encodes_order_replace ref new_ref shares price :
  encodes (order_replace_fields ref new_ref shares price (hdr "U"%byte))
    {| header := sent_header OrderReplace locate tracking ts;
       payload := order_replace {|
         or_original_order_reference_number := cut 8 ref;
         or_new_order_reference_number := cut 8 new_ref;
         or_shares := cut 4 shares; or_price := cut 4 price |} |}.
Proof. unfold order_replace_fields. encoded. Qed.

Lemma encodes_trade ref side shares symbol price match_number :
  encodes (trade_fields ref side shares symbol price match_number (hdr "P"%byte))
    {| header := sent_header Trade locate tracking ts;
       payload := trade {|
         tr_order_reference_number := cut 8 ref; tr_buy_sell_indicator := side;
         tr_shares := cut 4 shares; tr_stock := padded symbol 8; tr_price := cut 4 price;
         tr_match_number := cut 8 match_number |} |}.
Proof. unfold trade_fields, append_char. encoded. Qed.
End encodings.

End SynthCodec.
