(* ===== verification/SynthProofs.v ===== *)
(** * The generator writes a decodable, self-consistent stream

    [gen_inv] keeps the live orders of the generator in step with the orders that
    rest after replaying the messages written so far ([replay]): no message of the
    stream is ever refused.  The second part bounds the number of iterations when
    the draws are fair. *)

From S2P Require Import Prelude StdModel ByteOrder Messages Decode OrderBook BookSpec Feed.
From S2P Require Import BookOps Tracking FileReader Synth SynthCodec.

Local Open Scope Z_scope.

Module SynthProofs.
Import Synth SynthCodec.

(** ** Replaying a stream that must not be refused *)

Definition accepted (res : list Rest * bool) : option (list Rest) :=
  if res.2 then Some res.1 else None.

(** [None] when the book would refuse the message. *)
Definition replay_step (cap : Z) (l : list Rest) (msg : DecodedMessage) : option (list Rest) :=
  match payload msg with
  | Messages.add_order p =>
      accepted (Spec.add cap l (ao_order_reference_number p) (ao_price p) (ao_shares p)
                  (is_B (ao_buy_sell_indicator p)) 0)
  | order_executed p => accepted (Spec.reduce l (oe_order_reference_number p) (oe_executed_shares p))
  | order_executed_with_price p =>
      accepted (Spec.reduce l (oep_order_reference_number p) (oep_executed_shares p))
  | order_cancel p => accepted (Spec.reduce l (oc_order_reference_number p) (oc_cancelled_shares p))
  | order_delete p => accepted (Spec.delete l (od_order_reference_number p))
  | order_replace p =>
      accepted (Spec.replace l (or_original_order_reference_number p)
                  (or_new_order_reference_number p) (or_shares p) (or_price p))
  | system_event _ | stock_directory _ | trade _ => Some l
  end.

Fixpoint replay (cap : Z) (l : list Rest) (msgs : list DecodedMessage) : option (list Rest) :=
  match msgs with
  | [] => Some l
  | msg :: msgs => l ← replay_step cap l msg; replay cap l msgs
  end.

Lemma replay_snoc cap l msgs msg l1 l2 :
  replay cap l msgs = Some l1 -> replay_step cap l1 msg = Some l2 ->
  replay cap l (msgs ++ [msg]) = Some l2.
Proof.
  revert l. induction msgs as [|m msgs IH]; intros l; cbn [replay app].
  - intros [= ->] ->. done.
  - destruct (replay_step cap l m); cbn [mbind option_bind]; [apply IH|done].
Qed.

Lemma replay_step_spec cap l msg l' : replay_step cap l msg = Some l' -> spec_apply cap l msg = l'.
Proof.
  unfold replay_step, spec_apply, accepted.
  destruct (payload msg); try (case_match; [|done]); by intros [= <-].
Qed.

Lemma replay_spec cap l msgs l' :
  replay cap l msgs = Some l' -> foldl (spec_apply cap) l msgs = l'.
Proof.
  revert l. induction msgs as [|m msgs IH]; intros l; cbn [replay foldl]; [by intros [= ->]|].
  destruct (replay_step cap l m) as [l1|] eqn:E; cbn [mbind option_bind]; [|done].
  rewrite (replay_step_spec _ _ _ _ E). apply IH.
Qed.

(** ** The generator's live orders against the resting orders *)

(** The resting order a live order stands for. *)
Definition view (e : Z * LiveOrder) : Rest :=
  MkRest e.1 (live_price e.2) (remaining_shares e.2) (is_B (side e.2)) 0.

Lemma view_ref e : r_ref (view e) = e.1.
Proof. done. Qed.

Definition is_add (msg : DecodedMessage) : bool :=
  match payload msg with Messages.add_order _ => true | _ => false end.

(** The order reference number a message introduces. *)
Definition new_ref (msg : DecodedMessage) : option Z :=
  match payload msg with
  | Messages.add_order p => Some (ao_order_reference_number p)
  | order_replace p => Some (or_new_order_reference_number p)
  | trade p => Some (tr_order_reference_number p)
  | _ => None
  end.

(** No reference is introduced twice, and all are below [bound]. *)
Definition new_refs_below (bound : Z) (msgs : list DecodedMessage) : Prop :=
  NoDup (omap new_ref msgs) /\ Forall (fun ref => ref < bound) (omap new_ref msgs).

Lemma new_refs_none bound msgs msg :
  new_refs_below bound msgs -> new_ref msg = None -> new_refs_below bound (msgs ++ [msg]).
Proof.
  intros H Hn. unfold new_refs_below. rewrite omap_app. cbn [omap list_omap]. by rewrite Hn, app_nil_r.
Qed.

Lemma new_refs_some bound msgs msg :
  new_refs_below bound msgs -> new_ref msg = Some bound -> new_refs_below (bound + 1) (msgs ++ [msg]).
Proof.
  intros [Hnd Hb] Hn. unfold new_refs_below. rewrite omap_app. cbn [omap list_omap]. rewrite Hn. split.
  - apply NoDup_app. split_and!; [done| |apply NoDup_singleton].
    intros ref Hr ->%list_elem_of_singleton. rewrite Forall_forall in Hb. apply Hb in Hr. lia.
  - apply Forall_app. split; [|apply Forall_singleton; lia]. eapply Forall_impl; [exact Hb|]. cbn. lia.
Qed.

(** The messages of the main loop. *)
Definition flow_message (msg : DecodedMessage) : bool :=
  match type (header msg) with
  | AddOrder | AddOrderMPID | OrderExecuted | OrderCancel | OrderDelete | OrderReplace | Trade => true
  | _ => false
  end.

Section invariant.
Context {R : Type} `{!Random R, !RandomRanges R} {M : Type} `{!UnorderedMap LiveOrder M, !UnorderedMapLaws LiveOrder M}.
Variable config : SynthConfig.
(** The capacity of the book that replays the stream. *)
Variable cap : Z.
Hypothesis Hcap : num_orders config <= cap.
Hypothesis Horders : num_orders config < 2 ^ 64.
Implicit Types (st : @state R M) (msgs : list DecodedMessage) (l : list Rest).

(** [out] is a framed stream of wire forms whose replay is accepted and leaves [l]. *)
Definition written (out : list byte) msgs l : Prop :=
  exists raws, out = concat (frame <$> raws) /\ Forall2 encodes raws msgs /\
    replay cap [] msgs = Some l.

Lemma wire_length_range t : 0 <= wire_length t < 2 ^ 16.
Proof. by destruct t. Qed.

Lemma emit_written st type locate fields msg msgs l l' :
  written (out st) msgs l ->
  encodes (fields (append_header [] type locate (tracking st) (ts st +u64 1000))) msg ->
  replay_step cap l msg = Some l' ->
  exists o, emit st type locate fields =
      Some (MkGen (rng st) (u16 (tracking st + 1)) (ts st +u64 1000) (next_order_ref st)
              (next_match_number st) (live_orders st) (orders_added st) o) /\
    written o (msgs ++ [msg]) l'.
Proof.
  intros (raws & Ho & Henc & Hrep) He Hr. unfold emit.
  rewrite write_framed_eq by (destruct He as [_ ->]; apply wire_length_range). cbn [mbind option_bind].
  eexists. split; [done|]. eexists (raws ++ [_]). split_and!.
  - rewrite fmap_app, concat_app, Ho. cbn [fmap list_fmap concat]. by rewrite app_nil_r.
  - by apply Forall2_app; [|constructor].
  - by eapply replay_snoc.
Qed.

Definition live_ok (bound : Z) (e : Z * LiveOrder) : Prop :=
  1 <= e.1 < bound /\ 0 < remaining_shares e.2 < 2 ^ 32 /\ 0 <= live_price e.2 < 2 ^ 32.

Record gen_inv (n : nat) st msgs l : Prop := {
  g_written : written (out st) msgs l;
  g_live : view <$> um_entries (live_orders st) ≡ₚ l;
  g_ok : forall e, e ∈ um_entries (live_orders st) -> live_ok (next_order_ref st) e;
  g_ref : 1 <= next_order_ref st <= Z.of_nat n + 1;
  g_new : new_refs_below (next_order_ref st) msgs;
  g_adds : orders_added st = countZ is_add msgs;
  g_count : Z.of_nat (length l) <= orders_added st <= Z.max 0 (num_orders config)
}.

Lemma live_ok_le b b' e : live_ok b e -> b <= b' -> live_ok b' e.
Proof. unfold live_ok. lia. Qed.

(** A message that leaves the book alone. *)
Lemma emit_silent n st msgs l type locate fields msg :
  gen_inv n st msgs l ->
  encodes (fields (append_header [] type locate (tracking st) (ts st +u64 1000))) msg ->
  replay_step cap l msg = Some l -> is_add msg = false -> new_ref msg = None ->
  exists st', emit st type locate fields = Some st' /\ gen_inv n st' (msgs ++ [msg]) l /\
    rng st' = rng st /\ live_orders st' = live_orders st /\ orders_added st' = orders_added st /\
    next_order_ref st' = next_order_ref st.
Proof.
  intros [Hw Hl Hok Href Hnr Hadd Hc] He Hr Hna Hnn.
  destruct (emit_written _ _ _ _ _ _ _ _ Hw He Hr) as (o & Hem & Hw').
  eexists. split; [exact Hem|]. split; [|done]. split; cbn; try done; [by apply new_refs_none|].
  rewrite Hadd. unfold countZ. rewrite sumZ_app. cbn. rewrite Hna. cbn. lia.
Qed.

Lemma count_snoc_add msgs msg b : is_add msg = b -> countZ is_add (msgs ++ [msg]) = countZ is_add msgs + Z.b2z b.
Proof. intros <-. unfold countZ. rewrite sumZ_app. cbn. lia. Qed.

Lemma symbol_at_defined index :
  0 <= index <= symbol_upper config -> exists symbol, symbol_at config index = Some symbol.
Proof.
  intros Hi. unfold symbol_at, symbol_upper in *. case_decide; [by eexists|].
  apply lookup_lt_is_Some_2. destruct (symbols config); cbn in *; [done|lia].
Qed.

Lemma emit_add_inv n st msgs l bounds index locate :
  gen_inv n st msgs l -> orders_added st < num_orders config -> Z.of_nat n + 2 < 2 ^ 64 ->
  0 <= index <= symbol_upper config ->
  exists st' msg l', emit_add config st bounds index locate = Some st' /\ flow_message msg = true /\
    gen_inv (S n) st' (msgs ++ [msg]) l'.
Proof.
  intros [Hw Hl Hok Href Hnr Hadd Hc] Hlt Hn Hi. unfold emit_add.
  destruct (side_dist (rng st)) as [sd r1]. pose proof (shares_range 10 1000 r1 ltac:(lia)) as Hs.
  destruct (shares_dist _ _ r1) as [sh r2]. destruct (jitter_dist _ _ r2) as [j r3].
  destruct (mpid_dist r3) as [mp r4]. cbn in Hs.
  destruct (symbol_at_defined index Hi) as [symbol ->]. cbn [mbind option_bind]. set (p := u32 (base_price config + j)).
  assert (0 <= p < 2 ^ 32) by apply u32_range.
  set (o := MkLive index sh p (side_char sd)).
  assert (forall e, e ∈ um_entries (live_orders st) -> e.1 <> next_order_ref st) as Hnew.
  { intros e He. destruct (Hok e He). lia. }
  destruct (add_tracks view view_ref _ _ Hl cap (next_order_ref st) o Hnew) as [Hspec Hl'];
    [cbn; lia|done|lia|]. cbn [view fst snd o r_price r_shares r_buy live_price remaining_shares side] in Hspec.
  destruct (emit_written (with_rng st r4) (if (mp =? 0)%Z then "F" else "A")%byte locate
    (add_order_fields (mp =? 0) (next_order_ref st) (side_char sd) sh symbol p) _ msgs l
    (l ++ [view (next_order_ref st, o)]) Hw (encodes_add_order _ _ _ _ _ _ _ _ _)) as (out' & Hem & Hw').
  { cbn. rewrite !cut_small by (cbn; lia). by rewrite Hspec. }
  cbn [next_order_ref with_rng] in Hem |- *. rewrite Hem. cbn [mbind option_bind]. do 3 eexists. split; [done|].
  split; [|split; cbn; [exact Hw'|exact Hl'| | | | |]; rewrite ?(u64_small (_ + 1)) by lia].
  - by destruct (mp =? 0).
  - intros e He. rewrite set_fresh in He by done. apply elem_of_cons in He as [->|He].
    + split; cbn; lia.
    + eapply live_ok_le; [by apply Hok|lia].
  - lia.
  - apply new_refs_some; [done|]. cbn. by rewrite cut_small by (cbn; lia).
  - rewrite (count_snoc_add _ _ true) by done. cbn. lia.
  - rewrite length_app. cbn. lia.
Qed.

Lemma gen_inv_S n st msgs l : gen_inv n st msgs l -> gen_inv (S n) st msgs l.
Proof. intros [????? ??]. split; try done. lia. Qed.

(** Executions and cancellations. *)
Lemma take_inv n st msgs l type locate fields msg ref o delta :
  gen_inv n st msgs l -> (ref, o) ∈ um_entries (live_orders st) ->
  0 < delta <= remaining_shares o ->
  encodes (fields (append_header [] type locate (tracking st) (ts st +u64 1000))) msg ->
  replay_step cap l msg = accepted (Spec.reduce l ref delta) -> is_add msg = false -> new_ref msg = None ->
  exists st1 l', emit st type locate fields = Some st1 /\
    gen_inv n (take_shares st1 ref o delta) (msgs ++ [msg]) l' /\
    gen_inv n (take_shares (bump_match_number st1) ref o delta) (msgs ++ [msg]) l'.
Proof.
  intros [Hw Hl Hok Href Hnr Hadd Hc] He Hd Henc Hrep Hna Hnn. destruct (Hok _ He) as (Hr & Hs & Hp). cbn in Hr, Hs, Hp.
  destruct (take_tracks view view_ref _ _ Hl ref o
    (MkLive (symbol_index o) (remaining_shares o - delta) (live_price o) (side o)) delta He Hd eq_refl)
    as (l' & Hacc & Hl' & Hlen & Hes). cbn [view r_shares fst snd] in Hl', Hes.
  rewrite <- (u32_small (remaining_shares o - delta)) in Hl', Hes by lia.
  rewrite Hacc in Hrep. destruct (emit_written _ _ _ _ _ _ _ _ Hw Henc Hrep) as (out' & Hem & Hw').
  assert (forall e, e ∈ um_entries (live_orders (take_shares st ref o delta)) ->
    live_ok (next_order_ref st) e) as Hok'.
  { intros e [Hin|[-> Hpos]]%Hes; [by apply Hok|]. rewrite u32_small in Hpos by lia.
    split; cbn; [done|]. rewrite u32_small; lia. }
  eexists _, l'. split; [exact Hem|].
  split; (split; cbn; [exact Hw'|exact Hl'|exact Hok'|done|by apply new_refs_none| |lia]);
    rewrite (count_snoc_add _ _ false) by done; cbn; lia.
Qed.

Lemma emit_execute_inv n st msgs l ref o locate :
  gen_inv n st msgs l -> (ref, o) ∈ um_entries (live_orders st) -> Z.of_nat n + 2 < 2 ^ 64 ->
  exists st' msg l', emit_execute st ref o locate = Some st' /\ flow_message msg = true /\
    gen_inv n st' (msgs ++ [msg]) l'.
Proof.
  intros Hi He Hn. destruct (g_ok _ _ _ _ Hi _ He) as (Hr & Hs & Hp). cbn in Hr, Hs, Hp.
  pose proof (g_ref _ _ _ _ Hi). unfold emit_execute.
  pose proof (shares_range 10 1000 (rng st) ltac:(lia)) as Hd. destruct (shares_dist _ _ (rng st)) as [d r]. cbn in Hd.
  set (delta := Z.min (remaining_shares o) d).
  destruct (take_inv n (with_rng st r) msgs l "E"%byte locate
    (order_executed_fields ref delta (next_match_number st)) _ ref o delta
    ltac:(by destruct Hi) He ltac:(lia) (encodes_order_executed _ _ _ _ _ _)) as (st1 & l' & Hem & _ & Hi').
  { cbn. by rewrite !cut_small by (cbn; lia). }
  { done. }
  { done. }
  cbn [next_match_number with_rng] in Hem |- *. rewrite Hem. do 3 eexists. split; [done|]. split; [|exact Hi']. done.
Qed.

Lemma emit_cancel_inv n st msgs l ref o locate :
  gen_inv n st msgs l -> (ref, o) ∈ um_entries (live_orders st) -> Z.of_nat n + 2 < 2 ^ 64 ->
  exists st' msg l', emit_cancel st ref o locate = Some st' /\ flow_message msg = true /\
    gen_inv n st' (msgs ++ [msg]) l'.
Proof.
  intros Hi He Hn. destruct (g_ok _ _ _ _ Hi _ He) as (Hr & Hs & Hp). cbn in Hr, Hs, Hp.
  pose proof (g_ref _ _ _ _ Hi). unfold emit_cancel.
  pose proof (shares_range 10 1000 (rng st) ltac:(lia)) as Hd. destruct (shares_dist _ _ (rng st)) as [d r]. cbn in Hd.
  set (delta := Z.min (remaining_shares o) d).
  destruct (take_inv n (with_rng st r) msgs l "X"%byte locate
    (order_cancel_fields ref delta) _ ref o delta
    ltac:(by destruct Hi) He ltac:(lia) (encodes_order_cancel _ _ _ _ _)) as (st1 & l' & Hem & Hi' & _).
  { cbn. by rewrite !cut_small by (cbn; lia). }
  { done. }
  { done. }
  rewrite Hem. do 3 eexists. split; [done|]. split; [|exact Hi']. done.
Qed.

Lemma emit_delete_inv n st msgs l ref o locate :
  gen_inv n st msgs l -> (ref, o) ∈ um_entries (live_orders st) -> Z.of_nat n + 2 < 2 ^ 64 ->
  exists st' msg l', emit_delete st ref locate = Some st' /\ flow_message msg = true /\
    gen_inv n st' (msgs ++ [msg]) l'.
Proof.
  intros [Hw Hl Hok Href Hnr Hadd Hc] He Hn. destruct (Hok _ He) as (Hr & _). cbn in Hr. unfold emit_delete.
  destruct (delete_tracks view view_ref _ _ Hl ref o He) as (Hspec & Hl' & Hlen).
  destruct (emit_written st "D"%byte locate (order_delete_fields ref) _ msgs l (Spec.remove_ref ref l) Hw
    (encodes_order_delete _ _ _ _)) as (out' & Hem & Hw').
  { cbn. rewrite cut_small by (cbn; lia). by rewrite Hspec. }
  rewrite Hem. cbn [mbind option_bind]. do 3 eexists. split; [done|].
  split; [|split; cbn; [exact Hw'|exact Hl'| |done|by apply new_refs_none| |lia]].
  - done.
  - intros e Hin. apply Hok. by eapply erased_elem.
  - rewrite (count_snoc_add _ _ false) by done. cbn. lia.
Qed.

Lemma emit_replace_inv n st msgs l bounds ref o locate :
  gen_inv n st msgs l -> (ref, o) ∈ um_entries (live_orders st) -> Z.of_nat n + 2 < 2 ^ 64 ->
  exists st' msg l', emit_replace st bounds ref o locate = Some st' /\ flow_message msg = true /\
    gen_inv (S n) st' (msgs ++ [msg]) l'.
Proof.
  intros [Hw Hl Hok Href Hnr Hadd Hc] He Hn. destruct (Hok _ He) as (Hr & _). cbn in Hr. unfold emit_replace.
  pose proof (shares_range 10 1000 (rng st) ltac:(lia)) as Hs.
  destruct (shares_dist _ _ (rng st)) as [sh r1]. cbn in Hs.
  destruct (jitter_dist _ _ r1) as [j r2]. set (p := u32 (live_price o + j)).
  assert (0 <= p < 2 ^ 32) by apply u32_range. set (new := next_order_ref st) in *.
  assert (forall e, e ∈ um_entries (live_orders st) -> e.1 <> new) as Hnew.
  { intros e Hin. destruct (Hok e Hin). lia. }
  destruct (replace_tracks view view_ref _ _ Hl ref o new (MkLive (symbol_index o) sh p (side o)) He Hnew)
    as (l' & Hspec & Hl' & Hlen & Hes); [cbn; lia|done|done|]. cbn [view r_shares r_price fst snd] in Hspec.
  destruct (emit_written (bump_order_ref (with_rng st r2)) "U"%byte locate
    (order_replace_fields ref new sh p) _ msgs l l' Hw (encodes_order_replace _ _ _ _ _ _ _))
    as (out' & Hem & Hw').
  { cbn. rewrite !cut_small by (cbn; lia). cbn in Hspec. by rewrite Hspec. }
  rewrite Hem. cbn [mbind option_bind]. do 3 eexists. split; [done|].
  split; [|split; cbn; [exact Hw'|exact Hl'| | | | |lia]; fold new; rewrite ?(u64_small (new + 1)) by lia].
  - done.
  - intros e [Hin| ->]%Hes; [eapply live_ok_le; [by apply Hok|lia]|]. split; cbn; lia.
  - lia.
  - apply new_refs_some; [done|]. cbn. by rewrite cut_small by (cbn; lia).
  - rewrite (count_snoc_add _ _ false) by done. cbn. lia.
Qed.

Lemma emit_trade_inv n st msgs l o index locate :
  gen_inv n st msgs l -> Z.of_nat n + 2 < 2 ^ 64 -> 0 <= index <= symbol_upper config ->
  exists st' msg l', emit_trade config st o index locate = Some st' /\ flow_message msg = true /\
    gen_inv (S n) st' (msgs ++ [msg]) l'.
Proof.
  intros [Hw Hl Hok Href Hnr Hadd Hc] Hn Hi. unfold emit_trade.
  destruct (symbol_at_defined index Hi) as [symbol ->]. cbn [mbind option_bind].
  destruct (side_dist (rng st)) as [sd r1]. destruct (shares_dist _ _ r1) as [sh r2].
  destruct (emit_written (bump_order_ref (with_rng st r2)) "P"%byte locate
    (trade_fields (next_order_ref st) (side_char sd) sh symbol (live_price o) (next_match_number st))
    _ msgs l l Hw (encodes_trade _ _ _ _ _ _ _ _ _)) as (out' & Hem & Hw'); [done|].
  cbn [next_match_number bump_order_ref with_rng] in Hem |- *. rewrite Hem. cbn [mbind option_bind].
  do 3 eexists. split; [done|].
  split; [|split; cbn; [exact Hw'|done| | | | |done]; rewrite ?(u64_small (_ + 1)) by lia].
  - done.
  - intros e He. eapply live_ok_le; [by apply Hok|lia].
  - lia.
  - apply new_refs_some; [done|]. cbn. by rewrite cut_small by (cbn; lia).
  - rewrite (count_snoc_add _ _ false) by done. cbn. lia.
Qed.

(** One iteration keeps the invariant and is never undefined. *)
Lemma flow_step_inv n st msgs l bounds :
  gen_inv n st msgs l -> orders_added st < num_orders config -> Z.of_nat n + 2 < 2 ^ 64 ->
  exists st' msg l', flow_step config bounds st = Some st' /\ flow_message msg = true /\
    gen_inv (S n) st' (msgs ++ [msg]) l'.
Proof.
  intros Hi Hlt Hn. unfold flow_step.
  assert (0 <= symbol_upper config) as Hup.
  { unfold symbol_upper. case_decide; [done|]. destruct (symbols config); cbn in *; [done|lia]. }
  pose proof (symbol_range _ (rng st) Hup) as Hx. destruct (symbol_dist _ (rng st)) as [index r]. cbn in Hx.
  set (es := um_entries (live_orders st)).
  destruct (if decide (es = []) then (0, r) else action_dist r) as [action r'] eqn:Ha.
  destruct (Z.ltb_spec action 55) as [Hadd|Hact].
  { by apply (emit_add_inv n (with_rng st r') msgs l); [destruct Hi| | |]. }
  assert (es <> []) as Hne by (intros Hz; rewrite decide_True in Ha by done; simplify_eq; lia).
  destruct (next_u64 r') as [draw r''].
  destruct (lookup_lt_is_Some_2 es (Z.to_nat (draw mod Z.of_nat (length es)))) as [[ref o] Hlk].
  { destruct es as [|e es']; [done|]. pose proof (Z.mod_pos_bound draw (Z.of_nat (length (e :: es'))) ltac:(cbn; lia)). lia. }
  rewrite Hlk. cbn [mbind option_bind]. apply list_elem_of_lookup_2 in Hlk.
  assert (gen_inv n (with_rng st r'') msgs l) as Hi' by (by destruct Hi).
  destruct (action <? 70); [|destruct (action <? 80); [|destruct (action <? 90); [|destruct (action <? 97)]]].
  - destruct (emit_execute_inv n _ msgs l ref o (u16 (index + 1)) Hi' Hlk Hn) as (st' & msg & l' & ? & ? & ?).
    exists st', msg, l'. split_and!; [done|done|by apply gen_inv_S].
  - destruct (emit_cancel_inv n _ msgs l ref o (u16 (index + 1)) Hi' Hlk Hn) as (st' & msg & l' & ? & ? & ?).
    exists st', msg, l'. split_and!; [done|done|by apply gen_inv_S].
  - destruct (emit_delete_inv n _ msgs l ref o (u16 (index + 1)) Hi' Hlk Hn) as (st' & msg & l' & ? & ? & ?).
    exists st', msg, l'. split_and!; [done|done|by apply gen_inv_S].
  - by apply emit_replace_inv with (l := l).
  - by apply emit_trade_inv with (l := l).
Qed.

Lemma flow_inv fuel n st msgs l bounds :
  gen_inv n st msgs l -> Z.of_nat n + Z.of_nat fuel + 1 < 2 ^ 64 ->
  exists st' finished flow_msgs l', flow config fuel bounds st = Some (st', finished) /\
    gen_inv (n + fuel) st' (msgs ++ flow_msgs) l' /\
    Forall (fun msg => flow_message msg = true) flow_msgs /\ (length flow_msgs <= fuel)%nat /\
    (finished = true -> num_orders config <= orders_added st').
Proof.
  revert n st msgs l. induction fuel as [|fuel IH]; intros n st msgs l Hi Hn; cbn [flow];
    destruct (Z.ltb_spec (orders_added st) (num_orders config)) as [Hlt|Hge]; cbn [negb].
  - exists st, false, [], l. rewrite app_nil_r, Nat.add_0_r. by split_and!.
  - exists st, true, [], l. rewrite app_nil_r, Nat.add_0_r. by split_and!.
  - destruct (flow_step_inv n st msgs l bounds Hi Hlt ltac:(lia)) as (st1 & msg & l1 & -> & Hk & Hi1).
    cbn [mbind option_bind].
    destruct (IH (S n) st1 _ l1 Hi1 ltac:(lia)) as (st' & fin & ms & l' & Hf & Hi' & Hks & Hlen & Hd).
    exists st', fin, (msg :: ms), l'. rewrite <- app_assoc in Hi'. split; [done|].
    replace (n + S fuel)%nat with (S n + fuel)%nat by lia.
    split_and!; [done|by constructor|cbn; lia|done].
  - exists st, true, [], l. rewrite app_nil_r. split; [done|]. split; [|split_and!; [done|cbn; lia|done]].
    clear -Hi. induction (S fuel) as [|k IHk]; [by rewrite Nat.add_0_r|].
    rewrite Nat.add_succ_r. by apply gen_inv_S.
Qed.

(** ** The whole stream *)

Definition system_message (code : byte) (msg : DecodedMessage) : Prop :=
  type (header msg) = SystemEvent /\ payload msg = system_event {| se_event_code := code |}.

(** The directory message of a symbol. *)
Definition directory_message (symbol : list byte) (msg : DecodedMessage) : Prop :=
  type (header msg) = StockDirectory /\
  exists p, payload msg = stock_directory p /\ sd_stock p = padded symbol 8.

Lemma directory_inv names i n st msgs l :
  gen_inv n st msgs l ->
  exists st' dirs, directory i names st = Some st' /\ gen_inv n st' (msgs ++ dirs) l /\
    Forall2 directory_message names dirs /\ rng st' = rng st /\
    orders_added st' = orders_added st.
Proof.
  revert i st msgs. induction names as [|symbol names IH]; intros i st msgs Hi; cbn [directory].
  - exists st, []. by rewrite app_nil_r.
  - destruct (emit_silent n st msgs l "R"%byte (u16 (i + 1)) (stock_directory_fields symbol) _ Hi
      (encodes_stock_directory _ _ _ _) eq_refl eq_refl eq_refl) as (st1 & -> & Hi1 & Hr & _ & Ha & _).
    cbn [mbind option_bind]. destruct (IH (i + 1) st1 _ Hi1) as (st' & dirs & -> & Hi' & Hd & Hr' & Ha').
    rewrite <- app_assoc in Hi'. eexists st', (_ :: dirs). split; [done|]. split; [exact Hi'|].
    split_and!; [|congruence|congruence]. constructor; [|done]. split; [done|]. by eexists.
Qed.

Lemma start_gen_inv : gen_inv 0 (start config) [] [].
Proof.
  split; cbn.
  - by exists [].
  - by rewrite um_entries_empty.
  - intros e. rewrite um_entries_empty. by intros ?%elem_of_nil.
  - lia.
  - split; [apply NoDup_nil_2|done].
  - done.
  - lia.
Qed.

(** The state at the head of the main loop. *)
Lemma prologue_inv :
  exists st0 st, emit (start config) "S"%byte 0 (system_event_fields "O") = Some st0 /\
    directory 0 (symbols config) st0 = Some st /\ orders_added st = 0 /\
    rng st = seeded (seed config) /\
    exists first dirs, gen_inv 0 st (first :: dirs) [] /\ system_message "O"%byte first /\
      Forall2 directory_message (symbols config) dirs.
Proof.
  destruct (emit_silent 0 (start config) [] [] "S"%byte 0 (system_event_fields "O") _ start_gen_inv
    (encodes_system_event _ _ _ _) eq_refl eq_refl eq_refl) as (st0 & H0 & Hi0 & Hr0 & _ & Ha0 & _).
  destruct (directory_inv (symbols config) 0 0 st0 _ _ Hi0) as (st & dirs & Hd & Hi & Hds & Hr & Ha).
  exists st0, st. split_and!; [done|done|by rewrite Ha, Ha0|by rewrite Hr, Hr0|].
  eexists _, dirs. split_and!; [exact Hi|by split|done].
Qed.

Lemma jitter_bounds_defined :
  0 <= price_spread config < 2 ^ 31 -> jitter_bounds config = Some (- price_spread config, price_spread config).
Proof.
  intros Hs. unfold jitter_bounds. rewrite Z.mod_small by lia.
  replace (price_spread config + 2 ^ 31 - 2 ^ 31) with (price_spread config) by lia.
  rewrite (proj2 (Z.eqb_neq _ _)), (proj2 (Z.ltb_ge _ _)) by lia. done.
Qed.

Lemma generate_inv (fuel : nat) :
  0 <= price_spread config < 2 ^ 31 -> Z.of_nat fuel + 1 < 2 ^ 64 ->
  exists out finished first dirs flow_msgs last l,
    generate config fuel = Some (out, finished) /\
    written out (first :: dirs ++ flow_msgs ++ last) l /\
    NoDup (omap new_ref (first :: dirs ++ flow_msgs ++ last)) /\
    system_message "O"%byte first /\ Forall2 directory_message (symbols config) dirs /\
    Forall (fun msg => flow_message msg = true) flow_msgs /\ (length flow_msgs <= fuel)%nat /\
    (if finished then
       exists msg, last = [msg] /\ system_message "C"%byte msg /\
         countZ is_add (first :: dirs ++ flow_msgs ++ last) = Z.max 0 (num_orders config)
     else last = []).
Proof.
  intros Hs Hf. unfold generate, end_of_messages. rewrite jitter_bounds_defined by done. cbn [mbind option_bind].
  destruct prologue_inv as (st0 & st & -> & Hd & _ & _ & first & dirs & Hi & Hfirst & Hdirs).
  cbn [mbind option_bind]. rewrite Hd. cbn [mbind option_bind].
  destruct (flow_inv fuel 0 st _ _ (- price_spread config, price_spread config) Hi ltac:(lia))
    as (st' & fin & ms & l & -> & Hi' & Hks & Hlen & Hfin). cbn [mbind option_bind]. destruct fin.
  - destruct (emit_silent _ st' _ l "S"%byte 0 (system_event_fields "C") _ Hi'
      (encodes_system_event _ _ _ _) eq_refl eq_refl eq_refl) as (st2 & -> & Hi2 & _ & _ & Ha & _).
    cbn [mbind option_bind]. eexists _, true, first, dirs, ms, [_], l. split; [done|].
    rewrite <- app_assoc in Hi2. split; [apply (g_written _ _ _ _ Hi2)|]. split; [apply (g_new _ _ _ _ Hi2)|]. split_and!; [done..|].
    eexists. split; [done|]. split; [by split|].
    pose proof (g_adds _ _ _ _ Hi2) as Hadds. cbn [app] in Hadds.
    rewrite <- Hadds. pose proof (g_count _ _ _ _ Hi2). pose proof (Hfin eq_refl). lia.
  - eexists _, false, first, dirs, ms, [], l. split; [done|]. rewrite app_nil_r.
    split; [apply (g_written _ _ _ _ Hi')|]. split; [apply (g_new _ _ _ _ Hi')|done].
Qed.
End invariant.

(** ** What the bytes of a written stream are *)

Lemma decoded_encodes raws msgs : Forall2 encodes raws msgs -> decoded raws = msgs.
Proof.
  induction 1 as [|raw msg raws msgs [He _] _ IH]; [done|]. unfold decoded in *.
  cbn [omap list_omap]. by rewrite He, IH.
Qed.

Lemma encodes_short raws msgs :
  Forall2 encodes raws msgs -> Forall (fun m => Z.of_nat (length m) < 2 ^ 16) raws.
Proof.
  induction 1 as [|raw msg raws msgs [_ He] _ IH]; constructor; [|done].
  rewrite He. apply wire_length_range.
Qed.

Lemma wire_length_small t : wire_length t <= 64.
Proof. by destruct t. Qed.

Lemma encoded_length raws msgs :
  Forall2 encodes raws msgs -> Z.of_nat (length (concat (frame <$> raws))) <= 66 * Z.of_nat (length msgs).
Proof.
  induction 1 as [|raw msg raws msgs [_ He] _ IH]; [done|]. cbn [fmap list_fmap concat].
  unfold frame at 1. rewrite !length_app, length_be_bytes. cbn [length].
  pose proof (wire_length_small (type (header msg))). lia.
Qed.

(** ** Termination under fair draws *)

Section termination.
Context {R : Type} `{!Random R, !RandomRanges R, !FairRandom R}.
Context {M : Type} `{!UnorderedMap LiveOrder M, !UnorderedMapLaws LiveOrder M}.
Variable config : SynthConfig.
Implicit Types (st : @state R M).

Lemma emit_rng st type locate fields st' :
  emit st type locate fields = Some st' -> rng st' = rng st /\ orders_added st' = orders_added st.
Proof. unfold emit. intros H. minv H. by simplify_eq. Qed.

(** Follows the draws of a branch; the waiting time never grows. *)
Ltac draws :=
  repeat match goal with
  | |- context [shares_dist ?lo ?hi ?r] =>
      pose proof (wait_shares lo hi r); destruct (shares_dist lo hi r); cbn [snd] in *
  | |- context [side_dist ?r] => pose proof (wait_side r); destruct (side_dist r); cbn [snd] in *
  | |- context [jitter_dist ?lo ?hi ?r] =>
      pose proof (wait_jitter lo hi r); destruct (jitter_dist lo hi r); cbn [snd] in *
  end.

(** No order added, and the waiting time has not grown. *)
Definition no_add st st' : Prop :=
  orders_added st' = orders_added st /\ (wait (rng st') <= wait (rng st))%nat.

Lemma emit_progress bounds st ref o index locate st' :
  emit_execute st ref o locate = Some st' \/ emit_cancel st ref o locate = Some st' \/
  emit_delete st ref locate = Some st' \/ emit_replace st bounds ref o locate = Some st' \/
  emit_trade config st o index locate = Some st' -> no_add st st'.
Proof.
  unfold emit_execute, emit_cancel, emit_delete, emit_replace, emit_trade, no_add.
  intros [Hst|[Hst|[Hst|[Hst|Hst]]]]; revert Hst; draws; intros Hst; repeat minv Hst;
    match goal with E : emit _ _ _ _ = Some _ |- _ => apply emit_rng in E as [Hr Ha] end;
    simplify_eq; cbn in *; rewrite Hr, Ha; (split; [done|lia]).
Qed.

Lemma emit_add_progress bounds st index locate st' :
  emit_add config st bounds index locate = Some st' -> orders_added st' = orders_added st +u64 1.
Proof.
  unfold emit_add. draws. destruct (mpid_dist _). intros Hst. repeat minv Hst.
  match goal with E : emit _ _ _ _ = Some _ |- _ => apply emit_rng in E as [Hr Ha] end.
  simplify_eq. cbn in *. by rewrite Ha.
Qed.

Lemma flow_step_progress bounds st st' :
  flow_step config bounds st = Some st' ->
  orders_added st' = orders_added st +u64 1 \/
  (orders_added st' = orders_added st /\ (wait (rng st') < wait (rng st))%nat).
Proof.
  unfold flow_step. pose proof (wait_symbol (symbol_upper config) (rng st)).
  destruct (symbol_dist _ _) as [index r]. cbn [snd] in *.
  destruct (decide (um_entries (live_orders st) = [])) as [_|_].
  { intros ?%emit_add_progress. by left. }
  pose proof (wait_action r) as Hw. destruct (action_dist r) as [action r'].
  destruct (Z.ltb_spec action 55) as [_|Hact]; [intros ?%emit_add_progress; by left|].
  specialize (Hw Hact). cbn [snd] in Hw. pose proof (wait_next r').
  destruct (next_u64 r') as [draw r'']. cbn [snd] in *. intros Hs. minv Hs. right.
  assert (no_add (with_rng st r'') st') as [Ha Hle].
  { apply (emit_progress bounds _ y z index (u16 (index + 1))). repeat case_match; auto. }
  cbn in Ha, Hle. lia.
Qed.

(** Enough fuel for what is still to be added. *)
Lemma flow_finishes fuel bounds st st' finished :
  0 <= orders_added st < 2 ^ 64 -> num_orders config < 2 ^ 64 ->
  (num_orders config - orders_added st) * (Z.of_nat patience + 1) + Z.of_nat (wait (rng st)) <
    Z.of_nat fuel ->
  flow config fuel bounds st = Some (st', finished) -> finished = true.
Proof.
  revert st. induction fuel as [|fuel IH]; intros st Ha Hn Hf; cbn [flow];
    destruct (Z.ltb_spec (orders_added st) (num_orders config)) as [Hlt|Hge]; cbn [negb];
    try (by intros [= <- <-]); [nia|].
  intros Hfl. minv Hfl. destruct (flow_step_progress _ _ _ E) as [Hadd|[Hsame Hw]].
  - pose proof (wait_bound (rng x)). rewrite u64_small in Hadd by lia.
    apply (IH x); [lia|lia| |done]. rewrite Hadd. nia.
  - apply (IH x); [lia|lia| |done]. rewrite Hsame. lia.
Qed.

Lemma generate_finishes (fuel : nat) :
  0 <= price_spread config < 2 ^ 31 -> 0 <= num_orders config < 2 ^ 64 ->
  num_orders config * (Z.of_nat patience + 1) + Z.of_nat patience < Z.of_nat fuel < 2 ^ 64 - 1 ->
  exists out, generate (M := M) config fuel = Some (out, true).
Proof.
  intros Hs Hn Hf.
  destruct (generate_inv (M := M) config (num_orders config) ltac:(lia) ltac:(lia) fuel Hs ltac:(lia))
    as (out & fin & _ & _ & _ & _ & _ & Hg & _).
  exists out. rewrite Hg. do 2 f_equal. revert Hg. unfold generate, end_of_messages.
  rewrite jitter_bounds_defined by done. cbn [mbind option_bind].
  destruct (prologue_inv (M := M) config (num_orders config)) as (st0 & st & -> & Hd & Ha & _ & _).
  cbn [mbind option_bind]. rewrite Hd. cbn [mbind option_bind].
  destruct (flow _ _ _ st) as [[st' fin']|] eqn:Hfl; cbn [mbind option_bind]; [|done].
  assert (fin' = true) as ->; [|by intros Hg; minv Hg; simplify_eq].
  pose proof (wait_bound (rng st)). eapply flow_finishes; [| | |exact Hfl]; rewrite ?Ha; lia.
Qed.
End termination.
End SynthProofs.
