(* ===== verification/SpscRing.v ===== *)
(** * containers/spsc_ring_buffer.hpp: the lock-free single-producer ring

    The two atomic indices are modelled by their modification orders: the list of
    values stored so far.  A load returns any value that is not older than the
    newest one its thread has already seen, so acquire loads may be stale; the
    position a thread has acquired is its view of the other thread.  The slots are
    plain memory: every slot remembers which push wrote it and which pop read it
    last, and an access that the acquired view does not order after the other
    thread's last conflicting access is a data race, i.e. undefined ([None]).

    [push] and [pop] are split at their shared accesses (the loads and the check,
    the slot access, the release store); [ring_inv] is the invariant all the
    pieces keep, for every interleaving of the two threads. *)

From S2P Require Import Prelude HashMap.

Local Open Scope Z_scope.

Module Ring.

(** [ring_buffer_detail::round_up_to_power_of_two], the ring's own copy. *)
Definition round_up_to_power_of_two (n : Z) : ub Z :=
  if n <=? 1 then Some 1
  else if OAMap.bit_width (n - 1) <? 64 then Some (Z.shiftl 1 (OAMap.bit_width (n - 1)))
  else None.

Section ring.
Context {T : Type}.

(** A slot, with the number of the push that wrote it and of the pop that read it
    (from 1; 0 is the initialisation). *)
Record Slot := MkSlot { value : T; wclock : nat; rclock : nat }.

Record t := MkRing {
  capacity_ : Z;
  mask_ : Z;
  buffer_ : list Slot;
  write_index_ : list Z;   (** modification order, oldest first *)
  read_index_ : list Z;
  p_view : nat;            (** position in [read_index_] the producer acquired *)
  c_view : nat             (** position in [write_index_] the consumer acquired *)
}.

Implicit Types (r : t) (v : T).

Definition make (default : T) (capacity : Z) : ub t :=
  cap ← round_up_to_power_of_two capacity;
  Some (MkRing cap (cap - 1) (replicate (Z.to_nat cap) (MkSlot default 0 0)) [0] [0] 0 0).

Definition with_buffer r b : t :=
  MkRing (capacity_ r) (mask_ r) b (write_index_ r) (read_index_ r) (p_view r) (c_view r).
Definition with_write r w : t :=
  MkRing (capacity_ r) (mask_ r) (buffer_ r) w (read_index_ r) (p_view r) (c_view r).
Definition with_read r x : t :=
  MkRing (capacity_ r) (mask_ r) (buffer_ r) (write_index_ r) x (p_view r) (c_view r).
Definition with_p_view r n : t :=
  MkRing (capacity_ r) (mask_ r) (buffer_ r) (write_index_ r) (read_index_ r) n (c_view r).
Definition with_c_view r n : t :=
  MkRing (capacity_ r) (mask_ r) (buffer_ r) (write_index_ r) (read_index_ r) (p_view r) n.

(** The number of completed release stores. *)
Definition pushes r : nat := pred (length (write_index_ r)).
Definition pops r : nat := pred (length (read_index_ r)).

(** [write_index_.load(relaxed)] by its own writer: the newest value. *)
Definition load_own (order : list Z) : ub Z := last order.

(** ** push, in three pieces *)

(** The two loads and the full test.  [c] is the position the acquire load of
    [read_index_] returns; it must not be older than the view. *)
Definition push_begin r (c : nat) : ub (t * option Z) :=
  write ← load_own (write_index_ r);
  read ← read_index_ r !! c;
  let r := with_p_view r c in
  if capacity_ r <=? write -u64 read then Some (r, None) else Some (r, Some write).

(** [buffer_[write & mask_] = value]: racy unless the producer has acquired the
    pop that last read the slot. *)
Definition push_copy r (write : Z) v : ub t :=
  let i := Z.to_nat (Z.land write (mask_ r)) in
  slot ← buffer_ r !! i;
  if decide (rclock slot <= p_view r)%nat
  then Some (with_buffer r (<[i := MkSlot v (S (pushes r)) (rclock slot)]> (buffer_ r)))
  else None.

(** [write_index_.store(write + 1, release)]. *)
Definition push_publish r (write : Z) : t := with_write r (write_index_ r ++ [write +u64 1]).

(** ** pop, in three pieces *)

Definition pop_begin r (c : nat) : ub (t * option Z) :=
  read ← load_own (read_index_ r);
  write ← write_index_ r !! c;
  let r := with_c_view r c in
  if read =? write then Some (r, None) else Some (r, Some read).

(** [out = buffer_[read & mask_]]: racy unless the consumer has acquired the push
    that wrote the slot. *)
Definition pop_copy r (read : Z) : ub (t * T) :=
  let i := Z.to_nat (Z.land read (mask_ r)) in
  slot ← buffer_ r !! i;
  if decide (wclock slot <= c_view r)%nat
  then Some (with_buffer r (<[i := MkSlot (value slot) (wclock slot) (S (pops r))]> (buffer_ r)),
             value slot)
  else None.

Definition pop_publish r (read : Z) : t := with_read r (read_index_ r ++ [read +u64 1]).

Definition capacity r : Z := capacity_ r.

(** ** Where the two threads are *)

Inductive prod_pc := PIdle | PCopy (v : T) (write : Z) | PPublish (v : T) (write : Z).
Inductive cons_pc := CIdle | CCopy (read : Z) | CPublish (read : Z) (out : T).

(** ** The invariant

    [sent] are the values whose push has been published, in order. *)

Record ring_inv r (pp : prod_pc) (cp : cons_pc) (sent : list T) : Prop := {
  i_cap : exists e, 0 <= e <= 63 /\ capacity_ r = 2 ^ e;
  i_mask : mask_ r = capacity_ r - 1;
  i_len : Z.of_nat (length (buffer_ r)) = capacity_ r;
  i_write : write_index_ r = (fun k => u64 (Z.of_nat k)) <$> seq 0 (S (length sent));
  i_read : read_index_ r = (fun k => u64 (Z.of_nat k)) <$> seq 0 (S (pops r));
  i_pview : (p_view r <= pops r)%nat;
  i_cview : (pops r <= c_view r <= length sent)%nat;
  i_full : Z.of_nat (length sent) <= Z.of_nat (p_view r) + capacity_ r;
  (** A started push has room; its index is the next one; after the copy the slot
      holds the value. *)
  i_prod : match pp with
    | PIdle => True
    | PCopy _ w => w = u64 (Z.of_nat (length sent)) /\
        Z.of_nat (length sent) < Z.of_nat (p_view r) + capacity_ r
    | PPublish v w => w = u64 (Z.of_nat (length sent)) /\
        Z.of_nat (length sent) < Z.of_nat (p_view r) + capacity_ r /\
        exists rc, buffer_ r !! Z.to_nat (Z.of_nat (length sent) mod capacity_ r) =
          Some (MkSlot v (S (length sent)) rc)
    end;
  i_cons : match cp with
    | CIdle => True
    | CCopy rd => rd = u64 (Z.of_nat (pops r)) /\ (pops r < c_view r)%nat
    | CPublish rd out => rd = u64 (Z.of_nat (pops r)) /\ (pops r < c_view r)%nat /\
        sent !! pops r = Some out
    end;
  (** Unpopped values are in their slots. *)
  i_live : forall k v, (pops r <= k)%nat -> sent !! k = Some v ->
    exists rc, buffer_ r !! Z.to_nat (Z.of_nat k mod capacity_ r) = Some (MkSlot v (S k) rc);
  (** The last read of a slot was by a pop of that slot that has at least begun. *)
  i_rclock : forall i slot, buffer_ r !! i = Some slot -> rclock slot <> 0%nat ->
    Z.of_nat (rclock slot - 1) mod capacity_ r = Z.of_nat i /\
    ((rclock slot <= pops r)%nat \/
     (rclock slot = S (pops r) /\ exists rd out, cp = CPublish rd out))
}.

(** ** Index arithmetic *)

Lemma cap_pos r pp cp sent : ring_inv r pp cp sent -> 0 < capacity_ r <= 2 ^ 63.
Proof.
  intros Hi. destruct (i_cap _ _ _ _ Hi) as (e & He & ->).
  split; [apply Z.pow_pos_nonneg; lia|apply Z.pow_le_mono_r; lia].
Qed.

Lemma slot_index r pp cp sent k :
  ring_inv r pp cp sent -> Z.land (u64 k) (mask_ r) = k mod capacity_ r.
Proof.
  intros Hi. rewrite (i_mask _ _ _ _ Hi). destruct (i_cap _ _ _ _ Hi) as (e & He & ->).
  replace (2 ^ e - 1) with (Z.ones e) by (rewrite Z.ones_equiv; lia).
  rewrite Z.land_ones by lia. unfold u64. symmetry. apply Znumtheory.Zmod_div_mod.
  - apply Z.pow_pos_nonneg; lia.
  - lia.
  - exists (2 ^ (64 - e)). rewrite <- Z.pow_add_r by lia. f_equal. lia.
Qed.

Lemma index_lookup n c :
  (c < n)%nat -> ((fun k => u64 (Z.of_nat k)) <$> seq 0 n) !! c = Some (u64 (Z.of_nat c)).
Proof. intros Hc. rewrite list_lookup_fmap, lookup_seq_lt by done. done. Qed.

Lemma index_last n :
  last ((fun k => u64 (Z.of_nat k)) <$> seq 0 (S n)) = Some (u64 (Z.of_nat n)).
Proof. rewrite seq_S, fmap_app. cbn. by rewrite last_snoc. Qed.

Lemma index_snoc n x :
  x = u64 (Z.of_nat n) ->
  ((fun k => u64 (Z.of_nat k)) <$> seq 0 n) ++ [x] = (fun k => u64 (Z.of_nat k)) <$> seq 0 (S n).
Proof. intros ->. by rewrite seq_S, fmap_app. Qed.

Lemma u64_diff (a b : Z) : 0 <= a - b < 2 ^ 64 -> u64 (u64 a - u64 b) = a - b.
Proof.
  intros Hab. unfold u64. rewrite <- Zminus_mod. by rewrite Z.mod_small.
Qed.

Lemma mod_apart (cap a b : Z) : 0 < cap -> a mod cap = b mod cap -> a < b -> a + cap <= b.
Proof.
  intros Hc He Hlt. pose proof (Z.div_mod a cap ltac:(lia)). pose proof (Z.div_mod b cap ltac:(lia)).
  assert (a / cap < b / cap) by nia. nia.
Qed.

Lemma pushes_sent r pp cp sent : ring_inv r pp cp sent -> pushes r = length sent.
Proof.
  intros Hi. unfold pushes. rewrite (i_write _ _ _ _ Hi), length_fmap, length_seq. done.
Qed.

(** ** Every piece is defined and keeps the invariant *)

Lemma push_begin_spec r cp sent c :
  ring_inv r PIdle cp sent -> (p_view r <= c <= pops r)%nat ->
  exists r' o, push_begin r c = Some (r', o) /\ p_view r' = c /\ c_view r' = c_view r /\
    pops r' = pops r /\
    match o with
    | None => Z.of_nat (length sent - c) = capacity_ r /\ ring_inv r' PIdle cp sent
    | Some w => forall v, ring_inv r' (PCopy v w) cp sent
    end.
Proof.
  intros Hi Hc. pose proof (cap_pos _ _ _ _ Hi) as Hcap.
  destruct Hi as [Hpow Hm Hl Hw Hr Hpv Hcv Hf _ Hcons Hlive Hrc].
  unfold push_begin, load_own. rewrite Hw, index_last. cbn [mbind option_bind].
  rewrite Hr, index_lookup by lia. cbn [mbind option_bind with_p_view capacity_].
  rewrite u64_diff by lia.
  assert (forall pp, match pp with PIdle => True | PCopy _ w => w = u64 (Z.of_nat (length sent)) /\
      Z.of_nat (length sent) < Z.of_nat c + capacity_ r | PPublish _ _ => False end ->
    ring_inv (with_p_view r c) pp cp sent) as Hinv.
  { intros pp Hpp. split; try done; cbn; change (pops (with_p_view r c)) with (pops r); try lia.
    by destruct pp. }
  destruct (Z.leb_spec (capacity_ r) (Z.of_nat (length sent) - Z.of_nat c)).
  - eexists _, None. split; [done|]. split_and!; try done; [lia|]. by apply Hinv.
  - eexists _, (Some _). split; [done|]. split_and!; try done. intros v. apply Hinv.
    split; [done|lia].
Qed.

Lemma push_copy_spec r cp sent v w :
  ring_inv r (PCopy v w) cp sent ->
  exists r', push_copy r w v = Some r' /\ ring_inv r' (PPublish v w) cp sent /\
    pops r' = pops r /\ c_view r' = c_view r /\ p_view r' = p_view r.
Proof.
  intros Hi. pose proof (cap_pos _ _ _ _ Hi) as Hcap. pose proof (pushes_sent _ _ _ _ Hi) as Hps.
  pose proof (slot_index _ _ _ _ (Z.of_nat (length sent)) Hi) as Hix.
  destruct Hi as [Hpow Hm Hl Hw Hr Hpv Hcv Hf [-> Hroom] Hcons Hlive Hrc].
  unfold push_copy. rewrite Hix. set (i := Z.to_nat (Z.of_nat (length sent) mod capacity_ r)).
  pose proof (Z.mod_pos_bound (Z.of_nat (length sent)) (capacity_ r) ltac:(lia)) as Hmod.
  destruct (lookup_lt_is_Some_2 (buffer_ r) i) as [slot Hs]; [lia|]. rewrite Hs. cbn [mbind option_bind].
  assert (rclock slot <= p_view r)%nat as Hrace.
  { destruct (decide (rclock slot = 0%nat)) as [->|Hnz]; [lia|].
    destruct (Hrc i slot Hs Hnz) as [Hcong Hle].
    assert (Z.of_nat (rclock slot - 1) < Z.of_nat (length sent)) as Hlt.
    { destruct Hle as [|(-> & rd & out & ->)]; [lia|]. destruct Hcons as (_ & ? & _). lia. }
    assert (Z.of_nat (rclock slot - 1) mod capacity_ r = Z.of_nat (length sent) mod capacity_ r) as Hsame.
    { rewrite Hcong. unfold i. by rewrite Z2Nat.id by lia. }
    pose proof (mod_apart (capacity_ r) _ _ (proj1 Hcap) Hsame Hlt). lia. }
  rewrite decide_True by done. eexists. split; [done|]. split_and!; try done.
  set (slot' := MkSlot v (S (pushes r)) (rclock slot)).
  assert (forall k, Z.of_nat (pops r) <= k -> k < Z.of_nat (length sent) ->
    Z.to_nat (k mod capacity_ r) <> i) as Hapart.
  { intros k Hk1 Hk2 Heq. pose proof (Z.mod_pos_bound k (capacity_ r) ltac:(lia)).
    apply Z2Nat.inj in Heq; [|lia..].
    pose proof (mod_apart (capacity_ r) _ _ (proj1 Hcap) Heq Hk2). lia. }
  split; cbn [with_buffer capacity_ mask_ buffer_ write_index_ read_index_ p_view c_view]; try done.
  - by rewrite length_insert.
  - split_and!; [done|done|]. exists (rclock slot). fold i.
    rewrite list_lookup_insert_eq by (by eapply lookup_lt_Some). unfold slot'. by rewrite Hps.
  - intros k x Hk Hx. destruct (Hlive k x Hk Hx) as [rc Hrc2]. exists rc.
    rewrite list_lookup_insert_ne; [done|]. intros Heq.
    apply (Hapart (Z.of_nat k)); [unfold pops in *; cbn in *; lia|apply lookup_lt_Some in Hx; lia|done].
  - intros j slot2 [(<- & <- & _)|[_ Hj]]%list_lookup_insert_Some Hnz.
    + by apply (Hrc i slot Hs).
    + by apply (Hrc j slot2 Hj).
Qed.

Lemma push_publish_spec r cp sent v w :
  ring_inv r (PPublish v w) cp sent ->
  let r' := push_publish r w in
  ring_inv r' PIdle cp (sent ++ [v]) /\ pops r' = pops r /\ c_view r' = c_view r /\ p_view r' = p_view r.
Proof.
  intros Hi. destruct Hi as [Hpow Hm Hl Hw Hr Hpv Hcv Hf (-> & Hroom & rc & Hslot) Hcons Hlive Hrc].
  cbn zeta. split_and!; [|done..].
  split; cbn [push_publish with_write capacity_ mask_ buffer_ write_index_ read_index_ p_view c_view];
    rewrite ?length_app; cbn [length]; change (pops (push_publish r _)) with (pops r) in *; try done; try lia.
  - rewrite Hw. rewrite Nat.add_1_r. apply index_snoc. rewrite u64_add_l. f_equal. lia.
  - destruct cp as [|rd|rd out]; [done|done|]. destruct Hcons as (? & ? & Hx).
    split_and!; [done|done|]. by apply lookup_app_l_Some.
  - intros k x Hk Hx. apply lookup_app_Some in Hx as [Hx|[Hge Hx]]; [by apply Hlive|].
    apply list_lookup_singleton_Some in Hx as [Hz <-].
    assert (k = length sent) as -> by lia. by exists rc.
Qed.

(** Acquiring more of the producer's stores. *)
Lemma acquire_view r pp cp sent c :
  ring_inv r pp CIdle sent -> (c_view r <= c <= length sent)%nat ->
  match cp with CIdle => True | CCopy rd => rd = u64 (Z.of_nat (pops r)) /\ (pops r < c)%nat
  | CPublish _ _ => False end ->
  ring_inv (with_c_view r c) pp cp sent.
Proof.
  intros [Hpow Hm Hl Hw Hr Hpv Hcv Hf Hprod _ Hlive Hrc] Hc Hcp.
  split; try done; cbn [with_c_view capacity_ mask_ buffer_ write_index_ read_index_ p_view c_view];
    change (pops (with_c_view r c)) with (pops r); try done; try lia.
  - by destruct cp.
  - intros i slot Hs Hnz. destruct (Hrc i slot Hs Hnz) as [? [?|(_ & rd & out & [=])]]. auto.
Qed.

Lemma pop_begin_spec r pp sent c :
  ring_inv r pp CIdle sent -> (c_view r <= c <= length sent)%nat ->
  exists r' o, pop_begin r c = Some (r', o) /\ c_view r' = c /\ p_view r' = p_view r /\
    pops r' = pops r /\
    match o with
    | None => pops r = c /\ ring_inv r' pp CIdle sent
    | Some rd => ring_inv r' pp (CCopy rd) sent
    end.
Proof.
  intros Hi Hc. pose proof (cap_pos _ _ _ _ Hi) as Hcap.
  pose proof (fun cp => acquire_view r pp cp sent c Hi Hc) as Hinv.
  destruct Hi as [Hpow Hm Hl Hw Hr Hpv Hcv Hf Hprod _ Hlive Hrc].
  unfold pop_begin, load_own. rewrite Hr, index_last. cbn [mbind option_bind].
  rewrite Hw, index_lookup by lia. cbn [mbind option_bind].
  assert (u64 (Z.of_nat c) = u64 (Z.of_nat (pops r)) -> pops r = c) as Hinj.
  { intros Heq. pose proof (u64_diff (Z.of_nat c) (Z.of_nat (pops r)) ltac:(lia)) as Hd.
    rewrite Heq, Z.sub_diag in Hd. change (u64 0) with 0 in Hd. lia. }
  destruct (Z.eqb_spec (u64 (Z.of_nat (pops r))) (u64 (Z.of_nat c))) as [Heq|Hne].
  - eexists _, None. split; [done|]. split_and!; try done; [by apply Hinj|by apply Hinv].
  - eexists _, (Some _). split; [done|]. split_and!; try done. apply Hinv. split; [done|].
    assert (pops r <> c) by (by intros <-). lia.
Qed.

Lemma pop_copy_spec r pp sent rd :
  ring_inv r pp (CCopy rd) sent ->
  exists r' out, pop_copy r rd = Some (r', out) /\ sent !! pops r = Some out /\
    ring_inv r' pp (CPublish rd out) sent /\ pops r' = pops r /\ c_view r' = c_view r /\
    p_view r' = p_view r.
Proof.
  intros Hi. pose proof (cap_pos _ _ _ _ Hi) as Hcap.
  pose proof (slot_index _ _ _ _ (Z.of_nat (pops r)) Hi) as Hix.
  destruct Hi as [Hpow Hm Hl Hw Hr Hpv Hcv Hf Hprod [-> Hlt] Hlive Hrc].
  destruct (lookup_lt_is_Some_2 sent (pops r)) as [out Hout]; [lia|].
  destruct (Hlive (pops r) out ltac:(lia) Hout) as [rc Hs].
  unfold pop_copy. rewrite Hix. set (i := Z.to_nat (Z.of_nat (pops r) mod capacity_ r)) in *.
  pose proof (Z.mod_pos_bound (Z.of_nat (pops r)) (capacity_ r) ltac:(lia)) as Hmod.
  rewrite Hs. cbn [mbind option_bind wclock value]. rewrite decide_True by lia.
  eexists _, out. split; [done|]. split; [done|]. split_and!; try done.
  assert (forall j x, buffer_ r !! j = Some x -> exists y,
    (<[i := MkSlot out (S (pops r)) (S (pops r))]> (buffer_ r)) !! j = Some y /\
    value y = value x /\ wclock y = wclock x) as Hkeep.
  { intros j x Hj. destruct (decide (i = j)) as [<-|Hne].
    - rewrite list_lookup_insert_eq by (by eapply lookup_lt_Some). rewrite Hs in Hj. simplify_eq. by eexists.
    - rewrite list_lookup_insert_ne by done. by exists x. }
  split; cbn [with_buffer capacity_ mask_ buffer_ write_index_ read_index_ p_view c_view];
    change (pops (with_buffer r _)) with (pops r) in *; try done.
  - by rewrite length_insert.
  - destruct pp as [|v w|v w]; [done|done|]. destruct Hprod as (? & ? & rc2 & Hs2). split_and!; [done|done|].
    destruct (Hkeep _ _ Hs2) as ([v' wc' rc'] & -> & Hv & Hwc). cbn in *. subst. by exists rc'.
  - intros k x Hk Hx. destruct (Hlive k x Hk Hx) as [rc2 Hs2].
    destruct (Hkeep _ _ Hs2) as ([v' wc' rc'] & -> & Hv & Hwc). cbn in *. subst. by exists rc'.
  - intros j slot [(<- & <- & _)|[Hne Hj]]%list_lookup_insert_Some Hnz; cbn [rclock].
    + rewrite Nat.sub_succ, Nat.sub_0_r. split; [unfold i; lia|right]. split; [done|]. by eexists _, _.
    + destruct (Hrc j slot Hj Hnz) as [? [?|(_ & ? & ? & [=])]]. auto.
Qed.

Lemma pop_publish_spec r pp sent rd out :
  ring_inv r pp (CPublish rd out) sent ->
  let r' := pop_publish r rd in
  ring_inv r' pp CIdle sent /\ pops r' = S (pops r) /\ c_view r' = c_view r /\ p_view r' = p_view r /\
  sent !! pops r = Some out.
Proof.
  intros Hi. destruct Hi as [Hpow Hm Hl Hw Hr Hpv Hcv Hf Hprod (-> & Hlt & Hout) Hlive Hrc].
  cbn zeta.
  assert (pops (pop_publish r (u64 (Z.of_nat (pops r)))) = S (pops r)) as Hpops.
  { unfold pops, pop_publish, with_read. cbn [read_index_]. rewrite length_app, Hr, length_fmap, length_seq.
    cbn. lia. }
  split_and!; try done.
  split; rewrite ?Hpops;
    cbn [pop_publish with_read capacity_ mask_ buffer_ write_index_ read_index_ p_view c_view]; try done; try lia.
  - rewrite Hr. apply index_snoc. rewrite u64_add_l. f_equal. lia.
  - intros k v Hk. apply Hlive. lia.
  - intros i slot Hs Hnz. destruct (Hrc i slot Hs Hnz) as [? [?|(Heq & _)]];
      (split; [done|left]); lia.
Qed.

Lemma round_up_same n : round_up_to_power_of_two n = OAMap.round_up_to_power_of_two n.
Proof. done. Qed.

Lemma make_inv default n :
  0 <= n <= 2 ^ 63 ->
  exists r, make default n = Some r /\ ring_inv r PIdle CIdle [] /\ n <= capacity_ r /\
    p_view r = 0%nat /\ c_view r = 0%nat /\ pops r = 0%nat.
Proof.
  intros Hn. destruct (OAMap.round_up_defined n Hn) as [cap Hcap].
  rewrite <- round_up_same in Hcap.
  destruct (OAMap.round_up_spec n cap ltac:(lia) Hcap) as [Hle (e & He & Hpow)].
  unfold make. rewrite Hcap. cbn [mbind option_bind]. eexists. split; [done|].
  assert (0 < cap) by (rewrite Hpow; apply Z.pow_pos_nonneg; lia).
  split_and!; try done. split; cbn; try done; try lia.
  - by exists e.
  - rewrite length_replicate. lia.
  - intros i slot [-> _]%lookup_replicate. done.
Qed.

(** ** One thread on both ends

    A thread that made all the earlier stores itself reads the newest values. *)

Definition push r v : ub (t * bool) :=
  '(r, o) ← push_begin r (pops r);
  match o with
  | None => Some (r, false)
  | Some write => r ← push_copy r write v; Some (push_publish r write, true)
  end.

(** [out] keeps its value when the ring is empty. *)
Definition pop r (out : T) : ub (t * bool * T) :=
  '(r, o) ← pop_begin r (pushes r);
  match o with
  | None => Some (r, false, out)
  | Some read => '(r, v) ← pop_copy r read; Some (pop_publish r read, true, v)
  end.

Lemma push_begin_view r c r' o : push_begin r c = Some (r', o) -> r' = with_p_view r c.
Proof. unfold push_begin. intros Hb. minv Hb. minv Hb. by case_match; simplify_eq. Qed.

Lemma pop_begin_view r c r' o : pop_begin r c = Some (r', o) -> r' = with_c_view r c.
Proof. unfold pop_begin. intros Hb. minv Hb. minv Hb. by case_match; simplify_eq. Qed.

(** [push] succeeds unless the ring holds [capacity_] values. *)
Lemma push_spec r v sent :
  ring_inv r PIdle CIdle sent ->
  exists r', push r v = Some (r', bool_decide (Z.of_nat (length sent - pops r) <> capacity_ r)) /\
    ring_inv r' PIdle CIdle
      (if decide (Z.of_nat (length sent - pops r) = capacity_ r) then sent else sent ++ [v]) /\
    pops r' = pops r /\ capacity_ r' = capacity_ r.
Proof.
  intros Hi. pose proof (i_pview _ _ _ _ Hi) as Hpv. pose proof (i_cview _ _ _ _ Hi). unfold push.
  destruct (push_begin_spec r CIdle sent (pops r) Hi ltac:(lia)) as (r1 & o & Hb & _ & _ & Hp & Ho).
  rewrite Hb. apply push_begin_view in Hb as ->. cbn [mbind option_bind]. destruct o as [w|].
  - specialize (Ho v). pose proof (i_prod _ _ _ _ Ho) as [_ Hroom]. cbn [with_p_view p_view capacity_] in Hroom.
    destruct (push_copy_spec _ _ _ _ _ Ho) as (r2 & Hc & Hi2 & Hp2 & _). rewrite Hc. cbn [mbind option_bind].
    destruct (push_publish_spec _ _ _ _ _ Hi2) as (Hi3 & Hp3 & _).
    eexists. rewrite bool_decide_eq_true_2, decide_False by lia. split_and!; [done|done|congruence|].
    unfold push_copy in Hc. minv Hc. case_decide; by simplify_eq.
  - destruct Ho as [Hfull Ho]. eexists. rewrite bool_decide_eq_false_2 by (intros Hn; by apply Hn). rewrite decide_True by done.
    by split_and!.
Qed.

(** [pop] takes the oldest value unless the ring is empty. *)
Lemma pop_spec r out sent :
  ring_inv r PIdle CIdle sent ->
  exists r', ring_inv r' PIdle CIdle sent /\ capacity_ r' = capacity_ r /\
    match sent !! pops r with
    | Some v => pop r out = Some (r', true, v) /\ pops r' = S (pops r)
    | None => pop r out = Some (r', false, out) /\ pops r' = pops r
    end.
Proof.
  intros Hi. pose proof (i_cview _ _ _ _ Hi) as Hcv. pose proof (pushes_sent _ _ _ _ Hi) as Hps. unfold pop.
  destruct (pop_begin_spec r PIdle sent (pushes r) Hi ltac:(lia)) as (r1 & o & Hb & Hc1 & _ & Hp & Ho).
  rewrite Hb. apply pop_begin_view in Hb as ->. cbn [mbind option_bind]. destruct o as [rd|].
  - pose proof (i_cons _ _ _ _ Ho) as [_ Hlt]. cbn [with_c_view c_view] in Hlt.
    destruct (pop_copy_spec _ _ _ _ Ho) as (r2 & v & Hc & Hv & Hi2 & Hp2 & _). rewrite Hc. cbn [mbind option_bind].
    destruct (pop_publish_spec _ _ _ _ _ Hi2) as (Hi3 & Hp3 & _).
    change (pops (with_c_view r (pushes r))) with (pops r) in Hv. rewrite Hv.
    eexists. split_and!; [exact Hi3| |done|congruence].
    unfold pop_copy in Hc. minv Hc. case_decide; by simplify_eq.
  - destruct Ho as [Heq Ho]. eexists. split; [exact Ho|]. split; [done|].
    rewrite lookup_ge_None_2 by lia. by split.
Qed.
End ring.
End Ring.
