(* ===== verification/RingSystem.v ===== *)
(** * Two clients of the ring, in every interleaving

    A thread that pushes whatever it likes and a thread that pops whenever it likes,
    interleaved at the shared accesses of SpscRing.v, with every stale load coherence
    allows.  [RingSystem.system_inv] holds in every reachable state and makes every
    next step defined. *)

From S2P Require Import Prelude SpscRing.
From stdpp Require Import relations.

Local Open Scope Z_scope.

Module RingSystem.

Section system.
Context {T : Type}.

Record state := MkState {
  ring : @Ring.t T;
  producer : @Ring.prod_pc T;
  consumer : @Ring.cons_pc T;
  sent : list T;       (** values whose [push] returned true *)
  received : list T    (** values whose [pop] returned true *)
}.

(** The producer pushes any value at any time; a refused push or pop returns
    false and leaves its thread idle. *)
Inductive step : state -> state -> Prop :=
  | push_refused r r' cp se re c :
      (Ring.p_view r <= c <= Ring.pops r)%nat -> Ring.push_begin r c = Some (r', None) ->
      step (MkState r Ring.PIdle cp se re) (MkState r' Ring.PIdle cp se re)
  | push_started r r' cp se re c v w :
      (Ring.p_view r <= c <= Ring.pops r)%nat -> Ring.push_begin r c = Some (r', Some w) ->
      step (MkState r Ring.PIdle cp se re) (MkState r' (Ring.PCopy v w) cp se re)
  | push_copied r r' cp se re v w :
      Ring.push_copy r w v = Some r' ->
      step (MkState r (Ring.PCopy v w) cp se re) (MkState r' (Ring.PPublish v w) cp se re)
  | push_published r cp se re v w :
      step (MkState r (Ring.PPublish v w) cp se re)
           (MkState (Ring.push_publish r w) Ring.PIdle cp (se ++ [v]) re)
  | pop_refused r r' pp se re c :
      (Ring.c_view r <= c <= Ring.pushes r)%nat -> Ring.pop_begin r c = Some (r', None) ->
      step (MkState r pp Ring.CIdle se re) (MkState r' pp Ring.CIdle se re)
  | pop_started r r' pp se re c rd :
      (Ring.c_view r <= c <= Ring.pushes r)%nat -> Ring.pop_begin r c = Some (r', Some rd) ->
      step (MkState r pp Ring.CIdle se re) (MkState r' pp (Ring.CCopy rd) se re)
  | pop_copied r r' pp se re rd out :
      Ring.pop_copy r rd = Some (r', out) ->
      step (MkState r pp (Ring.CCopy rd) se re) (MkState r' pp (Ring.CPublish rd out) se re)
  | pop_published r pp se re rd out :
      step (MkState r pp (Ring.CPublish rd out) se re)
           (MkState (Ring.pop_publish r rd) pp Ring.CIdle se (re ++ [out])).

Definition start (default : T) (capacity : Z) : ub state :=
  r ← Ring.make default capacity; Some (MkState r Ring.PIdle Ring.CIdle [] []).

Definition system_inv (s : state) : Prop :=
  Ring.ring_inv (ring s) (producer s) (consumer s) (sent s) /\
  received s = take (Ring.pops (ring s)) (sent s).

(** Nothing the threads are about to do is undefined. *)
Definition safe (s : state) : Prop :=
  match producer s with
  | Ring.PIdle => forall c, (Ring.p_view (ring s) <= c <= Ring.pops (ring s))%nat ->
      is_Some (Ring.push_begin (ring s) c)
  | Ring.PCopy v w => is_Some (Ring.push_copy (ring s) w v)
  | Ring.PPublish _ _ => True
  end /\
  match consumer s with
  | Ring.CIdle => forall c, (Ring.c_view (ring s) <= c <= Ring.pushes (ring s))%nat ->
      is_Some (Ring.pop_begin (ring s) c)
  | Ring.CCopy rd => is_Some (Ring.pop_copy (ring s) rd)
  | Ring.CPublish _ _ => True
  end.

Lemma system_step s s' : step s s' -> system_inv s -> system_inv s'.
Proof.
  intros Hst [Hi Hre]. destruct Hst as [r r' cp se re c Hc Hb|r r' cp se re c v w Hc Hb|r r' cp se re v w Hb|
    r cp se re v w|r r' pp se re c Hc Hb|r r' pp se re c rd Hc Hb|r r' pp se re rd out Hb|r pp se re rd out];
    cbn [ring producer consumer sent received] in *; unfold system_inv;
    cbn [ring producer consumer sent received]; subst re.
  - destruct (Ring.push_begin_spec _ _ _ c Hi Hc) as (r2 & o & Heq & _ & _ & Hp & Ho). simplify_eq.
    rewrite Hp. by destruct Ho.
  - destruct (Ring.push_begin_spec _ _ _ c Hi Hc) as (r2 & o & Heq & _ & _ & Hp & Ho). simplify_eq.
    rewrite Hp. by split.
  - destruct (Ring.push_copy_spec _ _ _ _ _ Hi) as (r2 & Heq & Hi' & Hp & _). simplify_eq. by rewrite Hp.
  - destruct (Ring.push_publish_spec _ _ _ _ _ Hi) as (Hi' & Hp & _). split; [done|]. rewrite Hp.
    pose proof (Ring.i_cview _ _ _ _ Hi). by rewrite take_app_le by lia.
  - rewrite (Ring.pushes_sent _ _ _ _ Hi) in Hc.
    destruct (Ring.pop_begin_spec _ _ _ c Hi Hc) as (r2 & o & Heq & _ & _ & Hp & Ho). simplify_eq.
    rewrite Hp. by destruct Ho.
  - rewrite (Ring.pushes_sent _ _ _ _ Hi) in Hc.
    destruct (Ring.pop_begin_spec _ _ _ c Hi Hc) as (r2 & o & Heq & _ & _ & Hp & Ho). simplify_eq.
    by rewrite Hp.
  - destruct (Ring.pop_copy_spec _ _ _ _ Hi) as (r2 & out2 & Heq & _ & Hi' & Hp & _). simplify_eq. by rewrite Hp.
  - destruct (Ring.pop_publish_spec _ _ _ _ _ Hi) as (Hi' & Hp & _ & _ & Hout). split; [done|].
    rewrite Hp. by rewrite (take_S_r _ _ out).
Qed.

Lemma system_safe s : system_inv s -> safe s.
Proof.
  intros [Hi _]. destruct s as [r pp cp se re]. cbn [ring producer consumer sent received] in *.
  split; cbn [ring producer consumer].
  - destruct pp as [|v w|v w]; [|by destruct (Ring.push_copy_spec _ _ _ _ _ Hi) as (? & -> & _)|done].
    intros c Hc. by destruct (Ring.push_begin_spec _ _ _ c Hi Hc) as (? & ? & -> & _).
  - destruct cp as [|rd|rd out]; [|by destruct (Ring.pop_copy_spec _ _ _ _ Hi) as (? & ? & -> & _)|done].
    intros c Hc. rewrite (Ring.pushes_sent _ _ _ _ Hi) in Hc.
    by destruct (Ring.pop_begin_spec _ _ _ c Hi Hc) as (? & ? & -> & _).
Qed.

Lemma system_reachable s0 s : rtc step s0 s -> system_inv s0 -> system_inv s.
Proof. induction 1 as [|s0 s1 s2 Hst _ IH]; eauto using system_step. Qed.

Lemma start_inv default n :
  0 <= n <= 2 ^ 63 ->
  exists s, start default n = Some s /\ system_inv s /\ n <= Ring.capacity (ring s).
Proof.
  intros Hn. destruct (Ring.make_inv default n Hn) as (r & Hm & Hi & Hc & _). unfold start. rewrite Hm.
  cbn. eexists. split; [done|]. split; [|done]. split; [done|]. cbn. by rewrite take_nil.
Qed.
End system.
End RingSystem.
