(* ===== verification/RingStress.v ===== *)
(** * containers/tests/test_spsc_ring_buffer.cpp: the two-thread stress test

    A producer pushes 0, 1, 2, ... through a ring much smaller than the number of
    items, retrying while it is full, and a consumer pops until it has them all.
    [prod_step] and [cons_step] are the two loops, interleaved at the shared accesses
    of SpscRing.v; every step is one of RingSystem.v or leaves the ring alone
    ([prod_step_spec], [cons_step_spec]), and a run in which both threads keep moving
    ends ([stress_fair_run_ends]). *)

From S2P Require Import Prelude SpscRing RingSystem.
From stdpp Require Import relations.

Local Open Scope Z_scope.

Module RingStress.

Definition kCapacity : Z := 64.
Definition kItemCount : Z := 200000.

Record state := MkState {
  buffer : @Ring.t Z;
  push_pc : @Ring.prod_pc Z;   (** how far the producer's [push] is *)
  next_item : Z;               (** the producer's [i] *)
  producer_done : bool;
  pop_pc : @Ring.cons_pc Z;    (** how far the consumer's [pop] is *)
  pop_failed : bool;           (** about to load [producer_done] *)
  received : list Z
}.

Definition with_producer (s : state) r p i : state :=
  MkState r p i (producer_done s) (pop_pc s) (pop_failed s) (received s).
Definition with_consumer (s : state) r c failed l : state :=
  MkState r (push_pc s) (next_item s) (producer_done s) c failed l.

Section steps.
Variable item_count : Z.

(** The producer: a refused push yields and is tried again; after the last item the
    flag is set. *)
Definition prod_step (c : nat) (s : state) : ub state :=
  match push_pc s with
  | Ring.PIdle =>
      if next_item s <? item_count then
        '(r, o) ← Ring.push_begin (buffer s) c;
        match o with
        | None => Some (with_producer s r Ring.PIdle (next_item s))
        | Some w => Some (with_producer s r (Ring.PCopy (next_item s) w) (next_item s))
        end
      else Some (MkState (buffer s) Ring.PIdle (next_item s) true (pop_pc s) (pop_failed s) (received s))
  | Ring.PCopy v w =>
      r ← Ring.push_copy (buffer s) w v;
      Some (with_producer s r (Ring.PPublish v w) (next_item s))
  | Ring.PPublish v w =>
      Some (with_producer s (Ring.push_publish (buffer s) w) Ring.PIdle (next_item s +u64 1))
  end.

(** The consumer.  After a failed pop the flag is loaded; whatever its value, the
    loop goes on: the thread only yields when the flag was not set.  What an acquire
    of the flag would make visible is not recorded, so later loads may be staler than
    they can be. *)
Definition cons_step (c : nat) (s : state) : ub state :=
  match pop_pc s with
  | Ring.CIdle =>
      if pop_failed s then Some (with_consumer s (buffer s) Ring.CIdle false (received s))
      else if Z.of_nat (length (received s)) <? item_count then
        '(r, o) ← Ring.pop_begin (buffer s) c;
        match o with
        | None => Some (with_consumer s r Ring.CIdle true (received s))
        | Some rd => Some (with_consumer s r (Ring.CCopy rd) false (received s))
        end
      else Some s
  | Ring.CCopy rd =>
      '(r, out) ← Ring.pop_copy (buffer s) rd;
      Some (with_consumer s r (Ring.CPublish rd out) (pop_failed s) (received s))
  | Ring.CPublish rd out =>
      Some (with_consumer s (Ring.pop_publish (buffer s) rd) Ring.CIdle (pop_failed s) (received s ++ [out]))
  end.

Definition initial (capacity : Z) : ub state :=
  r ← Ring.make 0 capacity; Some (MkState r Ring.PIdle 0 false Ring.CIdle false []).

(** Both threads have left their loops. *)
Definition joined (s : state) : Prop :=
  push_pc s = Ring.PIdle /\ producer_done s = true /\
  pop_pc s = Ring.CIdle /\ item_count <= Z.of_nat (length (received s)).

(** The checks after the joins. *)
Definition verdict (s : state) : bool :=
  (Z.of_nat (length (received s)) =? item_count) &&
  forallb (fun i => bool_decide (received s !! Z.to_nat i = Some i)) (seqZ 0 item_count).

Definition prod_may (s : state) (c : nat) : Prop :=
  (Ring.p_view (buffer s) <= c <= Ring.pops (buffer s))%nat.
Definition cons_may (s : state) (c : nat) : Prop :=
  (Ring.c_view (buffer s) <= c <= Ring.pushes (buffer s))%nat.

Inductive step : state -> state -> Prop :=
  | step_prod c s s' : prod_may s c -> prod_step c s = Some s' -> step s s'
  | step_cons c s s' : cons_may s c -> cons_step c s = Some s' -> step s s'.

(** An infinite execution in which both threads keep taking steps and every store
    becomes visible after finitely many of them; [who] is true for the producer. *)
Record fair_run (run : nat -> state) (who : nat -> bool) (load : nat -> nat) : Prop := {
  f_step : forall i,
    if who i then prod_may (run i) (load i) /\ prod_step (load i) (run i) = Some (run (S i))
    else cons_may (run i) (load i) /\ cons_step (load i) (run i) = Some (run (S i));
  f_prod : forall i, exists j, (i <= j)%nat /\ who j = true;
  f_cons : forall i, exists j, (i <= j)%nat /\ who j = false;
  f_reads : forall i, exists k, forall j, (k <= j)%nat -> who j = true ->
    (Ring.pops (buffer (run i)) <= load j)%nat;
  f_writes : forall i, exists k, forall j, (k <= j)%nat -> who j = false ->
    (Ring.pushes (buffer (run i)) <= load j)%nat
}.

(** ** The invariant *)

(** The two clients of RingSystem.v that the threads are. *)
Definition system (s : state) : @RingSystem.state Z :=
  RingSystem.MkState (buffer s) (push_pc s) (pop_pc s) (seqZ 0 (next_item s)) (received s).

Record inv (s : state) : Prop := {
  v_system : RingSystem.system_inv (system s);
  v_next : 0 <= next_item s <= item_count;
  v_push : match push_pc s with
    | Ring.PIdle => True
    | Ring.PCopy v _ | Ring.PPublish v _ => v = next_item s /\ next_item s < item_count
    end;
  v_done : producer_done s = true -> next_item s = item_count /\ push_pc s = Ring.PIdle;
  v_failed : pop_failed s = true -> pop_pc s = Ring.CIdle
}.

(** What is left to do. *)
Definition potential (s : state) : nat :=
  Z.to_nat (3 * (item_count - next_item s)) -
    match push_pc s with Ring.PIdle => 0 | Ring.PCopy _ _ => 1 | Ring.PPublish _ _ => 2 end +
  (if producer_done s then 0 else 1) +
  (Z.to_nat (3 * (item_count - Z.of_nat (length (received s)))) -
    match pop_pc s with Ring.CIdle => 0 | Ring.CCopy _ => 1 | Ring.CPublish _ _ => 2 end).

(** What a thread that only waits leaves as it is. *)
Definition same_work (s s' : state) : Prop :=
  push_pc s' = push_pc s /\ next_item s' = next_item s /\ producer_done s' = producer_done s /\
  pop_pc s' = pop_pc s /\ received s' = received s.

Context (Hcount : 0 <= item_count < 2 ^ 64).

Lemma inv_pops s : inv s -> length (received s) = Ring.pops (buffer s).
Proof.
  intros Hv. destruct (v_system _ Hv) as [Hr Hre]. cbn in *.
  pose proof (Ring.i_cview _ _ _ _ Hr). rewrite Hre, length_take. lia.
Qed.

Lemma inv_pushes s : inv s -> Ring.pushes (buffer s) = Z.to_nat (next_item s).
Proof.
  intros Hv. destruct (v_system _ Hv) as [Hr _]. cbn in *. by rewrite (Ring.pushes_sent _ _ _ _ Hr), length_seqZ.
Qed.

Lemma inv_received s : inv s -> received s = seqZ 0 (Z.of_nat (length (received s))).
Proof.
  intros Hv. pose proof (inv_pops s Hv) as Hl. rewrite Hl. destruct (v_system _ Hv) as [Hr Hre]. cbn in *.
  pose proof (Ring.i_cview _ _ _ _ Hr) as Hc. rewrite length_seqZ in Hc.
  pose proof (v_next s Hv). rewrite Hre at 1. replace (next_item s) with (Z.of_nat (Ring.pops (buffer s)) + (next_item s - Z.of_nat (Ring.pops (buffer s)))) by lia.
  rewrite seqZ_app by lia. rewrite take_app_le by (rewrite length_seqZ; lia).
  apply take_ge. rewrite length_seqZ. lia.
Qed.

Lemma inv_received_le s : inv s -> Z.of_nat (length (received s)) <= next_item s.
Proof.
  intros Hv. rewrite (inv_pops s Hv). destruct (v_system _ Hv) as [Hr _]. cbn in *.
  pose proof (Ring.i_cview _ _ _ _ Hr) as Hc. rewrite length_seqZ in Hc. pose proof (v_next _ Hv). lia.
Qed.

(** A started pop has something to take. *)
Lemma inv_taking s :
  inv s -> pop_pc s <> Ring.CIdle -> Z.of_nat (length (received s)) < item_count.
Proof.
  intros Hv Hn. rewrite (inv_pops s Hv). destruct (v_system _ Hv) as [Hr _]. cbn in *.
  pose proof (Ring.i_cview _ _ _ _ Hr) as Hc. pose proof (Ring.i_cons _ _ _ _ Hr) as Hcn.
  rewrite length_seqZ in Hc. pose proof (v_next _ Hv). destruct (pop_pc s); [done|lia|lia].
Qed.

(** ** Every step is defined, and does some of the work or waits *)

Ltac weigh := unfold potential, with_producer, with_consumer; cbn [buffer push_pc next_item producer_done
  pop_pc pop_failed received].

Lemma prod_step_spec s c :
  inv s -> prod_may s c ->
  exists s', prod_step c s = Some s' /\ inv s' /\
    next_item s <= next_item s' /\ received s' = received s /\ pop_failed s' = pop_failed s /\
    ((potential s' < potential s)%nat \/
     (same_work s s' /\ push_pc s = Ring.PIdle /\
      ((next_item s = item_count /\ producer_done s = true) \/ (Z.to_nat (next_item s) <> c)%nat))).
Proof.
  intros Hv Hc. pose proof (inv_received_le s Hv) as Hre.
  destruct s as [r pp i d cp f l], Hv as [Hs Hn Hp Hd Hf].
  cbn [buffer push_pc next_item producer_done pop_pc pop_failed received] in *.
  pose proof (RingSystem.system_safe _ Hs) as [Hsafe _]. cbn in Hsafe.
  unfold prod_step, prod_may in *. cbn [buffer push_pc next_item producer_done pop_pc pop_failed received] in *.
  destruct pp as [|v w|v w].
  - destruct (Z.ltb_spec i item_count) as [Hi|Hi].
    + destruct Hs as [Hr Hrec]. cbn in Hr, Hrec.
      destruct (Ring.push_begin_spec _ _ _ c Hr Hc) as (r' & o & -> & _ & _ & Hpops & Ho).
      cbn [mbind option_bind]. pose proof (Ring.cap_pos _ _ _ _ Hr) as Hcap. rewrite length_seqZ in Ho.
      destruct o as [w|]; eexists; (split; [done|]).
      * split_and!; [|cbn; lia|done|done|left; weigh; destruct d; lia].
        split; cbn; [split; cbn; [apply Ho|by rewrite Hpops]|lia|by split|by intros [-> _]%Hd; lia|done].
      * destruct Ho as [Hfull Hr'].
        split_and!; [|cbn; lia|done|done|right; split_and!; [done|done|right; lia]].
        split; cbn; [split; cbn; [done|by rewrite Hpops]|lia|done|done|done].
    + assert (i = item_count) as -> by lia. eexists. split; [done|].
      split_and!; [by split; cbn; auto|done|done|done|]. destruct d; [right|left; weigh; lia].
      by split_and!; [..|left].
  - destruct Hp as [-> Hi]. destruct Hsafe as [r' Hr']. rewrite Hr'. cbn [mbind option_bind].
    eexists. split; [done|]. split_and!; [|cbn; lia|done|done|left; weigh; destruct d; lia].
    split; cbn; [|lia|done|by intros [-> _]%Hd; lia|done].
    by apply (RingSystem.system_step _ _ (RingSystem.push_copied _ _ _ _ _ _ _ Hr')) in Hs.
  - destruct Hp as [-> Hi]. eexists. split; [done|]. rewrite u64_small by lia.
    split_and!; [|cbn; lia|done|done|left; weigh; destruct d; lia].
    split; cbn; [|lia|done|by intros [-> _]%Hd; lia|done].
    apply (RingSystem.system_step _ _ (RingSystem.push_published _ _ _ _ _ _)) in Hs.
    unfold system. cbn. rewrite seqZ_app by lia. done.
Qed.

Lemma cons_step_spec s c :
  inv s -> cons_may s c ->
  exists s', cons_step c s = Some s' /\ inv s' /\
    next_item s' = next_item s /\ (length (received s) <= length (received s'))%nat /\
    ((potential s' < potential s)%nat \/
     (same_work s s' /\ pop_pc s = Ring.CIdle /\
      (item_count <= Z.of_nat (length (received s)) \/
       (pop_failed s = true /\ pop_failed s' = false) \/
       (pop_failed s = false /\ length (received s) = c)))).
Proof.
  intros Hv Hc. pose proof (inv_taking s Hv) as Htk. pose proof (inv_received_le s Hv) as Hre.
  pose proof (inv_pops s Hv) as Hl. destruct s as [r pp i d cp f l], Hv as [Hs Hn Hp Hd Hf].
  cbn [buffer push_pc next_item producer_done pop_pc pop_failed received] in *.
  pose proof (RingSystem.system_safe _ Hs) as [_ Hsafe]. cbn in Hsafe.
  unfold cons_step, cons_may in *. cbn [buffer push_pc next_item producer_done pop_pc pop_failed received] in *.
  destruct cp as [|rd|rd out].
  - destruct f.
    { eexists. split; [done|]. split_and!; [by split|done|done|right]. split_and!; [done|done|]. by right; left. }
    destruct (Z.ltb_spec (Z.of_nat (length l)) item_count) as [Hi|Hi].
    + destruct Hs as [Hr Hrec]. cbn in Hr, Hrec. rewrite (Ring.pushes_sent _ _ _ _ Hr) in Hc.
      destruct (Ring.pop_begin_spec _ _ _ c Hr Hc) as (r' & o & -> & _ & _ & Hpops & Ho).
      cbn [mbind option_bind]. destruct o as [w|]; eexists; (split; [done|]).
      * split_and!; [|done|done|left; weigh; destruct d; lia].
        by split; cbn; [split; cbn; [apply Ho|by rewrite Hpops]|..].
      * destruct Ho as [Heq Hr'].
        split_and!; [|done|done|right; split_and!; [done|done|right; right; split; [done|congruence]]].
        by split; cbn; [split; cbn; [done|by rewrite Hpops]|..].
    + eexists. split; [done|]. split_and!; [by split|done|done|right]. by split_and!; [..|left].
  - destruct Hsafe as [[r' out] Hr']. rewrite Hr'. cbn [mbind option_bind]. specialize (Htk ltac:(done)).
    eexists. split; [done|]. split_and!; [|done|done|left; weigh; destruct d; lia].
    split; cbn; [|done|done|done|by intros ?%Hf].
    by apply (RingSystem.system_step _ _ (RingSystem.pop_copied _ _ _ _ _ _ _ Hr')) in Hs.
  - specialize (Htk ltac:(done)). eexists. split; [done|]. cbn [received with_consumer]. rewrite length_app. cbn [length].
    split_and!; [|done|lia|left; weigh; rewrite length_app; cbn [length]; destruct d; lia].
    split; cbn; [|done|done|done|done].
    by apply (RingSystem.system_step _ _ (RingSystem.pop_published _ _ _ _ _ _)) in Hs.
Qed.

Lemma stress_initial_inv capacity :
  0 <= capacity <= 2 ^ 63 -> exists s, initial capacity = Some s /\ inv s.
Proof.
  intros Hn. destruct (Ring.make_inv 0 capacity Hn) as (r & Hm & Hr & _). unfold initial. rewrite Hm.
  cbn [mbind option_bind]. eexists. split; [done|].
  split; cbn; [split; cbn; [done|symmetry; apply take_nil]|lia|done|done|done].
Qed.

Lemma stress_reachable_inv s0 s : rtc step s0 s -> inv s0 -> inv s.
Proof.
  induction 1 as [|s0 s1 s2 Hst _ IH]; [done|]. intros Hv. apply IH. destruct Hst as [c x y Hc Hx|c x y Hc Hx].
  - destruct (prod_step_spec x c Hv Hc) as (? & ? & ? & _). by simplify_eq.
  - destruct (cons_step_spec x c Hv Hc) as (? & ? & ? & _). by simplify_eq.
Qed.

(** The test's checks hold as soon as both threads have ended. *)
Lemma joined_verdict s : inv s -> joined s -> received s = seqZ 0 item_count /\ verdict s = true.
Proof.
  intros Hv (_ & _ & _ & Hl). pose proof (inv_received_le s Hv). pose proof (v_next s Hv).
  assert (Z.of_nat (length (received s)) = item_count) as Hlen by lia.
  pose proof (inv_received s Hv) as Hre. rewrite Hlen in Hre. split; [done|].
  unfold verdict. rewrite Hlen, Z.eqb_refl. apply forallb_forall. intros i Hi%list_elem_of_In.
  apply elem_of_seqZ in Hi. apply bool_decide_true. rewrite Hre, lookup_seqZ. split; lia.
Qed.

(** ** Fair runs end *)
Section run.
Variables (run : nat -> state) (who : nat -> bool) (load : nat -> nat).
Hypothesis Hfair : fair_run run who load.
Hypothesis Hstart : inv (run 0%nat).

Lemma stress_run_inv i : inv (run i).
Proof.
  induction i as [|i IH]; [done|]. pose proof (f_step _ _ _ Hfair i) as Hst.
  destruct (who i); destruct Hst as [Hc Hs].
  - destruct (prod_step_spec _ _ IH Hc) as (? & ? & ? & _). by simplify_eq.
  - destruct (cons_step_spec _ _ IH Hc) as (? & ? & ? & _). by simplify_eq.
Qed.

Lemma same_work_potential s s' : same_work s s' -> potential s' = potential s.
Proof. intros (H1 & H2 & H3 & H4 & H5). unfold potential. by rewrite H1, H2, H3, H4, H5. Qed.

Lemma same_work_trans s1 s2 s3 : same_work s1 s2 -> same_work s2 s3 -> same_work s1 s3.
Proof. unfold same_work. naive_solver congruence. Qed.

Lemma run_potential i :
  (potential (run (S i)) < potential (run i))%nat \/
  (potential (run (S i)) = potential (run i) /\ same_work (run i) (run (S i))).
Proof.
  pose proof (f_step _ _ _ Hfair i) as Hst. destruct (who i); destruct Hst as [Hc Hs].
  - destruct (prod_step_spec _ _ (stress_run_inv i) Hc) as (? & ? & _ & _ & _ & _ & [?|[? _]]); simplify_eq;
      auto using same_work_potential.
  - destruct (cons_step_spec _ _ (stress_run_inv i) Hc) as (? & ? & _ & _ & _ & [?|[? _]]); simplify_eq;
      auto using same_work_potential.
Qed.

(** Up to any point of the run, some work is done or both threads only wait. *)
Lemma work_or_wait i n :
  (i <= n)%nat ->
  (exists j, (i <= j)%nat /\ (potential (run j) < potential (run i))%nat) \/
  (forall j, (i <= j <= n)%nat -> same_work (run i) (run j)).
Proof.
  intros Hin. destruct (drops_or_idle run potential _ run_potential i n Hin) as [|[Hw _]]; [by left|right].
  intros j [Hij Hj]. induction Hij as [|j Hij IH]; [by split_and!|].
  eapply same_work_trans; [apply IH; lia|]. apply Hw. lia.
Qed.

(** The consumer tries to pop again and again. *)
Lemma pops_again i : exists j, (i <= j)%nat /\ who j = false /\ pop_failed (run j) = false.
Proof.
  assert (forall d m, pop_failed (run m) = false -> who (m + d)%nat = false ->
    exists j, (m <= j)%nat /\ who j = false /\ pop_failed (run j) = false) as Hnext.
  { induction d as [|d IH]; intros m Hf Hw; [exists m; by rewrite Nat.add_0_r in Hw|].
    destruct (who m) eqn:Ew; [|by exists m].
    destruct (IH (S m)) as (j & Hj & Hwj & Hfj); [|by rewrite Nat.add_succ_r in Hw|exists j; split; [lia|done]].
    pose proof (f_step _ _ _ Hfair m) as Hst. rewrite Ew in Hst. destruct Hst as [Hc Hs].
    destruct (prod_step_spec _ _ (stress_run_inv m) Hc) as (? & ? & _ & _ & _ & Hpf & _). simplify_eq. by rewrite Hpf. }
  destruct (f_cons _ _ _ Hfair i) as (j & Hij & Hj).
  destruct (pop_failed (run j)) eqn:Ef; [|by exists j].
  pose proof (f_step _ _ _ Hfair j) as Hst. rewrite Hj in Hst. destruct Hst as [Hc Hs].
  assert (pop_failed (run (S j)) = false) as Hf.
  { pose proof (v_failed _ (stress_run_inv j) Ef) as Hcp. unfold cons_step in Hs. rewrite Hcp, Ef in Hs. injection Hs as <-; done. }
  destruct (f_cons _ _ _ Hfair (S j)) as (j2 & Hj2 & Hw2).
  destruct (Hnext (j2 - S j)%nat (S j) Hf) as (j3 & Hj3 & Hw3 & Hf3).
  { by replace (S j + (j2 - S j))%nat with j2 by lia. }
  exists j3. split; [lia|done].
Qed.

Lemma stress_eventually_drops i :
  ~ joined (run i) -> exists j, (i <= j)%nat /\ (potential (run j) < potential (run i))%nat.
Proof.
  intros Hnj. pose proof (stress_run_inv i) as Hv.
  destruct (f_writes _ _ _ Hfair i) as [kw Hkw]. destruct (f_reads _ _ _ Hfair i) as [kr Hkr].
  destruct (pops_again (Nat.max i kw)) as (jc & Hjc & Hwc & Hpf).
  destruct (f_prod _ _ _ Hfair (Nat.max i kr)) as (jp & Hjp & Hwp).
  specialize (Hkw jc ltac:(lia) Hwc). specialize (Hkr jp ltac:(lia) Hwp).
  destruct (work_or_wait i (S (Nat.max jc jp)) ltac:(lia)) as [|Hw]; [done|]. exfalso. apply Hnj.
  assert (forall j, (i <= j <= Nat.max jc jp)%nat -> ~ (potential (run (S j)) < potential (run j))%nat) as Hstill.
  { intros j Hj. rewrite (same_work_potential _ _ (Hw j ltac:(lia))), (same_work_potential _ _ (Hw (S j) ltac:(lia))). lia. }
  pose proof (f_step _ _ _ Hfair jc) as Hc. rewrite Hwc in Hc. destruct Hc as [Hmc Hc].
  pose proof (f_step _ _ _ Hfair jp) as Hp. rewrite Hwp in Hp. destruct Hp as [Hmp Hp].
  destruct (Hw jc ltac:(lia)) as (_ & _ & _ & Hcpc & Hcre).
  destruct (Hw jp ltac:(lia)) as (Hppc & Hpi & Hpd & _ & _).
  destruct (cons_step_spec _ _ (stress_run_inv jc) Hmc) as (sc & Hsc & _ & _ & _ & [Hlt|(_ & Hci & Hwhyc)]);
    rewrite Hc in Hsc; simplify_eq; [by destruct (Hstill jc ltac:(lia))|].
  destruct (prod_step_spec _ _ (stress_run_inv jp) Hmp) as (sp & Hsp & _ & _ & _ & _ & [Hlt|(_ & Hpi' & Hwhyp)]);
    rewrite Hp in Hsp; simplify_eq; [by destruct (Hstill jp ltac:(lia))|].
  rewrite Hcre, Hpf in Hwhyc. rewrite Hpi, Hpd in Hwhyp. rewrite Hcpc in Hci. rewrite Hppc in Hpi'.
  pose proof (inv_pushes _ Hv). pose proof (inv_pops _ Hv). pose proof (v_next _ Hv). pose proof (inv_received_le _ Hv).
  assert (item_count <= Z.of_nat (length (received (run i)))) as Hall.
  { destruct Hwhyc as [?|[[? _]|[_ Hl]]]; [done|done|]. destruct Hwhyp as [[? _]|Hne]; [lia|].
    unfold prod_may in Hmp. pose proof (inv_pops _ (stress_run_inv jp)). pose proof (inv_received_le _ (stress_run_inv jp)).
    pose proof (Hw jp ltac:(lia)) as (_ & _ & _ & _ & Hre'). rewrite Hre' in *. lia. }
  split_and!; [done| |done|done]. destruct Hwhyp as [[_ ?]|Hne]; [done|].
  unfold prod_may in Hmp. pose proof (inv_pops _ (stress_run_inv jp)).
  pose proof (Hw jp ltac:(lia)) as (_ & _ & _ & _ & Hre'). rewrite Hre' in *. lia.
Qed.

Lemma joined_dec s : joined s \/ ~ joined s.
Proof.
  unfold joined. destruct (push_pc s); [|right; by intros []..]. destruct (producer_done s); [|right; by intros (_ & ? & _)].
  destruct (pop_pc s); [|right; by intros (_ & _ & ? & _)..].
  destruct (Z.le_gt_cases item_count (Z.of_nat (length (received s)))); [by left|right; intros (_ & _ & _ & ?); lia].
Qed.

Lemma stress_fair_run_ends : exists n, joined (run n).
Proof. apply (working_run_ends run potential joined joined_dec stress_eventually_drops). Qed.
End run.

(** ** A fair run exists: the threads alternate and see the newest stores *)
Section alternating.
Variable s0 : state.

Fixpoint alternating (i : nat) : state :=
  match i with
  | O => s0
  | S i =>
      let s := alternating i in
      default s (if Nat.even i then prod_step (Ring.pops (buffer s)) s
                 else cons_step (Ring.pushes (buffer s)) s)
  end.

Definition newest (i : nat) : nat :=
  if Nat.even i then Ring.pops (buffer (alternating i)) else Ring.pushes (buffer (alternating i)).

Lemma stress_alternating_step i :
  inv (alternating i) ->
  (if Nat.even i then prod_may (alternating i) (newest i) /\
     prod_step (newest i) (alternating i) = Some (alternating (S i))
   else cons_may (alternating i) (newest i) /\
     cons_step (newest i) (alternating i) = Some (alternating (S i))) /\
  inv (alternating (S i)) /\ step (alternating i) (alternating (S i)) /\
  (Ring.pops (buffer (alternating i)) <= Ring.pops (buffer (alternating (S i))))%nat /\
  (Ring.pushes (buffer (alternating i)) <= Ring.pushes (buffer (alternating (S i))))%nat.
Proof.
  intros Hv. pose proof (inv_pops _ Hv) as Hpo. pose proof (inv_pushes _ Hv) as Hpu.
  pose proof (v_next _ Hv). destruct (v_system _ Hv) as [Hr _]. cbn in Hr.
  pose proof (Ring.i_pview _ _ _ _ Hr). pose proof (Ring.i_cview _ _ _ _ Hr) as Hcv.
  rewrite <- (Ring.pushes_sent _ _ _ _ Hr) in Hcv. unfold newest. cbn [alternating].
  destruct (Nat.even i).
  - assert (prod_may (alternating i) (Ring.pops (buffer (alternating i)))) as Hm by (unfold prod_may; lia).
    destruct (prod_step_spec _ _ Hv Hm) as (s' & Hs & Hv' & Hn & Hre & _). rewrite Hs. cbn [from_option id].
    rewrite <- (inv_pops _ Hv'), (inv_pushes _ Hv'), <- Hpo, Hpu, Hre.
    split_and!; [by rewrite Hpo|done|done|by eapply step_prod|done|lia].
  - assert (cons_may (alternating i) (Ring.pushes (buffer (alternating i)))) as Hm by (unfold cons_may; lia).
    destruct (cons_step_spec _ _ Hv Hm) as (s' & Hs & Hv' & Hn & Hre & _). rewrite Hs. cbn [from_option id].
    rewrite <- (inv_pops _ Hv'), (inv_pushes _ Hv'), <- Hpo, Hpu, Hn.
    split_and!; [by rewrite <- Hpu|done|done|by eapply step_cons|lia|done].
Qed.

Context (Hs0 : inv s0).

Lemma alternating_inv i : inv (alternating i).
Proof. induction i as [|i IH]; [done|]. by apply stress_alternating_step. Qed.

Lemma alternating_reachable i : rtc step s0 (alternating i).
Proof. induction i as [|i IH]; [done|]. eapply rtc_r; [done|]. by apply stress_alternating_step, alternating_inv. Qed.

Lemma stress_alternating_mono i j :
  (i <= j)%nat ->
  (Ring.pops (buffer (alternating i)) <= Ring.pops (buffer (alternating j)))%nat /\
  (Ring.pushes (buffer (alternating i)) <= Ring.pushes (buffer (alternating j)))%nat.
Proof.
  induction 1 as [|j _ IH]; [done|].
  destruct (stress_alternating_step j (alternating_inv j)) as (_ & _ & _ & ? & ?). lia.
Qed.

Lemma stress_alternating_fair : fair_run alternating Nat.even newest.
Proof.
  split.
  - intros i. apply stress_alternating_step, alternating_inv.
  - intros i. exists (2 * i)%nat. split; [lia|]. by rewrite Nat.even_mul.
  - intros i. exists (S (2 * i))%nat. split; [lia|]. by rewrite Nat.even_succ, Nat.odd_mul.
  - intros i. exists i. intros j Hij Hw. unfold newest. rewrite Hw. by apply stress_alternating_mono.
  - intros i. exists i. intros j Hij Hw. unfold newest. rewrite Hw. by apply stress_alternating_mono.
Qed.

(** No deadlock: every state of the invariant can be run to the end. *)
Lemma stress_can_finish : exists s, rtc step s0 s /\ joined s.
Proof.
  destruct (stress_fair_run_ends _ _ _ stress_alternating_fair Hs0) as [n Hn]. exists (alternating n).
  split; [apply alternating_reachable|done].
Qed.
End alternating.
End steps.
End RingStress.
