(* ===== verification/MapStress.v ===== *)
(** * containers/tests/test_hash_map.cpp: the stress test

    2000 random keys are inserted into the map and into a standard map, looked up,
    half of them, chosen by a shuffle, erased, and all looked up again.  The test
    body runs over any random source, any iteration order of the standard containers
    and any shuffle; [map_stress_passes] shows that no assertion of it can fail. *)

From S2P Require Import Prelude StdModel HashMap.

Local Open Scope Z_scope.

(** [std::shuffle] only promises a permutation. *)
Class Shuffle (R : Type) := { shuffle : list Z -> R -> list Z }.
Class ShuffleLaws (R : Type) `{!Shuffle R} := { shuffle_perm l r : shuffle l r ≡ₚ l }.

Module MapStress.

Definition kCapacityHint : Z := 4096.
Definition kNumKeys : Z := 2000.

(** The value stored under a key. *)
Definition value_of (key : Z) : Z := Z.lxor key 0xA5A5A5A5A5A5A5A5.

(** ** Standard associative containers

    An [std::unordered_set] is a map to [unit]. *)
Section std.
Context {V M : Type} `{!UnorderedMap V M}.

Definition um_size (m : M) : Z := Z.of_nat (length (um_entries m)).
Definition um_at (k : Z) (m : M) : ub V := snd <$> head (filter (fun e => e.1 = k) (um_entries m)).
Definition um_count (k : Z) (m : M) : Z := Z.of_nat (length (filter (fun e => e.1 = k) (um_entries m))).

(** [insert] and [emplace]: nothing happens when the key is there. *)
Definition um_emplace (k : Z) (v : V) (m : M) : M :=
  if 0 <? um_count k m then m else um_set k v m.
End std.

(** ** The TEST body *)
Section test.
Context {R : Type} `{!Random R} `{!Shuffle R}.
Context {M : Type} `{!UnorderedMap Z M} {S : Type} `{!UnorderedMap unit S}.

(** The first loop; the boolean tells whether it has ended. *)
Fixpoint draw_keys (fuel : nat) (used_keys : S) (rng : R) : S * R * bool :=
  if um_size used_keys <? kNumKeys then
    match fuel with
    | O => (used_keys, rng, false)
    | Datatypes.S fuel =>
        let '(key, rng) := next_u64 rng in draw_keys fuel (um_emplace key tt used_keys) rng
    end
  else (used_keys, rng, true).

(** [None] inside is a failed assertion. *)
Fixpoint insert_all (map : OAMap.t Z Z) (reference : M) (keys : list Z) : ub (option (OAMap.t Z Z * M)) :=
  match keys with
  | [] => Some (Some (map, reference))
  | key :: keys =>
      '(map, inserted) ← OAMap.insert map key (value_of key);
      if inserted : bool then insert_all map (um_emplace key (value_of key) reference) keys
      else Some None
  end.

(** [find] answers with this value. *)
Definition found_value (map : OAMap.t Z Z) (key value : Z) : ub bool :=
  found ← OAMap.find map key;
  match found with
  | None => Some false
  | Some i => v ← OAMap.deref map i; Some (v =? value)
  end.

Fixpoint all_found (map : OAMap.t Z Z) (reference : list (Z * Z)) : ub bool :=
  match reference with
  | [] => Some true
  | (key, value) :: reference =>
      here ← found_value map key value;
      rest ← all_found map reference;
      Some (here && rest)
  end.

Fixpoint erase_all (map : OAMap.t Z Z) (reference : M) (erased : S) (keys : list Z)
    : ub (option (OAMap.t Z Z * M * S)) :=
  match keys with
  | [] => Some (Some (map, reference, erased))
  | key :: keys =>
      '(map, ok) ← OAMap.erase map key;
      if ok : bool then erase_all map (um_erase key reference) (um_emplace key tt erased) keys
      else Some None
  end.

Fixpoint survivors_found (map : OAMap.t Z Z) (reference : M) (erased : S) (keys : list Z) : ub bool :=
  match keys with
  | [] => Some true
  | key :: keys =>
      here ← (if 0 <? um_count key erased then
                found ← OAMap.find map key; Some (bool_decide (found = None))
              else value ← um_at key reference; found_value map key value);
      rest ← survivors_found map reference erased keys;
      Some (here && rest)
  end.

(** The test after the keys are drawn; the result is whether it passes. *)
Definition stress_keys (used_keys : S) (rng : R) : ub bool :=
  map ← OAMap.make kCapacityHint;
  inserted ← insert_all map um_empty (um_entries used_keys).*1;
  match inserted with
  | None => Some false
  | Some (map, reference) =>
      if negb (OAMap.size map =? um_size reference) then Some false
      else
        found ← all_found map (um_entries reference);
        let all_keys := shuffle (um_entries used_keys).*1 rng in
        let erase_count := (length all_keys / 2)%nat in
        erased ← erase_all map reference um_empty (take erase_count all_keys);
        match erased with
        | None => Some false
        | Some (map, reference, erased) =>
            if negb (OAMap.size map =? um_size reference) then Some false
            else survivors ← survivors_found map reference erased all_keys; Some (found && survivors)
        end
  end.

(** [None] inside: the draws have not given enough keys within the fuel. *)
Definition stress (fuel : nat) : ub (option bool) :=
  let '(used_keys, rng, ended) := draw_keys fuel um_empty (seeded 2024) in
  if ended : bool then passed ← stress_keys used_keys rng; Some (Some passed) else Some None.

(** The first [n] draws. *)
Fixpoint draws (n : nat) (rng : R) : list Z :=
  match n with
  | O => []
  | Datatypes.S n => let '(key, rng) := next_u64 rng in key :: draws n rng
  end.
End test.

(** ** The standard containers as lists of keys *)
Section keyed.
Context {V M : Type} `{UnorderedMapLaws V M} (f : Z -> V).

(** The container holds [f k] under every key [k] of the list. *)
Definition holds (m : M) (P : list Z) : Prop := um_entries m ≡ₚ (fun k => (k, f k)) <$> P.

Lemma filter_pairs (Q : Z -> Prop) `{!forall x, Decision (Q x)} (P : list Z) :
  filter (fun e : Z * V => Q e.1) ((fun k => (k, f k)) <$> P) = (fun k => (k, f k)) <$> filter Q P.
Proof.
  induction P as [|x P IH]; [done|]. cbn [fmap list_fmap]. rewrite !filter_cons. cbn [fst].
  case_decide; cbn; by rewrite IH.
Qed.

Lemma filter_pairs_eq (k : Z) (P : list Z) :
  filter (fun e : Z * V => e.1 = k) ((fun k => (k, f k)) <$> P) =
  (fun k => (k, f k)) <$> filter (fun x => x = k) P.
Proof. exact (filter_pairs (fun x => x = k) P). Qed.

Lemma filter_pairs_ne (k : Z) (P : list Z) :
  filter (fun e : Z * V => e.1 <> k) ((fun k => (k, f k)) <$> P) =
  (fun k => (k, f k)) <$> filter (fun x => x <> k) P.
Proof. exact (filter_pairs (fun x => x <> k) P). Qed.

Lemma filter_key (k : Z) (P : list Z) :
  NoDup P -> filter (fun x => x = k) P = if decide (k ∈ P) then [k] else [].
Proof.
  induction P as [|x P IH]; intros Hnd; [done|]. apply NoDup_cons in Hnd as [Hx Hnd].
  destruct (decide (x = k)) as [->|Hne].
  - by rewrite filter_cons_True, (IH Hnd), decide_False, decide_True by (done || by left).
  - rewrite filter_cons_False, (IH Hnd) by done. apply decide_ext. set_solver.
Qed.

Lemma holds_empty : holds um_empty [].
Proof. unfold holds. by rewrite um_entries_empty. Qed.

Lemma holds_size m P : holds m P -> um_size m = Z.of_nat (length P).
Proof. intros Hm. unfold um_size. by rewrite Hm, length_fmap. Qed.

Lemma holds_keys m P : holds m P -> (um_entries m).*1 ≡ₚ P.
Proof. intros Hm. rewrite Hm, <- list_fmap_compose. by rewrite list_fmap_id. Qed.

Lemma holds_nodup m P : holds m P -> NoDup P.
Proof. intros Hm. rewrite <- (holds_keys m P Hm). apply um_entries_nodup. Qed.

Lemma holds_count k m P : holds m P -> (0 <? um_count k m) = bool_decide (k ∈ P).
Proof.
  intros Hm. pose proof (holds_nodup m P Hm) as Hnd. unfold um_count. rewrite Hm.
  rewrite filter_pairs_eq, (filter_key k P Hnd). by case_decide; case_bool_decide.
Qed.

Lemma holds_at k m P : holds m P -> k ∈ P -> um_at k m = Some (f k).
Proof.
  intros Hm Hk. pose proof (holds_nodup m P Hm) as Hnd. unfold um_at.
  assert (filter (fun e => e.1 = k) (um_entries m) ≡ₚ [(k, f k)]) as Hp.
  { by rewrite Hm, filter_pairs_eq, (filter_key k P Hnd), decide_True. }
  apply Permutation_singleton_r in Hp. by rewrite Hp.
Qed.

Lemma holds_emplace k m P : holds m P -> k ∉ P -> holds (um_emplace k (f k) m) (k :: P).
Proof.
  intros Hm Hk. unfold um_emplace. rewrite (holds_count k m P Hm), bool_decide_false by done.
  unfold holds. rewrite um_entries_set, Hm, filter_pairs_ne. cbn. f_equiv.
  rewrite filter_all; [done|]. by intros x Hx ->.
Qed.

Lemma holds_emplace_again k m P v : holds m P -> k ∈ P -> um_emplace k v m = m.
Proof. intros Hm Hk. unfold um_emplace. by rewrite (holds_count k m P Hm), bool_decide_true. Qed.

Lemma holds_erase k m P : holds m P -> holds (um_erase k m) (filter (fun x => x <> k) P).
Proof. intros Hm. unfold holds. by rewrite um_entries_erase, Hm, filter_pairs_ne. Qed.
End keyed.

(** ** The map under test *)

Record stands (map : OAMap.t Z Z) (P : list Z) : Prop := {
  s_wf : OAMap.wf map;
  s_keys : NoDup P;
  s_values : forall k, OAMap.to_map map !! k = if decide (k ∈ P) then Some (value_of k) else None;
  s_size : OAMap.size_ map = Z.of_nat (length P);
  s_cap : OAMap.capacity_ map = kCapacityHint
}.

Lemma stands_insert map P key :
  stands map P -> key ∉ P -> Z.of_nat (length P) < kCapacityHint ->
  exists map', OAMap.insert map key (value_of key) = Some (map', true) /\ stands map' (key :: P).
Proof.
  intros [Hwf Hnd Hv Hs Hc] Hk Hl.
  destruct (OAMap.insert_fresh map key (value_of key) Hwf) as (map' & Hi & Hwf' & Hm & Hs' & Hc').
  - by rewrite Hv, decide_False.
  - by rewrite Hs, Hc.
  - exists map'. split; [done|]. split; [done|by apply NoDup_cons| |cbn [length]; lia|congruence].
    intros k. rewrite Hm. destruct (decide (k = key)) as [->|Hne].
    + by rewrite lookup_insert_eq, decide_True by left.
    + rewrite lookup_insert_ne by done. rewrite Hv. repeat case_decide; set_solver.
Qed.

Lemma length_filter_ne (k : Z) (P : list Z) :
  NoDup P -> k ∈ P -> S (length (filter (fun x => x <> k) P)) = length P.
Proof.
  intros Hnd (P1 & P2 & ->)%list_elem_of_split. rewrite NoDup_app, NoDup_cons in Hnd.
  destruct Hnd as (_ & H1 & H2 & _).
  rewrite filter_app, filter_cons_False, !filter_all, !length_app; [cbn; lia|set_solver..].
Qed.

Lemma stands_erase map P key :
  stands map P -> key ∈ P ->
  exists map', OAMap.erase map key = Some (map', true) /\ stands map' (filter (fun x => x <> key) P).
Proof.
  intros [Hwf Hnd Hv Hs Hc] Hk.
  destruct (OAMap.erase_present map key (value_of key) Hwf) as (map' & Hi & Hwf' & Hm & Hs' & Hc').
  - by rewrite Hv, decide_True.
  - exists map'. pose proof (length_filter_ne key P Hnd Hk).
    split; [done|]. split; [done|by apply list.NoDup_filter| |lia|congruence].
    intros k. rewrite Hm. destruct (decide (k = key)) as [->|Hne].
    + rewrite lookup_delete_eq, decide_False; [done|]. by intros [? _]%list_elem_of_filter.
    + rewrite lookup_delete_ne by done. rewrite Hv. apply decide_ext. rewrite list_elem_of_filter. tauto.
Qed.

Lemma stands_found map P key value :
  stands map P -> key ∈ P -> value = value_of key -> found_value map key value = Some true.
Proof.
  intros [Hwf _ Hv _ _] Hk ->. unfold found_value.
  destruct (OAMap.find_present map key (value_of key) Hwf) as (i & s & -> & Hi & _ & _ & Hval).
  { by rewrite Hv, decide_True. }
  cbn [mbind option_bind]. unfold OAMap.deref. rewrite Hi. cbn. by rewrite Hval, Z.eqb_refl.
Qed.

Lemma stands_absent map P key : stands map P -> key ∉ P -> OAMap.find map key = Some None.
Proof. intros [Hwf _ Hv _ _] Hk. apply OAMap.find_absent; [done|]. by rewrite Hv, decide_False. Qed.

(** ** No assertion fails *)
Section passes.
Context {R : Type} `{!Random R} `{!Shuffle R, !ShuffleLaws R}.
Context {M : Type} `{!UnorderedMap Z M, !UnorderedMapLaws Z M}.
Context {S : Type} `{!UnorderedMap unit S, !UnorderedMapLaws unit S}.

Lemma insert_all_passes keys map (reference : M) P :
  stands map P -> holds value_of reference P -> NoDup (keys ++ P) ->
  Z.of_nat (length keys + length P) <= kCapacityHint ->
  exists map' reference' P', insert_all map reference keys = Some (Some (map', reference')) /\
    stands map' P' /\ holds value_of reference' P' /\ P' ≡ₚ keys ++ P.
Proof.
  revert map reference P. induction keys as [|key keys IH]; intros map reference P Hs Hr Hnd Hl.
  { by exists map, reference, P. }
  cbn [insert_all length app] in *. apply NoDup_cons in Hnd as [Hk Hnd].
  destruct (stands_insert map P key Hs) as (map1 & -> & Hs1); [set_solver|lia|]. cbn [mbind option_bind].
  pose proof (holds_emplace value_of key reference P Hr ltac:(set_solver)) as Hr1.
  destruct (IH map1 _ (key :: P) Hs1 Hr1) as (map2 & ref2 & P2 & Heq & Hs2 & Hr2 & Hp2).
  - rewrite <- Permutation_middle. by apply NoDup_cons.
  - cbn [length]. lia.
  - exists map2, ref2, P2. split_and!; [done|done|done|]. by rewrite Hp2, <- Permutation_middle.
Qed.

Lemma all_found_passes map P (es : list (Z * Z)) :
  stands map P -> (forall e, e ∈ es -> e.1 ∈ P /\ e.2 = value_of e.1) -> all_found map es = Some true.
Proof.
  intros Hs. induction es as [|[key value] es IH]; intros He; [done|]. cbn [all_found].
  destruct (He (key, value) ltac:(left)) as [Hk Hv]. rewrite (stands_found map P key value Hs Hk Hv).
  cbn [mbind option_bind]. rewrite IH; [done|]. intros e Hin. apply He. by right.
Qed.

Lemma erase_all_passes keys map (reference : M) (erased : S) P E :
  stands map P -> holds value_of reference P -> holds (fun _ => tt) erased E ->
  NoDup (keys ++ E) -> (forall k, k ∈ keys -> k ∈ P) ->
  exists map' reference' erased' P' E',
    erase_all map reference erased keys = Some (Some (map', reference', erased')) /\
    stands map' P' /\ holds value_of reference' P' /\ holds (fun _ => tt) erased' E' /\
    E' ≡ₚ keys ++ E /\ (forall k, k ∈ P' <-> k ∈ P /\ k ∉ keys).
Proof.
  revert map reference erased P E. induction keys as [|key keys IH]; intros map reference erased P E Hs Hr He Hnd Hin.
  { exists map, reference, erased, P, E. split_and!; try done. set_solver. }
  cbn [erase_all app] in *. apply NoDup_cons in Hnd as [Hk Hnd].
  destruct (stands_erase map P key Hs) as (map1 & -> & Hs1); [apply Hin; left|]. cbn [mbind option_bind].
  pose proof (holds_erase value_of key reference P Hr) as Hr1.
  pose proof (holds_emplace (fun _ => tt) key erased E He ltac:(set_solver)) as He1.
  destruct (IH map1 _ _ _ (key :: E) Hs1 Hr1 He1) as (map2 & ref2 & er2 & P2 & E2 & Heq & Hs2 & Hr2 & He2 & Hp2 & Hin2).
  - rewrite <- Permutation_middle. by apply NoDup_cons.
  - intros k Hk'. rewrite list_elem_of_filter. split; [set_solver|]. apply Hin. by right.
  - exists map2, ref2, er2, P2, E2. split_and!; [done..| |].
    + by rewrite Hp2, <- Permutation_middle.
    + intros k. rewrite Hin2, list_elem_of_filter. set_solver.
Qed.

Lemma survivors_found_passes map (reference : M) (erased : S) P E keys :
  stands map P -> holds value_of reference P -> holds (fun _ => tt) erased E ->
  (forall k, k ∈ keys -> k ∈ E \/ k ∈ P) -> (forall k, k ∈ P -> k ∉ E) ->
  survivors_found map reference erased keys = Some true.
Proof.
  intros Hs Hr He. induction keys as [|key keys IH]; intros Hin Hdis; [done|]. cbn [survivors_found].
  rewrite (holds_count _ key erased E He), IH by (done || intros k Hk; apply Hin; by right).
  case_bool_decide as Hke.
  - rewrite (stands_absent map P key Hs) by (by intros Hk; apply (Hdis key)). done.
  - destruct (Hin key ltac:(left)) as [?|Hk]; [done|]. rewrite (holds_at _ key reference P Hr Hk).
    cbn [mbind option_bind]. by rewrite (stands_found map P key _ Hs Hk eq_refl).
Qed.

Lemma stress_keys_passes (used_keys : S) (rng : R) :
  um_size used_keys = kNumKeys -> stress_keys (M := M) used_keys rng = Some true.
Proof.
  intros Hsize. unfold um_size in Hsize. pose proof (um_entries_nodup used_keys) as Hnd.
  set (keys := (um_entries used_keys).*1) in *.
  assert (Z.of_nat (length keys) = kNumKeys) as Hlen by (unfold keys; by rewrite length_fmap).
  unfold stress_keys. fold keys.
  destruct (OAMap.make_map_wf (K := Z) (V := Z) kCapacityHint) as (map & Hmake & Hwf & Hemp & _ & Hs0);
    [unfold kCapacityHint; lia|].
  assert (OAMap.capacity_ map = kCapacityHint) as Hcap.
  { revert Hmake. unfold OAMap.make. intros Hm. minv Hm. injection Hm as <-. vm_compute in E. by injection E as <-. }
  assert (stands map []) as Hst.
  { split; [done|constructor| |done|done]. intros k. rewrite Hemp, lookup_empty, decide_False; [done|set_solver]. }
  rewrite Hmake. cbn [mbind option_bind].
  destruct (insert_all_passes keys map um_empty [] Hst (holds_empty _)) as (map1 & ref1 & P1 & -> & Hs1 & Hr1 & Hp1).
  { by rewrite app_nil_r. }
  { cbn [length]. unfold kCapacityHint, kNumKeys in *. lia. }
  rewrite app_nil_r in Hp1. cbn [mbind option_bind]. unfold OAMap.size.
  rewrite (s_size _ _ Hs1), (holds_size _ _ _ Hr1), Z.eqb_refl. cbn [negb].
  rewrite (all_found_passes map1 P1 (um_entries ref1) Hs1).
  2:{ intros e He. rewrite Hr1 in He. apply list_elem_of_fmap in He as (k & -> & Hk). by split. }
  cbn [mbind option_bind]. set (all_keys := shuffle keys rng).
  assert (all_keys ≡ₚ keys) as Hall by apply shuffle_perm.
  assert (NoDup (take (length all_keys / 2) all_keys)) as Hnd2.
  { apply (sublist_NoDup _ all_keys); [by rewrite Hall|apply sublist_take]. }
  destruct (erase_all_passes (take (length all_keys / 2) all_keys) map1 ref1 (um_empty : S) P1 [] Hs1 Hr1
    (holds_empty _)) as (map2 & ref2 & er2 & P2 & E2 & -> & Hs2 & Hr2 & He2 & Hp2 & Hin2).
  { by rewrite app_nil_r. }
  { intros k Hk. rewrite Hp1, <- Hall. apply elem_of_take in Hk as (i & Hi & _). by eapply list_elem_of_lookup_2. }
  rewrite app_nil_r in Hp2. cbn [mbind option_bind].
  rewrite (s_size _ _ Hs2), (holds_size _ _ _ Hr2), Z.eqb_refl. cbn [negb].
  rewrite (survivors_found_passes map2 ref2 er2 P2 E2 all_keys Hs2 Hr2 He2); [done| |].
  - intros k Hk. rewrite Hp2, Hin2, Hp1, <- Hall.
    destruct (decide (k ∈ take (length all_keys / 2) all_keys)); auto.
  - intros k Hk. rewrite Hp2. by apply Hin2.
Qed.

(** The first loop ends once enough different keys have been drawn, with exactly as
    many as the test asks for. *)
Lemma draw_keys_ends fuel n (used : S) (rng : R) P :
  holds (fun _ => tt) used P -> Z.of_nat (length P) <= kNumKeys -> (n <= fuel)%nat ->
  kNumKeys <= Z.of_nat (size (list_to_set P ∪ list_to_set (draws n rng) : gset Z)) ->
  exists used' rng', draw_keys fuel used rng = (used', rng', true) /\ um_size used' = kNumKeys.
Proof.
  revert n used rng P. induction fuel as [|fuel IH]; intros n used rng P Hu Hl Hn Hsz;
    cbn [draw_keys]; rewrite (holds_size _ _ _ Hu); (destruct (Z.ltb_spec (Z.of_nat (length P)) kNumKeys) as [Hlt|Hge];
      [|exists used, rng; split; [done|]; rewrite (holds_size _ _ _ Hu); lia]).
  all: assert (size (list_to_set P : gset Z) = length P) as HP by apply size_list_to_set, (holds_nodup _ _ _ Hu).
  all: destruct n as [|n]; [cbn in Hsz; rewrite union_empty_r_L, HP in Hsz; lia|].
  1: lia.
  cbn [draws] in Hsz. destruct (next_u64 rng) as [key rng']. cbn [list_to_set] in Hsz.
  destruct (decide (key ∈ P)) as [Hk|Hk].
  - rewrite (holds_emplace_again _ key used P tt Hu Hk). apply (IH n used rng' P); [done|done|lia|].
    etrans; [exact Hsz|]. apply inj_le, subseteq_size. set_solver.
  - apply (IH n (um_emplace key tt used) rng' (key :: P));
      [by apply holds_emplace|cbn [length]; lia|lia|].
    etrans; [exact Hsz|]. apply inj_le, subseteq_size. set_solver.
Qed.

Lemma map_stress_passes (fuel n : nat) :
  kNumKeys <= Z.of_nat (size (list_to_set (draws n (seeded 2024)) : gset Z)) -> (n <= fuel)%nat ->
  stress (M := M) (S := S) fuel = Some (Some true).
Proof.
  intros Hsz Hn. unfold stress.
  destruct (draw_keys_ends fuel n um_empty (seeded 2024) [] (holds_empty _)) as (used & rng & -> & Hu);
    [done|done|cbn [list_to_set]; by rewrite union_empty_l_L|].
  by rewrite stress_keys_passes.
Qed.
End passes.
End MapStress.
