(* ===== verification/Handoff.v ===== *)
(** * The two-thread handoff over a ring

    pipeline/itch_pipeline.hpp and bench/bench_ring_buffer_latency.cpp run the same
    two threads: a producer walks its input and pushes (spinning while the ring is
    full), then sets [producer_done]; a consumer pops and handles what it got, and
    on an empty ring checks [producer_done] and pops once more before it stops.
    [Workload] is what differs: the next item of the input and what the consumer
    does with one.  The threads interleave at every shared access of the ring and
    of the flag; acquire loads may be stale.  A step that would race or otherwise
    be undefined is [None].  HandoffProofs.v and Fairness.v hold for every workload
    with [WorkloadLaws]. *)

From S2P Require Import Prelude SpscRing.
From stdpp Require Import relations.

Local Open Scope Z_scope.

(** [produce i]: the end of the input, or the next input position, with an item to
    push if there is one. *)
Class Workload (I T B : Type) := {
  produce : I -> ub (option (option T * I));
  consume : B -> T -> ub B
}.

Module Handoff.

Section handoff.
Context {I T B : Type}.

(** ** The two threads *)

Inductive producer :=
  | Walk (i : I)                            (** the head of the loop over the input *)
  | Pushing (m : T) (next : I)              (** about to call [ring.push] *)
  | Copying (m : T) (next : I) (write : Z)
  | Publishing (m : T) (next : I) (write : Z)
  | Finishing                               (** about to set [producer_done] *)
  | Produced.

Inductive consumer :=
  | Poll (last_try : bool)                  (** about to pop; the second pop if [last_try] *)
  | Taking (last_try : bool) (read : Z)
  | Releasing (last_try : bool) (read : Z) (m : T)
  | Applying (m : T)
  | Checking                                (** about to load [producer_done] *)
  | Consumed.

Record state := MkState {
  ring : @Ring.t T;
  prod : producer;
  cons : consumer;
  (** [producer_done], with the pushes its release store publishes. *)
  producer_done : option nat;
  sink : B;
  processed : Z
}.

Definition with_prod (s : state) r p : state :=
  MkState r p (cons s) (producer_done s) (sink s) (processed s).
Definition with_cons (s : state) r c : state :=
  MkState r (prod s) c (producer_done s) (sink s) (processed s).

Section steps.
Context `{!Workload I T B}.

(** One shared access of the producer; [c] is what its acquire load of the read
    index returns. *)
Definition prod_step (c : nat) (s : state) : ub state :=
  match prod s with
  | Walk i =>
      o ← produce i;
      match o with
      | None => Some (with_prod s (ring s) Finishing)
      | Some (Some m, next) => Some (with_prod s (ring s) (Pushing m next))
      | Some (None, next) => Some (with_prod s (ring s) (Walk next))
      end
  | Pushing m next =>
      '(r, o) ← Ring.push_begin (ring s) c;
      match o with
      | None => Some (with_prod s r (Pushing m next))
      | Some w => Some (with_prod s r (Copying m next w))
      end
  | Copying m next w =>
      r ← Ring.push_copy (ring s) w m;
      Some (with_prod s r (Publishing m next w))
  | Publishing m next w => Some (with_prod s (Ring.push_publish (ring s) w) (Walk next))
  | Finishing =>
      Some (MkState (ring s) Produced (cons s) (Some (Ring.pushes (ring s))) (sink s) (processed s))
  | Produced => Some s
  end.

(** One shared access of the consumer; [c] is what its acquire load of the write
    index returns, [seen] whether the load of [producer_done] sees a store. *)
Definition cons_step (c : nat) (seen : bool) (s : state) : ub state :=
  match cons s with
  | Poll last_try =>
      '(r, o) ← Ring.pop_begin (ring s) c;
      match o with
      | Some rd => Some (with_cons s r (Taking last_try rd))
      | None => Some (with_cons s r (if last_try then Consumed else Checking))
      end
  | Taking last_try rd =>
      '(r, m) ← Ring.pop_copy (ring s) rd;
      Some (with_cons s r (Releasing last_try rd m))
  | Releasing last_try rd m => Some (with_cons s (Ring.pop_publish (ring s) rd) (Applying m))
  | Applying m =>
      b ← consume (sink s) m;
      Some (MkState (ring s) (prod s) (Poll false) (producer_done s) b (processed s +u64 1))
  | Checking =>
      match producer_done s with
      | Some n =>
          if seen then
            (* the acquire load synchronises with the release store *)
            Some (with_cons s (Ring.with_c_view (ring s) (Nat.max (Ring.c_view (ring s)) n)) (Poll true))
          else Some (with_cons s (ring s) (Poll false))
      | None => Some (with_cons s (ring s) (Poll false))
      end
  | Consumed => Some s
  end.

(** Coherence: a load is not older than what its thread has already seen. *)
Definition prod_may (s : state) (c : nat) : Prop :=
  (Ring.p_view (ring s) <= c <= Ring.pops (ring s))%nat.
Definition cons_may (s : state) (c : nat) : Prop :=
  (Ring.c_view (ring s) <= c <= Ring.pushes (ring s))%nat.

Inductive step : state -> state -> Prop :=
  | step_prod c s s' : prod_may s c -> prod_step c s = Some s' -> step s s'
  | step_cons c seen s s' : cons_may s c -> cons_step c seen s = Some s' -> step s s'.

(** Both threads about to start, over a fresh ring. *)
Definition initial (default : T) (i : I) (b : B) (ring_capacity : Z) : ub state :=
  r ← Ring.make default ring_capacity;
  Some (MkState r (Walk i) (Poll false) None b 0).

(** Both threads joined. *)
Definition joined (s : state) : Prop := prod s = Produced /\ cons s = Consumed.

(** ** The sequential run *)

Fixpoint consume_all (b : B) (ms : list T) : ub B :=
  match ms with
  | [] => Some b
  | m :: ms => b ← consume b m; consume_all b ms
  end.

Lemma consume_all_app b ms ms' :
  consume_all b (ms ++ ms') = b ← consume_all b ms; consume_all b ms'.
Proof.
  revert b. induction ms as [|m ms IH]; intros b; [done|]. cbn [app consume_all].
  destruct (consume b m); [|done]. cbn. apply IH.
Qed.
End steps.
End handoff.
Arguments producer : clear implicits.
Arguments consumer : clear implicits.
Arguments state : clear implicits.
End Handoff.

(** What the handoff promises is proved against these laws: the input is a finite
    list of items, and the consumer can handle them in order. *)
Class WorkloadLaws (I T B : Type) `{!Workload I T B} := {
  valid : I -> Prop;
  todo : I -> list T;
  left_over : I -> nat;
  takes : B -> list T -> Prop;
  produce_law i : valid i ->
    exists o, produce i = Some o /\
      match o with
      | None => todo i = []
      | Some (m, next) => valid next /\ (left_over next < left_over i)%nat /\ todo i = option_list m ++ todo next
      end;
  consume_law b m ms : takes b (m :: ms) -> exists b', consume b m = Some b' /\ takes b' ms
}.
