(* ===== verification/HandoffProofs.v ===== *)
(** * The handoff delivers its input

    [inv] ties the threads, the ring and the sink to the list [sent] of published
    items; both threads' steps are defined in every state that satisfies it and
    keep it.  The weight at the end shows that from every reachable state both
    threads can run to completion: nothing they do leads to a deadlock. *)

From S2P Require Import Prelude SpscRing Handoff.
From stdpp Require Import relations.

Local Open Scope Z_scope.

Module HandoffProofs.
Import Handoff.

Section proofs.
Context {I T B : Type} `{!Workload I T B, !WorkloadLaws I T B}.
Implicit Types (s : state I T B) (sent stream : list T).

Definition ring_prod (p : producer I T) : Ring.prod_pc :=
  match p with
  | Copying m _ w => Ring.PCopy m w
  | Publishing m _ w => Ring.PPublish m w
  | _ => Ring.PIdle
  end.

Definition ring_cons (c : consumer T) : Ring.cons_pc :=
  match c with
  | Taking _ rd => Ring.CCopy rd
  | Releasing _ rd m => Ring.CPublish rd m
  | _ => Ring.CIdle
  end.

(** The items the sink has seen. *)
Definition applied s : nat :=
  match cons s with Applying _ => pred (Ring.pops (ring s)) | _ => Ring.pops (ring s) end.

Record inv stream (b0 : B) s sent : Prop := {
  v_ring : Ring.ring_inv (ring s) (ring_prod (prod s)) (ring_cons (cons s)) sent;
  v_prod : match prod s with
    | Walk i => valid i /\ stream = sent ++ todo i
    | Pushing m n | Copying m n _ | Publishing m n _ => valid n /\ stream = sent ++ m :: todo n
    | Finishing | Produced => stream = sent
    end;
  v_done : match producer_done s with
    | None => prod s <> Produced
    | Some n => prod s = Produced /\ n = length sent
    end;
  v_cons : match cons s with
    | Poll true => prod s = Produced /\ (length sent <= Ring.c_view (ring s))%nat
    | Applying m => exists n, Ring.pops (ring s) = S n /\ sent !! n = Some m
    | Consumed => prod s = Produced /\ Ring.pops (ring s) = length sent
    | _ => True
    end;
  v_book : consume_all b0 (take (applied s) sent) = Some (sink s);
  v_count : processed s = u64 (Z.of_nat (applied s))
}.

Section stream.
Variables (stream : list T) (b0 : B).
Hypothesis Htakes : takes b0 stream.

Lemma sent_prefix s sent : inv stream b0 s sent -> sent `prefix_of` stream.
Proof.
  intros Hv. pose proof (v_prod _ _ _ _ Hv) as Hp.
  destruct (prod s); try apply proj2 in Hp; rewrite Hp; try done; by apply prefix_app_r.
Qed.

(** The sink can take the rest of what it has been promised. *)
Lemma consume_all_takes b ms ms' :
  takes b (ms ++ ms') -> exists b', consume_all b ms = Some b' /\ takes b' ms'.
Proof.
  revert b. induction ms as [|m ms IH]; intros b Ht; [by exists b|]. cbn [app consume_all] in *.
  destruct (consume_law b m _ Ht) as (b1 & -> & Ht1). cbn [mbind option_bind]. by apply IH.
Qed.

(** A step of the producer that leaves the consumer, the sink and the views of
    the consumer alone. *)
Lemma inv_prod_ring s sent r p sent' :
  inv stream b0 s sent ->
  Ring.ring_inv r (ring_prod p) (ring_cons (cons s)) sent' ->
  Ring.pops r = Ring.pops (ring s) -> Ring.c_view r = Ring.c_view (ring s) ->
  sent `prefix_of` sent' -> prod s <> Produced -> p <> Produced ->
  match p with
  | Walk i => valid i /\ stream = sent' ++ todo i
  | Pushing m n | Copying m n _ | Publishing m n _ => valid n /\ stream = sent' ++ m :: todo n
  | Finishing | Produced => stream = sent'
  end ->
  inv stream b0 (with_prod s r p) sent'.
Proof.
  intros [Hr Hp Hd Hc Hb Hn] Hr' Hpops Hcv Hpre Hne Hne' Hp'.
  assert (applied (with_prod s r p) = applied s) as Happ.
  { unfold applied. cbn. by rewrite Hpops. }
  pose proof (Ring.i_cview _ _ _ _ Hr) as Hcview.
  split; cbn [with_prod ring prod cons producer_done sink processed]; try done.
  - destruct (producer_done s); [by destruct Hd|done].
  - destruct (cons s) as [[]|? ?|? ? ?|m| |]; try done; try (by destruct Hc).
    destruct Hc as (n & Hn' & Hm). exists n. rewrite Hpops. split; [done|]. by eapply prefix_lookup_Some.
  - rewrite Happ. rewrite <- Hb. f_equal. destruct Hpre as [k ->].
    apply take_app_le. unfold applied. destruct (cons s); lia.
  - by rewrite Happ.
Qed.

Lemma prod_step_inv s sent c :
  inv stream b0 s sent -> prod_may s c ->
  exists s' sent', prod_step c s = Some s' /\ inv stream b0 s' sent' /\ sent `prefix_of` sent'.
Proof.
  intros Hv Hc. pose proof (v_ring _ _ _ _ Hv) as Hr. pose proof (v_prod _ _ _ _ Hv) as Hp.
  unfold prod_step. destruct (prod s) as [o|m n|m n w|m n w| |] eqn:Ep; cbn [ring_prod] in *.
  - destruct Hp as [Ho Hst]. destruct (produce_law o Ho) as (f & -> & Hf). cbn [mbind option_bind].
    destruct f as [[d next]|].
    + destruct Hf as (Hnext & _ & Htodo). rewrite Htodo in Hst.
      destruct d as [m|]; eexists _, sent; (split; [done|]); (split; [|done]);
        (eapply inv_prod_ring; [done|cbn..]; try done; try congruence).
    + eexists _, sent. split; [done|]. split; [|done].
      eapply inv_prod_ring; [done|cbn..]; try done; try congruence. by rewrite Hf, app_nil_r in Hst.
  - destruct (Ring.push_begin_spec _ _ _ c Hr Hc) as (r & o & -> & _ & Hcv & Hpops & Ho).
    cbn [mbind option_bind]. destruct o as [w|]; eexists _, sent; (split; [done|]); (split; [|done]);
      (eapply inv_prod_ring; [done|cbn..]; try done; try congruence). by destruct Ho.
  - destruct (Ring.push_copy_spec _ _ _ _ _ Hr) as (r & -> & Hr' & Hpops & Hcv & _).
    cbn [mbind option_bind]. eexists _, sent. split; [done|]. split; [|done].
    eapply inv_prod_ring; [done|cbn..]; try done; congruence.
  - destruct (Ring.push_publish_spec _ _ _ _ _ Hr) as (Hr' & Hpops & Hcv & _).
    eexists _, (sent ++ [m]). split; [done|]. split; [|by eexists].
    eapply inv_prod_ring; [done|cbn..]; try done; try congruence; [by eexists|].
    destruct Hp as [Hn Hst]. split; [done|]. by rewrite <- app_assoc.
  - eexists _, sent. split; [done|]. split; [|done]. destruct Hv as [Hr' _ Hd Hcn Hb Hn].
    split; cbn; try done.
    + split; [done|]. by eapply Ring.pushes_sent.
    + rewrite Ep in *. destruct (cons s) as [[]|? ?|? ? ?|m| |]; try done; try (by destruct Hcn).
  - eexists s, sent. split; [done|]. by split.
Qed.
(** A step of the consumer on the ring. *)
Lemma inv_cons_ring s sent r c :
  inv stream b0 s sent ->
  Ring.ring_inv r (ring_prod (prod s)) (ring_cons c) sent ->
  applied (with_cons s r c) = applied s ->
  match c with
  | Poll true => prod s = Produced /\ (length sent <= Ring.c_view r)%nat
  | Applying m => exists n, Ring.pops r = S n /\ sent !! n = Some m
  | Consumed => prod s = Produced /\ Ring.pops r = length sent
  | _ => True
  end ->
  inv stream b0 (with_cons s r c) sent.
Proof.
  intros [Hr Hp Hd Hc Hb Hn] Hr' Happ Hc'.
  split; cbn [with_cons ring prod cons producer_done sink processed]; rewrite ?Happ; done.
Qed.

Lemma apply_defined s sent m n :
  inv stream b0 s sent -> applied s = n -> sent !! n = Some m ->
  exists b, consume (sink s) m = Some b /\ consume_all b0 (take (S n) sent) = Some b.
Proof.
  intros Hv Hn Hm. pose proof (v_book _ _ _ _ Hv) as Hb. rewrite Hn in Hb.
  destruct (sent_prefix _ _ Hv) as [k Hk].
  assert (takes b0 (take n sent ++ m :: (drop (S n) sent ++ k))) as Ht.
  { rewrite app_comm_cons, app_assoc, take_drop_middle, <- Hk; done. }
  apply consume_all_takes in Ht as (b & Hb' & Ht). rewrite Hb in Hb'. simplify_eq.
  destruct (consume_law _ _ _ Ht) as (b' & Hc & _). exists b'. split; [done|].
  rewrite (take_S_r _ _ m) by done. rewrite consume_all_app, Hb. cbn. by rewrite Hc.
Qed.

Lemma cons_step_inv s sent c seen :
  inv stream b0 s sent -> cons_may s c ->
  exists s', cons_step c seen s = Some s' /\ inv stream b0 s' sent.
Proof.
  intros Hv Hc. pose proof (v_ring _ _ _ _ Hv) as Hr. pose proof (v_cons _ _ _ _ Hv) as Hcn.
  unfold cons_may in Hc. rewrite (Ring.pushes_sent _ _ _ _ Hr) in Hc.
  unfold cons_step. destruct (cons s) as [lt|lt rd|lt rd m|m| |] eqn:Ec; cbn [ring_cons] in *.
  - destruct (Ring.pop_begin_spec _ _ _ c Hr Hc) as (r & o & -> & Hcv & _ & Hpops & Ho).
    cbn [mbind option_bind]. destruct o as [rd|].
    + eexists. split; [done|]. eapply inv_cons_ring; [done|done| |done].
      unfold applied. cbn. by rewrite Ec, Hpops.
    + destruct Ho as [Hpc Ho]. destruct lt; eexists; (split; [done|]);
        (eapply inv_cons_ring; [done|done| |]); try (unfold applied; cbn; by rewrite Ec, Hpops); try done.
      destruct Hcn as [Hpr Hle]. split; [done|]. lia.
  - destruct (Ring.pop_copy_spec _ _ _ _ Hr) as (r & out & -> & Hout & Hr' & Hpops & _).
    cbn [mbind option_bind]. eexists. split; [done|]. eapply inv_cons_ring; [done|done| |done].
    unfold applied. cbn. by rewrite Ec, Hpops.
  - destruct (Ring.pop_publish_spec _ _ _ _ _ Hr) as (Hr' & Hpops & _ & _ & Hout).
    eexists. split; [done|]. eapply inv_cons_ring; [done|done| |].
    + unfold applied. cbn. by rewrite Ec, Hpops.
    + exists (Ring.pops (ring s)). by rewrite Hpops.
  - destruct Hcn as (n & Hn & Hm).
    assert (applied s = n) as Happ by (unfold applied; by rewrite Ec, Hn).
    destruct (apply_defined s sent m n Hv Happ Hm) as (b & -> & Hall). cbn [mbind option_bind].
    eexists. split; [done|]. pose proof (v_count _ _ _ _ Hv) as Hcount.
    destruct Hv as [_ Hp Hd _ _ _]. split; cbn; try done; unfold applied; cbn; rewrite Hn; [done|].
    rewrite Hcount, Happ, u64_add_l. f_equal. lia.
  - pose proof (v_done _ _ _ _ Hv) as Hd.
    destruct (producer_done s) as [n|] eqn:Ed; [destruct seen|];
      eexists; (split; [done|]); (eapply inv_cons_ring; [done| | |]);
      try (unfold applied; cbn; by rewrite Ec); try done.
    + destruct Hd as [Hpr ->]. pose proof (Ring.i_cview _ _ _ _ Hr).
      by apply Ring.acquire_view; [|lia|].
    + destruct Hd as [Hpr ->]. split; [done|]. cbn. lia.
  - exists s. by split.
Qed.

(** ** Reachable states *)

Lemma initial_inv default i n :
  valid i -> stream = todo i -> 0 <= n <= 2 ^ 63 ->
  exists s, initial default i b0 n = Some s /\ inv stream b0 s [].
Proof.
  intros Hi Hst Hn. destruct (Ring.make_inv default n Hn) as (r & Hm & Hr & _ & _ & _ & Hpops).
  unfold initial. rewrite Hm. cbn [mbind option_bind]. eexists. split; [done|].
  split; cbn; try done.
  - unfold applied. cbn. by rewrite Hpops.
  - unfold applied. cbn. by rewrite Hpops.
Qed.

Lemma reachable_inv s0 s :
  (exists sent, inv stream b0 s0 sent) -> rtc step s0 s -> exists sent, inv stream b0 s sent.
Proof.
  intros Hi Hr. revert Hi. induction Hr as [|s0 s1 s2 Hst _ IH]; [done|]. intros [sent Hv]. apply IH.
  destruct Hst as [c x y Hc Hx|c seen x y Hc Hx].
  - destruct (prod_step_inv x sent c Hv Hc) as (s' & sent' & Hs' & Hv' & _). simplify_eq. by exists sent'.
  - destruct (cons_step_inv x sent c seen Hv Hc) as (s' & Hs' & Hv'). simplify_eq. by exists sent.
Qed.

Lemma joined_result s sent :
  inv stream b0 s sent -> joined s ->
  sent = stream /\ consume_all b0 stream = Some (sink s) /\
  processed s = u64 (Z.of_nat (length stream)).
Proof.
  intros Hv [Hp Hc]. destruct Hv as [_ Hst _ Hcn Hb Hn]. unfold applied in *. rewrite Hp, Hc in *.
  destruct Hcn as [_ Hpops]. rewrite Hpops in *. subst sent. by rewrite take_ge in Hb.
Qed.
(** ** Completion is always possible *)

Definition prod_weight (p : producer I T) : nat :=
  let base (n : I) := (40 * left_over n + 2)%nat in
  match p with
  | Walk o => base o
  | Pushing _ n => base n + 30
  | Copying _ n _ => base n + 29
  | Publishing _ n _ => base n + 28
  | Finishing => 1
  | Produced => 0
  end.

Definition cons_weight (empty : bool) (c : consumer T) : nat :=
  match c with
  | Poll last_try => if last_try && empty then 3 else 5
  | Taking _ _ => 4
  | Releasing _ _ _ => 3
  | Applying _ => 6
  | Checking => if empty then 4 else 6
  | Consumed => 0
  end.

Definition weight s : nat :=
  prod_weight (prod s) + 8 * (Ring.pushes (ring s) - Ring.pops (ring s)) +
  cons_weight (bool_decide (Ring.pushes (ring s) = Ring.pops (ring s))) (cons s).

Lemma cons_weight_mono e e' c : (cons_weight e c <= cons_weight e' c + 2)%nat.
Proof. destruct c as [[]| | | | |], e, e'; cbn; lia. Qed.

(** The consumer advances when there is something to take or nothing to wait for. *)
Lemma cons_progress s sent :
  inv stream b0 s sent -> (Ring.pops (ring s) < length sent)%nat \/ prod s = Produced ->
  cons s <> Consumed -> exists s', step s s' /\ (weight s' < weight s)%nat.
Proof.
  intros Hv Hgo Hnc. pose proof (v_ring _ _ _ _ Hv) as Hr. pose proof (Ring.i_cview _ _ _ _ Hr) as Hcv.
  pose proof (Ring.pushes_sent _ _ _ _ Hr) as Hps.
  assert (cons_may s (length sent)) as Hmay by (unfold cons_may; lia).
  destruct (cons_step_inv s sent (length sent) true Hv Hmay) as (s' & Hs' & Hv').
  exists s'. split; [by eapply (step_cons (length sent) true)|].
  pose proof (v_done _ _ _ _ Hv) as Hd. pose proof (Ring.pushes_sent _ _ _ _ (v_ring _ _ _ _ Hv')) as Hps'.
  unfold weight. rewrite Hps, Hps'. unfold cons_step in Hs'.
  destruct (cons s) as [lt|lt rd|lt rd m|m| |] eqn:Ec; cbn [ring_cons] in *; try done.
  - destruct (Ring.pop_begin_spec _ _ _ (length sent) Hr ltac:(lia)) as (r & o & Heq & _ & _ & Hpops & Ho).
    rewrite Heq in Hs'. cbn [mbind option_bind] in Hs'. destruct o as [rd|]; simplify_eq; cbn; rewrite Hpops.
    + pose proof (Ring.i_cons _ _ _ _ Ho) as [_ Hlt]. cbn in Hlt. rewrite Hpops in Hlt.
      pose proof (Ring.i_cview _ _ _ _ Ho). rewrite bool_decide_false by lia. rewrite andb_false_r. lia.
    + destruct Ho as [Hpc _]. rewrite bool_decide_true by lia. destruct lt; cbn; lia.
  - destruct (Ring.pop_copy_spec _ _ _ _ Hr) as (r & out & Heq & _ & _ & Hpops & _).
    rewrite Heq in Hs'. cbn [mbind option_bind] in Hs'. simplify_eq. cbn. rewrite Hpops. lia.
  - destruct (Ring.pop_publish_spec _ _ _ _ _ Hr) as (_ & Hpops & _).
    pose proof (Ring.i_cons _ _ _ _ Hr) as (_ & Hlt & _). simplify_eq.
    change (ring (with_cons s ?r ?c)) with r. rewrite Hpops. cbn. lia.
  - destruct (consume (sink s) m); [|done]. cbn [mbind option_bind] in Hs'. simplify_eq. cbn. lia.
  - destruct (producer_done s) as [n|]; simplify_eq; cbn; change (Ring.pops (Ring.with_c_view _ _)) with (Ring.pops (ring s)).
    + destruct (bool_decide _); cbn; lia.
    + rewrite bool_decide_false by (destruct Hgo; [lia|done]). cbn. lia.
Qed.

Lemma progress s sent :
  inv stream b0 s sent -> ¬ joined s -> exists s', step s s' /\ (weight s' < weight s)%nat.
Proof.
  intros Hv Hnj. pose proof (v_ring _ _ _ _ Hv) as Hr. pose proof (Ring.i_pview _ _ _ _ Hr) as Hpv.
  pose proof (v_prod _ _ _ _ Hv) as Hp. pose proof (v_cons _ _ _ _ Hv) as Hcn.
  assert (prod_may s (Ring.pops (ring s))) as Hmay by (unfold prod_may; lia).
  destruct (prod_step_inv s sent (Ring.pops (ring s)) Hv Hmay) as (s' & sent' & Hs' & Hv' & _).
  assert (step s s') as Hst by (by eapply (step_prod (Ring.pops (ring s)))).
  assert (prod s = Produced \/ (exists m n, prod s = Pushing m n) \/ (weight s' < weight s)%nat)
    as [Hpr|[(m & n & Hpr)|Hlt]]; [| | |by exists s'].
  - unfold prod_step in Hs'. destruct (prod s) as [o|m n|m n w|m n w| |] eqn:Ep; cbn [ring_prod] in *; eauto;
      right; right; unfold weight; rewrite Ep.
    + destruct Hp as [Ho _]. destruct (produce_law o Ho) as (f & Hw & Hf). rewrite Hw in Hs'.
      cbn [mbind option_bind] in Hs'. destruct f as [[d next]|]; [|simplify_eq; cbn; lia].
      destruct Hf as (_ & Hn & _). destruct d; simplify_eq; cbn [with_prod prod ring cons prod_weight]; lia.
    + destruct (Ring.push_copy_spec _ _ _ _ _ Hr) as (r & Heq & Hr' & Hpops & _).
      rewrite Heq in Hs'. cbn [mbind option_bind] in Hs'. simplify_eq.
      cbn [with_prod prod ring cons prod_weight]. rewrite Hpops.
      rewrite (Ring.pushes_sent _ _ _ _ Hr), (Ring.pushes_sent _ _ _ _ Hr'). lia.
    + destruct (Ring.push_publish_spec _ _ _ _ _ Hr) as (Hr' & Hpops & _). simplify_eq.
      cbn [with_prod prod ring cons prod_weight]. rewrite Hpops.
      rewrite (Ring.pushes_sent _ _ _ _ Hr), (Ring.pushes_sent _ _ _ _ Hr'), length_app. cbn [length].
      pose proof (cons_weight_mono (bool_decide (length sent + 1 = Ring.pops (ring s))%nat)
        (bool_decide (length sent = Ring.pops (ring s))) (cons s)). lia.
    + simplify_eq. cbn. lia.
  - apply (cons_progress s sent Hv); [by right|]. intros Hc. by apply Hnj.
  - unfold prod_step in Hs'. rewrite Hpr in Hs', Hr. cbn [ring_prod] in Hr.
    destruct (Ring.push_begin_spec _ _ _ _ Hr Hmay) as (r & o & Heq & _ & _ & Hpops & Ho).
    rewrite Heq in Hs'. cbn [mbind option_bind] in Hs'. destruct o as [w|].
    + exists s'. split; [done|]. specialize (Ho m). simplify_eq. unfold weight. rewrite Hpr.
      cbn [with_prod prod ring cons prod_weight]. rewrite Hpops.
      rewrite (Ring.pushes_sent _ _ _ _ Hr), (Ring.pushes_sent _ _ _ _ Ho). lia.
    + destruct Ho as [Hfull _]. pose proof (Ring.cap_pos _ _ _ _ Hr).
      apply (cons_progress s sent Hv); [left; lia|]. intros Hc. rewrite Hc in Hcn. destruct Hcn. congruence.
Qed.

Lemma decide_joined s : joined s \/ ¬ joined s.
Proof.
  unfold joined. destruct (prod s); try (right; by intros []).
  destruct (cons s); try (right; by intros []). by left.
Qed.

Lemma can_finish s sent :
  inv stream b0 s sent -> exists s', rtc step s s' /\ joined s'.
Proof.
  remember (weight s) as n eqn:Hn. revert s sent Hn.
  induction (lt_wf n) as [n _ IH]. intros s sent -> Hv.
  destruct (decide_joined s) as [Hj|Hj]; [by exists s|].
  destruct (progress s sent Hv Hj) as (s1 & Hst & Hlt).
  destruct (reachable_inv s s1) as [sent1 Hv1]; [by exists sent|by apply rtc_once|].
  destruct (IH (weight s1) Hlt s1 sent1 eq_refl Hv1) as (s2 & Hr & Hj2).
  exists s2. split; [by eapply rtc_l|done].
Qed.
End stream.
End proofs.
End HandoffProofs.
