(* ===== verification/Fairness.v ===== *)
(** * The handoff terminates under fair scheduling

    [fair_run] is an infinite execution of the two threads in which each thread
    keeps taking steps and every store eventually becomes visible to the other
    thread's acquire loads.  [potential] never grows; a step that leaves it
    unchanged is one of the waiting steps listed in [idle_step], and under fairness
    the threads cannot wait for each other for ever. *)

From S2P Require Import Prelude SpscRing Handoff HandoffProofs.
From stdpp Require Import relations.

Local Open Scope Z_scope.

Module Fairness.
Import Handoff HandoffProofs.

Section proofs.
Context {I T B : Type} `{!Workload I T B, !WorkloadLaws I T B}.
Implicit Types (s : state I T B) (sent stream : list T).

(** [who i] says which thread makes step [i] ([true] is the producer), [load i] what
    its acquire load of the other index returns, [seen i] whether the load of
    [producer_done] sees the store. *)
Record fair_run (run : nat -> state I T B) (who : nat -> bool) (load : nat -> nat)
    (seen : nat -> bool) : Prop := {
  f_step : forall i,
    if who i then prod_may (run i) (load i) /\ prod_step (load i) (run i) = Some (run (S i))
    else cons_may (run i) (load i) /\ cons_step (load i) (seen i) (run i) = Some (run (S i));
  f_prod : forall i, exists j, (i <= j)%nat /\ who j = true;
  f_cons : forall i, exists j, (i <= j)%nat /\ who j = false;
  f_reads : forall i, exists k, forall j, (k <= j)%nat -> who j = true ->
    (Ring.pops (ring (run i)) <= load j)%nat;
  f_writes : forall i, exists k, forall j, (k <= j)%nat -> who j = false ->
    (Ring.pushes (ring (run i)) <= load j)%nat;
  f_done : forall i, producer_done (run i) <> None ->
    exists k, forall j, (k <= j)%nat -> who j = false -> seen j = true
}.

Definition cons_potential (c : consumer T) : nat :=
  match c with
  | Poll false | Checking => 5
  | Poll true => 4
  | Taking _ _ => 3
  | Releasing _ _ _ => 2
  | Applying _ => 6
  | Consumed => 0
  end.

Definition potential s : nat :=
  prod_weight (prod s) + 8 * (Ring.pushes (ring s) - Ring.pops (ring s)) + cons_potential (cons s).

(** The steps that only wait. *)
Definition idle_step (producer : bool) (c : nat) (seen : bool) s s' : Prop :=
  prod s' = prod s /\ producer_done s' = producer_done s /\
  Ring.pops (ring s') = Ring.pops (ring s) /\ Ring.pushes (ring s') = Ring.pushes (ring s) /\
  if producer then
    cons s' = cons s /\
    (prod s = Produced \/
     exists m n, prod s = Pushing m n /\ (c < Ring.pushes (ring s))%nat)
  else
    (cons s = Poll false /\ cons s' = Checking /\ Ring.pops (ring s) = c) \/
    (cons s = Checking /\ cons s' = Poll false /\ (producer_done s = None \/ seen = false)) \/
    (cons s = Consumed /\ cons s' = Consumed).

Section stream.
Variables (stream : list T) (b0 : B).
Hypothesis Htakes : takes b0 stream.

Lemma prod_step_potential s sent c s' :
  inv stream b0 s sent -> prod_may s c -> prod_step c s = Some s' ->
  (potential s' < potential s)%nat \/
  (potential s' = potential s /\ idle_step true c false s s').
Proof.
  intros Hv Hc Hs. pose proof (v_ring _ _ _ _ Hv) as Hr. pose proof (v_prod _ _ _ _ Hv) as Hp.
  unfold prod_step in Hs. unfold potential, idle_step.
  destruct (prod s) as [o|m n|m n w|m n w| |] eqn:Ep; cbn [ring_prod] in *.
  - left. destruct Hp as [Ho _]. destruct (produce_law o Ho) as (f & Hw & Hf). rewrite Hw in Hs.
    cbn [mbind option_bind] in Hs. destruct f as [[d next]|]; [|simplify_eq; cbn; lia].
    destruct Hf as (_ & Hn & _). destruct d; simplify_eq; cbn [with_prod prod ring cons prod_weight]; lia.
  - destruct (Ring.push_begin_spec _ _ _ _ Hr Hc) as (r & o & Heq & _ & _ & Hpops & Ho).
    rewrite Heq in Hs. cbn [mbind option_bind] in Hs. pose proof (Ring.pushes_sent _ _ _ _ Hr) as Hps.
    destruct o as [w|]; simplify_eq; cbn [with_prod prod ring cons prod_weight producer_done]; rewrite Hpops, Hps.
    + left. rewrite (Ring.pushes_sent _ _ _ _ (Ho m)). lia.
    + right. destruct Ho as [Hfull Hr']. rewrite (Ring.pushes_sent _ _ _ _ Hr').
      pose proof (Ring.cap_pos _ _ _ _ Hr). split_and!; try done. right. exists m, n. split; [done|lia].
  - left. destruct (Ring.push_copy_spec _ _ _ _ _ Hr) as (r & Heq & Hr' & Hpops & _).
    rewrite Heq in Hs. cbn [mbind option_bind] in Hs. simplify_eq.
    cbn [with_prod prod ring cons prod_weight]. rewrite Hpops.
    rewrite (Ring.pushes_sent _ _ _ _ Hr), (Ring.pushes_sent _ _ _ _ Hr'). lia.
  - left. destruct (Ring.push_publish_spec _ _ _ _ _ Hr) as (Hr' & Hpops & _). simplify_eq.
    cbn [with_prod prod ring cons prod_weight]. rewrite Hpops.
    rewrite (Ring.pushes_sent _ _ _ _ Hr), (Ring.pushes_sent _ _ _ _ Hr'), length_app. cbn [length]. lia.
  - left. simplify_eq. cbn. lia.
  - right. simplify_eq. rewrite Ep. split; [done|]. split_and!; auto.
Qed.

Lemma cons_step_potential s sent c seen s' :
  inv stream b0 s sent -> cons_may s c -> cons_step c seen s = Some s' ->
  (potential s' < potential s)%nat \/
  (potential s' = potential s /\ idle_step false c seen s s').
Proof.
  intros Hv Hc Hs. pose proof (v_ring _ _ _ _ Hv) as Hr. pose proof (v_cons _ _ _ _ Hv) as Hcn.
  pose proof (Ring.pushes_sent _ _ _ _ Hr) as Hps. unfold cons_may in Hc. rewrite Hps in Hc.
  unfold cons_step in Hs. unfold potential, idle_step.
  destruct (cons s) as [lt|lt rd|lt rd m|m| |] eqn:Ec; cbn [ring_cons] in *.
  - destruct (Ring.pop_begin_spec _ _ _ c Hr ltac:(lia)) as (r & o & Heq & _ & _ & Hpops & Ho).
    rewrite Heq in Hs. cbn [mbind option_bind] in Hs.
    destruct o as [rd|]; simplify_eq; cbn [with_cons prod ring cons producer_done]; rewrite Hpops, Hps.
    + left. rewrite (Ring.pushes_sent _ _ _ _ Ho). destruct lt; cbn; lia.
    + destruct Ho as [Hpc Hr']. rewrite (Ring.pushes_sent _ _ _ _ Hr').
      destruct lt; cbn; [left; lia|]. right. split_and!; auto.
  - left. destruct (Ring.pop_copy_spec _ _ _ _ Hr) as (r & out & Heq & _ & Hr' & Hpops & _).
    rewrite Heq in Hs. cbn [mbind option_bind] in Hs. simplify_eq. cbn.
    rewrite Hpops, Hps, (Ring.pushes_sent _ _ _ _ Hr'). lia.
  - left. destruct (Ring.pop_publish_spec _ _ _ _ _ Hr) as (Hr' & Hpops & _).
    pose proof (Ring.i_cons _ _ _ _ Hr) as (_ & Hlt & _). pose proof (Ring.i_cview _ _ _ _ Hr).
    simplify_eq. change (ring (with_cons s ?r ?c)) with r. rewrite Hpops, Hps, (Ring.pushes_sent _ _ _ _ Hr').
    cbn. lia.
  - left. destruct (consume (sink s) m); [|done]. cbn [mbind option_bind] in Hs. simplify_eq. cbn. lia.
  - destruct (producer_done s) as [n|] eqn:Ed; [destruct seen|]; simplify_eq; cbn.
    + left. change (Ring.pops (Ring.with_c_view _ _)) with (Ring.pops (ring s)).
      change (Ring.pushes (Ring.with_c_view _ _)) with (Ring.pushes (ring s)). lia.
    + right. rewrite Ed. split_and!; auto. right. left. auto.
    + right. rewrite Ed. split_and!; auto. right. left. auto.
  - right. simplify_eq. rewrite Ec. split_and!; auto.
Qed.

(** ** Along a fair run *)

Section run.
Variables (run : nat -> state I T B) (who : nat -> bool) (load : nat -> nat) (seen : nat -> bool).
Hypothesis Hfair : fair_run run who load seen.
Hypothesis Hstart : exists sent, inv stream b0 (run 0%nat) sent.

Lemma run_inv i : exists sent, inv stream b0 (run i) sent.
Proof.
  induction i as [|i [sent Hv]]; [done|]. pose proof (f_step _ _ _ _ Hfair i) as Hst.
  destruct (who i); destruct Hst as [Hc Hs].
  - destruct (prod_step_inv stream b0 (run i) sent (load i) Hv Hc) as (s' & sent' & Hs' & Hv' & _).
    rewrite Hs in Hs'. simplify_eq. by exists sent'.
  - destruct (cons_step_inv stream b0 Htakes (run i) sent (load i) (seen i) Hv Hc) as (s' & Hs' & Hv').
    rewrite Hs in Hs'. simplify_eq. by exists sent.
Qed.

Lemma run_step i :
  (potential (run (S i)) < potential (run i))%nat \/
  (potential (run (S i)) = potential (run i) /\
   idle_step (who i) (load i) (if who i then false else seen i) (run i) (run (S i))).
Proof.
  destruct (run_inv i) as [sent Hv]. pose proof (f_step _ _ _ _ Hfair i) as Hst.
  destruct (who i); destruct Hst as [Hc Hs].
  - by eapply prod_step_potential.
  - by eapply cons_step_potential.
Qed.

(** Only waiting steps from [i] up to [n]. *)
Definition waiting (i n : nat) : Prop :=
  forall j, (i <= j < n)%nat ->
    idle_step (who j) (load j) (if who j then false else seen j) (run j) (run (S j)).

(** Within a waiting window everything but the consumer's position is fixed. *)
Lemma waiting_same i n j :
  waiting i n -> (i <= j <= n)%nat ->
  prod (run j) = prod (run i) /\ producer_done (run j) = producer_done (run i) /\
  Ring.pops (ring (run j)) = Ring.pops (ring (run i)) /\
  Ring.pushes (ring (run j)) = Ring.pushes (ring (run i)).
Proof.
  intros Hw [Hi Hn]. induction Hi as [|j Hi IH]; [done|].
  destruct (Hw j ltac:(lia)) as (Hp & Hd & Ho & Hu & _). rewrite Hp, Hd, Ho, Hu. apply IH. lia.
Qed.

Lemma drop_or_wait i n :
  (i <= n)%nat ->
  (exists j, (i <= j)%nat /\ (potential (run j) < potential (run i))%nat) \/
  (waiting i n /\ potential (run n) = potential (run i)).
Proof.
  apply (drops_or_idle run potential (fun j =>
    idle_step (who j) (load j) (if who j then false else seen j) (run j) (run (S j))) run_step).
Qed.

(** In a window where the consumer can only move from one position to another,
    it cannot make two steps. *)
Lemma one_idle_step i n x y :
  waiting i n -> x <> y ->
  (forall j, (i <= j < n)%nat -> who j = false -> cons (run j) = x /\ cons (run (S j)) = y) ->
  forall j1 j2, (i <= j1 < j2)%nat -> (j2 < n)%nat -> who j1 = false -> who j2 = false -> False.
Proof.
  intros Hw Hxy Hstep j1 j2 Hj Hn H1 H2.
  assert (forall j, (S j1 <= j)%nat -> (j <= j2)%nat -> cons (run j) = y) as Hy.
  { intros j Hle. induction Hle as [|j Hle IH]; intros Hj2; [apply (Hstep j1); [lia|done]|].
    destruct (who j) eqn:Ew.
    - specialize (Hw j ltac:(lia)). rewrite Ew in Hw. destruct Hw as (_ & _ & _ & _ & -> & _). apply IH. lia.
    - destruct (Hstep j ltac:(lia) Ew) as [Hx _]. rewrite IH in Hx by lia. congruence. }
  destruct (Hstep j2 ltac:(lia) H2) as [Hx _]. rewrite Hy in Hx by lia. congruence.
Qed.

(** Two consumer steps past any point. *)
Lemma two_cons_steps k : exists j1 j2, (k <= j1 < j2)%nat /\ who j1 = false /\ who j2 = false.
Proof.
  destruct (f_cons _ _ _ _ Hfair k) as (j1 & Hk & H1).
  destruct (f_cons _ _ _ _ Hfair (S j1)) as (j2 & Hj & H2). exists j1, j2. split; [lia|done].
Qed.

(** The consumer cannot wait for ever once there is something to take... *)
Lemma consumer_moves i :
  (Ring.pops (ring (run i)) < Ring.pushes (ring (run i)))%nat ->
  exists j, (i <= j)%nat /\ (potential (run j) < potential (run i))%nat.
Proof.
  intros Hlt. destruct (f_writes _ _ _ _ Hfair i) as [k Hk].
  destruct (two_cons_steps (Nat.max i k)) as (j1 & j2 & Hj & H1 & H2).
  destruct (drop_or_wait i (S j2) ltac:(lia)) as [Hd|[Hw _]]; [done|]. exfalso.
  assert (waiting (Nat.max i k) (S j2)) as Hw' by (intros j ?; apply Hw; lia).
  apply (one_idle_step _ _ Checking (Poll false) Hw' ltac:(done)) with j1 j2; [|done|lia|done|done].
  intros j Hj' Ew. pose proof (Hw j ltac:(lia)) as Hidle. rewrite Ew in Hidle.
  destruct (waiting_same i (S j2) j Hw ltac:(lia)) as (Hpr & _ & Hpo & Hpu).
  destruct Hidle as (_ & _ & _ & _ & [(_ & _ & Hc)|[(? & ? & _)|(Hcd & _)]]); [|done|].
  - specialize (Hk j ltac:(lia) Ew). lia.
  - destruct (run_inv j) as [sent Hv]. pose proof (v_cons _ _ _ _ Hv) as Hcn. rewrite Hcd in Hcn.
    rewrite (Ring.pushes_sent _ _ _ _ (v_ring _ _ _ _ Hv)) in Hpu. destruct Hcn. lia.
Qed.

(** ... or once the producer has finished. *)
Lemma consumer_finishes i :
  prod (run i) = Produced -> cons (run i) <> Consumed ->
  exists j, (i <= j)%nat /\ (potential (run j) < potential (run i))%nat.
Proof.
  intros Hpr Hnc. destruct (run_inv i) as [sent Hv].
  assert (producer_done (run i) <> None) as Hdone.
  { intros Hd. pose proof (v_done _ _ _ _ Hv) as Hvd. by rewrite Hd in Hvd. }
  destruct (f_done _ _ _ _ Hfair i Hdone) as [k Hk].
  destruct (two_cons_steps (Nat.max i k)) as (j1 & j2 & Hj & H1 & H2).
  destruct (drop_or_wait i (S j2) ltac:(lia)) as [Hd|[Hw _]]; [done|]. exfalso.
  assert (forall j, (i <= j)%nat -> (j <= S j2)%nat -> cons (run j) <> Consumed) as Hnever.
  { intros j Hle. induction Hle as [|j Hle IH]; intros Hj2; [done|]. specialize (IH ltac:(lia)).
    destruct (Hw j ltac:(lia)) as (_ & _ & _ & _ & Hrest).
    destruct (who j); [destruct Hrest as [-> _]; done|].
    destruct Hrest as [(_ & -> & _)|[(_ & -> & _)|(? & _)]]; done. }
  assert (waiting (Nat.max i k) (S j2)) as Hw' by (intros j ?; apply Hw; lia).
  apply (one_idle_step _ _ (Poll false) Checking Hw' ltac:(done)) with j1 j2; [|done|lia|done|done].
  intros j Hj' Ew. pose proof (Hw j ltac:(lia)) as Hidle. rewrite Ew in Hidle.
  destruct (waiting_same i (S j2) j Hw ltac:(lia)) as (_ & Hpd & _ & _).
  destruct Hidle as (_ & _ & _ & _ & [(? & ? & _)|[(_ & _ & [Hn|Hs])|(Hcd & _)]]); [done| | |].
  - congruence.
  - by rewrite (Hk j ltac:(lia) Ew) in Hs.
  - by apply (Hnever j ltac:(lia) ltac:(lia)) in Hcd.
Qed.

(** Unless both threads have finished, something eventually moves. *)
Lemma eventually_drops i :
  ¬ joined (run i) -> exists j, (i <= j)%nat /\ (potential (run j) < potential (run i))%nat.
Proof.
  intros Hnj. destruct (f_reads _ _ _ _ Hfair i) as [k Hk].
  destruct (f_prod _ _ _ _ Hfair (Nat.max i k)) as (j & Hj & Hwho).
  destruct (drop_or_wait i (S j) ltac:(lia)) as [Hd|[Hw _]]; [done|].
  destruct (waiting_same i (S j) j Hw ltac:(lia)) as (Hpr & _ & Hpo & Hpu).
  pose proof (Hw j ltac:(lia)) as Hidle. rewrite Hwho in Hidle.
  destruct Hidle as (_ & _ & _ & _ & _ & [Hdone|(m & n & _ & Hfull)]).
  - apply consumer_finishes; [congruence|]. intros Hc. apply Hnj. split; [congruence|done].
  - apply consumer_moves. specialize (Hk j ltac:(lia) Hwho). lia.
Qed.

Lemma fair_run_ends : exists n, joined (run n).
Proof. apply (working_run_ends run potential joined decide_joined eventually_drops). Qed.
End run.

(** ** A fair run exists: the threads alternate and see the newest stores *)

Lemma prod_step_pops s c s' :
  prod_step c s = Some s' -> Ring.pops (ring s') = Ring.pops (ring s).
Proof.
  unfold prod_step. intros Hs. destruct (prod s) as [o|m n|m n w|m n w| |].
  - minv Hs. destruct x as [[[m|] next]|]; by simplify_eq.
  - minv Hs. unfold Ring.push_begin in E. minv E. minv E. repeat case_match; simplify_eq; done.
  - minv Hs. unfold Ring.push_copy in E. minv E. case_decide; by simplify_eq.
  - by simplify_eq.
  - by simplify_eq.
  - by simplify_eq.
Qed.

Lemma cons_step_pops s c b s' :
  cons_step c b s = Some s' -> (Ring.pops (ring s) <= Ring.pops (ring s'))%nat.
Proof.
  unfold cons_step. intros Hs. destruct (cons s) as [lt|lt rd|lt rd m|m| |].
  - minv Hs. unfold Ring.pop_begin in E. minv E. minv E. repeat case_match; simplify_eq; done.
  - minv Hs. unfold Ring.pop_copy in E. minv E. case_decide; by simplify_eq.
  - simplify_eq. cbn. unfold Ring.pops. cbn. rewrite length_app. cbn. lia.
  - minv Hs. by simplify_eq.
  - repeat case_match; by simplify_eq.
  - by simplify_eq.
Qed.

Section alternating.
Variable s0 : state I T B.
Hypothesis Hs0 : exists sent, inv stream b0 s0 sent.

Fixpoint alternating (i : nat) : state I T B :=
  match i with
  | O => s0
  | S i =>
      let s := alternating i in
      if Nat.even i then default s (prod_step (Ring.pops (ring s)) s)
      else default s (cons_step (Ring.pushes (ring s)) true s)
  end.

Definition newest (i : nat) : nat :=
  if Nat.even i then Ring.pops (ring (alternating i)) else Ring.pushes (ring (alternating i)).

Lemma alternating_step i :
  exists sent sent', inv stream b0 (alternating i) sent /\ inv stream b0 (alternating (S i)) sent' /\
    sent `prefix_of` sent' /\
    (if Nat.even i then prod_may (alternating i) (newest i) /\
       prod_step (newest i) (alternating i) = Some (alternating (S i))
     else cons_may (alternating i) (newest i) /\
       cons_step (newest i) true (alternating i) = Some (alternating (S i))).
Proof.
  assert (exists sent, inv stream b0 (alternating i) sent) as [sent Hv].
  { induction i as [|i [sent Hv]]; [done|]. cbn [alternating].
    pose proof (v_ring _ _ _ _ Hv) as Hr. pose proof (Ring.i_pview _ _ _ _ Hr). pose proof (Ring.i_cview _ _ _ _ Hr).
    pose proof (Ring.pushes_sent _ _ _ _ Hr). destruct (Nat.even i).
    - destruct (prod_step_inv stream b0 _ sent (Ring.pops (ring (alternating i))) Hv) as (s' & sent' & -> & Hv' & _).
      { unfold prod_may. lia. }
      by exists sent'.
    - destruct (cons_step_inv stream b0 Htakes _ sent (Ring.pushes (ring (alternating i))) true Hv) as (s' & -> & Hv').
      { unfold cons_may. lia. }
      by exists sent. }
  pose proof (v_ring _ _ _ _ Hv) as Hr. pose proof (Ring.i_pview _ _ _ _ Hr). pose proof (Ring.i_cview _ _ _ _ Hr).
  pose proof (Ring.pushes_sent _ _ _ _ Hr). unfold newest. cbn [alternating]. destruct (Nat.even i).
  - assert (prod_may (alternating i) (Ring.pops (ring (alternating i)))) as Hmay by (unfold prod_may; lia).
    destruct (prod_step_inv stream b0 _ sent _ Hv Hmay) as (s' & sent' & -> & Hv' & Hpre).
    exists sent, sent'. by split_and!.
  - assert (cons_may (alternating i) (Ring.pushes (ring (alternating i)))) as Hmay by (unfold cons_may; lia).
    destruct (cons_step_inv stream b0 Htakes _ sent _ true Hv Hmay) as (s' & -> & Hv').
    exists sent, sent. by split_and!.
Qed.

Lemma alternating_mono i j :
  (i <= j)%nat -> (Ring.pops (ring (alternating i)) <= Ring.pops (ring (alternating j)))%nat /\
  (Ring.pushes (ring (alternating i)) <= Ring.pushes (ring (alternating j)))%nat.
Proof.
  induction 1 as [|j Hle [IH1 IH2]]; [lia|].
  destruct (alternating_step j) as (sent & sent' & Hv & Hv' & Hpre & Hst). split.
  - destruct (Nat.even j); destruct Hst as [_ Hst];
      [rewrite (prod_step_pops _ _ _ Hst); lia|pose proof (cons_step_pops _ _ _ _ Hst); lia].
  - rewrite (Ring.pushes_sent _ _ _ _ (v_ring _ _ _ _ Hv)) in IH2.
    rewrite (Ring.pushes_sent _ _ _ _ (v_ring _ _ _ _ Hv')). apply prefix_length in Hpre. lia.
Qed.

Lemma alternating_fair : fair_run alternating Nat.even newest (fun _ => true).
Proof.
  assert (forall i, exists j, (i <= j)%nat /\ Nat.even j = true) as Heven.
  { intros i. destruct (Nat.even i) eqn:E; [by exists i|]. exists (S i). split; [lia|].
    by rewrite Nat.even_succ, <- Nat.negb_even, E. }
  split.
  - intros i. by destruct (alternating_step i) as (? & ? & _ & _ & _ & ?).
  - done.
  - intros i. destruct (Heven i) as (j & Hj & Hev). exists (S j). split; [lia|].
    by rewrite Nat.even_succ, <- Nat.negb_even, Hev.
  - intros i. exists i. intros j Hj Hev. unfold newest. rewrite Hev. by apply alternating_mono.
  - intros i. exists i. intros j Hj Hev. unfold newest. rewrite Hev. by apply alternating_mono.
  - intros i _. by exists 0%nat.
Qed.
End alternating.
End stream.
End proofs.
End Fairness.
