(* ===== verification/Pipeline.v ===== *)
(** * pipeline/itch_pipeline.hpp: the two-thread feed handler

    [run_itch_pipeline] is the handoff of Handoff.v with the framing walk and the
    decoder on the producer's side and [OrderBook::apply] on the consumer's. *)

From S2P Require Import Prelude HashMap IntrusiveList ObjectPool ByteOrder Messages Decode.
From S2P Require Import FileReader OrderBook BookSpec BookInvariant BookBest BookRefinement.
From S2P Require Import BookOps BookQueries Feed SpscRing Handoff HandoffProofs Fairness.
From stdpp Require Import relations.

Local Open Scope Z_scope.

Module Pipeline.

(** One record of the framing walk: the message and the next offset. *)
Definition walk_frame (raw : list byte) (offset : Z) : ub (option (list byte * Z)) :=
  let size := Z.of_nat (length raw) in
  if size <? offset +u64 2 then Some None
  else
    b0 ← raw !! Z.to_nat offset;
    b1 ← raw !! (Z.to_nat offset + 1)%nat;
    let len := u16 (Z.lor (Z.shiftl (to_integer b0) 8) (to_integer b1)) in
    let msg_start := offset +u64 2 in
    if size <? msg_start +u64 len then Some None
    else Some (Some (window raw (Z.to_nat msg_start) (Z.to_nat len), msg_start +u64 len)).

(** One turn of the producer's loop: what to push, if the record decodes, and where
    the next record starts. *)
Definition next_decoded (raw : list byte) (offset : Z) : ub (option (option DecodedMessage * Z)) :=
  f ← walk_frame raw offset;
  match f with
  | None => Some None
  | Some (msg, next) => decoded ← decode msg; Some (Some (decoded, next))
  end.

Definition workload (raw : list byte) : Workload Z DecodedMessage OrderBook := {|
  produce := next_decoded raw;
  consume := OrderBook.apply
|}.

Definition state : Type := Handoff.state Z DecodedMessage OrderBook.

Definition book (s : state) : OrderBook := Handoff.sink s.
Definition messages_processed (s : state) : Z := Handoff.processed s.

(** The ring slots are value-initialised. *)
Definition zero_message : DecodedMessage :=
  {| header := {| type := Unlisted x00; stock_locate := 0; tracking_number := 0; timestamp := 0 |};
     payload := system_event {| se_event_code := x00 |} |}.

Definition initial (b : OrderBook) (ring_buffer_capacity : Z) : ub state :=
  Handoff.initial zero_message 0 b ring_buffer_capacity.

(** What either thread may do next, and the interleavings. *)
Definition prod_step (raw : list byte) : nat -> state -> ub state :=
  @Handoff.prod_step _ _ _ (workload raw).
Definition cons_step (raw : list byte) : nat -> bool -> state -> ub state :=
  @Handoff.cons_step _ _ _ (workload raw).
Definition step (raw : list byte) : state -> state -> Prop := @Handoff.step _ _ _ (workload raw).
Definition fair_run (raw : list byte) : (nat -> state) -> (nat -> bool) -> (nat -> nat) -> (nat -> bool) -> Prop :=
  @Fairness.fair_run _ _ _ (workload raw).

(** Both threads joined. *)
Definition joined (s : state) : Prop := Handoff.joined s.

(** ** The sequential run *)

Fixpoint apply_all (b : OrderBook) (msgs : list DecodedMessage) : ub OrderBook :=
  match msgs with
  | [] => Some b
  | m :: msgs => b ← OrderBook.apply b m; apply_all b msgs
  end.

(** The messages of a byte stream, in order. *)
Definition stream (raw : list byte) : list DecodedMessage := decoded (frames raw).

Lemma apply_all_rep ms b l :
  Rep b l -> Forall msg_ok ms ->
  exists b', apply_all b ms = Some b' /\ Rep b' (foldl (spec_apply (book_capacity b)) l ms) /\
    book_capacity b' = book_capacity b.
Proof.
  revert b l. induction ms as [|m ms IH]; intros b l HR Hok; [by exists b|].
  apply Forall_cons in Hok as [Hm Hok]. cbn [apply_all foldl].
  destruct (apply_step b l m HR Hm) as (b1 & -> & HR1 & Hss & _). cbn [mbind option_bind].
  destruct (IH b1 _ HR1 Hok) as (b2 & Ha & HR2 & Hc2).
  assert (book_capacity b1 = book_capacity b) as Hcap by apply Hss. rewrite Hcap in *.
  by exists b2.
Qed.

Lemma decoded_ok spans : Forall msg_ok (decoded spans).
Proof.
  apply Forall_forall. intros m Hm. apply list_elem_of_omap in Hm as (raw & _ & Hd).
  destruct (decode raw) as [[m'|]|] eqn:E; try done. simplify_eq. by eapply decode_msg_ok.
Qed.

(** ** The framing walk *)

Lemma walk_frame_reader raw offset :
  walk_frame raw offset =
  (fun x : ItchFileReader * option (list byte) =>
     option_map (fun m => (m, offset_ x.1)) x.2) <$>
    next_raw_message (MkReader (Some raw) (Z.of_nat (length raw)) offset).
Proof.
  unfold walk_frame, next_raw_message, read_u16_be. cbn [data_ size_ FileReader.offset_].
  destruct (_ <? offset +u64 2); [done|]. destruct (raw !! Z.to_nat offset); [|done].
  cbn [mbind option_bind]. destruct (raw !! (Z.to_nat offset + 1)%nat); [|done].
  cbn [mbind option_bind]. by case_match.
Qed.

(** What the producer still has to push from an offset on. *)
Definition pending (raw : list byte) (offset : Z) : list DecodedMessage :=
  decoded (frames (drop (Z.to_nat offset) raw)).

Lemma walk_spec raw offset :
  Z.of_nat (length raw) < 2 ^ 63 -> 0 <= offset <= Z.of_nat (length raw) ->
  exists f, walk_frame raw offset = Some f /\
    match f with
    | None => pending raw offset = []
    | Some (msg, next) =>
        offset + 2 <= next <= Z.of_nat (length raw) /\
        exists d, decode msg = Some d /\
          pending raw offset = (match d with Some m => [m] | None => [] end) ++ pending raw next
    end.
Proof.
  intros Hs Ho. set (r := MkReader (Some raw) (Z.of_nat (length raw)) offset).
  assert (reader_ok r raw) as Hr by (by split).
  pose proof (next_raw_spec r raw Hr) as Hn. rewrite walk_frame_reader. fold r. unfold pending.
  rewrite frames_split. cbn [r FileReader.offset_] in Hn.
  destruct (split_frame (drop (Z.to_nat offset) raw)) as [[msg rest]|] eqn:Hsp.
  - destruct Hn as (r' & -> & Hr' & Hdrop & _). eexists. split; [done|]. cbn.
    pose proof (ro_offset _ _ Hr'). pose proof (ro_size _ _ Hr').
    apply split_frame_shorter in Hsp. rewrite <- Hdrop, !length_drop in Hsp.
    split; [lia|]. destruct (decode_total msg) as [d Hd]. exists d. split; [done|].
    rewrite Hdrop. unfold decoded. cbn [omap list_omap]. rewrite Hd. by destruct d.
  - rewrite Hn. eexists. split; [done|]. done.
Qed.
End Pipeline.
