(* ===== verification/PipelineProofs.v ===== *)
(** * The pipeline is a lawful workload

    The framing walk yields the decodable records of the stream and the book can
    take them in order, so the theorems of HandoffProofs.v and Fairness.v apply;
    here they are restated for [run_itch_pipeline]. *)

From S2P Require Import Prelude HashMap IntrusiveList ObjectPool ByteOrder Messages Decode.
From S2P Require Import FileReader OrderBook BookSpec BookInvariant BookBest BookRefinement.
From S2P Require Import BookOps BookQueries Feed SpscRing Handoff HandoffProofs Fairness Pipeline.
From stdpp Require Import relations.

Local Open Scope Z_scope.

Module PipelineProofs.
Import Pipeline.

Lemma next_decoded_spec raw offset :
  Z.of_nat (length raw) < 2 ^ 63 -> 0 <= offset <= Z.of_nat (length raw) ->
  exists o, next_decoded raw offset = Some o /\
    match o with
    | None => pending raw offset = []
    | Some (m, next) =>
        0 <= next <= Z.of_nat (length raw) /\
        (length raw - Z.to_nat next < length raw - Z.to_nat offset)%nat /\
        pending raw offset = option_list m ++ pending raw next
    end.
Proof.
  intros Hraw Ho. destruct (walk_spec raw offset Hraw Ho) as (f & Hw & Hf). unfold next_decoded.
  rewrite Hw. cbn [mbind option_bind]. destruct f as [[msg next]|]; [|by eexists].
  destruct Hf as (Hn & d & -> & Htodo). cbn [mbind option_bind]. eexists. split; [done|].
  split_and!; [lia..|]. rewrite Htodo. by destruct d.
Qed.

Lemma apply_law b m ms :
  (exists l, Rep b l) /\ Forall msg_ok (m :: ms) ->
  exists b', OrderBook.apply b m = Some b' /\ (exists l, Rep b' l) /\ Forall msg_ok ms.
Proof.
  intros [[l HR] Hok]. apply Forall_cons in Hok as [Hm Hok].
  destruct (apply_step b l m HR Hm) as (b' & Ha & HR' & _). exists b'. split_and!; [done|by eexists|done].
Qed.

Section proofs.
Variables (raw : list byte) (b0 : OrderBook) (l0 : list Rest).
Hypothesis Hraw : Z.of_nat (length raw) < 2 ^ 63.
Hypothesis Hb0 : Rep b0 l0.

#[local] Instance itch : Workload Z DecodedMessage OrderBook := workload raw.

#[local] Instance itch_laws : WorkloadLaws Z DecodedMessage OrderBook := {|
  valid offset := 0 <= offset <= Z.of_nat (length raw);
  todo := Pipeline.pending raw;
  left_over offset := (length raw - Z.to_nat offset)%nat;
  takes b ms := (exists l, Rep b l) /\ Forall msg_ok ms;
  produce_law offset := next_decoded_spec raw offset Hraw;
  consume_law := apply_law
|}.

Lemma takes_stream : takes b0 (stream raw).
Proof. split; [by exists l0|apply decoded_ok]. Qed.

Lemma consume_all_apply b ms : Handoff.consume_all b ms = apply_all b ms.
Proof.
  revert b. induction ms as [|m ms IH]; intros b; [done|]. cbn.
  destruct (OrderBook.apply b m); [|done]. cbn. apply IH.
Qed.

Definition inv (s : state) (sent : list DecodedMessage) : Prop := HandoffProofs.inv (stream raw) b0 s sent.

Lemma pipeline_initial_inv n : 0 <= n <= 2 ^ 63 -> exists s, initial b0 n = Some s /\ inv s [].
Proof. apply HandoffProofs.initial_inv; [cbn; lia|done]. Qed.

Lemma pipeline_reachable_inv s0 s :
  (exists sent, inv s0 sent) -> rtc (step raw) s0 s -> exists sent, inv s sent.
Proof. apply (HandoffProofs.reachable_inv _ _ takes_stream). Qed.

Lemma prod_step_defined s sent c :
  inv s sent -> Handoff.prod_may s c -> is_Some (prod_step raw c s).
Proof.
  intros Hv Hc. destruct (HandoffProofs.prod_step_inv _ _ s sent c Hv Hc) as (s' & _ & Hs & _). by exists s'.
Qed.

Lemma cons_step_defined s sent c seen :
  inv s sent -> Handoff.cons_may s c -> is_Some (cons_step raw c seen s).
Proof.
  intros Hv Hc. destruct (HandoffProofs.cons_step_inv _ _ takes_stream s sent c seen Hv Hc) as (s' & Hs & _).
  by exists s'.
Qed.

Lemma pipeline_can_finish s sent : inv s sent -> exists s', rtc (step raw) s s' /\ joined s'.
Proof. apply (HandoffProofs.can_finish _ _ takes_stream). Qed.

Lemma pipeline_joined_result s sent :
  inv s sent -> joined s ->
  apply_all b0 (stream raw) = Some (book s) /\
  messages_processed s = u64 (Z.of_nat (length (stream raw))).
Proof.
  intros Hv Hj. destruct (HandoffProofs.joined_result _ _ s sent Hv Hj) as (_ & Ha & Hc).
  by rewrite consume_all_apply in Ha.
Qed.

Lemma pipeline_fair_run_ends run who load seen :
  fair_run raw run who load seen -> (exists sent, inv (run 0%nat) sent) ->
  exists k sent, joined (run k) /\ inv (run k) sent.
Proof.
  intros Hfair Hi. destruct (Fairness.fair_run_ends _ _ takes_stream run who load seen Hfair Hi) as [k Hj].
  destruct (Fairness.run_inv _ _ takes_stream run who load seen Hfair Hi k) as [sent Hv].
  by exists k, sent.
Qed.

Lemma pipeline_alternating_fair s0 :
  (exists sent, inv s0 sent) ->
  fair_run raw (Fairness.alternating s0) Nat.even (Fairness.newest s0) (fun _ => true).
Proof. apply (Fairness.alternating_fair _ _ takes_stream). Qed.
End proofs.
End PipelineProofs.
