(* ===== verification/StreamTests.v ===== *)
(** * The tests that replay a generated stream

    book/tests/test_order_book_itch_integration.cpp, pipeline/tests/test_itch_pipeline.cpp
    and itch/tests/test_synth_roundtrip.cpp: each generates a stream, walks its records
    and keeps its own account of the live orders.  The walk and the account are shared;
    a failed assertion is a value.  The lemmas carry the account along the replay of
    the generated messages (SynthProofs.v). *)

From S2P Require Import Prelude StdModel HashMap IntrusiveList ObjectPool ByteOrder Messages Decode.
From S2P Require Import FileReader OrderBook BookSpec BookInvariant BookBest BookRefinement BookOps.
From S2P Require Import BookQueries Feed Tracking DifferentialTest Synth SynthCodec SynthProofs.
From S2P Require Import SpscRing Handoff HandoffProofs Fairness Pipeline PipelineProofs.
From stdpp Require Import relations.
Import Synth SynthCodec SynthProofs.

Local Open Scope Z_scope.

Module StreamTests.

(** ** The walk over the records *)

Section walk.
Context {S : Type} (visit : S -> DecodedMessage -> ub (option S)) (undecodable : ub (option (S * Z))).

(** [None] inside: an assertion failed that ends the test at once, as the one that
    no record is truncated. *)
Fixpoint walk (fuel : nat) (bytes : list byte) (offset : Z) (s : S) : ub (option (S * Z)) :=
  match fuel with
  | O => None
  | Datatypes.S fuel =>
      let size := Z.of_nat (length bytes) in
      if size <? offset +u64 2 then Some (Some (s, offset))
      else
        b0 ← bytes !! Z.to_nat offset;
        b1 ← bytes !! (Z.to_nat offset + 1)%nat;
        let len := u16 (Z.lor (Z.shiftl (to_integer b0) 8) (to_integer b1)) in
        let msg_start := offset +u64 2 in
        if size <? msg_start +u64 len then Some None
        else
          msg ← decode (window bytes (Z.to_nat msg_start) (Z.to_nat len));
          match msg with
          | None => undecodable
          | Some msg =>
              s ← visit s msg;
              match s with None => Some None | Some s => walk fuel bytes (msg_start +u64 len) s end
          end
  end.

(** The visits of a whole stream that none of them stops. *)
Fixpoint visit_all (s : S) (msgs : list DecodedMessage) : ub S :=
  match msgs with
  | [] => Some s
  | msg :: msgs =>
      s ← visit s msg;
      match s with None => None | Some s => visit_all s msgs end
  end.
End walk.

(** ** The account of the live orders *)

Record ExpectedOrder := MkExpected { eo_price : Z; eo_shares : Z; eo_is_buy : bool }.

Definition stream_config (seed num_orders : Z) (symbols : list (list byte)) : SynthConfig :=
  MkConfig seed num_orders symbols 1500000 50000.

Section account.
Context {M : Type} `{!UnorderedMap ExpectedOrder M}.
Implicit Types (live : M).

(** [expected_live.find(ref)]. *)
Definition find_expected live (ref : Z) : option ExpectedOrder :=
  snd <$> List.find (fun e => e.1 =? ref) (um_entries live).

(** [it->second.shares -= delta], and [erase] at zero. *)
Definition reduce_expected live (ref delta : Z) : M :=
  match find_expected live ref with
  | None => live
  | Some o =>
      let left := eo_shares o -u32 delta in
      let live := um_set ref (MkExpected (eo_price o) left (eo_is_buy o)) live in
      if left =? 0 then um_erase ref live else live
  end.

Definition track live (msg : DecodedMessage) : ub M :=
  match type (header msg) with
  | AddOrder | AddOrderMPID =>
      ao ← as_add_order msg;
      Some (um_set (ao_order_reference_number ao)
              (MkExpected (ao_price ao) (ao_shares ao) (is_B (ao_buy_sell_indicator ao))) live)
  | OrderExecuted =>
      oe ← as_order_executed msg;
      Some (reduce_expected live (oe_order_reference_number oe) (oe_executed_shares oe))
  | OrderCancel =>
      oc ← as_order_cancel msg;
      Some (reduce_expected live (oc_order_reference_number oc) (oc_cancelled_shares oc))
  | OrderDelete =>
      od ← as_order_delete msg;
      Some (um_erase (od_order_reference_number od) live)
  | OrderReplace =>
      orep ← as_order_replace msg;
      let original := or_original_order_reference_number orep in
      let is_buy := match find_expected live original with Some o => eo_is_buy o | None => true end in
      Some (um_set (or_new_order_reference_number orep) (MkExpected (or_price orep) (or_shares orep) is_buy)
              (um_erase original live))
  | _ => Some live
  end.

(** [expected_shares_at[{price, is_buy}] += shares] over the live orders. *)
Definition expected_shares_at (entries : list (Z * ExpectedOrder)) : gmap (Z * bool) Z :=
  foldl (fun m e =>
    let key := (eo_price e.2, eo_is_buy e.2) in
    <[key := default 0 (m !! key) +u32 eo_shares e.2]> m) ∅ entries.

Fixpoint shares_agree (book : OrderBook) (expected : list ((Z * bool) * Z)) : ub bool :=
  match expected with
  | [] => Some true
  | ((price, is_buy), shares) :: expected =>
      here ← shares_at book price is_buy;
      rest ← shares_agree book expected;
      Some ((here =? shares) && rest)
  end.

(** The final comparison of both integration tests. *)
Definition book_agrees (book : OrderBook) live : ub bool :=
  shares ← shares_agree book (map_to_list (expected_shares_at (um_entries live)));
  Some ((order_count book =? Z.of_nat (length (um_entries live))) && shares).

(** ** The order book integration test *)

Record seen := MkSeen { book : OrderBook; expected_live : M; messages_applied : Z }.

Definition apply_and_track (s : seen) (msg : DecodedMessage) : ub (option seen) :=
  b ← OrderBook.apply (book s) msg;
  live ← track (expected_live s) msg;
  Some (Some (MkSeen b live (messages_applied s +u64 1))).

(** [OrderBook book(base_price, price_spread + 1000, num_orders + 10)]. *)
Definition fresh_book (config : SynthConfig) : ub OrderBook :=
  make (base_price config) (price_spread config +u32 1000) (num_orders config +u64 10).

Section tests.
Context {R ML : Type} `{!Random R, !UnorderedMap LiveOrder ML}.

Definition integration_config : SynthConfig := stream_config 7 500 [["A"; "A"; "P"; "L"]]%byte.

Definition integration_checks (bytes : list byte) (b : OrderBook) : ub bool :=
  r ← walk apply_and_track (Some None) (S (length bytes)) bytes 0 (MkSeen b um_empty 0);
  match r with
  | None => Some false
  | Some (s, offset) =>
      agrees ← book_agrees (book s) (expected_live s);
      Some ((0 <? messages_applied s) && (offset =? Z.of_nat (length bytes)) && agrees)
  end.

Definition verdict_of (passed : bool) : DiffTest.verdict := if passed then DiffTest.Passed else DiffTest.Failed.

Definition integration_test (fuel : nat) : ub DiffTest.verdict :=
  '(bytes, finished) ← generate (R := R) (M := ML) integration_config fuel;
  if finished : bool then
    b ← fresh_book integration_config;
    passed ← integration_checks bytes b;
    Some (verdict_of passed)
  else Some DiffTest.Running.

(** ** The pipeline test *)

Definition count_and_track (s : M * Z) (msg : DecodedMessage) : ub (option (M * Z)) :=
  live ← track s.1 msg;
  Some (Some (live, s.2 +u64 1)).

Definition pipeline_config : SynthConfig := stream_config 11 500 [["A"; "A"; "P"; "L"]]%byte.

Definition pipeline_checks (bytes : list byte) (b : OrderBook) (messages_processed : Z) : ub bool :=
  r ← walk count_and_track (Some None) (S (length bytes)) bytes 0 (um_empty, 0);
  match r with
  | None => Some false
  | Some ((live, expected_message_count), _) =>
      agrees ← book_agrees b live;
      Some ((0 <? expected_message_count) && (messages_processed =? expected_message_count) && agrees)
  end.

(** A run of the test, in some interleaving of the pipeline's threads. *)
Inductive pipeline_test (fuel : nat) : ub DiffTest.verdict -> Prop :=
  | pipeline_run bytes b0 s0 s :
      generate (R := R) (M := ML) pipeline_config fuel = Some (bytes, true) ->
      fresh_book pipeline_config = Some b0 -> Pipeline.initial b0 32 = Some s0 ->
      rtc (Pipeline.step bytes) s0 s -> Pipeline.joined s ->
      pipeline_test fuel
        (passed ← pipeline_checks bytes (Pipeline.book s) (Pipeline.messages_processed s);
         Some (verdict_of passed)).
End tests.
End account.
Arguments seen : clear implicits.

(** ** The walk visits the records in order *)

Lemma walk_frame_step bytes offset msg rest :
  Z.of_nat (length bytes) < 2 ^ 63 -> 0 <= offset <= Z.of_nat (length bytes) ->
  split_frame (drop (Z.to_nat offset) bytes) = Some (msg, rest) ->
  exists next, Pipeline.walk_frame bytes offset = Some (Some (msg, next)) /\
    drop (Z.to_nat next) bytes = rest /\ offset < next <= Z.of_nat (length bytes).
Proof.
  intros Hs Ho Hsp. set (r := MkReader (Some bytes) (Z.of_nat (length bytes)) offset).
  assert (reader_ok r bytes) as Hr by (by split). pose proof (next_raw_spec r bytes Hr) as Hn.
  cbn [r FileReader.offset_] in Hn. rewrite Hsp in Hn. destruct Hn as (r' & Hn & Hr' & Hdrop & Hlt).
  rewrite Pipeline.walk_frame_reader. fold r. rewrite Hn. cbn. eexists. split; [done|].
  pose proof (ro_offset _ _ Hr'). pose proof (ro_size _ _ Hr'). split; [done|]. cbn in Hlt. lia.
Qed.

Section walking.
Context {S : Type} (visit : S -> DecodedMessage -> ub (option S)) (undecodable : ub (option (S * Z))).

Lemma walk_step fuel bytes offset s raw next msg :
  Pipeline.walk_frame bytes offset = Some (Some (raw, next)) -> decode raw = Some (Some msg) ->
  walk visit undecodable (Datatypes.S fuel) bytes offset s =
    s ← visit s msg; match s with None => Some None | Some s => walk visit undecodable fuel bytes next s end.
Proof.
  unfold Pipeline.walk_frame. cbn [walk]. destruct (_ <? offset +u64 2); [done|].
  destruct (bytes !! Z.to_nat offset); [|done]. destruct (bytes !! (_ + 1)%nat); [|done].
  cbn [mbind option_bind]. destruct (_ <? _ +u64 u16 _); [done|].
  intros [= <- <-] ->. done.
Qed.

Lemma walk_visits fuel bytes offset raws msgs s s' :
  Forall2 encodes raws msgs -> Z.of_nat (length bytes) < 2 ^ 63 -> 0 <= offset <= Z.of_nat (length bytes) ->
  drop (Z.to_nat offset) bytes = concat (frame <$> raws) -> (length raws < fuel)%nat ->
  visit_all visit s msgs = Some s' ->
  walk visit undecodable fuel bytes offset s = Some (Some (s', Z.of_nat (length bytes))).
Proof.
  intros He Hs. revert fuel offset s. induction He as [|raw msg raws msgs [Hd Hl] He IH];
    intros fuel offset s Ho Hdrop Hf Hv; (destruct fuel as [|fuel]; [cbn in Hf; lia|]).
  - cbn in Hv. injection Hv as <-. apply (f_equal length) in Hdrop. rewrite length_drop in Hdrop. cbn in Hdrop.
    cbn [walk]. rewrite u64_small, (proj2 (Z.ltb_lt _ _)) by lia. do 3 f_equal. lia.
  - cbn [fmap list_fmap concat] in Hdrop. pose proof (wire_length_small (type (header msg))) as Hw.
    destruct (walk_frame_step bytes offset raw (concat (frame <$> raws)) Hs Ho) as (next & Hfr & Hnext & Hlt).
    { rewrite Hdrop. apply split_frame_app. lia. }
    rewrite (walk_step _ _ _ _ _ _ _ Hfr Hd). cbn [visit_all] in Hv.
    destruct (visit s msg) as [[s1|]|]; [|done..]. cbn [mbind option_bind] in *.
    apply IH; [lia|done|cbn in Hf; lia|done].
Qed.

(** The invariant rule for the visits. *)
Lemma visit_all_rule (P : list DecodedMessage -> S -> Prop) msgs s :
  P [] s ->
  (forall done msg s, P done s -> done ++ [msg] `prefix_of` msgs ->
     exists s', visit s msg = Some (Some s') /\ P (done ++ [msg]) s') ->
  exists s', visit_all visit s msgs = Some s' /\ P msgs s'.
Proof.
  intros H0 Hstep.
  assert (forall rest pre s, msgs = pre ++ rest -> P pre s ->
    exists s', visit_all visit s rest = Some s' /\ P msgs s') as Hall; [|by apply (Hall msgs [])].
  induction rest as [|msg rest IH]; intros pre s1 Heq HP.
  - rewrite app_nil_r in Heq. subst. by exists s1.
  - destruct (Hstep pre msg s1 HP) as (s2 & Hv & HP2).
    { rewrite Heq. exists rest. by rewrite <- app_assoc. }
    cbn [visit_all]. rewrite Hv. cbn [mbind option_bind]. apply (IH (pre ++ [msg])); [|done].
    by rewrite <- app_assoc.
Qed.
End walking.

(** ** The account follows the replay *)

(** The resting order an entry of the account stands for. *)
Definition view (e : Z * ExpectedOrder) : Rest :=
  MkRest e.1 (eo_price e.2) (eo_shares e.2) (eo_is_buy e.2) 0.

Lemma expected_ref e : r_ref (view e) = e.1.
Proof. done. Qed.

Section facts.
Context {M : Type} `{!UnorderedMap ExpectedOrder M, !UnorderedMapLaws ExpectedOrder M}.
Implicit Types (live : M) (l : list Rest).

Record accounts live l : Prop := MkAccounts {
  ac_view : view <$> um_entries live ≡ₚ l;
  ac_shares : forall r, r ∈ l -> 0 < r_shares r < 2 ^ 32;
  ac_prices : forall r, r ∈ l -> 0 <= r_price r < 2 ^ 32
}.

Lemma accounts_empty : accounts um_empty [].
Proof. split; [by rewrite um_entries_empty|by intros r ?%not_elem_of_nil..]. Qed.

Lemma find_expected_elem live ref o : find_expected live ref = Some o -> (ref, o) ∈ um_entries live.
Proof.
  unfold find_expected. intros ([r o'] & Hf & ->)%fmap_Some.
  apply find_some in Hf as [Hin Hr%Z.eqb_eq]. cbn in *. subst. by apply list_elem_of_In.
Qed.

(** A resting order is found in the account. *)
Lemma accounts_find live l ref r :
  accounts live l -> Spec.find_ref ref l = Some r ->
  exists o, find_expected live ref = Some o /\ (ref, o) ∈ um_entries live /\ view (ref, o) = r.
Proof.
  intros [Hv _ _] Hf. destruct (find_expected live ref) as [o|] eqn:Ho.
  - apply find_expected_elem in Ho as He. exists o. split; [done|]. split; [done|].
    pose proof (tracks_find view expected_ref _ _ Hv _ _ He) as Hf'. rewrite Hf in Hf'. by injection Hf'.
  - exfalso. apply Spec.find_ref_Some in Hf as [Hin Href]. rewrite <- Hv in Hin.
    apply list_elem_of_fmap in Hin as (e & -> & He). cbn in Href. unfold find_expected in Ho.
    apply fmap_None in Ho. apply list_elem_of_In in He. apply (find_none _ _ Ho) in He.
    by apply Z.eqb_neq in He.
Qed.

(** A reference that does not rest is not in the account. *)
Lemma accounts_fresh live l ref e :
  accounts live l -> Spec.find_ref ref l = None -> e ∈ um_entries live -> e.1 <> ref.
Proof.
  intros [Hv _ _] Hf He. rewrite Spec.find_ref_None in Hf. apply (Hf (view e)).
  rewrite <- Hv. by apply list_elem_of_fmap_2.
Qed.

Lemma accounts_perm live l l' : l ≡ₚ l' -> accounts live l -> accounts live l'.
Proof.
  intros Hp [Hv Hs Hpr]. split; [by rewrite Hv| |]; intros r Hr; rewrite <- Hp in Hr; auto.
Qed.

(** One more order under a fresh reference. *)
Lemma accounts_insert live l ref o :
  accounts live l -> (forall e, e ∈ um_entries live -> e.1 <> ref) ->
  0 < eo_shares o < 2 ^ 32 -> 0 <= eo_price o < 2 ^ 32 ->
  accounts (um_set ref o live) (l ++ [view (ref, o)]).
Proof.
  intros [Hv Hs Hp] Hf Ho1 Ho2. split.
  - rewrite set_fresh by done. cbn [fmap list_fmap]. rewrite Hv. apply Permutation_cons_append.
  - intros r [Hr| ->%list_elem_of_singleton]%elem_of_app; [by apply Hs|done].
  - intros r [Hr| ->%list_elem_of_singleton]%elem_of_app; [by apply Hp|done].
Qed.

Lemma accounts_erase live l ref : accounts live l -> accounts (um_erase ref live) (Spec.remove_ref ref l).
Proof.
  intros [Hv Hs Hp]. split.
  - rewrite um_entries_erase. by apply (tracks_remove view expected_ref).
  - intros r Hr. apply list_elem_of_filter in Hr as [_ Hr]. by apply Hs.
  - intros r Hr. apply list_elem_of_filter in Hr as [_ Hr]. by apply Hp.
Qed.

Lemma accounts_reduce live l ref delta l' :
  accounts live l -> Spec.reduce l ref delta = (l', true) -> 0 <= delta ->
  accounts (reduce_expected live ref delta) l'.
Proof.
  intros Ha Hr Hd. unfold Spec.reduce in Hr. destruct (Spec.find_ref ref l) as [r|] eqn:Hf; [|done].
  destruct (accounts_find live l ref r Ha Hf) as (o & Ho & He & <-). pose proof Ha as [Hv Hs Hp].
  apply Spec.find_ref_Some in Hf as [Hin _]. pose proof (Hs _ Hin) as Hso. pose proof (Hp _ Hin) as Hpo.
  cbn [view r_shares r_price fst snd] in *.
  destruct (Z.eqb_spec delta 0); [done|]. destruct (Z.ltb_spec (eo_shares o) delta); [done|]. cbn [orb] in Hr.
  destruct (take_tracks view expected_ref live l Hv ref o
    (MkExpected (eo_price o) (eo_shares o - delta) (eo_is_buy o)) delta He ltac:(cbn; lia) eq_refl)
    as (l1 & Hr1 & Hv1 & _ & Hes). cbn [view r_shares fst snd] in Hv1, Hes.
  assert (Spec.reduce l ref delta = (l', true)) as Hr2.
  { unfold Spec.reduce. rewrite (tracks_find view expected_ref live l Hv ref o He). cbn [view r_shares fst snd].
    rewrite (proj2 (Z.eqb_neq _ _)), (proj2 (Z.ltb_ge _ _)) by lia. done. }
  rewrite Hr2 in Hr1. injection Hr1 as <-. unfold reduce_expected. rewrite Ho, u32_small by lia.
  split; [done| |]; intros r Hr3; rewrite <- Hv1 in Hr3; apply list_elem_of_fmap in Hr3 as (e & -> & He').
  - apply Hes in He' as [He'|[-> Hpos]]; [|cbn; lia]. apply Hs. rewrite <- Hv. by apply list_elem_of_fmap_2.
  - apply Hes in He' as [He'|[-> Hpos]]; [|done]. apply Hp. rewrite <- Hv. by apply list_elem_of_fmap_2.
Qed.

Lemma accounts_replace live l old new shares price l' :
  accounts live l -> Spec.replace l old new shares price = (l', true) ->
  0 <= shares < 2 ^ 32 -> 0 <= price < 2 ^ 32 ->
  accounts (um_set new (MkExpected price shares
    (match find_expected live old with Some o => eo_is_buy o | None => true end)) (um_erase old live)) l'.
Proof.
  intros Ha Hr Hs Hp. unfold Spec.replace in Hr. destruct (Spec.find_ref old l) as [r|] eqn:Hf; [|done].
  destruct (accounts_find live l old r Ha Hf) as (o & -> & He & <-).
  destruct (Z.eqb_spec shares 0); [done|].
  destruct (negb (old =? new) && bool_decide _) eqn:Hc; [done|]. injection Hr as <-. cbn [view r_buy fst snd].
  apply (accounts_insert _ _ new (MkExpected price shares (eo_is_buy o))); [by apply accounts_erase| |cbn; lia|done].
  intros e Hin. destruct (Z.eqb_spec old new) as [->|Hne].
  - rewrite um_entries_erase in Hin. by apply list_elem_of_filter in Hin as [? _].
  - cbn in Hc. apply bool_decide_eq_false in Hc. eapply accounts_fresh; [exact Ha| |].
    + destruct (Spec.find_ref new l); [|done]. by destruct Hc.
    + rewrite um_entries_erase in Hin. by apply list_elem_of_filter in Hin as [_ ?].
Qed.

(** The messages a generated stream consists of. *)
Definition stream_message (msg : DecodedMessage) : Prop :=
  msg_ok msg /\ type (header msg) <> OrderExecutedWithPrice.

Lemma track_step cap live l msg l' :
  accounts live l -> stream_message msg -> replay_step cap l msg = Some l' ->
  exists live', track live msg = Some live' /\ accounts live' l'.
Proof.
  intros Ha [[Hm Hr] Hne] Hrep. unfold track, replay_step, accepted, payload_matches, fields_in_range,
    as_add_order, as_order_executed, as_order_cancel, as_order_delete, as_order_replace in *.
  destruct (type (header msg)); try done; destruct (payload msg) as [p|p|p|p|p|p|p|p|p]; try done;
    cbn [mbind option_bind]; try (injection Hrep as <-; by exists live).
  all: match type of Hrep with (if ?res.2 then _ else _) = _ => destruct res as [l1 []] eqn:Hspec end;
    [|done]; cbn [fst snd] in Hrep; injection Hrep as <-; eexists; (split; [done|]).
  1,2: unfold Spec.add in Hspec; destruct (Z.eqb_spec (ao_shares p) 0); [done|];
    destruct (Spec.find_ref _ l) eqn:Hf; [done|]; destruct (_ <? cap); [|done]; injection Hspec as <-;
    apply (accounts_insert live l _ (MkExpected _ _ _) Ha); cbn; [|lia|lia];
    intros e He; by eapply accounts_fresh.
  - by apply (accounts_reduce live l); [| |lia].
  - by apply (accounts_reduce live l); [| |lia].
  - unfold Spec.delete in Hspec. destruct (Spec.find_ref _ l); [|done]. injection Hspec as <-. by apply accounts_erase.
  - destruct Hr. by eapply (accounts_replace live l).
Qed.

(** ** The final comparison *)

(** Every expected total is the account's, at 32 bits. *)
Lemma expected_shares_at_spec (es : list (Z * ExpectedOrder)) (p : Z) (buy : bool) :
  match expected_shares_at es !! (p, buy) with
  | Some v => v = u32 (Spec.shares_at buy p (view <$> es)) /\ exists e, e ∈ es /\ eo_price e.2 = p
  | None => Spec.shares_at buy p (view <$> es) = 0
  end.
Proof.
  induction es as [|e es IH] using rev_ind; [done|]. unfold expected_shares_at in *.
  rewrite foldl_app, fmap_app, shares_at_app. cbn [foldl fmap list_fmap]. rewrite shares_at_cons.
  change (Spec.shares_at buy p []) with 0. rewrite Z.add_0_r. set (m := foldl _ ∅ es) in *.
  destruct (decide (Spec.at_level buy p (view e))) as [[Hb Hp]|Hne]; cbn [view r_buy r_price r_shares] in *.
  - rewrite Hp, Hb, lookup_insert_eq. destruct (m !! (p, buy)) as [v|]; cbn [default].
    + destruct IH as [-> _]. split; [apply u32_add_l|]. exists e. split; [set_solver|done].
    + rewrite IH. split; [done|]. exists e. split; [set_solver|done].
  - rewrite lookup_insert_ne by (intros [= ? ?]; by apply Hne). rewrite Z.add_0_r.
    destruct (m !! (p, buy)); [|done]. destruct IH as [-> (e' & He' & Hp)]. split; [done|].
    exists e'. split; [set_solver|done].
Qed.

Lemma shares_agree_true b l live (expected : list ((Z * bool) * Z)) :
  Rep b l -> accounts live l ->
  (forall k v, (k, v) ∈ expected -> expected_shares_at (um_entries live) !! k = Some v) ->
  shares_agree b expected = Some true.
Proof.
  intros HR [Hv _ Hp]. induction expected as [|[[p buy] v] expected IH]; intros Hall; [done|]. cbn [shares_agree].
  pose proof (expected_shares_at_spec (um_entries live) p buy) as Hspec.
  rewrite (Hall _ _ ltac:(left)) in Hspec. destruct Hspec as [-> (e & He & Hpe)].
  assert (0 <= p < 2 ^ 32) as Hrange.
  { rewrite <- Hpe. apply (Hp (view e)). rewrite <- Hv. by apply list_elem_of_fmap_2. }
  rewrite (shares_at_rep b l p buy HR Hrange). cbn [mbind option_bind].
  rewrite IH by (intros k v' Hin; apply Hall; by right). cbn [mbind option_bind].
  assert (Spec.shares_at buy p (view <$> um_entries live) = Spec.shares_at buy p l) as ->; [|by rewrite Z.eqb_refl].
  unfold Spec.shares_at, Spec.queue_at. by rewrite Hv.
Qed.

Lemma book_agrees_true b l live : Rep b l -> accounts live l -> book_agrees b live = Some true.
Proof.
  intros HR Ha. unfold book_agrees. rewrite (shares_agree_true b l live _ HR Ha).
  - cbn [mbind option_bind]. rewrite (order_count_rep b l HR).
    pose proof (Permutation_length (ac_view _ _ Ha)) as Hl. rewrite length_fmap in Hl.
    by rewrite Hl, Z.eqb_refl.
  - intros k v Hin. by apply elem_of_map_to_list.
Qed.

(** ** The integration test *)

(** A generated stream, as the tests see it: at most [2^56] records, none of them an
    execution with a price, accepted by a book with room for [cap] orders. *)
Record good_stream (cap : Z) (bytes : list byte) (raws : list (list byte)) (msgs : list DecodedMessage)
    (l : list Rest) : Prop := MkGood {
  gs_bytes : bytes = concat (frame <$> raws);
  gs_encodes : Forall2 encodes raws msgs;
  gs_replay : replay cap [] msgs = Some l;
  gs_messages : Forall stream_message msgs;
  gs_count : 0 < Z.of_nat (length msgs) < 2 ^ 56
}.

Lemma good_size cap bytes raws msgs l :
  good_stream cap bytes raws msgs l -> Z.of_nat (length bytes) < 2 ^ 63.
Proof.
  intros [-> He _ _ Hc]. pose proof (encoded_length _ _ He). lia.
Qed.

Lemma replay_app cap l ms ms' : replay cap l (ms ++ ms') = l1 ← replay cap l ms; replay cap l1 ms'.
Proof.
  revert l. induction ms as [|m ms IH]; intros l; [done|]. cbn [replay app].
  destruct (replay_step cap l m); [apply IH|done].
Qed.

(** The state of the replay after a prefix of the stream. *)
Lemma replay_prefix cap msgs l done msg :
  replay cap [] msgs = Some l -> done ++ [msg] `prefix_of` msgs ->
  exists l1 l2, replay cap [] done = Some l1 /\ replay_step cap l1 msg = Some l2 /\
    replay cap [] (done ++ [msg]) = Some l2.
Proof.
  intros Hr [rest ->]. rewrite replay_app in Hr. destruct (replay cap [] (done ++ [msg])) as [l2|] eqn:H2; [|done].
  pose proof H2 as H2'. rewrite replay_app in H2'. destruct (replay cap [] done) as [l1|] eqn:H1; [|done].
  cbn [mbind option_bind replay] in H2'. destruct (replay_step cap l1 msg) as [l2'|] eqn:Hst; [|done].
  cbn [mbind option_bind] in H2'. injection H2' as <-. by exists l1, l2'.
Qed.

Lemma prefix_message (P : DecodedMessage -> Prop) msgs done msg :
  Forall P msgs -> done ++ [msg] `prefix_of` msgs -> P msg.
Proof. intros Hall [rest ->]. rewrite !Forall_app, Forall_singleton in Hall. tauto. Qed.

Lemma good_walk {S} (visit : S -> DecodedMessage -> ub (option S)) u cap bytes raws msgs l s s' :
  good_stream cap bytes raws msgs l -> visit_all visit s msgs = Some s' ->
  walk visit u (Datatypes.S (length bytes)) bytes 0 s = Some (Some (s', Z.of_nat (length bytes))).
Proof.
  intros Hg Hv. pose proof (good_size _ _ _ _ _ Hg) as Hs. destruct Hg as [Hb He _ _ _].
  apply (walk_visits _ _ _ bytes 0 raws msgs); [done|done|lia|done| |done].
  rewrite Hb. clear -He. induction He as [|raw msg raws msgs _ _ IH]; [cbn; lia|].
  cbn [fmap list_fmap concat length]. unfold frame at 1. rewrite !length_app, length_be_bytes. lia.
Qed.

Lemma integration_checks_pass cap bytes raws msgs l b :
  good_stream cap bytes raws msgs l -> Rep b [] -> book_capacity b = cap ->
  integration_checks (M := M) bytes b = Some true.
Proof.
  intros Hg HR Hcap. pose proof Hg as [_ _ Hr Hm Hc].
  destruct (visit_all_rule (apply_and_track (M := M)) (fun done s => exists l1, replay cap [] done = Some l1 /\
      Rep (book s) l1 /\ accounts (expected_live s) l1 /\ book_capacity (book s) = cap /\
      messages_applied s = u64 (Z.of_nat (length done))) msgs (MkSeen b um_empty 0))
    as (s & Hv & l1 & Hl1 & HR1 & Ha1 & _ & Hn).
  - exists []. split_and!; try done. apply accounts_empty.
  - intros done msg s (l1 & Hl1 & HR1 & Ha1 & Hc1 & Hn) Hpre.
    destruct (replay_prefix cap msgs l done msg Hr Hpre) as (l1' & l2 & Hl1' & Hst & Hl2).
    rewrite Hl1 in Hl1'. injection Hl1' as <-. pose proof (prefix_message _ _ _ _ Hm Hpre) as Hmsg.
    destruct (apply_step _ _ msg HR1 (proj1 Hmsg)) as (b2 & Hap & HR2 & Hsh & _).
    rewrite Hc1, (replay_step_spec _ _ _ _ Hst) in HR2.
    destruct (track_step cap _ _ msg l2 Ha1 Hmsg Hst) as (live2 & Htr & Ha2).
    unfold apply_and_track. rewrite Hap. cbn [mbind option_bind]. rewrite Htr. cbn [mbind option_bind].
    eexists. split; [done|]. exists l2. cbn [book expected_live messages_applied].
    split_and!; [done|done|done| |].
    + rewrite <- Hc1. apply Hsh.
    + rewrite Hn, u64_add_l, length_app. f_equal. cbn. lia.
  - unfold integration_checks. rewrite (good_walk _ _ _ _ _ _ _ _ s Hg Hv). cbn [mbind option_bind].
    rewrite (book_agrees_true _ _ _ HR1 Ha1). cbn [mbind option_bind].
    rewrite Hn, u64_small, Z.eqb_refl, (proj2 (Z.ltb_lt _ _)) by lia. done.
Qed.

(** ** The pipeline test *)

Lemma pipeline_checks_pass cap bytes raws msgs l b :
  good_stream cap bytes raws msgs l -> Rep b l ->
  pipeline_checks (M := M) bytes b (u64 (Z.of_nat (length msgs))) = Some true.
Proof.
  intros Hg HR. pose proof Hg as [_ _ Hr Hm Hc].
  destruct (visit_all_rule (count_and_track (M := M)) (fun done s => exists l1, replay cap [] done = Some l1 /\
      accounts s.1 l1 /\ s.2 = u64 (Z.of_nat (length done))) msgs (um_empty, 0))
    as ([live n] & Hv & l1 & Hl1 & Ha1 & Hn).
  - exists []. split_and!; [done|apply accounts_empty|done].
  - intros done msg [live n] (l1 & Hl1 & Ha1 & Hn) Hpre. cbn [fst snd] in *.
    destruct (replay_prefix cap msgs l done msg Hr Hpre) as (l1' & l2 & Hl1' & Hst & Hl2).
    rewrite Hl1 in Hl1'. injection Hl1' as <-.
    destruct (track_step cap _ _ msg l2 Ha1 (prefix_message _ _ _ _ Hm Hpre) Hst) as (live2 & Htr & Ha2).
    unfold count_and_track. cbn [fst snd]. rewrite Htr. cbn [mbind option_bind]. eexists. split; [done|].
    exists l2. split_and!; [done|done|]. cbn [snd]. rewrite Hn, u64_add_l, length_app. f_equal. cbn. lia.
  - unfold pipeline_checks. rewrite (good_walk _ _ _ _ _ _ _ _ _ Hg Hv). cbn [mbind option_bind fst snd] in *.
    rewrite Hr in Hl1. injection Hl1 as <-. rewrite (book_agrees_true _ _ _ HR Ha1). cbn [mbind option_bind].
    rewrite Hn, Z.eqb_refl, u64_small, (proj2 (Z.ltb_lt _ _)) by lia. done.
Qed.
End facts.

(** What the finished pipeline has done to a fresh book. *)
Lemma pipeline_on_good_stream cap bytes raws msgs l b0 (Hs : Z.of_nat (length bytes) < 2 ^ 63) s sent :
  good_stream cap bytes raws msgs l -> Rep b0 [] -> book_capacity b0 = cap ->
  PipelineProofs.inv bytes b0 Hs s sent -> Pipeline.joined s ->
  Rep (Pipeline.book s) l /\ Pipeline.messages_processed s = u64 (Z.of_nat (length msgs)).
Proof.
  intros Hg HR Hcap Hv Hj. pose proof Hg as [Hb He Hr Hm _].
  assert (Pipeline.stream bytes = msgs) as Hst.
  { unfold Pipeline.stream. rewrite Hb. pose proof (frames_concat raws [] (encodes_short _ _ He) eq_refl) as Hfr.
    rewrite app_nil_r in Hfr. rewrite Hfr. by apply decoded_encodes. }
  destruct (PipelineProofs.pipeline_joined_result bytes b0 Hs s sent Hv Hj) as [Ha Hn].
  rewrite Hst in Ha, Hn. split; [|done].
  destruct (Pipeline.apply_all_rep msgs b0 [] HR) as (b & Ha' & HRb & _).
  { eapply Forall_impl; [exact Hm|]. by intros m []. }
  rewrite Ha in Ha'. injection Ha' as <-. by rewrite Hcap, (replay_spec _ _ _ _ Hr) in HRb.
Qed.

(** ** Generated streams are good *)

Section generated.
Context {R : Type} `{!Random R, !RandomRanges R} {ML : Type} `{!UnorderedMap LiveOrder ML, !UnorderedMapLaws LiveOrder ML}.

Lemma encodes_ok raw msg : encodes raw msg -> msg_ok msg.
Proof. intros [Hd _]. by eapply decode_msg_ok. Qed.

Lemma generated_good config cap fuel bytes finished :
  0 <= price_spread config < 2 ^ 31 -> 0 <= num_orders config <= cap -> num_orders config < 2 ^ 64 ->
  Z.of_nat (length (symbols config)) + Z.of_nat fuel < 2 ^ 55 ->
  generate (R := R) (M := ML) config fuel = Some (bytes, finished) ->
  exists raws first dirs ms lst l,
    good_stream cap bytes raws (first :: dirs ++ ms ++ lst) l /\
    NoDup (omap new_ref (first :: dirs ++ ms ++ lst)) /\
    system_message "O"%byte first /\ Forall2 directory_message (symbols config) dirs /\
    Forall (fun msg => flow_message msg = true) ms /\
    (if finished then
       exists msg, lst = [msg] /\ system_message "C"%byte msg /\
         countZ is_add (first :: dirs ++ ms ++ lst) = num_orders config
     else lst = []).
Proof.
  intros Hs Hn Hn64 Hf Hg.
  destruct (generate_inv (R := R) (M := ML) config cap ltac:(lia) ltac:(lia) fuel Hs ltac:(lia))
    as (out & fin & first & dirs & ms & lst & l & Hg' & (raws & Ho & He & Hr) & Hnew & Hfirst & Hdirs & Hms & Hlen & Hfin).
  rewrite Hg in Hg'. injection Hg' as <- <-. exists raws, first, dirs, ms, lst, l.
  assert (length lst <= 1)%nat as Hlst.
  { destruct finished; [destruct Hfin as (msg & -> & _)|rewrite Hfin]; cbn; lia. }
  assert (Forall (fun msg => type (header msg) <> OrderExecutedWithPrice) (first :: dirs ++ ms ++ lst)) as Hkinds.
  { destruct Hfirst as [Ht _]. apply Forall_cons. split; [by rewrite Ht|]. rewrite !Forall_app. split_and!.
    - clear -Hdirs. induction Hdirs as [|y msg ys dirs [Ht _] _ IH]; constructor; [by rewrite Ht|done].
    - eapply Forall_impl; [exact Hms|]. intros msg Hm. unfold flow_message in Hm. intros Heq. rewrite Heq in Hm. discriminate Hm.
    - destruct finished; [|by rewrite Hfin]. destruct Hfin as (msg & -> & [Ht' _] & _).
      apply Forall_singleton. by rewrite Ht'. }
  split_and!; [|done|done|done|done|].
  - split; [done|done|done| |].
    + apply Forall_forall. intros msg Hin. split; [|by eapply Forall_forall in Hkinds].
      apply list_elem_of_lookup in Hin as [i Hi]. destruct (Forall2_lookup_r _ _ _ _ _ He Hi) as (raw & _ & Henc).
      by eapply encodes_ok.
    + apply Forall2_length in Hdirs. cbn [length]. rewrite !length_app. lia.
  - destruct finished; [|done]. destruct Hfin as (msg & Hl & Hm & Hc). exists msg. by rewrite Z.max_r in Hc by lia.
Qed.

(** ** The verdicts *)

Context {M : Type} `{!UnorderedMap ExpectedOrder M, !UnorderedMapLaws ExpectedOrder M}.

(** The configurations of the two tests. *)
Record test_config (config : SynthConfig) : Prop := MkTestConfig {
  tc_orders : num_orders config = 500;
  tc_base : base_price config = 1500000;
  tc_spread : price_spread config = 50000;
  tc_symbols : symbols config = [["A"; "A"; "P"; "L"]]%byte
}.

Lemma test_configs : test_config integration_config /\ test_config pipeline_config.
Proof. done. Qed.

Lemma fresh_book_rep config :
  test_config config -> exists b0, fresh_book config = Some b0 /\ Rep b0 [] /\ book_capacity b0 = 510.
Proof.
  intros [Ho Hb Hs _]. unfold fresh_book. rewrite Ho, Hb, Hs.
  destruct (make_rep 1500000 51000 510 ltac:(lia) ltac:(lia) ltac:(lia)) as (b0 & Hm & HR & _ & Hc).
  by exists b0.
Qed.

Lemma test_stream_good config fuel bytes finished :
  test_config config -> Z.of_nat fuel < 2 ^ 54 -> generate (R := R) (M := ML) config fuel = Some (bytes, finished) ->
  exists raws msgs l, good_stream 510 bytes raws msgs l.
Proof.
  intros [Ho Hb Hs Hy] Hf Hg.
  destruct (generated_good config 510 fuel bytes finished) as (raws & first & dirs & ms & lst & l & Hgood & _);
    rewrite ?Ho, ?Hs, ?Hy; [lia..|cbn; lia|done|]. by exists raws, (first :: dirs ++ ms ++ lst), l.
Qed.

Lemma integration_test_passes fuel bytes :
  Z.of_nat fuel < 2 ^ 54 -> generate (R := R) (M := ML) integration_config fuel = Some (bytes, true) ->
  integration_test (M := M) (R := R) (ML := ML) fuel = Some DiffTest.Passed.
Proof.
  intros Hf Hg. destruct test_configs as [Hc _].
  destruct (test_stream_good _ _ _ _ Hc Hf Hg) as (raws & msgs & l & Hgood).
  destruct (fresh_book_rep _ Hc) as (b0 & Hb & HR & Hcap).
  unfold integration_test. rewrite Hg. cbn [mbind option_bind]. rewrite Hb. cbn [mbind option_bind].
  by rewrite (integration_checks_pass 510 _ _ _ _ _ Hgood HR Hcap).
Qed.

Lemma pipeline_test_passes fuel r :
  Z.of_nat fuel < 2 ^ 54 -> pipeline_test (M := M) (R := R) (ML := ML) fuel r -> r = Some DiffTest.Passed.
Proof.
  intros Hf [bytes b0 s0 s Hg Hb Hs0 Hr Hj]. destruct test_configs as [_ Hc].
  destruct (test_stream_good _ _ _ _ Hc Hf Hg) as (raws & msgs & l & Hgood).
  destruct (fresh_book_rep _ Hc) as (b0' & Hb' & HR & Hcap). rewrite Hb in Hb'. injection Hb' as <-.
  pose proof (good_size _ _ _ _ _ Hgood) as Hsize.
  destruct (PipelineProofs.pipeline_initial_inv bytes b0 Hsize 32 ltac:(lia)) as (s1 & Hs1 & Hv).
  rewrite Hs0 in Hs1. injection Hs1 as <-.
  destruct (PipelineProofs.pipeline_reachable_inv bytes b0 [] Hsize HR s0 s) as [sent Hv']; [by exists []|done|].
  destruct (pipeline_on_good_stream _ _ _ _ _ _ Hsize _ _ Hgood HR Hcap Hv' Hj) as [HRs ->].
  by rewrite (pipeline_checks_pass 510 _ _ _ _ _ Hgood HRs).
Qed.

(** The pipeline of the test can always be run to the end. *)
Lemma pipeline_test_runs fuel bytes :
  Z.of_nat fuel < 2 ^ 54 -> generate (R := R) (M := ML) pipeline_config fuel = Some (bytes, true) ->
  exists r, pipeline_test (M := M) (R := R) (ML := ML) fuel r.
Proof.
  intros Hf Hg. destruct test_configs as [_ Hc].
  destruct (test_stream_good _ _ _ _ Hc Hf Hg) as (raws & msgs & l & Hgood).
  destruct (fresh_book_rep _ Hc) as (b0 & Hb & HR & _). pose proof (good_size _ _ _ _ _ Hgood) as Hsize.
  destruct (PipelineProofs.pipeline_initial_inv bytes b0 Hsize 32 ltac:(lia)) as (s0 & Hs0 & Hv).
  destruct (PipelineProofs.pipeline_can_finish bytes b0 [] Hsize HR s0 [] Hv) as (s & Hr & Hj).
  eexists. by econstructor.
Qed.
End generated.
End StreamTests.
