(* ===== verification/RoundtripTest.v ===== *)
(** * The round-trip test of the feed generator

    itch/tests/test_synth_roundtrip.cpp: the test decodes a generated stream again and
    checks with a set of its own that every follow-up names an order that an earlier
    message created and no deletion or replacement removed.  An [EXPECT_] that fails
    is remembered, an [ASSERT_] or [FAIL] ends the test. *)

From S2P Require Import Prelude StdModel ByteOrder Messages Decode FileReader BookSpec Feed DifferentialTest.
From S2P Require Import Synth SynthCodec SynthProofs StreamTests.
Import Synth SynthCodec SynthProofs.

Local Open Scope Z_scope.

Module RoundtripTest.

(** The counters of the test. *)
Record tally := MkTally {
  add_order_count : Z;
  executed_count : Z;
  cancel_count : Z;
  delete_count : Z;
  replace_count : Z;
  trade_count : Z
}.

Definition tally_zero : tally := MkTally 0 0 0 0 0 0.

Definition tally_next (t : tally) (type : MessageType) : tally :=
  let '(MkTally a e x d u p) := t in
  match type with
  | AddOrder | AddOrderMPID => MkTally (a +u64 1) e x d u p
  | OrderExecuted => MkTally a (e +u64 1) x d u p
  | OrderCancel => MkTally a e (x +u64 1) d u p
  | OrderDelete => MkTally a e x (d +u64 1) u p
  | OrderReplace => MkTally a e x d (u +u64 1) p
  | Trade => MkTally a e x d u (p +u64 1)
  | _ => t
  end.

Section test.
Context {M : Type} `{!UnorderedMap unit M}.
Implicit Types (live : M).

(** [std::unordered_set<OrderRef>]. *)
Definition contains live (ref : Z) : bool := existsb (fun e => e.1 =? ref) (um_entries live).

(** [insert(ref).second], [erase(ref) > 0]. *)
Definition set_insert live ref : M * bool := if contains live ref then (live, false) else (um_set ref tt live, true).
Definition set_erase live ref : M * bool := (um_erase ref live, contains live ref).

Record state := MkState {
  live_orders : M;
  counts : tally;
  saw_start_event : bool;
  saw_end_event : bool;
  expectations : bool
}.

(** The set after a message, and whether the expectation about it held. *)
Definition update_live live (msg : DecodedMessage) : ub (M * bool) :=
  match type (header msg) with
  | AddOrder | AddOrderMPID =>
      ao ← as_add_order msg; Some (set_insert live (ao_order_reference_number ao))
  | OrderExecuted => oe ← as_order_executed msg; Some (live, contains live (oe_order_reference_number oe))
  | OrderCancel => oc ← as_order_cancel msg; Some (live, contains live (oc_order_reference_number oc))
  | OrderDelete => od ← as_order_delete msg; Some (set_erase live (od_order_reference_number od))
  | OrderReplace =>
      orep ← as_order_replace msg;
      let '(live, erased) := set_erase live (or_original_order_reference_number orep) in
      let '(live, inserted) := set_insert live (or_new_order_reference_number orep) in
      Some (live, erased && inserted)
  | _ => Some (live, true)
  end.

(** The system events: the two flags, and whether this one is not a duplicate. *)
Definition update_events (started ended : bool) (msg : DecodedMessage) : ub (bool * bool * bool) :=
  match type (header msg) with
  | SystemEvent =>
      se ← as_system_event msg;
      let code := se_event_code se in
      if decide (code = "O"%byte) then Some (true, ended, negb started)
      else if decide (code = "C"%byte) then Some (started, true, negb ended)
      else Some (started, ended, true)
  | _ => Some (started, ended, true)
  end.

(** The body of the walk's switch; the default case is [FAIL]. *)
Definition check_message (s : state) (msg : DecodedMessage) : ub (option state) :=
  match type (header msg) with
  | OrderExecutedWithPrice => Some None
  | _ =>
      '(live, expected_live) ← update_live (live_orders s) msg;
      '(started, ended, expected_event) ← update_events (saw_start_event s) (saw_end_event s) msg;
      Some (Some (MkState live (tally_next (counts s) (type (header msg))) started ended
                    (expectations s && expected_live && expected_event)))
  end.

Definition roundtrip_config : SynthConfig :=
  StreamTests.stream_config 7 2000 [["A"; "A"; "P"; "L"]; ["M"; "S"; "F"; "T"]; ["G"; "O"; "O"; "G"; "L"]]%byte.

(** The five kinds that must occur. *)
Definition every_kind (t : tally) : bool :=
  (0 <? executed_count t) && (0 <? cancel_count t) && (0 <? delete_count t) &&
  (0 <? replace_count t) && (0 <? trade_count t).

Definition roundtrip_checks (orders : Z) (bytes : list byte) : ub bool :=
  r ← StreamTests.walk check_message None (S (length bytes)) bytes 0 (MkState um_empty tally_zero false false true);
  match r with
  | None => Some false
  | Some (s, offset) =>
      Some (expectations s && (offset =? Z.of_nat (length bytes)) && saw_start_event s && saw_end_event s &&
            (add_order_count (counts s) =? orders) && every_kind (counts s))
  end.

Context {R ML : Type} `{!Random R, !UnorderedMap LiveOrder ML}.

Definition roundtrip_test (fuel : nat) : ub DiffTest.verdict :=
  '(bytes, finished) ← generate (R := R) (M := ML) roundtrip_config fuel;
  if finished : bool then
    passed ← roundtrip_checks (num_orders roundtrip_config) bytes;
    Some (StreamTests.verdict_of passed)
  else Some DiffTest.Running.
End test.
Arguments state : clear implicits.

(** ** The set follows the replay *)

Section facts.
Context {M : Type} `{!UnorderedMap unit M, !UnorderedMapLaws unit M}.
Implicit Types (live : M) (l : list Rest) (known : list Z).

Lemma contains_spec live ref : contains live ref = true <-> ref ∈ (um_entries live).*1.
Proof.
  unfold contains. rewrite existsb_exists, list_elem_of_fmap. split.
  - intros (e & He & Hr%Z.eqb_eq). exists e. by rewrite list_elem_of_In.
  - intros (e & -> & He). exists e. by rewrite <- list_elem_of_In, Z.eqb_refl.
Qed.

Lemma contains_empty ref : contains (um_empty : M) ref = false.
Proof. unfold contains. by rewrite um_entries_empty. Qed.

Lemma contains_erase live ref k : contains (um_erase ref live) k = true <-> k <> ref /\ contains live k = true.
Proof.
  rewrite !contains_spec, um_entries_erase, !list_elem_of_fmap. setoid_rewrite list_elem_of_filter.
  split; [intros (e & -> & Hne & He); eauto|intros [Hne (e & -> & He)]; eauto].
Qed.

Lemma contains_set live ref k : contains (um_set ref tt live) k = true <-> k = ref \/ contains live k = true.
Proof.
  rewrite !contains_spec, um_entries_set. cbn [fmap list_fmap]. rewrite elem_of_cons, !list_elem_of_fmap.
  setoid_rewrite list_elem_of_filter. split.
  - intros [->|(e & -> & _ & He)]; eauto.
  - intros [->|(e & -> & He)]; [by left|]. destruct (decide (e.1 = ref)); [by left|right; eauto].
Qed.

(** Every resting order is in the set, and the set holds no reference that was
    never introduced. *)
Record follows live l known : Prop := MkFollows {
  fo_resting : forall r, r ∈ l -> contains live (r_ref r) = true;
  fo_known : forall ref, contains live ref = true -> ref ∈ known
}.

Lemma follows_found live l known ref r :
  follows live l known -> Spec.find_ref ref l = Some r -> contains live ref = true.
Proof. intros [Hr _] [Hin <-]%Spec.find_ref_Some. by apply Hr. Qed.

Lemma follows_insert live l known ref r :
  follows live l known -> ref ∉ known -> r_ref r = ref ->
  set_insert live ref = (um_set ref tt live, true) /\ follows (um_set ref tt live) (l ++ [r]) (known ++ [ref]).
Proof.
  intros [Hr Hk] Hf <-. unfold set_insert. destruct (contains live (r_ref r)) eqn:Hc; [by apply Hk in Hc|].
  split; [done|]. split.
  - intros r' [Hin| ->%list_elem_of_singleton]%elem_of_app; apply contains_set; [right; by apply Hr|by left].
  - intros k [->|Hk']%contains_set; apply elem_of_app; [right; by apply list_elem_of_singleton|left; by apply Hk].
Qed.

Lemma follows_erase live l known ref :
  follows live l known -> follows (um_erase ref live) (Spec.remove_ref ref l) known.
Proof.
  intros [Hr Hk]. split.
  - intros r [Hne Hin]%list_elem_of_filter. apply contains_erase. auto.
  - intros k [_ Hk']%contains_erase. by apply Hk.
Qed.

Lemma follows_reduce live l known ref delta l' :
  follows live l known -> Spec.reduce l ref delta = (l', true) ->
  contains live ref = true /\ follows live l' known.
Proof.
  intros Hf Hr. unfold Spec.reduce in Hr. destruct (Spec.find_ref ref l) as [r|] eqn:Hfd; [|done].
  pose proof (follows_found _ _ _ _ _ Hf Hfd). split; [done|]. destruct Hf as [Hrs Hk].
  destruct (_ || _); [done|]. split; [|done].
  destruct (_ =? delta); injection Hr as <-; intros r' Hin.
  - apply list_elem_of_filter in Hin as [_ Hin]. by apply Hrs.
  - unfold Spec.update_ref in Hin. apply list_elem_of_fmap in Hin as (r0 & -> & Hin). apply Hrs in Hin. by case_match.
Qed.

Lemma update_live_step cap live l known msg l' :
  follows live l known -> StreamTests.stream_message msg -> replay_step cap l msg = Some l' ->
  (forall ref, new_ref msg = Some ref -> ref ∉ known) ->
  exists live', update_live live msg = Some (live', true) /\ follows live' l' (known ++ option_list (new_ref msg)).
Proof.
  intros Hf [[Hm _] Hne] Hrep Hnew. unfold update_live, replay_step, accepted, new_ref, payload_matches,
    as_add_order, as_order_executed, as_order_cancel, as_order_delete, as_order_replace in *.
  destruct (type (header msg)); try done; destruct (payload msg) as [p|p|p|p|p|p|p|p|p]; try done;
    cbn [mbind option_bind option_list]; rewrite ?app_nil_r;
    try (injection Hrep as <-; exists live; split; [done|]; destruct Hf as [Hfr Hfk]; split; [done|];
         intros k Hk%Hfk; apply elem_of_app; by left); try (injection Hrep as <-; by exists live).
  all: match type of Hrep with (if ?res.2 then _ else _) = _ => destruct res as [l1 []] eqn:Hspec end;
    [|done]; cbn [fst snd] in Hrep; injection Hrep as <-.
  1,2: unfold Spec.add in Hspec; destruct (_ =? 0); [done|]; destruct (Spec.find_ref _ l); [done|];
    destruct (_ <? cap); [|done]; injection Hspec as <-;
    edestruct (follows_insert live l known) as [-> Hf']; [exact Hf|by apply Hnew| |eexists; split; [done|exact Hf']]; done.
  1,2: destruct (follows_reduce _ _ _ _ _ _ Hf Hspec) as [-> Hf']; by eexists.
  - unfold Spec.delete in Hspec. destruct (Spec.find_ref _ l) eqn:Hfd; [|done]. injection Hspec as <-.
    unfold set_erase. rewrite (follows_found _ _ _ _ _ Hf Hfd). eexists. split; [done|]. by apply follows_erase.
  - unfold Spec.replace in Hspec. destruct (Spec.find_ref _ l) as [r|] eqn:Hfd; [|done].
    destruct (_ =? 0); [done|]. destruct (_ && _); [done|]. injection Hspec as <-.
    unfold set_erase. rewrite (follows_found _ _ _ _ _ Hf Hfd). cbn [fst snd].
    edestruct (follows_insert (um_erase (or_original_order_reference_number p) live)) as [-> Hf'];
      [by apply follows_erase|by apply Hnew| |eexists; split; [done|exact Hf']]; done.
Qed.

(** ** Events and counters *)

Definition event_code (msg : DecodedMessage) : option byte :=
  match payload msg with system_event p => Some (se_event_code p) | _ => None end.

(** The flags after the events [codes]. *)
Definition seen (code : byte) (codes : list byte) : bool := bool_decide (code ∈ codes).

Lemma update_events_step msg codes :
  payload_matches msg -> codes ++ option_list (event_code msg) `prefix_of` ["O"; "C"]%byte ->
  let codes' := codes ++ option_list (event_code msg) in
  update_events (seen "O" codes) (seen "C" codes) msg = Some (seen "O" codes', seen "C" codes', true).
Proof.
  intros Hm [rest Hp]. unfold update_events, payload_matches, event_code, as_system_event in *. cbn zeta.
  destruct (type (header msg)); destruct (payload msg) as [p|p|p|p|p|p|p|p|p]; try done;
    cbn [option_list mbind option_bind] in *; rewrite ?app_nil_r; [|done..].
  destruct codes as [|x [|y codes]]; cbn in Hp; simplify_eq; [by rewrite <- H|by rewrite <- H|].
  by destruct codes.
Qed.

Definition of_type (types : list MessageType) (msg : DecodedMessage) : bool :=
  bool_decide (type (header msg) ∈ types).

Definition tally_of (msgs : list DecodedMessage) : tally :=
  foldl (fun t msg => tally_next t (type (header msg))) tally_zero msgs.

Lemma count_snoc types msgs msg :
  u64 (countZ (of_type types) (msgs ++ [msg])) =
    if of_type types msg then u64 (countZ (of_type types) msgs) +u64 1 else u64 (countZ (of_type types) msgs).
Proof.
  unfold countZ. rewrite sumZ_app. cbn [sumZ foldr]. destruct (of_type types msg); cbn [Z.b2z].
  - by rewrite u64_add_l.
  - by rewrite Z.add_0_r.
Qed.

Lemma tally_of_counts msgs :
  let count types := u64 (countZ (of_type types) msgs) in
  tally_of msgs = MkTally (count [AddOrder; AddOrderMPID]) (count [OrderExecuted]) (count [OrderCancel])
    (count [OrderDelete]) (count [OrderReplace]) (count [Trade]).
Proof.
  cbn zeta. induction msgs as [|msg msgs IH] using rev_ind; [done|].
  unfold tally_of in *. rewrite foldl_app, IH, !count_snoc. cbn [foldl].
  unfold of_type. by destruct (type (header msg)).
Qed.

(** What the test asks of the whole stream. *)
Definition required_kinds : list MessageType := [OrderExecuted; OrderCancel; OrderDelete; OrderReplace; Trade].

Definition every_kind_occurs (msgs : list DecodedMessage) : Prop :=
  Forall (fun kind => exists msg, msg ∈ msgs /\ type (header msg) = kind) required_kinds.

Lemma count_positive kind msgs :
  Z.of_nat (length msgs) < 2 ^ 64 ->
  (0 <? u64 (countZ (of_type [kind]) msgs)) = true <-> exists msg, msg ∈ msgs /\ type (header msg) = kind.
Proof.
  intros Hl. pose proof (countZ_range (of_type [kind]) msgs). rewrite u64_small, Z.ltb_lt by lia. split.
  - intros Hp. destruct (decide (Exists (fun msg => type (header msg) = kind) msgs)) as [He|Hn].
    + apply Exists_exists in He as (msg & He). by exists msg.
    + rewrite countZ_none in Hp; [lia|]. intros msg Hin. unfold of_type. apply bool_decide_eq_false_2.
      intros Ht%list_elem_of_singleton. apply Hn, Exists_exists. by exists msg.
  - intros (msg & Hin & <-). unfold countZ.
    pose proof (sumZ_ge_elem (fun m => Z.b2z (of_type [type (header msg)] m)) msgs msg) as Hge. cbn beta in Hge.
    unfold of_type at 2 in Hge. rewrite bool_decide_eq_true_2 in Hge by left.
    enough (Z.b2z true <= sumZ (fun m => Z.b2z (of_type [type (header msg)] m)) msgs) by (cbn in *; lia).
    apply Hge; [|done]. intros y _. destruct (of_type _ y); cbn; lia.
Qed.

Lemma every_kind_tally msgs :
  Z.of_nat (length msgs) < 2 ^ 64 -> every_kind (tally_of msgs) = true <-> every_kind_occurs msgs.
Proof.
  intros Hl. rewrite tally_of_counts. unfold every_kind, every_kind_occurs, required_kinds.
  cbn [executed_count cancel_count delete_count replace_count trade_count].
  rewrite !andb_true_iff, !count_positive, !Forall_cons, Forall_nil by done. tauto.
Qed.

Lemma count_adds msgs :
  Forall StreamTests.stream_message msgs -> countZ (of_type [AddOrder; AddOrderMPID]) msgs = countZ is_add msgs.
Proof.
  intros Hm. apply sumZ_ext. intros msg [[Hp _] _]%(proj1 (Forall_forall _ _) Hm).
  unfold of_type, is_add, payload_matches in *.
  destruct (type (header msg)); destruct (payload msg) as [p|p|p|p|p|p|p|p|p]; done.
Qed.

Lemma omap_snoc {A B} (f : A -> option B) xs x : omap f (xs ++ [x]) = omap f xs ++ option_list (f x).
Proof. rewrite omap_app. cbn [omap list_omap]. by destruct (f x). Qed.

Lemma omap_prefix {A B} (f : A -> option B) xs x ys :
  xs ++ [x] `prefix_of` ys -> omap f xs ++ option_list (f x) `prefix_of` omap f ys.
Proof. intros [zs ->]. rewrite <- omap_snoc, (omap_app f (xs ++ [x])). by eexists. Qed.

Lemma check_message_eq (s : state M) msg live started ended ok1 ok2 :
  type (header msg) <> OrderExecutedWithPrice -> update_live (live_orders s) msg = Some (live, ok1) ->
  update_events (saw_start_event s) (saw_end_event s) msg = Some (started, ended, ok2) ->
  check_message s msg = Some (Some (MkState live (tally_next (counts s) (type (header msg))) started ended
    (expectations s && ok1 && ok2))).
Proof. intros Ht Hu He. unfold check_message. rewrite Hu, He. by destruct (type (header msg)). Qed.

Lemma roundtrip_checks_value cap bytes raws msgs l :
  StreamTests.good_stream cap bytes raws msgs l -> NoDup (omap new_ref msgs) ->
  omap event_code msgs = ["O"; "C"]%byte -> countZ is_add msgs < 2 ^ 64 ->
  roundtrip_checks (M := M) (countZ is_add msgs) bytes = Some (every_kind (tally_of msgs)).
Proof.
  intros Hg Hnew Hcodes Hadds. pose proof Hg as [_ _ Hr Hm _].
  destruct (StreamTests.visit_all_rule (check_message (M := M)) (fun done s => exists l1,
      replay cap [] done = Some l1 /\ follows (live_orders s) l1 (omap new_ref done) /\ counts s = tally_of done /\
      saw_start_event s = seen "O" (omap event_code done) /\ saw_end_event s = seen "C" (omap event_code done) /\
      expectations s = true) msgs (MkState um_empty tally_zero false false true))
    as (s & Hv & l1 & _ & _ & Ht & Hs & He & Hx).
  - exists []. split_and!; try done. split; [by intros r ?%not_elem_of_nil|].
    intros ref. by rewrite contains_empty.
  - intros done msg s (l1 & Hl1 & Hf & Ht & Hs & He & Hx) Hpre.
    destruct (StreamTests.replay_prefix cap msgs l done msg Hr Hpre) as (l1' & l2 & Hl1' & Hst & Hl2).
    rewrite Hl1 in Hl1'. injection Hl1' as <-.
    pose proof (StreamTests.prefix_message _ _ _ _ Hm Hpre) as Hmsg.
    destruct (update_live_step cap _ _ _ msg l2 Hf Hmsg Hst) as (live2 & Hu & Hf2).
    { intros ref Hn Hin. pose proof (omap_prefix new_ref _ _ _ Hpre) as [rest Hp]. rewrite Hn in Hp.
      rewrite Hp in Hnew. apply NoDup_app in Hnew as [Hnd _]. apply NoDup_app in Hnd as (_ & Hd & _).
      by apply (Hd ref Hin), list_elem_of_singleton. }
    pose proof (omap_prefix event_code _ _ _ Hpre) as Hcp. rewrite Hcodes in Hcp.
    pose proof (update_events_step msg _ (proj1 (proj1 Hmsg)) Hcp) as Hev. cbn zeta in Hev.
    rewrite <- Hs, <- He in Hev.
    eexists. split; [apply (check_message_eq s msg _ _ _ _ _ (proj2 Hmsg) Hu Hev)|]. exists l2.
    cbn [live_orders counts saw_start_event saw_end_event expectations].
    rewrite !omap_snoc, Ht, Hx. split_and!; try done. unfold tally_of. by rewrite foldl_app.
  - unfold roundtrip_checks. rewrite (StreamTests.good_walk _ _ _ _ _ _ _ _ s Hg Hv). cbn [mbind option_bind].
    rewrite Hx, Hs, He, Hcodes, Z.eqb_refl, Ht. cbn [andb seen]. rewrite tally_of_counts at 1.
    cbn [add_order_count]. pose proof (countZ_range is_add msgs).
    by rewrite (count_adds msgs Hm), u64_small, Z.eqb_refl by lia.
Qed.

(** The events of a finished stream: one start, one end. *)
Lemma omap_silent {A B} (f : A -> option B) xs : Forall (fun x => f x = None) xs -> omap f xs = [].
Proof. induction 1 as [|x xs Hx _ IH]; [done|]. cbn [omap list_omap]. by rewrite Hx. Qed.

Lemma finished_events symbols first dirs ms msg :
  Forall StreamTests.stream_message ms -> system_message "O" first -> Forall2 directory_message symbols dirs ->
  Forall (fun msg => flow_message msg = true) ms -> system_message "C" msg ->
  omap event_code (first :: dirs ++ ms ++ [msg]) = ["O"; "C"]%byte.
Proof.
  intros Hm [_ Hf] Hd Hk [_ Hl]. cbn [omap list_omap]. unfold event_code at 1. rewrite Hf. cbn [se_event_code].
  rewrite !omap_app, (omap_silent _ dirs), (omap_silent _ ms).
  - cbn [omap list_omap app]. unfold event_code. by rewrite Hl.
  - apply Forall_forall. intros x Hx. rewrite Forall_forall in Hm, Hk. apply Hk in Hx as Hxk.
    apply Hm in Hx as [[Hp _] _]. unfold flow_message, payload_matches, event_code in *.
    by destruct (type (header x)); destruct (payload x) as [p|p|p|p|p|p|p|p|p].
  - clear -Hd. induction Hd as [|y x ys dirs (_ & p & Hp & _) _ IH]; constructor; [|done].
    unfold event_code. by rewrite Hp.
Qed.

Context {R : Type} `{!Random R, !RandomRanges R} {ML : Type} `{!UnorderedMap LiveOrder ML, !UnorderedMapLaws LiveOrder ML}.

Lemma roundtrip_test_value fuel bytes :
  Z.of_nat fuel < 2 ^ 54 -> generate (R := R) (M := ML) roundtrip_config fuel = Some (bytes, true) ->
  exists raws msgs, bytes = concat (frame <$> raws) /\ decoded raws = msgs /\
    roundtrip_test (M := M) (R := R) (ML := ML) fuel = Some (StreamTests.verdict_of (every_kind (tally_of msgs))) /\
    (every_kind (tally_of msgs) = true <-> every_kind_occurs msgs).
Proof.
  intros Hf Hg.
  destruct (StreamTests.generated_good roundtrip_config 2000 fuel bytes true) as (raws & first & dirs & ms & lst & l &
    Hgood & Hnew & Hfirst & Hdirs & Hms & msg & -> & Hlast & Hadds); [cbn; lia..|done|].
  set (msgs := first :: dirs ++ ms ++ [msg]) in *. pose proof Hgood as [Hb He _ Hm Hc].
  exists raws, msgs. split_and!; [done|by apply decoded_encodes| |apply every_kind_tally; lia].
  unfold roundtrip_test. rewrite Hg. cbn [mbind option_bind]. rewrite <- Hadds.
  rewrite (roundtrip_checks_value 2000 _ raws _ _ Hgood Hnew); [done| |by rewrite Hadds].
  eapply finished_events; [|done..]. unfold msgs in Hm. rewrite Forall_cons, !Forall_app in Hm. tauto.
Qed.
End facts.
End RoundtripTest.
