(* ===== verification/BookTheorems.v ===== *)
(** * What the order book promises

    The client-facing statements about book/order_book.cpp: operations, queries,
    ITCH feeds, the differential test, and the one way the book can go wrong (a
    32-bit level total that wraps). *)

From S2P Require Import Prelude HashMap IntrusiveList ObjectPool ByteOrder Messages Decode.
From S2P Require Import OrderBook BookSpec BookInvariant BookBest BookRefinement BookOps.
From S2P Require Import BookQueries Feed RefBook Differential BookInterface StdModel.
From S2P Require Import DifferentialTest.

Local Open Scope Z_scope.

Implicit Types (b : OrderBook) (l : list Rest).

(** ** A book to run the witnesses on *)

Lemma sample_book :
  exists b, make 100 2 4 = Some b /\ Rep b [] /\ best_exact b [] /\ book_capacity b = 4.
Proof. apply make_rep; lia. Qed.

(** One resting bid. *)
Lemma sample_bid :
  exists b, Rep b [MkRest 1 100 10 true 0] /\ best_exact b [MkRest 1 100 10 true 0] /\
    book_capacity b = 4.
Proof.
  destruct sample_book as (b & _ & HR & He & Hc).
  destruct (add_order_rep b [] 1 100 10 true 0 HR ltac:(lia) ltac:(lia)) as (b' & _ & HR' & [_ _ Hs] & He').
  rewrite Hc in HR', He'. exists b'. split_and!; [done|auto|]. unfold book_capacity in *. congruence.
Qed.

Lemma one_fits r : 0 < r_shares r < 2 ^ 32 -> Spec.fits [r].
Proof.
  intros Hr buy p. rewrite shares_at_cons. change (Spec.shares_at buy p []) with 0. case_decide; lia.
Qed.

(** ** Feeds and operation sequences *)

(** C2. A fresh book fed with arbitrary byte spans (decode, skip what does not
    decode, apply) never runs into undefined behaviour, and in the end it
    represents exactly the list of orders obtained by applying the decoded
    messages to the specification. *)
Theorem feed_of_arbitrary_bytes (reference half_width cap : Z) (spans : list (list byte)) :
  0 <= reference < 2 ^ 32 -> 0 <= half_width < 2 ^ 62 -> 0 <= cap <= 2 ^ 63 ->
  exists b0 b, make reference half_width cap = Some b0 /\ feed b0 spans = Some b /\
    Rep b (foldl (spec_apply cap) [] (decoded spans)).
Proof.
  intros Hr Hh Hc. destruct (make_rep reference half_width cap Hr Hh Hc) as (b0 & Hm & HR & _ & Hcap).
  destruct (feed_rep spans b0 [] HR) as (b & Hf & HRb & _). rewrite Hcap in HRb. by exists b0, b.
Qed.

Lemma feed_of_arbitrary_bytes_witness :
  exists b0 b, make 100 2 4 = Some b0 /\
    feed b0 [["D"%byte]; []; replicate 23 "X"%byte; replicate 19 "D"%byte] = Some b /\
    Rep b (foldl (spec_apply 4) []
      (decoded [["D"%byte]; []; replicate 23 "X"%byte; replicate 19 "D"%byte])).
Proof. apply feed_of_arbitrary_bytes; lia. Defined.

(** The results of a sequence of operations on the specification. *)
Fixpoint spec_results (cap : Z) l (ops : list book_op) : list bool :=
  match ops with
  | [] => []
  | o :: ops => let res := spec_do cap l o in res.2 :: spec_results cap res.1 ops
  end.

Lemma book_run_safe ops b l :
  Rep b l -> Forall op_ok ops ->
  exists outs, book_run b ops = Some outs /\ outs.*2 = spec_results (book_capacity b) l ops /\
    Forall (fun x => exists l', Rep x.1 l') outs.
Proof.
  revert b l. induction ops as [|o ops IH]; intros b l HR Hok; [by exists []|].
  apply Forall_cons in Hok as [Ho Hok]. cbn [book_run spec_results].
  destruct (book_do_step b l o HR Ho) as (b' & -> & HR' & Hss & _). cbn [mbind option_bind].
  destruct (IH b' _ HR' Hok) as (outs & -> & Hres & Hall). cbn [mbind option_bind].
  assert (book_capacity b' = book_capacity b) as Hcap by apply Hss. rewrite Hcap in Hres.
  eexists. split; [done|]. split; [cbn; by rewrite Hres|]. constructor; [by eexists|done].
Qed.

(** C11. No sequence of operations is undefined on any book that represents some
    list of orders, even when level totals wrap: every operation returns what the
    bounded specification returns and leaves a book that represents some list. *)
Theorem book_operations_never_undefined b l (ops : list book_op) :
  Rep b l -> Forall op_ok ops ->
  exists outs, book_run b ops = Some outs /\ outs.*2 = spec_results (book_capacity b) l ops /\
    Forall (fun x => exists l', Rep x.1 l') outs.
Proof. apply book_run_safe. Qed.

Lemma book_operations_never_undefined_witness :
  exists b, make 100 2 4 = Some b /\
    exists outs, book_run b [OpAdd 1 100 5 true; OpExecute 1 7; OpCancel 1 2; OpReplace 1 2 9 104; OpDelete 1] =
        Some outs /\ outs.*2 = [true; false; true; true; false].
Proof.
  destruct sample_book as (b & Hm & HR & _ & Hc). exists b. split; [done|].
  destruct (book_operations_never_undefined b []
    [OpAdd 1 100 5 true; OpExecute 1 7; OpCancel 1 2; OpReplace 1 2 9 104; OpDelete 1] HR) as (outs & Hr & Hres & _).
  - repeat constructor; cbn; lia.
  - exists outs. split; [done|]. by rewrite Hres, Hc.
Defined.

(** C3. The differential test, for every operation stream: as long as the pool
    is large enough and no level total exceeds 32 bits, the book and
    [ReferenceOrderBook] return the same result for every operation and agree on
    best bid, best ask, order count and the shares at every price and side after
    each one. *)
Theorem differential_test_always_passes (reference half_width cap : Z) (ops : list book_op) :
  0 <= reference < 2 ^ 32 -> 0 <= half_width < 2 ^ 62 -> 0 <= cap <= 2 ^ 63 ->
  Forall op_ok ops -> Forall (roomy cap) (spec_states [] ops) ->
  exists b0 outs, make reference half_width cap = Some b0 /\ book_run b0 ops = Some outs /\
    Forall2 agree outs (reference_run ∅ ops).
Proof.
  intros Hr Hh Hc Hok Hroom.
  destruct (make_rep reference half_width cap Hr Hh Hc) as (b0 & Hm & HR & He & Hcap). exists b0.
  destruct (runs_agree ops b0 ∅ [] HR He) as (outs & Hrun & Hag).
  - split; [by intros ref; rewrite lookup_empty|constructor].
  - done.
  - by rewrite Hcap.
  - by exists outs.
Qed.

Lemma differential_test_always_passes_witness :
  exists b0 outs, make 100 1 4 = Some b0 /\
    book_run b0 [OpAdd 1 100 5 true; OpAdd 2 300 7 false; OpExecute 1 5] = Some outs /\
    Forall2 agree outs (reference_run ∅ [OpAdd 1 100 5 true; OpAdd 2 300 7 false; OpExecute 1 5]).
Proof.
  apply differential_test_always_passes; [lia..| |].
  - repeat constructor; cbn; lia.
  - assert (spec_states [] [OpAdd 1 100 5 true; OpAdd 2 300 7 false; OpExecute 1 5] =
      [[]; [MkRest 1 100 5 true 0]; [MkRest 1 100 5 true 0; MkRest 2 300 7 false 0];
       [MkRest 2 300 7 false 0]]) as -> by (vm_compute; reflexivity).
    repeat (apply Forall_cons; split; [split; [cbn; lia|]|]); [..|apply Forall_nil; exact I];
      intros buy p; rewrite ?shares_at_cons; change (Spec.shares_at buy p []) with 0;
      repeat (destruct (decide _)); cbn; lia.
Defined.

(** C31. The random differential test cannot fail: for any random draws and any
    iteration order of its map, no assertion and no comparison fails in any number
    of iterations, and when the action draws are fair the test runs to its end and
    passes. *)
Theorem random_differential_test_passes {R : Type} `{!Random R, !RandomRanges R} {M : Type}
    `{!UnorderedMap DiffTest.LiveOrder M, !UnorderedMapLaws DiffTest.LiveOrder M} (fuel : nat) :
  Z.of_nat fuel < 2 ^ 64 - 1 ->
  (exists v, DiffTest.run_test (R := R) (M := M) fuel = Some v /\ v <> DiffTest.Failed) /\
  (forall F : FairRandom R,
     DiffTest.kNumOrders * (Z.of_nat patience + 1) + Z.of_nat patience < Z.of_nat fuel ->
     DiffTest.run_test (R := R) (M := M) fuel = Some DiffTest.Passed).
Proof.
  intros Hf. split; [apply DiffTest.run_test_verdict; lia|].
  intros F Hp. apply DiffTest.run_test_passes. lia.
Qed.

Lemma random_differential_test_passes_witness :
  DiffTest.run_test (R := nat) (M := gmap Z DiffTest.LiveOrder) 1203 = Some DiffTest.Passed.
Proof.
  destruct (random_differential_test_passes (R := nat) (M := gmap Z DiffTest.LiveOrder) 1203) as [_ Hp]; [lia|].
  apply (Hp Cycle_fair). cbn. unfold DiffTest.kNumOrders. lia.
Defined.

(** ** The operations *)

(** C7. [add_order] on any represented book: it refuses zero shares, a live
    reference and a full pool, otherwise it appends the order behind all others of
    its price; the cached best prices stay right. *)
Theorem add_order_refines b l (ref p s : Z) (buy : bool) (trader : Z) :
  Rep b l -> 0 <= p < 2 ^ 32 -> 0 <= s < 2 ^ 32 ->
  exists b', add_order b ref p s buy trader =
      Some (b', (Spec.add (book_capacity b) l ref p s buy trader).2) /\
    Rep b' (Spec.add (book_capacity b) l ref p s buy trader).1 /\
    (best_exact b l -> best_exact b' (Spec.add (book_capacity b) l ref p s buy trader).1).
Proof.
  intros HR Hp Hs. destruct (add_order_rep b l ref p s buy trader HR Hp Hs) as (b' & ? & ? & _ & ?).
  by exists b'.
Qed.

Lemma add_order_refines_witness :
  exists b b', Rep b [MkRest 1 100 10 true 0] /\ add_order b 2 101 7 true 9 = Some (b', true) /\
    Rep b' [MkRest 1 100 10 true 0; MkRest 2 101 7 true 9].
Proof.
  destruct sample_bid as (b & HR & He & Hc). exists b.
  destruct (add_order_refines b _ 2 101 7 true 9 HR) as (b' & Ha & HR' & _); [lia..|].
  rewrite Hc in Ha, HR'. by exists b'.
Defined.

(** C8. [execute_order] and [cancel_order]: refused for an unknown reference,
    zero shares or more shares than are left; an order reduced to zero leaves the
    book, otherwise it keeps its queue position.  When no level total exceeds 32
    bits the cached best prices stay right. *)
Theorem reduce_shares_refines b l (ref delta : Z) :
  Rep b l -> 0 <= delta < 2 ^ 32 ->
  exists b', execute_order b ref delta = Some (b', (Spec.reduce l ref delta).2) /\
    cancel_order b ref delta = Some (b', (Spec.reduce l ref delta).2) /\
    Rep b' (Spec.reduce l ref delta).1 /\
    (best_exact b l -> Spec.fits l -> best_exact b' (Spec.reduce l ref delta).1).
Proof.
  intros HR Hd. destruct (reduce_step b l ref delta HR ltac:(lia)) as (b' & Hr & ? & _ & ?).
  exists b'. unfold execute_order, cancel_order. by rewrite Hr.
Qed.

Lemma reduce_shares_refines_witness :
  exists b b', Rep b [MkRest 1 100 10 true 0] /\ execute_order b 1 4 = Some (b', true) /\
    Rep b' [MkRest 1 100 6 true 0].
Proof.
  destruct sample_bid as (b & HR & He & Hc). exists b.
  destruct (reduce_shares_refines b _ 1 4 HR) as (b' & Ha & _ & HR' & _); [lia|]. by exists b'.
Defined.

(** C9. [delete_order] removes exactly the named order and is refused for an
    unknown reference; the cached best prices stay right when no total wraps. *)
Theorem delete_order_refines b l (ref : Z) :
  Rep b l ->
  exists b', delete_order b ref = Some (b', (Spec.delete l ref).2) /\ Rep b' (Spec.delete l ref).1 /\
    (best_exact b l -> Spec.fits l -> best_exact b' (Spec.delete l ref).1).
Proof. intros HR. destruct (delete_step b l ref HR) as (b' & ? & ? & _ & ?). by exists b'. Qed.

Lemma delete_order_refines_witness :
  exists b b', Rep b [MkRest 1 100 10 true 0] /\ delete_order b 1 = Some (b', true) /\ Rep b' [].
Proof.
  destruct sample_bid as (b & HR & He & Hc). exists b.
  destruct (delete_order_refines b _ 1 HR) as (b' & Ha & HR' & _). by exists b'.
Defined.

(** C10. [replace_order]: refused for an unknown reference, zero shares or a
    collision with another live order; otherwise it always succeeds, even on a
    full pool, and the replacement goes to the back of its queue, on the same
    side, with no trader. *)
Theorem replace_order_refines b l (old_ref new_ref new_shares new_price : Z) :
  Rep b l -> 0 <= new_price < 2 ^ 32 -> 0 <= new_shares < 2 ^ 32 ->
  exists b', replace_order b old_ref new_ref new_shares new_price =
      Some (b', (Spec.replace l old_ref new_ref new_shares new_price).2) /\
    Rep b' (Spec.replace l old_ref new_ref new_shares new_price).1 /\
    (best_exact b l -> Spec.fits l ->
     best_exact b' (Spec.replace l old_ref new_ref new_shares new_price).1).
Proof.
  intros HR Hp Hs. destruct (replace_step b l old_ref new_ref new_shares new_price HR Hp Hs)
    as (b' & ? & ? & _ & ?). by exists b'.
Qed.

Lemma replace_order_refines_witness :
  exists b b', Rep b [MkRest 1 100 10 true 0] /\ replace_order b 1 1 3 250 = Some (b', true) /\
    Rep b' [MkRest 1 250 3 true 0].
Proof.
  destruct sample_bid as (b & HR & He & Hc). exists b.
  destruct (replace_order_refines b _ 1 1 3 250 HR) as (b' & Ha & HR' & _); [lia..|]. by exists b'.
Defined.

(** ** The queries *)

(** The lists a sequence of operations leads through on the specification: one
    after each operation. *)
Fixpoint spec_path (cap : Z) l (ops : list book_op) : list (list Rest) :=
  match ops with
  | [] => []
  | o :: ops => let l' := (spec_do cap l o).1 in l' :: spec_path cap l' ops
  end.

(** What the queries answer whatever the level totals are: [shares_at] wraps, the
    queue of every level lists the orders of that side and price in arrival
    order, and a price without a level has none. *)
Definition queries_wrap b l : Prop :=
  order_count b = Z.of_nat (length l) /\
  (forall p buy, 0 <= p < 2 ^ 32 -> shares_at b p buy = Some (u32 (Spec.shares_at buy p l))) /\
  (forall p buy, 0 <= p < 2 ^ 32 ->
     match level_for_query b p with
     | Some lr => level_orders b lr buy = Some (Spec.queue_at buy p l)
     | None => Spec.queue_at buy p l = []
     end).

(** What they answer when no total wraps. *)
Definition queries_exact b l : Prop :=
  (forall p buy, 0 <= p < 2 ^ 32 -> shares_at b p buy = Some (Spec.shares_at buy p l)) /\
  best_bid b = Spec.best true l /\ best_ask b = Spec.best false l /\
  level_matches b l true (best_bid_level b) (Spec.best true l) /\
  level_matches b l false (best_ask_level b) (Spec.best false l) /\
  (forall p buy, level_matches b l buy (next_level_after b p buy) (next_price buy p l)).

Lemma queries_wrap_rep b l : Rep b l -> queries_wrap b l.
Proof.
  intros HR. split; [by apply order_count_rep|]. split; [intros p buy; by apply shares_at_rep|].
  intros p buy Hp. assert (geom b) as Hg by (destruct HR as (L & free & Hc & _); apply Hc).
  rewrite level_for_query_spec by done.
  destruct (get_level b (lref b p)) as [lv|] eqn:Hl; cbn [fmap option_fmap option_map].
  - by eapply level_orders_rep.
  - destruct (Spec.queue_at buy p l) as [|r k] eqn:Hq; [done|].
    assert (r ∈ Spec.queue_at buy p l) as [[Hb Hr] Hin]%list_elem_of_filter by (rewrite Hq; left).
    assert (exists r, r ∈ l /\ r_buy r = buy /\ r_price r = p) as Hx by (by exists r).
    pose proof (lv_price _ _ _ _ _ (OrderBook_level b l buy p HR Hx)) as Hlp. cbn in Hlp. by rewrite Hl in Hlp.
Qed.

Lemma queries_exact_rep b l : Rep b l -> best_exact b l -> Spec.fits l -> queries_exact b l.
Proof.
  intros HR He Hf. assert (represents (B := OrderBook) b l) as Hr by (by split). split_and!.
  - intros p buy Hp. rewrite (shares_at_rep b l p buy HR Hp), u32_small; [done|].
    split; [|apply Hf]. apply shares_at_nonneg. intros r ?. by apply (Rep_positive b l).
  - apply (He true).
  - apply (He false).
  - apply (best_law b l true Hr).
  - apply (best_law b l false Hr).
  - intros p buy. apply (next_law b l p buy Hr Hf).
Qed.

Lemma book_run_queries ops b l :
  Rep b l -> Forall op_ok ops ->
  exists outs, book_run b ops = Some outs /\
    Forall2 (fun x l' => queries_wrap x.1 l') outs (spec_path (book_capacity b) l ops) /\
    (best_exact b l -> Spec.fits l -> Forall Spec.fits (spec_path (book_capacity b) l ops) ->
     Forall2 (fun x l' => queries_exact x.1 l') outs (spec_path (book_capacity b) l ops)).
Proof.
  revert b l. induction ops as [|o ops IH]; intros b l HR Hok.
  { exists []. by repeat split. }
  apply Forall_cons in Hok as [Ho Hok]. cbn [book_run spec_path].
  destruct (book_do_step b l o HR Ho) as (b' & -> & HR' & Hss & He'). cbn [mbind option_bind].
  destruct (IH b' _ HR' Hok) as (outs & -> & Hw & Hx). cbn [mbind option_bind].
  assert (book_capacity b' = book_capacity b) as Hcap by apply Hss. rewrite Hcap in *.
  eexists. split; [done|]. split; [constructor; [by apply queries_wrap_rep|done]|].
  intros He Hf [Hf' Hfs]%Forall_cons. specialize (He' He Hf).
  constructor; [by apply queries_exact_rep|]. by apply Hx.
Qed.

(** C12. The queries after every operation of any sequence on a fresh book:
    [order_count] is the number of resting orders, [shares_at] the sum of the
    resting shares of that side and price modulo 2^32, and the queue of each level
    lists exactly the orders of that side and price in arrival order; this needs
    nothing of the totals.  If none of the lists the sequence leads through has a
    level total above 32 bits, then after every operation [shares_at] is the sum
    itself, [best_bid] and [best_ask] are the highest bid and the lowest ask, the
    best levels are the levels of those prices, and [next_level_after] is the level
    of the next worse inhabited price. *)
Theorem book_queries_exact (reference half_width cap : Z) (ops : list book_op) :
  0 <= reference < 2 ^ 32 -> 0 <= half_width < 2 ^ 62 -> 0 <= cap <= 2 ^ 63 -> Forall op_ok ops ->
  exists b0 outs, make reference half_width cap = Some b0 /\ book_run b0 ops = Some outs /\
    Forall2 (fun x l => queries_wrap x.1 l) outs (spec_path cap [] ops) /\
    (Forall Spec.fits (spec_path cap [] ops) ->
     Forall2 (fun x l => queries_exact x.1 l) outs (spec_path cap [] ops)).
Proof.
  intros Hr Hh Hc Hok. destruct (make_rep reference half_width cap Hr Hh Hc) as (b0 & Hm & HR & He & Hcap).
  destruct (book_run_queries ops b0 [] HR Hok) as (outs & Hrun & Hw & Hx). rewrite Hcap in *.
  exists b0, outs. split_and!; [done..|]. by apply Hx.
Qed.

(** A better bid, its deletion, and what is left. *)
Definition query_run : list book_op := [OpAdd 1 100 10 true; OpAdd 2 101 7 true; OpDelete 2].

Lemma query_path :
  spec_path 4 [] query_run =
    [[MkRest 1 100 10 true 0]; [MkRest 1 100 10 true 0; MkRest 2 101 7 true 0]; [MkRest 1 100 10 true 0]].
Proof. by vm_compute. Qed.

Lemma book_queries_exact_witness :
  exists b0 b1 b2 b3, make 100 2 4 = Some b0 /\
    book_run b0 query_run = Some [(b1, true); (b2, true); (b3, true)] /\
    best_bid b2 = Some 101 /\ best_bid b3 = Some 100 /\ best_ask b3 = None /\ order_count b3 = 1 /\
    shares_at b3 100 true = Some 10 /\ next_level_after b3 100 true = None.
Proof.
  destruct (book_queries_exact 100 2 4 query_run) as (b0 & outs & Hm & Hrun & Hw & Hx); [lia..| |].
  { repeat constructor; cbn; lia. }
  assert (Forall Spec.fits (spec_path 4 [] query_run)) as Hf.
  { rewrite query_path. repeat (apply Forall_cons; split); [..|by apply Forall_nil]; intros buy p;
      rewrite ?shares_at_cons;
      change (Spec.shares_at buy p []) with 0; repeat (destruct (decide _)); cbn; lia. }
  specialize (Hx Hf). assert (outs.*2 = [true; true; true]) as Hres.
  { destruct sample_book as (c & Hc & HR & _ & Hcap). rewrite Hc in Hm. injection Hm as <-.
    destruct (book_run_safe query_run c [] HR) as (outs' & Hrun' & Hres & _); [repeat constructor; cbn; lia|].
    rewrite Hrun in Hrun'. injection Hrun' as <-. by rewrite Hres, Hcap. }
  rewrite query_path in Hw, Hx.
  destruct outs as [|[b1 r1] [|[b2 r2] [|[b3 r3] [|]]]]; try discriminate. injection Hres as -> -> ->.
  exists b0, b1, b2, b3. rewrite !Forall2_cons in Hw, Hx.
  destruct Hw as (_ & _ & (Hn & _) & _). destruct Hx as (_ & (_ & Hb2 & _) & (Hs & Hb & Ha & _ & _ & Hnx) & _).
  split_and!; [done|done|done|done|done|done|by apply Hs|].
  specialize (Hnx 100 true). cbn [fst] in Hnx. by destruct (next_level_after b3 100 true).
Defined.

(** ** Where the promise ends *)

(** Two bids of 2^31 shares at one price: the level total wraps to zero. *)
Definition overflow_run : ub OrderBook :=
  b ← make 100 5 8;
  outs ← book_run b [OpAdd 1 101 1 true; OpAdd 2 100 (2 ^ 31) true; OpAdd 3 100 (2 ^ 31) true;
                     OpAdd 4 99 5 true; OpDelete 1];
  fst <$> last outs.

(** After the better order is deleted, [best_bid] reports 99 although two live
    orders rest at 100, and [shares_at] answers 0 there. *)
Lemma wrapped_total_hides_level :
  exists b, overflow_run = Some b /\ best_bid b = Some 99 /\ shares_at b 100 true = Some 0 /\
    level_orders b (lref b 100) true =
      Some [MkRest 2 100 (2 ^ 31) true 0; MkRest 3 100 (2 ^ 31) true 0].
Proof. eexists. split; [vm_compute; reflexivity|]. by split_and!; vm_compute. Qed.
