(* ===== verification/EngineTheorems.v ===== *)
(** * What the matching engine promises

    [MatchingEngine::submit] over the real order book, for every order type and
    every event handler; then what happens to a remainder the book refuses, and the
    concrete inputs on which the promise of fill-or-kill atomicity and of self-trade
    prevention ends. *)

From S2P Require Import Prelude HashMap IntrusiveList ObjectPool OrderBook BookSpec.
From S2P Require Import BookInvariant BookBest BookRefinement BookOps BookQueries.
From S2P Require Import BookInterface MatchingEngine MatchingSpec MatchingProofs Liquidity.
From S2P Require Import Submit StdModel Session ConservationTest BookTheorems.

Local Open Scope Z_scope.

(** A book in normal operation: it represents [l], its cached best prices are
    right and no level total exceeds 32 bits. *)
Definition trading (b : OrderBook) (l : list Rest) : Prop :=
  Rep b l /\ best_exact b l /\ Spec.fits l.

(** An order whose fields fit their types; for a fill-or-kill order, no level may take
    the running total of its liquidity check past 32 bits before its quantity is
    covered. *)
Definition admissible (stp : bool) (order : IncomingOrder) (l : list Rest) : Prop :=
  order_in_range order /\ (in_type order = FOK -> counts_exactly stp order l).

(** Orders of up to 2^31 shares are admissible against any depth of levels of up to
    2^31 shares each. *)
Lemma admissible_half stp order l :
  resting_ok l -> order_in_range order -> in_quantity order <= 2 ^ 31 ->
  (forall p, Spec.shares_at (negb (in_is_buy order)) p l <= 2 ^ 31) -> admissible stp order l.
Proof.
  intros Hok Hr Hq Hl. split; [done|]. intros _. apply counts_exactly_levels; [done|].
  intros p. specialize (Hl p). lia.
Qed.

Lemma trading_submit {H} `{EventHandler H} stp b (h : H) l order :
  trading b l -> admissible stp order l ->
  let res := spec_submit stp (book_capacity b) l order in
  exists b', submit stp b h order = Some (b', foldl notify h res.2) /\
    Rep b' res.1 /\ best_exact b' res.1.
Proof.
  intros (HR & He & Hf) [Hr Hl].
  assert (represents (B := OrderBook) b l) as Hrep by (by split).
  destruct (submit_spec stp b h l order Hrep Hf Hr Hl) as (b' & ? & [? ?] & _).
  by exists b'.
Qed.

Lemma trace_notify (h : list Event) evs : foldl notify h evs = h ++ evs.
Proof.
  revert h. induction evs as [|e evs IH]; intros h; [by rewrite app_nil_r|]. cbn [foldl]. rewrite IH.
  destruct e; cbn; by rewrite <- app_assoc.
Qed.

Lemma trading_trace stp b l order :
  trading b l -> admissible stp order l ->
  exists b', submit stp b [] order = Some (b', (spec_submit stp (book_capacity b) l order).2) /\
    Rep b' (spec_submit stp (book_capacity b) l order).1.
Proof.
  intros Ht Ha. destruct (trading_submit stp b [] l order Ht Ha) as (b' & Hs & HR & _).
  exists b'. split; [|done]. by rewrite Hs, trace_notify.
Qed.

Lemma trading_ok b l : trading b l -> resting_ok l.
Proof. intros [HR _]. by eapply Rep_resting. Qed.

(** ** A book to run the witnesses on: two asks, the second cheaper *)

Definition two_asks : list Rest := [MkRest 1 101 10 false 5; MkRest 2 100 10 false 6].

Lemma two_asks_trading : exists b, trading b two_asks /\ book_capacity b = 4.
Proof.
  destruct (make_rep 100 2 4) as (b & _ & HR & He & Hc); [lia..|].
  destruct (add_order_rep b [] 1 101 10 false 5 HR ltac:(lia) ltac:(lia)) as (b1 & _ & HR1 & [_ _ Hs1] & He1).
  assert (book_capacity b1 = 4) as Hc1 by (unfold book_capacity in *; congruence).
  rewrite Hc in HR1, He1. specialize (He1 He).
  destruct (add_order_rep b1 _ 2 100 10 false 6 HR1 ltac:(lia) ltac:(lia)) as (b2 & _ & HR2 & [_ _ Hs2] & He2).
  rewrite Hc1 in HR2, He2. specialize (He2 He1). exists b2. split.
  - split_and!; [exact HR2|exact He2|]. intros buy p. unfold two_asks. rewrite !shares_at_cons.
    change (Spec.shares_at buy p []) with 0. repeat (destruct (decide _)); cbn; lia.
  - unfold book_capacity in *. congruence.
Qed.

Definition sample_order (t : OrderType) (q : Z) : IncomingOrder := MkIncoming 9 101 q true t 6.

Lemma sample_admissible stp t q : 0 <= q < 2 ^ 32 -> admissible stp (sample_order t q) two_asks.
Proof.
  intros Hq. split; [split; cbn; lia|]. intros _. apply counts_exactly_small.
  { destruct two_asks_trading as (b & [HR _] & _). by eapply Rep_resting. }
  assert (forall s o, liquidity s o two_asks <= 20) as Hle; [|specialize (Hle stp (sample_order t q)); lia].
  intros s o. unfold liquidity. etransitivity; [apply sumZ_filter_le|cbn; lia].
  intros r Hr. unfold two_asks in Hr. rewrite !elem_of_cons, elem_of_nil in Hr.
  by destruct Hr as [->|[->|[]]].
Qed.

(** ** The promises *)

(** C1. [submit] implements price-time priority for every order type, with and
    without self-trade prevention and for any event handler: it is defined, hands
    the handler exactly the events of the specification in order (the greedy
    allocation over the eligible crossing orders by price and then arrival,
    followed by the rest or kill of the remainder), and leaves a book that
    represents the specified list of orders with the right best prices. *)
Theorem submit_implements_price_time_priority {H : Type} `{EventHandler H} (stp : bool) (b : OrderBook)
    (h : H) (l : list Rest) (order : IncomingOrder) :
  trading b l -> admissible stp order l ->
  exists b', submit stp b h order =
      Some (b', foldl notify h (spec_submit stp (book_capacity b) l order).2) /\
    Rep b' (spec_submit stp (book_capacity b) l order).1 /\
    best_exact b' (spec_submit stp (book_capacity b) l order).1.
Proof. apply trading_submit. Qed.

(** 15 shares: the cheaper ask first although it arrived second. *)
Lemma submit_implements_price_time_priority_witness :
  exists b b', trading b two_asks /\
    submit false b [] (sample_order Limit 15) =
      Some (b', [Fill (MkFill 9 2 100 10); Fill (MkFill 9 1 101 5)]) /\
    Rep b' [MkRest 1 101 5 false 5].
Proof.
  destruct two_asks_trading as (b & Ht & Hc).
  destruct (submit_implements_price_time_priority false b [] two_asks (sample_order Limit 15) Ht) as (b' & Hs & HR & _).
  - apply sample_admissible. lia.
  - rewrite Hc in Hs, HR. by exists b, b'.
Defined.

(** C13. Conservation, for every order type: the filled, rested and killed
    quantities of one submission add up to the submitted quantity, and the shares on
    the book fall by exactly the filled quantity and grow by the rested quantity.
    The one exception is a limit order whose remainder the book refuses, because its
    reference is still live after the fills or the pool is still full: then the book
    only loses what was filled.  It cannot happen to a fresh reference on a book with
    room, and an order that is not a limit order rests nothing. *)
Theorem submit_conserves_quantity (stp : bool) (b : OrderBook) (l : list Rest) (order : IncomingOrder) :
  trading b l -> admissible stp order l ->
  exists b' l' evs, submit stp b [] order = Some (b', evs) /\ Rep b' l' /\
    sumZ event_quantity evs = in_quantity order /\
    (in_type order <> Limit -> rested_quantity evs = 0) /\
    ((sumZ r_shares l' = sumZ r_shares l - filled_quantity evs + rested_quantity evs /\
      (rested_quantity evs = 0 \/
       last l' = Some (MkRest (in_ref order) (in_price order) (rested_quantity evs) (in_is_buy order)
                         (in_trader order)))) \/
     (sumZ r_shares l' = sumZ r_shares l - filled_quantity evs /\ 0 < rested_quantity evs /\
      (in_ref order ∈ r_ref <$> l' \/ book_capacity b <= Z.of_nat (length l')))) /\
    (in_ref order ∉ r_ref <$> l -> Z.of_nat (length l) < book_capacity b ->
     sumZ r_shares l' = sumZ r_shares l - filled_quantity evs + rested_quantity evs).
Proof.
  intros Ht Ha. destruct (trading_trace stp b l order Ht Ha) as (b' & Hs & HR). destruct Ha as [[Hq _] _].
  pose proof (spec_submit_outcome stp (book_capacity b) l order (trading_ok _ _ Ht) (proj1 Hq)) as Ho.
  pose proof (spec_submit_total stp (book_capacity b) l order) as Htot.
  destruct (spec_submit _ _ _ _) as [l' evs]. cbn [fst snd] in *. exists b', l', evs.
  do 3 (split; [done|]). inversion Ho as [? ? Hr Hsum|l1 ? Hl Hr Hsum|? ? Hl Hr Href Hin Hlen Hsum]; subst.
  - split_and!; [done|left; split; [lia|by left]|lia].
  - assert (sumZ r_shares (l1 ++ [MkRest (in_ref order) (in_price order) (rested_quantity evs)
      (in_is_buy order) (in_trader order)]) = sumZ r_shares l - filled_quantity evs + rested_quantity evs) as Heq.
    { rewrite sumZ_app, sumZ_cons. cbn. lia. }
    split_and!; [done|left; split; [exact Heq|right; apply last_snoc]|done].
  - split_and!; [done|by right|]. intros Hn Hc. exfalso. destruct Href as [(r & Hrf & Hx)%list_elem_of_fmap|Hc']; [|lia].
    destruct (Hin r Hx) as (y & Hy & Heq). apply Hn. rewrite Hrf, Heq. by apply list_elem_of_fmap_2.
Qed.

(** A limit order for 25 shares takes both asks and rests 5; an immediate-or-cancel
    order has them killed. *)
Lemma submit_conserves_quantity_witness :
  exists b, trading b two_asks /\
    (exists b' l' evs, submit false b [] (sample_order Limit 25) = Some (b', evs) /\ Rep b' l' /\
       sumZ event_quantity evs = 25 /\ rested_quantity evs = 5 /\ sumZ r_shares l' = 5) /\
    (exists b' l' evs, submit false b [] (sample_order IOC 25) = Some (b', evs) /\ Rep b' l' /\
       sumZ event_quantity evs = 25 /\ rested_quantity evs = 0 /\ sumZ r_shares l' = 0).
Proof.
  destruct two_asks_trading as (b & Ht & Hc). exists b. split; [done|].
  assert (forall t, 0 <= 25 < 2 ^ 32 -> admissible false (sample_order t 25) two_asks) as Had
    by (intros t; apply sample_admissible).
  split.
  - destruct (submit_conserves_quantity false b two_asks (sample_order Limit 25) Ht (Had Limit ltac:(lia)))
      as (b' & l' & evs & Hs & HR & Hq & _ & _ & Hx).
    assert (evs = (spec_submit false 4 two_asks (sample_order Limit 25)).2) as Hevs.
    { destruct (trading_trace false b _ _ Ht (Had Limit ltac:(lia))) as (b2 & Hs2 & _). rewrite Hc in Hs2. congruence. }
    exists b', l', evs. split_and!; [done|done|done|by rewrite Hevs|].
    rewrite Hx; [by rewrite Hevs|intros Hin; revert Hin; cbn; rewrite !elem_of_cons, elem_of_nil; lia|by rewrite Hc].
  - destruct (submit_conserves_quantity false b two_asks (sample_order IOC 25) Ht (Had IOC ltac:(lia)))
      as (b' & l' & evs & Hs & HR & Hq & Hr & _ & Hx).
    assert (evs = (spec_submit false 4 two_asks (sample_order IOC 25)).2) as Hevs.
    { destruct (trading_trace false b _ _ Ht (Had IOC ltac:(lia))) as (b2 & Hs2 & _). rewrite Hc in Hs2. congruence. }
    exists b', l', evs. split_and!; [done|done|done|by apply Hr|].
    rewrite Hx; [by rewrite Hevs|intros Hin; revert Hin; cbn; rewrite !elem_of_cons, elem_of_nil; lia|by rewrite Hc].
Defined.

(** C14. No order trades through its limit: every fill of a submission is with a
    resting order of the other side, for at most that order's size, at that
    order's price, and that price is at or better than the aggressor's limit
    unless the order is a market order. *)
Theorem fills_respect_the_limit (stp : bool) (b : OrderBook) (l : list Rest) (order : IncomingOrder) :
  trading b l -> admissible stp order l ->
  exists b' evs, submit stp b [] order = Some (b', evs) /\
    forall e, Fill e ∈ evs ->
      exists r, r ∈ l /\ resting_ref e = r_ref r /\ fill_price e = r_price r /\
        0 < fill_quantity e <= r_shares r /\ r_buy r = negb (in_is_buy order) /\
        (in_type order <> Market ->
         if in_is_buy order then fill_price e <= in_price order else in_price order <= fill_price e).
Proof.
  intros Ht Ha. destruct (trading_trace stp b l order Ht Ha) as (b' & Hs & _).
  eexists b', _. split; [exact Hs|]. intros e He.
  destruct (spec_submit_fill stp (book_capacity b) l order e (trading_ok _ _ Ht) He)
    as (r & Hr & _ & Href & Hp & Hq & Hb & Hc & _).
  exists r. split_and!; try done; try lia. intros Hm. unfold crosses in Hc.
  rewrite decide_False in Hc by done. rewrite Hp. destruct (in_is_buy order); lia.
Qed.

Lemma fills_respect_the_limit_witness :
  exists b b' evs, trading b two_asks /\ submit false b [] (sample_order IOC 25) = Some (b', evs) /\
    forall e, Fill e ∈ evs -> fill_price e <= 101.
Proof.
  destruct two_asks_trading as (b & Ht & Hc).
  destruct (fills_respect_the_limit false b two_asks (sample_order IOC 25) Ht) as (b' & evs & Hs & He).
  - apply sample_admissible. lia.
  - exists b, b', evs. split_and!; [done|done|]. intros e Hin.
    destruct (He e Hin) as (r & _ & _ & _ & _ & _ & Hp). by apply Hp.
Defined.

(** C15. Fill-or-kill is atomic when self-trade prevention does not apply to the
    order: either the crossing liquidity is too small, then the only event is the
    kill of the whole quantity and the list of resting orders is unchanged, or the
    fills add up to the whole quantity and nothing is killed or rested. *)
Theorem fill_or_kill_is_atomic (stp : bool) (b : OrderBook) (l : list Rest) (order : IncomingOrder) :
  trading b l -> admissible stp order l -> in_type order = FOK -> 0 < in_quantity order ->
  stp = false \/ in_trader order = 0 ->
  exists b' evs, submit stp b [] order = Some (b', evs) /\
    ((liquidity stp order l < in_quantity order /\ Rep b' l /\
      evs = [Killed (MkKill (in_ref order) (in_quantity order))]) \/
     (in_quantity order <= liquidity stp order l /\
      exists fills, evs = fill_events order fills /\ filled fills = in_quantity order)).
Proof.
  intros Ht Ha Hf Hq Hs. destruct (trading_trace stp b l order Ht Ha) as (b' & Hsub & HR).
  eexists b', _. split; [exact Hsub|].
  destruct (spec_submit_fok stp (book_capacity b) l order (trading_ok _ _ Ht) Hs Hf Hq) as [[Hl Hres]|[Hl Hres]].
  - left. rewrite Hres in *. done.
  - by right.
Qed.

Lemma fill_or_kill_is_atomic_witness :
  exists b b', trading b two_asks /\
    submit false b [] (sample_order FOK 25) = Some (b', [Killed (MkKill 9 25)]) /\ Rep b' two_asks.
Proof.
  destruct two_asks_trading as (b & Ht & Hc).
  destruct (fill_or_kill_is_atomic false b two_asks (sample_order FOK 25) Ht) as (b' & evs & Hs & Hcase).
  - apply sample_admissible. lia.
  - done.
  - cbn. lia.
  - by left.
  - exists b, b'. assert (liquidity false (sample_order FOK 25) two_asks = 20) as Hl by done.
    destruct Hcase as [(_ & HR & ->)|[Hx _]]; [done|]. rewrite Hl in Hx. cbn in Hx. lia.
Defined.

(** C16. The engine never leaves a crossed book behind: if every bid was below
    every ask and self-trade prevention does not apply to the order, the same
    holds after the submission. *)
Theorem submit_keeps_book_uncrossed (stp : bool) (b : OrderBook) (l : list Rest) (order : IncomingOrder) :
  trading b l -> admissible stp order l -> stp = false \/ in_trader order = 0 -> uncrossed l ->
  exists b' l' evs, submit stp b [] order = Some (b', evs) /\ Rep b' l' /\ uncrossed l'.
Proof.
  intros Ht Ha Hs Hu. destruct (trading_trace stp b l order Ht Ha) as (b' & Hsub & HR).
  eexists b', _, _. split; [exact Hsub|]. split; [exact HR|].
  apply spec_submit_uncrossed; [by eapply trading_ok|done| |done]. apply Ha.
Qed.

Lemma submit_keeps_book_uncrossed_witness :
  exists b b' l' evs, trading b two_asks /\ submit false b [] (sample_order Limit 25) = Some (b', evs) /\
    Rep b' l' /\ uncrossed l'.
Proof.
  destruct two_asks_trading as (b & Ht & Hc).
  destruct (submit_keeps_book_uncrossed false b two_asks (sample_order Limit 25) Ht) as (b' & l' & evs & ? & ? & ?).
  - apply sample_admissible. lia.
  - by left.
  - intros r r' Hr. unfold two_asks in Hr. rewrite !elem_of_cons, elem_of_nil in Hr.
    by destruct Hr as [->|[->|[]]].
  - by exists b, b', l', evs.
Defined.

(** C17. Self-trade prevention: with it switched on, an order that carries a
    trader never fills against a resting order of the same trader. *)
Theorem self_trades_are_prevented (b : OrderBook) (l : list Rest) (order : IncomingOrder) :
  trading b l -> admissible true order l -> in_trader order <> 0 ->
  exists b' evs, submit true b [] order = Some (b', evs) /\
    forall e, Fill e ∈ evs ->
      exists r, r ∈ l /\ r_ref r = resting_ref e /\ r_trader r <> in_trader order.
Proof.
  intros Ht Ha Hn. destruct (trading_trace true b l order Ht Ha) as (b' & Hs & _).
  eexists b', _. split; [exact Hs|]. intros e He.
  destruct (spec_submit_fill true (book_capacity b) l order e (trading_ok _ _ Ht) He)
    as (r & Hr & _ & Href & _ & _ & _ & _ & Hel).
  exists r. split_and!; [done|done|]. unfold eligible in Hel.
  rewrite (proj2 (Z.eqb_neq _ 0) Hn) in Hel. cbn in Hel. intros Heq. by rewrite Heq, Z.eqb_refl in Hel.
Qed.

Lemma self_trades_are_prevented_witness :
  exists b b' evs, trading b two_asks /\ submit true b [] (sample_order Market 25) = Some (b', evs) /\
    forall e, Fill e ∈ evs -> exists r, r ∈ two_asks /\ r_ref r = resting_ref e /\ r_trader r <> 6.
Proof.
  destruct two_asks_trading as (b & Ht & Hc).
  destruct (self_trades_are_prevented b two_asks (sample_order Market 25) Ht) as (b' & evs & Hs & He).
  - apply sample_admissible. lia.
  - done.
  - by exists b, b', evs.
Defined.

(** ** Many submissions *)

(** C32. A whole session: any sequence of submissions whose quantities, together
    with the shares already on the book, stay below 2^32 runs without undefined
    behaviour, hands the handler exactly the events of the specification threaded
    through the sequence, and leaves a book that represents its final list. *)
Theorem session_implements_price_time_priority {H : Type} `{EventHandler H} (stp : bool) (b : OrderBook)
    (h : H) (l : list Rest) (orders : list IncomingOrder) :
  Rep b l -> best_exact b l -> Forall order_in_range orders ->
  total_shares l + sumZ in_quantity orders < 2 ^ 32 ->
  exists b', submit_all stp b h orders =
      Some (b', foldl notify h (spec_session stp (book_capacity b) l orders).2) /\
    Rep b' (spec_session stp (book_capacity b) l orders).1 /\
    best_exact b' (spec_session stp (book_capacity b) l orders).1.
Proof. apply submit_all_spec. Qed.

Lemma session_implements_price_time_priority_witness :
  exists b b', trading b two_asks /\
    submit_all false b [] [sample_order Limit 15; sample_order Market 3] =
      Some (b', [Fill (MkFill 9 2 100 10); Fill (MkFill 9 1 101 5); Fill (MkFill 9 1 101 3)]) /\
    Rep b' [MkRest 1 101 2 false 5].
Proof.
  destruct two_asks_trading as (b & Ht & Hc). exists b.
  destruct (session_implements_price_time_priority false b [] two_asks
    [sample_order Limit 15; sample_order Market 3]) as (b' & Hs & HR & _); try apply Ht.
  - repeat constructor; cbn; lia.
  - cbn. lia.
  - rewrite Hc in Hs, HR. by exists b'.
Defined.

(** C33. The conservation test cannot fail: for any random draws, its 500
    submissions with self-trade prevention run on a book of capacity 5000, and every
    assertion on the recorded events holds. *)
Theorem conservation_test_always_passes {R : Type} `{!Random R, !RandomRanges R} :
  ConservationTest.run_test (R := R) = Some true.
Proof. apply ConservationTest.conservation_run_passes. Qed.

Lemma conservation_test_always_passes_witness : ConservationTest.run_test (R := nat) = Some true.
Proof. apply (conservation_test_always_passes (R := nat)). Defined.

(** ** Where the promises end *)

(** A book filled through [add_order]: reference, price, shares, side, trader. *)
Definition build (orders : list Rest) : ub OrderBook :=
  b ← make 100 5 8;
  foldl (fun acc r => b ← acc;
           x ← add_order b (r_ref r) (r_price r) (r_shares r) (r_buy r) (r_trader r); Some x.1)
    (Some b) orders.

(** The events of one submission. *)
Definition events (stp : bool) (b : ub OrderBook) (order : IncomingOrder) : ub (list Event) :=
  b ← b; x ← submit stp b [] order; Some x.2.

(** Under self-trade prevention the liquidity check counts an eligible order behind
    a level that the trader's own order blocks. *)
Lemma fok_partial_fill_under_stp :
  events true (build [MkRest 1 100 10 false 5; MkRest 2 100 10 false 7; MkRest 3 101 10 false 5])
    (MkIncoming 9 101 20 true FOK 7) =
  Some [Fill (MkFill 9 1 100 10); Killed (MkKill 9 10)].
Proof. vm_compute. reflexivity. Qed.

(** Each of the two level totals fits 32 bits; their sum does not. *)
Lemma fok_killed_by_wrapped_liquidity :
  let asks := [MkRest 1 100 3000000000 false 0; MkRest 2 101 2000000000 false 0] in
  let order := MkIncoming 9 101 4000000000 true FOK 0 in
  events false (build asks) order = Some [Killed (MkKill 9 4000000000)] /\
  liquidity false order asks = 5000000000.
Proof. split; vm_compute; reflexivity. Qed.

(** The result of [add_order] is ignored. *)
Lemma rest_event_without_resting_order :
  let b := build [MkRest 1 99 10 true 0] in
  let order := MkIncoming 1 105 5 false Limit 0 in
  events false b order = Some [Rested (MkRestEvent 1 105 5 false)] /\
  (b ← b; x ← submit false b [] order; shares_at x.1 105 false) = Some 0.
Proof. split; vm_compute; reflexivity. Qed.

(** [replace_order] drops the trader of the order it replaces. *)
Lemma replaced_order_self_trades :
  let b := build [MkRest 1 100 10 false 7] in
  let order := MkIncoming 9 100 10 true IOC 7 in
  events true b order = Some [Killed (MkKill 9 10)] /\
  events true (b ← b; x ← replace_order b 1 2 10 100; Some x.1) order =
    Some [Fill (MkFill 9 2 100 10)].
Proof. split; vm_compute; reflexivity. Qed.

(** C24. A remainder the book refuses is reported as resting all the same: take any
    limit order whose reference is that of a live order of its own side, or that
    meets a full pool with nothing to trade against.  Whatever is left of it after
    its fills is announced by a rest event as the last event, yet its side of the
    book is exactly what it was and the book holds just the shares that the fills
    left: the remainder is nowhere. *)
Theorem refused_remainder_is_reported (stp : bool) (b : OrderBook) (l : list Rest) (order : IncomingOrder) :
  trading b l -> admissible stp order l -> in_type order = Limit ->
  refuses_remainder (book_capacity b) order l ->
  exists b' l' evs, submit stp b [] order = Some (b', evs) /\ Rep b' l' /\
    (filled_quantity evs < in_quantity order ->
     last evs = Some (Rested (MkRestEvent (in_ref order) (in_price order)
       (in_quantity order - filled_quantity evs) (in_is_buy order)))) /\
    side_orders (in_is_buy order) l' = side_orders (in_is_buy order) l /\
    sumZ r_shares l' = sumZ r_shares l - filled_quantity evs.
Proof.
  intros Ht Ha Hl Href. destruct (trading_trace stp b l order Ht Ha) as (b' & Hs & HR).
  destruct Ha as [[Hq _] _].
  destruct (spec_submit_refused stp (book_capacity b) l order (trading_ok _ _ Ht) (proj1 Hq) Hl Href)
    as (Hside & Hsum & Hlast).
  by eexists b', _, _.
Qed.

(** A sell order under the reference of the first ask: refused, reported as resting. *)
Lemma refused_remainder_is_reported_witness :
  exists b b', trading b two_asks /\
    submit false b [] (MkIncoming 1 105 5 false Limit 6) =
      Some (b', [Rested (MkRestEvent 1 105 5 false)]) /\ Rep b' two_asks.
Proof.
  destruct two_asks_trading as (b & Ht & Hc). exists b. set (order := MkIncoming 1 105 5 false Limit 6).
  assert (admissible false order two_asks) as Ha by (split; [split; cbn; lia|done]).
  destruct (refused_remainder_is_reported false b two_asks order Ht Ha eq_refl) as (b' & l' & evs & Hs & HR & _ & Hside & _).
  { left. exists (MkRest 1 101 10 false 5). split_and!; [left|done|done]. }
  destruct (trading_trace false b two_asks order Ht Ha) as (b2 & Hs2 & HR2). rewrite Hc in Hs2, HR2.
  exists b'. rewrite Hs in Hs2. injection Hs2 as -> ->. split_and!; [done|exact Hs|exact HR2].
Defined.
