(* ===== verification/ItchTheorems.v ===== *)
(** * What the ITCH layer promises

    Byte order, the decoder on arbitrary spans and the file reader on arbitrary
    files. *)

From S2P Require Import Prelude HashMap IntrusiveList ObjectPool ByteOrder Messages Decode.
From S2P Require Import FileReader ReaderOwnership OrderBook BookSpec BookOps Feed.

Local Open Scope Z_scope.

(** ** Byte order *)

Lemma read_back (n : nat) (v : Z) (pre post : list byte) :
  be_value (window (pre ++ be_bytes n v ++ post) (length pre) n) = v mod 256 ^ Z.of_nat n.
Proof. rewrite window_app by apply length_be_bytes. apply be_value_be_bytes. Qed.

Lemma in_range (n : nat) (v : Z) (pre post : list byte) :
  (length pre + n <= length (pre ++ be_bytes n v ++ post))%nat.
Proof. rewrite !length_app, length_be_bytes. lia. Qed.

(** What a store and a load of [n] bytes at an offset promise: inside the buffer
    they write and read exactly the [n] big-endian digits there, outside they are
    undefined, and a load after a store gives the value back, truncated to the
    width. *)
Record big_endian_access (n : nat) (store : list byte -> nat -> Z -> ub (list byte))
    (load : list byte -> nat -> ub Z) : Prop := {
  be_store (pre mid post : list byte) (v : Z) :
    length mid = n ->
    store (pre ++ mid ++ post) (length pre) v = Some (pre ++ be_bytes n v ++ post);
  be_load (pre mid post : list byte) :
    length mid = n -> load (pre ++ mid ++ post) (length pre) = Some (be_value mid);
  be_store_outside (buf : list byte) (p : nat) (v : Z) :
    (length buf < p + n)%nat -> store buf p v = None;
  be_load_outside (buf : list byte) (p : nat) :
    (length buf < p + n)%nat -> load buf p = None;
  be_back (pre mid post : list byte) (v : Z) :
    length mid = n ->
    (buf ← store (pre ++ mid ++ post) (length pre) v; load buf (length pre)) =
      Some (v mod 256 ^ Z.of_nat n)
}.

(** A load through its window, and a store through its digits, are enough. *)
Lemma big_endian_intro n store load :
  (forall pre mid post v, length mid = n ->
     store (pre ++ mid ++ post) (length pre) v = Some (pre ++ be_bytes n v ++ post)) ->
  (forall buf p, (p + n <= length buf)%nat -> load buf p = Some (be_value (window buf p n))) ->
  (forall buf p v, (length buf < p + n)%nat -> store buf p v = None) ->
  (forall buf p, (length buf < p + n)%nat -> load buf p = None) ->
  big_endian_access n store load.
Proof.
  intros Hs Hl Hso Hlo. split; [done| |done|done|].
  - intros pre mid post Hm. rewrite Hl by (rewrite !length_app; lia). by rewrite window_app.
  - intros pre mid post v Hm. rewrite (Hs pre mid post v Hm). cbn [mbind option_bind].
    rewrite Hl by apply in_range. by rewrite read_back.
Qed.

(** A read or a write past the end. *)
Ltac outside_read :=
  repeat match goal with
  | |- context [?buf !! ?i] =>
      destruct (buf !! i) eqn:?; cbn [mbind option_bind]; [|reflexivity]
  end;
  repeat match goal with H : _ !! _ = Some _ |- _ => apply lookup_lt_Some in H end; lia.

Ltac outside_write :=
  unfold put; repeat (case_decide; cbn [mbind option_bind]; [|reflexivity]);
  rewrite ?length_insert in *; lia.

(** C22. byteorder.hpp, at all four widths: a store writes exactly its 2, 4, 6 or 8
    bytes, most significant first, and leaves the rest of the buffer as it was; a
    load gives the big-endian value of exactly its bytes; a load after a store of
    the same width gives the value back, truncated to the width; and an access that
    does not lie inside the buffer is undefined. *)
Theorem byteorder_round_trip :
  big_endian_access 2 write_u16_be read_u16_be /\
  big_endian_access 4 write_u32_be read_u32_be /\
  big_endian_access 6 write_u48_be read_u48_be /\
  big_endian_access 8 write_u64_be read_u64_be.
Proof.
  split_and!; apply big_endian_intro.
  - intros. by apply write_u16_be_spec.
  - apply read_u16_be_spec.
  - intros. unfold write_u16_be. outside_write.
  - intros. unfold read_u16_be. outside_read.
  - intros. by apply write_u32_be_spec.
  - apply read_u32_be_spec.
  - intros. unfold write_u32_be. outside_write.
  - intros. unfold read_u32_be. outside_read.
  - intros. by apply write_u48_be_spec.
  - apply read_u48_be_spec.
  - intros. unfold write_u48_be. outside_write.
  - intros. unfold read_u48_be. outside_read.
  - intros. by apply write_u64_be_spec.
  - apply read_u64_be_spec.
  - intros. unfold write_u64_be. outside_write.
  - intros. unfold read_u64_be. outside_read.
Qed.

(** 0x1234 between two other bytes. *)
Lemma byteorder_round_trip_witness :
  write_u16_be ["a"%byte; "b"%byte; "b"%byte; "c"%byte] 1 4660 =
    Some ["a"%byte; Byte.x12; Byte.x34; "c"%byte] /\
  read_u16_be ["a"%byte; Byte.x12; Byte.x34; "c"%byte] 1 = Some 4660 /\
  read_u16_be ["a"%byte; Byte.x12; Byte.x34; "c"%byte] 3 = None.
Proof.
  destruct byteorder_round_trip as [[Hs Hl _ Ho _] _].
  split; [exact (Hs ["a"%byte] ["b"%byte; "b"%byte] ["c"%byte] 4660 eq_refl)|].
  split; [exact (Hl ["a"%byte] [Byte.x12; Byte.x34] ["c"%byte] eq_refl)|].
  apply Ho. cbn. lia.
Defined.

(** ** The decoder *)

Lemma window_app_l raw extra p n :
  (p + n <= length raw)%nat -> window (raw ++ extra) p n = window raw p n.
Proof.
  intros Hl. unfold window. rewrite drop_app_le by lia. apply take_app_le. rewrite length_drop. lia.
Qed.

Section trailing.
Variables (raw extra : list byte).

Lemma read_char_app p : (p < length raw)%nat -> read_char (raw ++ extra) p = read_char raw p.
Proof. intros Hp. unfold read_char. by apply lookup_app_l. Qed.

Lemma read_u16_app p : (p + 2 <= length raw)%nat -> read_u16_be (raw ++ extra) p = read_u16_be raw p.
Proof. intros. rewrite !read_u16_be_spec, window_app_l by (rewrite ?length_app; lia). done. Qed.

Lemma read_u32_app p : (p + 4 <= length raw)%nat -> read_u32_be (raw ++ extra) p = read_u32_be raw p.
Proof. intros. rewrite !read_u32_be_spec, window_app_l by (rewrite ?length_app; lia). done. Qed.

Lemma read_u48_app p : (p + 6 <= length raw)%nat -> read_u48_be (raw ++ extra) p = read_u48_be raw p.
Proof. intros. rewrite !read_u48_be_spec, window_app_l by (rewrite ?length_app; lia). done. Qed.

Lemma read_u64_app p : (p + 8 <= length raw)%nat -> read_u64_be (raw ++ extra) p = read_u64_be raw p.
Proof. intros. rewrite !read_u64_be_spec, window_app_l by (rewrite ?length_app; lia). done. Qed.

Lemma read_chars_app p n : (p + n <= length raw)%nat -> read_chars (raw ++ extra) p n = read_chars raw p n.
Proof. intros. rewrite !read_chars_spec, window_app_l by (rewrite ?length_app; lia). done. Qed.
End trailing.

(** The decoder looks at exactly the wire length of the message: whatever
    follows a decodable message in the span does not change the result. *)
Lemma decode_ignores_trailing_bytes (raw extra : list byte) (msg : DecodedMessage) :
  decode raw = Some (Some msg) -> decode (raw ++ extra) = Some (Some msg).
Proof.
  intros Hd. destruct raw as [|c raw'] eqn:Hraw; [done|].
  unfold decode in *. cbn [app]. rewrite app_comm_cons.
  cbn [read_char mbind option_bind lookup list_lookup] in Hd.
  destruct ((wire_length _ =? 0) || _) eqn:Hlen; [done|].
  apply orb_false_iff in Hlen as [Hz%Z.eqb_neq Hl%Z.ltb_ge].
  cbn [read_char mbind option_bind lookup list_lookup app].
  rewrite (proj2 (Z.eqb_neq _ _) Hz), (proj2 (Z.ltb_ge _ _)) by (cbn in *; rewrite ?length_app; lia).
  cbn [orb]. rewrite app_comm_cons. rewrite <- Hraw in *. clear Hraw. revert Hd. decoders.
  destruct (message_type_of_char c); cbn [wire_length] in *; try done;
    rewrite ?decide_True, ?decide_False by done;
    rewrite ?read_u16_app, ?read_u48_app, ?read_u64_app, ?read_u32_app, ?read_chars_app, ?read_char_app by lia;
    done.
Qed.

(** C18. [decode] is defined on every span.  It returns no message exactly for
    an empty span, an unsupported type byte or a span shorter than the type's wire
    length; a message it returns carries the type of its first byte, has the union
    member active that the header names, and its integers fit their fields.  It looks
    at exactly the wire length: whatever follows a decodable message in the span does
    not change the result. *)
Theorem decode_is_total_and_typed (raw : list byte) :
  exists r, decode raw = Some r /\
    (r = None <-> raw = [] \/ exists c, raw !! 0%nat = Some c /\
       (wire_length (message_type_of_char c) = 0 \/
        Z.of_nat (length raw) < wire_length (message_type_of_char c))) /\
    (forall msg, r = Some msg -> msg_ok msg /\
       (message_type_of_char <$> raw !! 0%nat) = Some (type (header msg)) /\
       forall extra, decode (raw ++ extra) = Some (Some msg)).
Proof.
  destruct raw as [|c raw'] eqn:Hraw.
  { exists None. split; [done|]. split; [|done]. split; [by left|done]. }
  rewrite <- Hraw. assert (raw !! 0%nat = Some c) as Hc by (by rewrite Hraw).
  destruct (decide (wire_length (message_type_of_char c) = 0 \/
    Z.of_nat (length raw) < wire_length (message_type_of_char c))) as [Hbad|Hgood].
  - exists None. split; [apply decode_rejects; right; by exists c|]. split; [|done].
    split; [|done]. intros _. right. by exists c.
  - destruct (decode_supported raw c Hc ltac:(tauto) ltac:(lia)) as (msg & Hd & Hp & Hh).
    exists (Some msg). split; [done|]. split.
    + split; [done|]. intros [->|(c' & Hc' & Hb)]; [done|]. exfalso. apply Hgood.
      rewrite Hc in Hc'. by simplify_eq.
    + intros m [= <-]. split_and!; [by eapply decode_msg_ok|by rewrite Hc, Hh|].
      intros extra. by apply decode_ignores_trailing_bytes.
Qed.

(** ** The file reader *)

(** A file of framed messages, followed by nothing or by a truncated record. *)
Lemma reader_reads_back_framed_messages (msgs : list (list byte)) (tail : list byte) (r : ItchFileReader) :
  let bytes := concat (frame <$> msgs) ++ tail in
  Forall (fun m => Z.of_nat (length m) < 2 ^ 16) msgs -> split_frame tail = None ->
  Z.of_nat (length bytes) < 2 ^ 63 -> open_reader (Opened bytes) = inr r ->
  read_all (S (length bytes)) r = Some msgs.
Proof.
  cbn zeta. intros Hm Ht Hs Ho. rewrite (open_read_all _ _ Hs Ho). by rewrite frames_concat.
Qed.

(** C23. On any file below 2^63 bytes the reader is defined and yields exactly
    the records of the framing, stopping cleanly at the end or at a truncated
    record; the bound on the number of reads is the file size.  Framing is thereby
    undone: framed messages (each below 2^16 bytes), followed by nothing or by a
    truncated record, are read back message by message. *)
Theorem reader_walks_the_frames (bytes : list byte) (r : ItchFileReader) :
  Z.of_nat (length bytes) < 2 ^ 63 -> open_reader (Opened bytes) = inr r ->
  read_all (S (length bytes)) r = Some (frames bytes) /\
  forall msgs tail, bytes = concat (frame <$> msgs) ++ tail ->
    Forall (fun m => Z.of_nat (length m) < 2 ^ 16) msgs -> split_frame tail = None ->
    read_all (S (length bytes)) r = Some msgs.
Proof.
  intros Hs Ho. split; [by apply open_read_all|].
  intros msgs tail -> Hm Ht. by apply reader_reads_back_framed_messages.
Qed.

Lemma reader_walks_the_frames_witness :
  exists r, open_reader (Opened (concat (frame <$> [["A"%byte]; []; ["B"%byte; "C"%byte]]) ++ [x00])) = inr r /\
    read_all 11 r = Some [["A"%byte]; []; ["B"%byte; "C"%byte]].
Proof.
  set (bytes := concat _ ++ _). eexists. split; [reflexivity|].
  assert (Z.of_nat (length bytes) < 2 ^ 63) as Hs by (cbn; lia).
  destruct (reader_walks_the_frames bytes (MkReader (Some bytes) (Z.of_nat (length bytes)) 0) Hs eq_refl)
    as [_ Hback].
  apply (Hback _ [x00]); [reflexivity|repeat constructor; cbn; lia|reflexivity].
Defined.

(** ** Ownership *)

(** C35. Readers own their mappings.  Any client that only uses objects that exist
    (it constructs, moves, self-assigns, reads and destroys in any order) runs
    without reading through or unmapping a dead mapping, sees what readers that
    simply hold their bytes would show, and leaves no descriptor open; every live
    mapping has exactly one owner, so when all readers are gone nothing is
    mapped. *)
Theorem readers_own_their_mappings (ops : list Ownership.client_op)
    (values : gmap nat ItchFileReader) (obs : list Ownership.observation) :
  Ownership.value_run ∅ ops = Some (values, obs) ->
  exists os readers,
    Ownership.client_run (Ownership.MkOS ∅ ∅, ∅) ops = Some (os, readers, obs) /\
    Ownership.open_fds os = ∅ /\
    (forall i j h h' a, readers !! i = Some h -> readers !! j = Some h' ->
       Ownership.h_data h = Some a -> Ownership.h_data h' = Some a -> i = j) /\
    (forall a, is_Some (Ownership.mappings os !! a) ->
       exists i h, readers !! i = Some h /\ Ownership.h_data h = Some a) /\
    (values = ∅ -> Ownership.mappings os = ∅).
Proof.
  intros Hv. destruct (Ownership.client_run_refines ops _ _ _ _ _ Ownership.own_start Hv)
    as (os & readers & Hrun & [Hf Hrel Hu Ho]).
  exists os, readers. split_and!; [done|done|done| |].
  - intros a [bytes Ha]. by eapply Ho.
  - intros ->. apply map_eq. intros a. rewrite lookup_empty.
    destruct (Ownership.mappings os !! a) as [bytes|] eqn:Ha; [|done].
    destruct (Ho a bytes Ha) as (i & h & Hi & _). specialize (Hrel i).
    rewrite Hi, lookup_empty in Hrel. inversion Hrel.
Qed.

(** Two files; the first reader is moved twice and overwrites the second. *)
Lemma readers_own_their_mappings_witness :
  exists os obs,
    Ownership.client_run (Ownership.MkOS ∅ ∅, ∅)
      [Ownership.Construct 0 (Opened (frame ["A"%byte; "B"%byte])); Ownership.MoveConstruct 1 0;
       Ownership.Construct 2 (Opened (frame ["C"%byte])); Ownership.MoveAssign 2 1;
       Ownership.MoveAssign 2 2; Ownership.Read 2; Ownership.Read 1; Ownership.Destroy 0;
       Ownership.Destroy 1; Ownership.Destroy 2] = Some (os, ∅, obs) /\
    Ownership.mappings os = ∅ /\ obs !! 5%nat = Some (Ownership.Span (Some ["A"%byte; "B"%byte])).
Proof.
  match goal with |- exists os obs, Ownership.client_run _ ?ops = _ /\ _ =>
    destruct (Ownership.value_run ∅ ops) as [[values obs]|] eqn:Hv; [|vm_compute in Hv; discriminate Hv];
    destruct (readers_own_their_mappings ops values obs Hv) as (os & readers & Hrun & _ & _ & _ & Hm)
  end.
  assert (values = ∅) as -> by (vm_compute in Hv; injection Hv as <- _; reflexivity).
  exists os, obs. rewrite (Hm eq_refl). vm_compute in Hv. injection Hv as <-.
  assert (readers = ∅) as -> by (vm_compute in Hrun; injection Hrun as _ <-; reflexivity). done.
Defined.
