(* ===== verification/SynthTheorems.v ===== *)
(** * What the synthetic feed generator promises

    [generate] of itch/synth.cpp for every configuration, every sequence of random
    draws and every iteration order of its map; then its output through the file
    reader, the decoder and the order book. *)

From S2P Require Import Prelude StdModel HashMap IntrusiveList ObjectPool ByteOrder Messages Decode.
From S2P Require Import FileReader OrderBook BookSpec BookInvariant BookRefinement BookOps.
From S2P Require Import BookQueries Feed Synth SynthCodec SynthProofs.
Import Synth SynthCodec SynthProofs.

Local Open Scope Z_scope.

(** ** The promises *)

Section generator.
Context {R : Type} `{!Random R, !RandomRanges R} {M : Type} `{!UnorderedMap LiveOrder M, !UnorderedMapLaws LiveOrder M}.

(** C27. Self-consistency of the generated stream.  For any draws and any
    iteration order, [generate] is defined; what it has written, even before it
    finishes, is a sequence of framed records, each the exact wire form of a
    message that [decode] reads back; and a book with room for [num_orders] orders
    accepts every one of these messages: executions, cancellations, deletions and
    replacements name live orders with enough shares.  No reference is introduced
    twice, by additions, replacements or trades.  A finished stream starts and ends with the system events,
    announces the symbols in order and holds exactly [num_orders] additions.  And the
    generator ends when the draws are fair: if at most [patience] action draws in a
    row fall outside the additions, [num_orders * (patience + 1) + patience + 1]
    iterations of the main loop are enough. *)
Theorem generated_stream_is_self_consistent (config : SynthConfig) (fuel : nat) :
  0 <= price_spread config < 2 ^ 31 -> 0 <= num_orders config < 2 ^ 64 ->
  Z.of_nat fuel < 2 ^ 64 - 1 ->
  exists out finished raws first dirs rest l,
    generate (R := R) (M := M) config fuel = Some (out, finished) /\
    let msgs := first :: dirs ++ rest in
    out = concat (frame <$> raws) /\ Forall2 encodes raws msgs /\
    replay (num_orders config) [] msgs = Some l /\ NoDup (omap new_ref msgs) /\
    system_message "O"%byte first /\ Forall2 directory_message (symbols config) dirs /\
    (finished = true ->
       countZ is_add msgs = num_orders config /\ exists msg, last rest = Some msg /\ system_message "C"%byte msg) /\
    (forall F : FairRandom R,
       num_orders config * (Z.of_nat patience + 1) + Z.of_nat patience < Z.of_nat fuel -> finished = true).
Proof.
  intros Hs Hn Hf.
  destruct (generate_inv (R := R) (M := M) config (num_orders config) ltac:(lia) ltac:(lia) fuel Hs ltac:(lia))
    as (out & fin & first & dirs & ms & lst & l & Hg & (raws & Ho & He & Hr) & Hnew & Hfirst & Hdirs & _ & _ & Hfin).
  exists out, fin, raws, first, dirs, (ms ++ lst), l. split; [done|]. cbn zeta.
  split_and!; try done.
  - intros ->. destruct Hfin as (msg & -> & Hmsg & Hc). rewrite Z.max_r in Hc by lia. split; [done|].
    exists msg. by rewrite last_snoc.
  - intros F Hfuel. destruct (generate_finishes (R := R) (M := M) config fuel Hs Hn) as (out' & Hg'); [lia|].
    rewrite Hg in Hg'. by injection Hg'.
Qed.

(** C29. From the generator to the book: a generated file (below 2^63 bytes), read
    record by record, decoded and applied to a fresh book with room for
    [num_orders] orders, is consumed completely; no message is skipped or refused,
    and the book represents the orders that the accepted replay leaves. *)
Theorem generated_file_replays_into_book (config : SynthConfig) (fuel : nat) (out : list byte)
    (finished : bool) (r : ItchFileReader) (reference half_width : Z) :
  0 <= price_spread config < 2 ^ 31 -> 0 <= num_orders config <= 2 ^ 63 ->
  Z.of_nat fuel < 2 ^ 64 - 1 -> 0 <= reference < 2 ^ 32 -> 0 <= half_width < 2 ^ 62 ->
  generate (R := R) (M := M) config fuel = Some (out, finished) ->
  Z.of_nat (length out) < 2 ^ 63 -> open_reader (Opened out) = inr r ->
  exists raws l b0 b, read_all (S (length out)) r = Some raws /\
    replay (num_orders config) [] (decoded raws) = Some l /\ length (decoded raws) = length raws /\
    make reference half_width (num_orders config) = Some b0 /\ feed b0 raws = Some b /\ Rep b l.
Proof.
  intros Hs Hn Hf Hr Hh Hg Hsize Hopen.
  destruct (generate_inv (R := R) (M := M) config (num_orders config) ltac:(lia) ltac:(lia) fuel Hs ltac:(lia))
    as (out' & fin & first & dirs & ms & lst & l & Hg' & (raws & Ho & He & Hrep) & _).
  rewrite Hg in Hg'. simplify_eq. pose proof (decoded_encodes _ _ He) as Hdec.
  destruct (make_rep reference half_width (num_orders config) Hr Hh Hn) as (b0 & Hm & HR & _ & Hcap).
  destruct (feed_rep raws b0 [] HR) as (b & Hfeed & HRb & _).
  exists raws, l, b0, b. split_and!; [|by rewrite Hdec| |done|done|].
  - rewrite (open_read_all _ _ Hsize Hopen). f_equal.
    pose proof (frames_concat raws [] (encodes_short _ _ He) eq_refl) as Hfr. by rewrite app_nil_r in Hfr.
  - rewrite Hdec. symmetry. by eapply Forall2_length.
  - rewrite Hdec, Hcap in HRb. by rewrite (replay_spec _ _ _ _ Hrep) in HRb.
Qed.
End generator.

(** ** Concrete runs *)

Definition sample_config : SynthConfig :=
  MkConfig 42 2 [["A"; "B"]; ["C"]]%byte 1500000 50000.

(** Two additions with two follow-ups after the first. *)
Lemma generated_stream_is_self_consistent_witness :
  exists out raws first dirs rest l,
    generate (R := nat) (M := gmap Z LiveOrder) sample_config 9 = Some (out, true) /\
    let msgs := first :: dirs ++ rest in
    out = concat (frame <$> raws) /\ Forall2 encodes raws msgs /\
    replay 2 [] msgs = Some l /\ NoDup (omap new_ref msgs) /\
    system_message "O"%byte first /\ Forall2 directory_message (symbols sample_config) dirs /\
    countZ is_add msgs = 2 /\ exists msg, last rest = Some msg /\ system_message "C"%byte msg.
Proof.
  destruct (generated_stream_is_self_consistent (R := nat) (M := gmap Z LiveOrder) sample_config 9)
    as (out & finished & raws & first & dirs & rest & l & Hg & Ho & He & Hr & Hn & Hf & Hd & Hfin & Hfair);
    [cbn; lia..|].
  assert (finished = true) as -> by (apply (Hfair Cycle_fair); cbn; lia).
  destruct (Hfin eq_refl) as [Hc Hl]. exists out, raws, first, dirs, rest, l.
  exact (conj Hg (conj Ho (conj He (conj Hr (conj Hn (conj Hf (conj Hd (conj Hc Hl)))))))).
Defined.

Definition sample_output : list byte :=
  Eval vm_compute in
    match generate (R := nat) (M := gmap Z LiveOrder) sample_config 9 with
    | Some (out, _) => out
    | None => []
    end.

Lemma generated_file_replays_into_book_witness :
  exists r raws l b0 b, open_reader (Opened sample_output) = inr r /\
    read_all (S (length sample_output)) r = Some raws /\
    replay 2 [] (decoded raws) = Some l /\ length (decoded raws) = length raws /\
    make 1500000 10 2 = Some b0 /\ feed b0 raws = Some b /\ Rep b l.
Proof.
  eexists. destruct (generated_file_replays_into_book (R := nat) (M := gmap Z LiveOrder) sample_config 9
    sample_output true (MkReader (Some sample_output) (Z.of_nat (length sample_output)) 0) 1500000 10)
    as (raws & l & b0 & b & ?); [cbn; lia..|vm_compute; reflexivity|vm_compute; reflexivity|reflexivity|].
  exists raws, l, b0, b. split; [reflexivity|done].
Defined.

(** Follow-up messages do not carry the stock of the order they name: the
    locate code is that of the symbol drawn for the iteration.  Here an order is
    added under locate 1 and deleted under locate 2. *)
Theorem synth_locate_mismatch :
  exists out,
    @generate (list Z) (Tape [0; 0; 0; 0; 1; 1; 85; 0]) (gmap Z LiveOrder) _ sample_config 20 =
      Some (out, true) /\
    (fun msg => (type (header msg), stock_locate (header msg))) <$> decoded (frames out) =
      [(SystemEvent, 0); (StockDirectory, 1); (StockDirectory, 2); (AddOrder, 1); (OrderDelete, 2);
       (AddOrderMPID, 1); (SystemEvent, 0)].
Proof. eexists. split; [vm_compute; reflexivity|]. vm_compute. reflexivity. Qed.
