(* ===== verification/StreamTheorems.v ===== *)
(** * What the tests on generated streams establish

    The order book integration test, the pipeline test and the round-trip test of
    the generator (StreamTests.v, RoundtripTest.v), for every sequence of random draws
    and every iteration order of the unordered containers. *)

From S2P Require Import Prelude StdModel Messages FileReader Feed DifferentialTest Synth SynthProofs.
From S2P Require Import StreamTests RoundtripTest.
Import Synth SynthProofs.

Local Open Scope Z_scope.

Section tests.
Context {R : Type} `{!Random R, !RandomRanges R, !FairRandom R}.
Context {ML : Type} `{!UnorderedMap LiveOrder ML, !UnorderedMapLaws LiveOrder ML}.

(** A number of iterations after which [orders] additions have been generated, far
    below the 2^54 that keep every stream position within 64 bits. *)
Definition enough (orders : Z) (fuel : nat) : Prop :=
  orders * (Z.of_nat patience + 1) + Z.of_nat patience < Z.of_nat fuel < 2 ^ 54.

Lemma enough_finishes config fuel :
  price_spread config = 50000 -> 0 <= num_orders config < 2 ^ 64 -> enough (num_orders config) fuel ->
  exists bytes, generate (R := R) (M := ML) config fuel = Some (bytes, true).
Proof. intros Hs Hn [Hf1 Hf2]. apply generate_finishes; lia. Qed.

(** C26. The tests that build a book from a generated stream cannot fail.  Under fair
    draws the order book integration test passes: every message of the stream is
    applied, and in the end the book agrees with the test's own account of the live
    orders on the order count and on the shares at every price.  The pipeline test
    passes in every interleaving of the pipeline's two threads, and it can always be
    run to the end. *)
Theorem stream_tests_pass {M : Type} `{!UnorderedMap StreamTests.ExpectedOrder M,
    !UnorderedMapLaws StreamTests.ExpectedOrder M} (fuel : nat) :
  enough 500 fuel ->
  StreamTests.integration_test (M := M) (R := R) (ML := ML) fuel = Some DiffTest.Passed /\
  (exists r, StreamTests.pipeline_test (M := M) (R := R) (ML := ML) fuel r) /\
  (forall r, StreamTests.pipeline_test (M := M) (R := R) (ML := ML) fuel r -> r = Some DiffTest.Passed).
Proof.
  intros Hf. assert (Z.of_nat fuel < 2 ^ 54) as Hf2 by apply Hf.
  destruct (enough_finishes StreamTests.integration_config fuel) as [bytes1 Hg1]; [done|cbn; lia|done|].
  destruct (enough_finishes StreamTests.pipeline_config fuel) as [bytes2 Hg2]; [done|cbn; lia|done|].
  split; [by apply (StreamTests.integration_test_passes fuel bytes1)|].
  split; [by apply (StreamTests.pipeline_test_runs fuel bytes2)|]. intros r. by apply StreamTests.pipeline_test_passes.
Qed.

(** C30. The round-trip test of the generator.  Under fair draws it ends with a
    verdict, and none of its assertions about the stream can fail: every message
    decodes, every follow-up names a live order, no reference is used twice, there is
    one start and one end event and as many additions as configured, and the stream is
    consumed exactly.  The verdict depends only on whether the draws produced each of
    the five other message kinds at least once. *)
Theorem roundtrip_test_verdict {M : Type} `{!UnorderedMap unit M, !UnorderedMapLaws unit M} (fuel : nat) :
  enough 2000 fuel ->
  exists bytes raws v, generate (R := R) (M := ML) RoundtripTest.roundtrip_config fuel = Some (bytes, true) /\
    bytes = concat (frame <$> raws) /\
    RoundtripTest.roundtrip_test (M := M) (R := R) (ML := ML) fuel = Some v /\
    (v = DiffTest.Passed \/ v = DiffTest.Failed) /\
    (v = DiffTest.Passed <-> RoundtripTest.every_kind_occurs (decoded raws)).
Proof.
  intros Hf. assert (Z.of_nat fuel < 2 ^ 54) as Hf2 by apply Hf.
  destruct (enough_finishes RoundtripTest.roundtrip_config fuel) as [bytes Hg]; [done|cbn; lia|done|].
  destruct (RoundtripTest.roundtrip_test_value (M := M) fuel bytes Hf2 Hg) as (raws & msgs & Hb & Hd & Ht & Hk).
  exists bytes, raws, (StreamTests.verdict_of (RoundtripTest.every_kind (RoundtripTest.tally_of msgs))).
  rewrite Hd, <- Hk. split_and!; [done..| |]; destruct (RoundtripTest.every_kind _); cbn; auto; by split.
Qed.
End tests.

(** ** Concrete runs *)

Lemma stream_tests_pass_witness :
  StreamTests.integration_test (M := gmap Z StreamTests.ExpectedOrder) (R := nat) (ML := gmap Z LiveOrder)
    (Z.to_nat 1503) = Some DiffTest.Passed.
Proof. apply (stream_tests_pass (R := nat)). unfold enough. cbn [patience Cycle_fair]. lia. Defined.

(** Draws that add, execute and delete in turn. *)
Lemma roundtrip_test_verdict_witness :
  exists bytes raws v, generate (R := nat) (M := gmap Z LiveOrder) RoundtripTest.roundtrip_config (Z.to_nat 6003) =
      Some (bytes, true) /\
    bytes = concat (frame <$> raws) /\
    RoundtripTest.roundtrip_test (M := gmap Z unit) (R := nat) (ML := gmap Z LiveOrder) (Z.to_nat 6003) = Some v /\
    (v = DiffTest.Passed \/ v = DiffTest.Failed) /\
    (v = DiffTest.Passed <-> RoundtripTest.every_kind_occurs (decoded raws)).
Proof. apply (roundtrip_test_verdict (R := nat)). unfold enough. cbn [patience Cycle_fair]. lia. Defined.
