(* ===== verification/ContainerTheorems.v ===== *)
(** * What the containers promise

    Each container against its abstract model, over arbitrary sequences of
    operations: the hash map is a bounded finite map, the intrusive list a
    sequence of nodes, the pool hands out distinct live slots; and the stress tests of
    the map and of the ring. *)

From S2P Require Import Prelude StdModel HashMap IntrusiveList ObjectPool OrderBook.
From S2P Require Import SpscRing RingSystem RingStress MapStress.
From stdpp Require Import relations.

Local Open Scope Z_scope.

(** ** Hash map *)

Section hash_map.
Context {K V : Type} `{Countable K} `{!OAMap.HashKey K} `{!OAMap.DefaultInit V}.

Inductive map_op := MInsert (k : K) (v : V) | MFind (k : K) | MErase (k : K) | MSize.

(** What a caller sees of one operation. *)
Inductive map_out := OBool (b : bool) | OValue (v : option V) | OCount (n : Z).

Definition map_do (hm : OAMap.t K V) (o : map_op) : ub (OAMap.t K V * map_out) :=
  match o with
  | MInsert k v => '(hm, b) ← OAMap.insert hm k v; Some (hm, OBool b)
  | MErase k => '(hm, b) ← OAMap.erase hm k; Some (hm, OBool b)
  | MFind k =>
      p ← OAMap.find hm k;
      v ← (match p with None => Some None | Some i => v ← OAMap.deref hm i; Some (Some v) end);
      Some (hm, OValue v)
  | MSize => Some (hm, OCount (OAMap.size hm))
  end.

(** The bounded finite map the table stands for. *)
Definition model_do (cap : Z) (m : gmap K V) (o : map_op) : gmap K V * map_out :=
  match o with
  | MInsert k v =>
      if decide (m !! k = None /\ Z.of_nat (size m) < cap) then (<[k := v]> m, OBool true)
      else (m, OBool false)
  | MErase k => (delete k m, OBool (bool_decide (is_Some (m !! k))))
  | MFind k => (m, OValue (m !! k))
  | MSize => (m, OCount (Z.of_nat (size m)))
  end.

Fixpoint map_run (hm : OAMap.t K V) (ops : list map_op) : ub (list map_out) :=
  match ops with
  | [] => Some []
  | o :: ops => '(hm, out) ← map_do hm o; outs ← map_run hm ops; Some (out :: outs)
  end.

Fixpoint model_run (cap : Z) (m : gmap K V) (ops : list map_op) : list map_out :=
  match ops with
  | [] => []
  | o :: ops => let '(m, out) := model_do cap m o in out :: model_run cap m ops
  end.

Lemma map_do_refines hm o :
  OAMap.wf hm ->
  exists hm', map_do hm o = Some (hm', (model_do (OAMap.capacity hm) (OAMap.to_map hm) o).2) /\
    OAMap.wf hm' /\ OAMap.to_map hm' = (model_do (OAMap.capacity hm) (OAMap.to_map hm) o).1 /\
    OAMap.capacity hm' = OAMap.capacity hm.
Proof.
  intros Hwf. pose proof (OAMap.size_to_map _ Hwf) as Hsz. unfold OAMap.capacity, OAMap.size in *.
  destruct o as [k v|k|k|]; cbn [map_do model_do].
  - destruct (OAMap.to_map hm !! k) as [w|] eqn:Hk.
    { rewrite (OAMap.insert_present _ _ _ _ Hwf Hk). rewrite decide_False by naive_solver. by exists hm. }
    destruct (decide (OAMap.size_ hm = OAMap.capacity_ hm)) as [Hfull|Hroom].
    { rewrite (OAMap.insert_full _ _ _ Hwf Hk Hfull), decide_False by (intros []; lia). by exists hm. }
    assert (OAMap.size_ hm < OAMap.capacity_ hm) as Hlt.
    { pose proof (countZ_range OAMap.occupied (OAMap.slots_ hm)).
      rewrite <- (OAMap.wf_size _ Hwf), (OAMap.wf_len _ Hwf) in *. lia. }
    destruct (OAMap.insert_fresh hm k v Hwf Hk Hlt) as (hm' & -> & Hwf' & Hm' & _ & Hc).
    rewrite decide_True by (split; [done|lia]). by exists hm'.
  - pose proof (OAMap.find_deref hm k Hwf) as Hf.
    destruct (OAMap.find hm k) as [p|]; [|done]. cbn [mbind option_bind] in *.
    rewrite Hf. by exists hm.
  - destruct (OAMap.to_map hm !! k) as [w|] eqn:Hk.
    + destruct (OAMap.erase_present _ _ _ Hwf Hk) as (hm' & -> & Hwf' & Hm' & _ & Hc).
      rewrite bool_decide_true by done. by exists hm'.
    + rewrite (OAMap.erase_absent _ _ Hwf Hk). exists hm. cbn [fst snd].
      assert (bool_decide (is_Some (@None V)) = false) as -> by done. by rewrite delete_id.
  - exists hm. cbn. by rewrite Hsz.
Qed.

Lemma map_run_refines ops hm :
  OAMap.wf hm -> map_run hm ops = Some (model_run (OAMap.capacity hm) (OAMap.to_map hm) ops).
Proof.
  revert hm. induction ops as [|o ops IH]; intros hm Hwf; [done|]. cbn [map_run model_run].
  destruct (map_do_refines hm o Hwf) as (hm' & -> & Hwf' & Hm' & Hc). cbn [mbind option_bind].
  rewrite (IH hm' Hwf'), Hc, Hm'. by destruct (model_do _ _ o).
Qed.
End hash_map.
Arguments map_op : clear implicits.

(** C19. A fresh [OpenAddressingHashMap] with a capacity hint of at most 2^63 has
    at least that many slots, and every sequence of [insert], [find] (read
    through its pointer), [erase] and [size] is defined and answers exactly like a
    finite map that refuses duplicates and refuses to grow past the slot count:
    tombstones are never visible to the caller. *)
Theorem hash_map_refines_bounded_map {K V : Type} `{Countable K} `{!OAMap.HashKey K}
    `{!OAMap.DefaultInit V} (n : Z) (ops : list (map_op K V)) :
  0 <= n <= 2 ^ 63 ->
  exists hm, OAMap.make n = Some hm /\ n <= OAMap.capacity hm /\
    map_run hm ops = Some (model_run (OAMap.capacity hm) ∅ ops).
Proof.
  intros Hn. destruct (OAMap.make_map_wf (K := K) (V := V) n Hn) as (hm & Hm & Hwf & Hemp & Hcap & _).
  exists hm. split_and!; [done|done|]. rewrite <- Hemp. by apply map_run_refines.
Qed.

(** Capacity 2: the third insertion is refused, an erased slot is reused. *)
Lemma hash_map_refines_bounded_map_witness :
  exists hm : OAMap.t Z ptr, OAMap.make 2 = Some hm /\ 2 <= OAMap.capacity hm /\
    map_run hm [MInsert 7 (Some 1%nat); MInsert 8 (Some 2%nat); MInsert 9 (Some 3%nat); MErase 7;
                MInsert 9 (Some 3%nat); MFind 9; MFind 7; MSize] =
    Some (model_run (OAMap.capacity hm) ∅
      [MInsert 7 (Some 1%nat); MInsert 8 (Some 2%nat); MInsert 9 (Some 3%nat); MErase 7;
       MInsert 9 (Some 3%nat); MFind 9; MFind 7; MSize]).
Proof. apply hash_map_refines_bounded_map. lia. Defined.

(** ** Intrusive list *)

Section intrusive_list.
Context {H T : Type} `{NodeStore H T} `{!IntrusiveListNode T}.

Inductive list_op := LPushBack (node : nat) | LPushFront (node : nat) | LRemove (node : nat).

Definition list_do (h : H) (l : IList.t) (o : list_op) : ub (H * IList.t) :=
  match o with
  | LPushBack node => IList.push_back h l node
  | LPushFront node => IList.push_front h l node
  | LRemove node => IList.remove h l node
  end.

Definition seq_do (ids : list nat) (o : list_op) : list nat :=
  match o with
  | LPushBack node => ids ++ [node]
  | LPushFront node => node :: ids
  | LRemove node => filter (fun i => i <> node) ids
  end.

(** The caller's obligation: push nodes that are not linked, remove ones that are. *)
Definition list_op_ok (h : H) (ids : list nat) (o : list_op) : Prop :=
  match o with
  | LPushBack node | LPushFront node => is_Some (load h node) /\ node ∉ ids
  | LRemove node => node ∈ ids
  end.

Fixpoint list_run (h : H) (l : IList.t) (ops : list list_op) : ub (H * IList.t) :=
  match ops with
  | [] => Some (h, l)
  | o :: ops => '(h, l) ← list_do h l o; list_run h l ops
  end.

Fixpoint list_ops_ok (h : H) (ids : list nat) (ops : list list_op) : Prop :=
  match ops with
  | [] => True
  | o :: ops => list_op_ok h ids o /\ list_ops_ok h (seq_do ids o) ops
  end.

Lemma filter_remove_middle (l1 l2 : list nat) node :
  NoDup (l1 ++ node :: l2) -> filter (fun i => i <> node) (l1 ++ node :: l2) = l1 ++ l2.
Proof.
  intros (_ & Hd & [Hn _]%NoDup_cons)%NoDup_app. rewrite filter_app, filter_cons_False by tauto.
  rewrite !filter_all; [done| |]; intros x Hx ->; set_solver.
Qed.

Lemma list_do_refines h l ids o :
  IList.is_list h l ids -> list_op_ok h ids o ->
  exists h' l', list_do h l o = Some (h', l') /\ IList.is_list h' l' (seq_do ids o) /\
    (forall i, is_Some (load h i) -> is_Some (load h' i)).
Proof.
  intros Hl Ho.
  assert (forall h' k, IList.frame h h' k -> forall i, is_Some (load h i) -> is_Some (load h' i)) as Hfr.
  { intros h' k Hf i [n Hn]. destruct (IList.fr_links _ _ _ Hf _ _ Hn) as (n' & -> & _). by exists n'. }
  destruct o as [node|node|node]; cbn in *.
  - destruct Ho as [[n Hn] Hni].
    destruct (IList.push_back_spec _ _ _ _ _ Hl Hn Hni) as (h' & l' & ? & ? & Hf). exists h', l'. eauto.
  - destruct Ho as [[n Hn] Hni].
    destruct (IList.push_front_spec _ _ _ _ _ Hl Hn Hni) as (h' & l' & ? & ? & Hf). exists h', l'. eauto.
  - apply list_elem_of_split in Ho as (l1 & l2 & ->).
    destruct (IList.remove_spec _ _ _ _ _ Hl) as (h' & l' & ? & Hl' & Hf). exists h', l'.
    rewrite filter_remove_middle by apply Hl. eauto.
Qed.

Lemma list_ops_weaken h h' ids ops :
  (forall i, is_Some (load h i) -> is_Some (load h' i)) ->
  list_ops_ok h ids ops -> list_ops_ok h' ids ops.
Proof.
  intros Hs. revert ids. induction ops as [|o ops IH]; intros ids; [done|]. intros [Ho Hops].
  split; [|by apply IH]. destruct o; cbn in *; naive_solver.
Qed.

(** C20. Any sequence of [push_back], [push_front] and [remove] that links only
    unlinked nodes and unlinks only linked ones is defined, and afterwards a
    traversal from the head visits exactly the nodes the same operations on a
    plain sequence give, in order; [size], [empty], [front] and [back] agree. *)
Theorem intrusive_list_refines_sequence (ops : list list_op) (h : H) (l : IList.t) (ids : list nat) :
  IList.is_list h l ids -> list_ops_ok h ids ops ->
  let ids' := foldl seq_do ids ops in
  exists h' l', list_run h l ops = Some (h', l') /\
    IList.traverse (length ids') h' (IList.iter_begin l') = Some ids' /\
    IList.size l' = u64 (Z.of_nat (length ids')) /\
    IList.is_empty l' = bool_decide (ids' = []) /\
    IList.front l' = head ids' /\ IList.back l' = last ids'.
Proof.
  cbn zeta. revert h l ids. induction ops as [|o ops IH]; intros h l ids Hl Hok.
  - exists h, l. split; [done|]. cbn [foldl]. split; [by apply IList.traverse_spec|].
    destruct Hl as [Hhd Htl Hsz _ _]. unfold IList.size, IList.is_empty, IList.front, IList.back.
    rewrite Hhd, Htl. split_and!; [done|by destruct ids|by destruct ids|].
    induction ids as [|i ids IHi] using rev_ind; [done|]. by rewrite IList.last_or_app, last_snoc.
  - destruct Hok as [Ho Hops]. destruct (list_do_refines h l ids o Hl Ho) as (h1 & l1 & Hdo & Hl1 & Hs).
    cbn [list_run foldl]. rewrite Hdo. cbn [mbind option_bind].
    apply IH; [done|]. by eapply list_ops_weaken.
Qed.
End intrusive_list.

(** Three pooled nodes; the one in the middle is unlinked again. *)
Definition three_nodes : Pool.t Order :=
  foldl (fun p o => match Pool.acquire p o with Some (p', _) => p' | None => p end)
    (Pool.make 3) [default_order; default_order; default_order].

Lemma intrusive_list_refines_sequence_witness :
  exists (h' : Pool.t Order) (l' : IList.t),
    list_run three_nodes IList.empty_list [LPushBack 0; LPushBack 1; LPushFront 2; LRemove 0] =
      Some (h', l') /\
    IList.traverse 2 h' (IList.iter_begin l') = Some [2%nat; 1%nat] /\
    IList.size l' = 2 /\ IList.is_empty l' = false /\
    IList.front l' = Some 2%nat /\ IList.back l' = Some 1%nat.
Proof.
  apply (intrusive_list_refines_sequence [LPushBack 0; LPushBack 1; LPushFront 2; LRemove 0]
           three_nodes IList.empty_list []).
  - apply IList.is_list_empty.
  - cbn [list_ops_ok list_op_ok seq_do app]. split_and!; try (by eexists; vm_compute).
    + apply not_elem_of_nil.
    + by apply (bool_decide_unpack (1%nat ∉ [0%nat])).
    + by apply (bool_decide_unpack (2%nat ∉ [0%nat; 1%nat])).
    + by apply (bool_decide_unpack (0%nat ∈ [2%nat; 0%nat; 1%nat])).
Defined.

(** ** Object pool *)

Section pool.
Context {T : Type}.

(** The live objects of a pool, by slot. *)
Definition pool_rep (p : Pool.t T) (cap : Z) (live : gmap nat T) : Prop :=
  Pool.capacity p = cap /\ (forall i, load p i = live !! i) /\
  exists free, Pool.wf p free /\ Z.of_nat (size live) = cap - Z.of_nat (length free).

Lemma live_size_insert (live : gmap nat T) i v :
  live !! i = None -> size (<[i := v]> live) = S (size live).
Proof. intros. by rewrite map_size_insert_None. Qed.

Lemma pool_acquire_rep p cap live v :
  pool_rep p cap live ->
  if decide (Z.of_nat (size live) = cap) then Pool.acquire p v = Some (p, None)
  else exists p' i, Pool.acquire p v = Some (p', Some i) /\ live !! i = None /\
    pool_rep p' cap (<[i := v]> live).
Proof.
  intros (Hc & Hl & free & Hwf & Hs). destruct free as [|i free].
  { rewrite decide_True by (cbn in Hs; lia). by apply Pool.acquire_empty. }
  rewrite decide_False by (cbn in Hs; lia).
  destruct (Pool.acquire_free p v i free Hwf) as (p' & Ha & Hwf' & Hn & Hi & Hoth & Hc').
  exists p', i. split; [done|]. rewrite Hl in Hn. split; [done|]. split_and!.
  - unfold Pool.capacity in *. congruence.
  - intros j. destruct (decide (j = i)) as [->|Hne]; [by rewrite lookup_insert_eq|].
    by rewrite Hoth, lookup_insert_ne by done.
  - exists free. split; [done|]. rewrite live_size_insert by done. cbn in Hs. lia.
Qed.

Lemma pool_release_rep p cap live i v :
  pool_rep p cap live -> live !! i = Some v ->
  exists p', Pool.release p i = Some p' /\ pool_rep p' cap (delete i live) /\
    (forall w, exists p'', Pool.acquire p' w = Some (p'', Some i)).
Proof.
  intros (Hc & Hl & free & Hwf & Hs) Hi. rewrite <- Hl in Hi.
  destruct (Pool.release_spec p free i v Hwf Hi) as (p' & Hr & Hwf' & Hn & Hoth & Hc').
  exists p'. split; [done|]. split.
  - split_and!.
    + unfold Pool.capacity in *. congruence.
    + intros j. destruct (decide (j = i)) as [->|Hne]; [by rewrite lookup_delete_eq|].
      by rewrite Hoth, lookup_delete_ne by done.
    + exists (i :: free). split; [done|]. rewrite Hl in Hi.
      pose proof (map_size_delete_Some i live ltac:(by exists v)) as Hd.
      assert (size live <> 0%nat).
      { intros Hz%map_size_empty_inv. by rewrite Hz, lookup_empty in Hi. }
      rewrite Hd. cbn. lia.
  - intros w. destruct (Pool.acquire_free p' w i free Hwf') as (p'' & Ha & _). by exists p''.
Qed.

Lemma pool_make_rep cap : 0 <= cap < 2 ^ 64 -> pool_rep (Pool.make cap) cap ∅.
Proof.
  intros Hc. pose proof (Pool.make_pool_wf (T := T) cap Hc) as Hwf. split_and!; [done| |].
  - intros i. rewrite lookup_empty. apply eq_None_not_Some. intros [v Hv].
    apply Pool.load_live in Hv. assert (i ∈ seq 0 (Z.to_nat cap)) as Hi.
    { apply elem_of_seq. pose proof (Pool.wf_len _ _ Hwf) as Hlen. apply lookup_lt_Some in Hv.
      change (Pool.capacity_ (Pool.make (T := T) cap)) with cap in Hlen. lia. }
    apply (Pool.wf_free _ _ Hwf) in Hi as [n Hn]. congruence.
  - exists (seq 0 (Z.to_nat cap)). split; [done|]. rewrite length_seq, map_size_empty. lia.
Qed.

Inductive pool_op := PAcquire (v : T) | PRelease (slot : nat).

(** Runs until an operation misuses the pool (a release of a dead slot). *)
Fixpoint pool_run (p : Pool.t T) (live : gmap nat T) (ops : list pool_op)
    : ub (Pool.t T * gmap nat T * list ptr) :=
  match ops with
  | [] => Some (p, live, [])
  | PAcquire v :: ops =>
      '(p, i) ← Pool.acquire p v;
      let live := match i with Some i => <[i := v]> live | None => live end in
      '(p, live, outs) ← pool_run p live ops;
      Some (p, live, i :: outs)
  | PRelease i :: ops =>
      if decide (is_Some (live !! i)) then
        p ← Pool.release p i;
        pool_run p (delete i live) ops
      else Some (p, live, [])
  end.

Lemma pool_run_rep ops p cap live :
  pool_rep p cap live ->
  exists p' live' outs, pool_run p live ops = Some (p', live', outs) /\ pool_rep p' cap live'.
Proof.
  revert p live. induction ops as [|[v|i] ops IH]; intros p live Hp; cbn [pool_run].
  - by exists p, live, [].
  - pose proof (pool_acquire_rep p cap live v Hp) as Ha. destruct (decide _) in Ha.
    + rewrite Ha. cbn [mbind option_bind]. destruct (IH _ _ Hp) as (p' & live' & outs & -> & Hp').
      cbn. by eexists _, _, _.
    + destruct Ha as (p1 & i & -> & _ & Hp1). cbn [mbind option_bind].
      destruct (IH _ _ Hp1) as (p' & live' & outs & -> & Hp'). cbn. by eexists _, _, _.
  - destruct (decide (is_Some (live !! i))) as [[v Hv]|]; [|by exists p, live, []].
    destruct (pool_release_rep p cap live i v Hp Hv) as (p1 & -> & Hp1 & _). cbn [mbind option_bind].
    by apply IH.
Qed.
End pool.

(** C21. Starting from a fresh pool of capacity [cap], after any sequence of
    acquisitions and releases of live objects: no operation is undefined, every
    live slot still holds its object, [acquire] returns null exactly when [cap]
    objects are live and otherwise a slot that was not live, and a released slot
    is the next one handed out. *)
Theorem pool_keeps_live_objects {T : Type} (cap : Z) (ops : list (@pool_op T)) :
  0 <= cap < 2 ^ 64 ->
  exists p live outs, pool_run (Pool.make cap) ∅ ops = Some (p, live, outs) /\
    (forall i, load p i = live !! i) /\
    (forall v, if decide (Z.of_nat (size live) = cap) then Pool.acquire p v = Some (p, None)
               else exists p' i, Pool.acquire p v = Some (p', Some i) /\ live !! i = None /\
                 (forall j, load p' j = <[i := v]> live !! j)) /\
    (forall i v w, live !! i = Some v ->
       exists p' p'', Pool.release p i = Some p' /\ load p' i = None /\
         Pool.acquire p' w = Some (p'', Some i)).
Proof.
  intros Hc. destruct (pool_run_rep ops _ cap ∅ (pool_make_rep (T := T) cap Hc)) as
    (p & live & outs & Hr & Hp).
  exists p, live, outs. split; [done|]. split; [apply Hp|]. split.
  - intros v. pose proof (pool_acquire_rep p cap live v Hp) as Ha. destruct (decide _); [done|].
    destruct Ha as (p' & i & ? & ? & _ & Hl & _). by exists p', i.
  - intros i v w Hv. destruct (pool_release_rep p cap live i v Hp Hv) as (p' & Hrel & (_ & Hl & _) & Hacq).
    destruct (Hacq w) as [p'' Ha]. exists p', p''. rewrite Hl, lookup_delete_eq. done.
Qed.

Lemma pool_keeps_live_objects_witness :
  exists (p : Pool.t nat) live outs,
    pool_run (Pool.make 2) ∅ [PAcquire 5%nat; PAcquire 6%nat; PRelease 0; PAcquire 7%nat] =
      Some (p, live, outs) /\ (forall i, load p i = live !! i).
Proof.
  destruct (pool_keeps_live_objects 2 [PAcquire 5%nat; PAcquire 6%nat; PRelease 0; PAcquire 7%nat])
    as (p & live & outs & Hr & Hl & _); [lia|]. by exists p, live, outs.
Defined.

(** ** The stress tests *)

(** C34. The two stress tests of the containers pass.  The hash map test, for any
    random source that yields 2000 different keys among its first [n] draws, any
    iteration order of the standard containers and any shuffle: its first loop ends
    and no assertion fails.  The ring test, for every interleaving of its two threads
    and every legal stale load: no step is undefined, every reachable state can be run
    to the end, every fair execution does end, and at the end the consumer holds
    exactly the 200000 items, in order. *)
Theorem container_stress_tests_pass {R : Type} `{!Random R, !Shuffle R, !ShuffleLaws R}
    {M : Type} `{!UnorderedMap Z M, !UnorderedMapLaws Z M}
    {S : Type} `{!UnorderedMap unit S, !UnorderedMapLaws unit S} (fuel n : nat)
    (run : nat -> RingStress.state) (who : nat -> bool) (load : nat -> nat) :
  MapStress.kNumKeys <= Z.of_nat (size (list_to_set (MapStress.draws n (seeded 2024)) : gset Z)) ->
  (n <= fuel)%nat ->
  RingStress.initial RingStress.kCapacity = Some (run 0%nat) ->
  RingStress.fair_run RingStress.kItemCount run who load ->
  MapStress.stress (R := R) (M := M) (S := S) fuel = Some (Some true) /\
  (forall s, rtc (RingStress.step RingStress.kItemCount) (run 0%nat) s ->
     (forall c, RingStress.prod_may s c -> is_Some (RingStress.prod_step RingStress.kItemCount c s)) /\
     (forall c, RingStress.cons_may s c -> is_Some (RingStress.cons_step RingStress.kItemCount c s)) /\
     (exists s', rtc (RingStress.step RingStress.kItemCount) s s' /\ RingStress.joined RingStress.kItemCount s') /\
     (RingStress.joined RingStress.kItemCount s -> RingStress.verdict RingStress.kItemCount s = true)) /\
  exists k, RingStress.joined RingStress.kItemCount (run k) /\
    RingStress.received (run k) = seqZ 0 RingStress.kItemCount.
Proof.
  intros Hd Hn H0 Hfair. assert (0 <= RingStress.kItemCount < 2 ^ 64) as Hc by (unfold RingStress.kItemCount; lia).
  destruct (RingStress.stress_initial_inv _ Hc RingStress.kCapacity) as (s0 & Hs0 & Hv); [unfold RingStress.kCapacity; lia|].
  rewrite H0 in Hs0. injection Hs0 as <-. split; [by eapply MapStress.map_stress_passes|]. split.
  - intros s Hr. pose proof (RingStress.stress_reachable_inv _ Hc _ _ Hr Hv) as Hvs. split_and!.
    + intros c Hm. by destruct (RingStress.prod_step_spec _ Hc s c Hvs Hm) as (s' & -> & _).
    + intros c Hm. by destruct (RingStress.cons_step_spec _ s c Hvs Hm) as (s' & -> & _).
    + by apply (RingStress.stress_can_finish _ Hc).
    + intros Hj. by apply RingStress.joined_verdict.
  - destruct (RingStress.stress_fair_run_ends _ Hc run who load Hfair Hv) as [k Hk]. exists k. split; [done|].
    by apply RingStress.joined_verdict; [apply (RingStress.stress_run_inv _ Hc run who load)|].
Qed.

(** Keys 0, 1, 2, ..., reversed by the shuffle; threads that take turns. *)
#[local] Instance reversing : Shuffle (list Z) := {| shuffle l _ := rev l |}.

#[local] Instance reversing_laws : ShuffleLaws (list Z).
Proof. split. intros l r. symmetry. apply Permutation_rev. Qed.

Lemma container_stress_tests_pass_witness :
  MapStress.stress (R := list Z) (Random0 := Tape (seqZ 0 2000)) (M := gmap Z Z) (S := gmap Z unit) 2000 =
    Some (Some true) /\
  exists s0 k, RingStress.initial RingStress.kCapacity = Some s0 /\
    Z.of_nat (length (RingStress.received (RingStress.alternating RingStress.kItemCount s0 k))) = 200000.
Proof.
  assert (0 <= RingStress.kItemCount < 2 ^ 64) as Hc by (unfold RingStress.kItemCount; lia).
  destruct (RingStress.stress_initial_inv _ Hc RingStress.kCapacity) as (s0 & Hs0 & Hv); [unfold RingStress.kCapacity; lia|].
  destruct (container_stress_tests_pass (R := list Z) (Random0 := Tape (seqZ 0 2000)) (M := gmap Z Z) (S := gmap Z unit)
    2000 2000 _ _ _ ltac:(apply Z.leb_le; vm_compute; reflexivity) ltac:(done) Hs0
    (RingStress.stress_alternating_fair _ Hc s0 Hv)) as (Hm & _ & k & _ & Hk).
  split; [exact Hm|]. exists s0, k. split; [exact Hs0|].
  refine (eq_trans (f_equal (fun l => Z.of_nat (length l)) Hk) _). rewrite length_seqZ. unfold RingStress.kItemCount. lia.
Defined.
