(* ===== verification/ConcurrencyTheorems.v ===== *)
(** * The ring and the pipeline, for every interleaving

    The theorems about two clients of the ring (RingSystem.v) and about the pipeline
    quantify over every interleaving and every legal stale load. *)

From S2P Require Import Prelude HashMap IntrusiveList ObjectPool ByteOrder Messages Decode.
From S2P Require Import FileReader OrderBook BookSpec BookInvariant BookBest BookRefinement.
From S2P Require Import BookOps BookQueries Feed SpscRing Handoff HandoffProofs Fairness.
From S2P Require Import Pipeline PipelineProofs RingSystem.
From stdpp Require Import relations.

Local Open Scope Z_scope.

(** C6. Two threads drive a [SpscRingBuffer] in any interleaving, the acquire
    loads returning any value coherence allows.  Every access is defined: no slot
    access races with the other thread's.  The values received are a prefix of the
    values sent (first in, first out, none lost, duplicated or torn), and at most
    [capacity] values are in flight. *)
Theorem ring_is_race_free_fifo {T : Type} (default : T) (n : Z) (s0 s : RingSystem.state) :
  RingSystem.start default n = Some s0 -> 0 <= n <= 2 ^ 63 -> rtc RingSystem.step s0 s ->
  RingSystem.safe s /\
  RingSystem.received s = take (length (RingSystem.received s)) (RingSystem.sent s) /\
  Z.of_nat (length (RingSystem.sent s)) - Z.of_nat (length (RingSystem.received s)) <=
    Ring.capacity (RingSystem.ring s).
Proof.
  intros Hst Hn Hr. destruct (RingSystem.start_inv default n Hn) as (s1 & Hs1 & Hi & _).
  rewrite Hst in Hs1. simplify_eq.
  pose proof (RingSystem.system_reachable _ _ Hr Hi) as Hinv. split; [by apply RingSystem.system_safe|].
  destruct Hinv as [Hring Hre]. pose proof (Ring.i_cview _ _ _ _ Hring). pose proof (Ring.i_pview _ _ _ _ Hring).
  pose proof (Ring.i_full _ _ _ _ Hring). unfold Ring.capacity.
  rewrite Hre, length_take, Nat.min_l by lia. split; [done|lia].
Qed.

(** Capacity 1: a push of 7 that the consumer has not seen yet. *)
Lemma ring_is_race_free_fifo_witness :
  exists s0 s, RingSystem.start 0 1 = Some s0 /\ rtc RingSystem.step s0 s /\
    RingSystem.sent s = [7] /\ RingSystem.safe s.
Proof.
  eexists _, (RingSystem.MkState (Ring.MkRing 1 0 [Ring.MkSlot 7 1 0] [0; 1] [0] 0 0) Ring.PIdle Ring.CIdle
    [7] []). split; [vm_compute; reflexivity|].
  assert (rtc RingSystem.step
    (RingSystem.MkState (Ring.MkRing 1 0 [Ring.MkSlot 0 0 0] [0] [0] 0 0) Ring.PIdle Ring.CIdle [] [])
    (RingSystem.MkState (Ring.MkRing 1 0 [Ring.MkSlot 7 1 0] [0; 1] [0] 0 0) Ring.PIdle Ring.CIdle [7] []))
    as Hr.
  { eapply rtc_l; [by eapply (RingSystem.push_started _ _ _ _ _ 0 7); [cbn; lia|vm_compute]|].
    eapply rtc_l; [by eapply RingSystem.push_copied; vm_compute|].
    eapply rtc_l; [eapply RingSystem.push_published|]. apply rtc_refl. }
  split; [exact Hr|]. split; [done|].
  by apply (ring_is_race_free_fifo 0 1 _ _ ltac:(vm_compute; reflexivity) ltac:(lia) Hr).
Defined.

(** ** The pipeline *)

(** C4. Whenever both threads of [run_itch_pipeline] have finished, for whatever
    bytes, ring size and interleaving: the book is the one obtained by applying
    every decodable message of the stream in order, the reported count is the
    number of those messages, and the book represents the specified list of
    resting orders. *)
Theorem pipeline_equals_sequential_replay (raw : list byte) (b0 : OrderBook) (l0 : list Rest) (n : Z)
    (s0 s : Pipeline.state) :
  Rep b0 l0 -> Z.of_nat (length raw) < 2 ^ 63 -> 0 <= n <= 2 ^ 63 ->
  Pipeline.initial b0 n = Some s0 -> rtc (Pipeline.step raw) s0 s -> Pipeline.joined s ->
  Pipeline.apply_all b0 (Pipeline.stream raw) = Some (Pipeline.book s) /\
  Pipeline.messages_processed s = u64 (Z.of_nat (length (Pipeline.stream raw))) /\
  Rep (Pipeline.book s) (foldl (spec_apply (book_capacity b0)) l0 (Pipeline.stream raw)).
Proof.
  intros HR Hraw Hn Hs0 Hr Hj.
  destruct (PipelineProofs.pipeline_initial_inv raw b0 Hraw n Hn) as (s1 & Hs1 & Hv). rewrite Hs0 in Hs1. simplify_eq.
  destruct (PipelineProofs.pipeline_reachable_inv raw b0 l0 Hraw HR s1 s) as [sent Hv']; [by exists []|done|].
  destruct (PipelineProofs.pipeline_joined_result raw b0 Hraw s sent Hv' Hj) as (Ha & Hc).
  split_and!; [done|done|].
  destruct (Pipeline.apply_all_rep (Pipeline.stream raw) b0 l0 HR (Pipeline.decoded_ok _)) as (b & Hb & HRb & _).
  rewrite Ha in Hb. by simplify_eq.
Qed.

(** An Add Order message ('B', 100 shares at 101, reference 42), framed. *)
Definition sample_add : list byte :=
  "A"%byte :: be_bytes 2 1 ++ be_bytes 2 1 ++ be_bytes 6 1000 ++ be_bytes 8 42 ++
  "B"%byte :: be_bytes 4 100 ++ replicate 8 " "%byte ++ be_bytes 4 101.

(** A run of the pipeline on one framed message, over a ring of one slot. *)
Lemma pipeline_equals_sequential_replay_witness :
  exists b0 s0 s, make 100 2 4 = Some b0 /\ Pipeline.initial b0 1 = Some s0 /\
    rtc (Pipeline.step (frame sample_add)) s0 s /\ Pipeline.joined s /\
    Pipeline.messages_processed s = 1 /\
    Rep (Pipeline.book s) [MkRest 42 101 100 true 0].
Proof.
  destruct (make_rep 100 2 4) as (b0 & Hm & HR & _ & Hcap); [lia..|].
  destruct (PipelineProofs.pipeline_initial_inv (frame sample_add) b0 ltac:(vm_compute; reflexivity) 1) as (s0 & Hs0 & Hv); [lia|].
  destruct (PipelineProofs.pipeline_can_finish (frame sample_add) b0 [] ltac:(vm_compute; reflexivity) HR s0 [] Hv)
    as (s & Hr & Hj).
  destruct (pipeline_equals_sequential_replay (frame sample_add) b0 [] 1 s0 s HR
    ltac:(vm_compute; reflexivity) ltac:(lia) Hs0 Hr Hj) as (_ & Hc & HRb).
  exists b0, s0, s. rewrite Hcap in HRb. split_and!; try done.
Defined.

(** C5. In no reachable state of the pipeline does either thread have an
    undefined next step (no data race, no out-of-bounds access, no inactive union
    member), and from every reachable state some schedule runs both threads to
    completion: there is no deadlock and no message can get stuck.  Moreover, in every
    infinite execution in which both threads keep taking steps and every store
    eventually becomes visible to the other thread, both threads do finish, with every
    message of the stream applied and counted. *)
Theorem pipeline_safe_and_completes (raw : list byte) (b0 : OrderBook) (l0 : list Rest) (n : Z)
    (s0 : Pipeline.state) :
  Rep b0 l0 -> Z.of_nat (length raw) < 2 ^ 63 -> 0 <= n <= 2 ^ 63 ->
  Pipeline.initial b0 n = Some s0 ->
  (forall s, rtc (Pipeline.step raw) s0 s ->
     (forall c, Handoff.prod_may s c -> is_Some (Pipeline.prod_step raw c s)) /\
     (forall c seen, Handoff.cons_may s c -> is_Some (Pipeline.cons_step raw c seen s)) /\
     (exists s', rtc (Pipeline.step raw) s s' /\ Pipeline.joined s')) /\
  (forall run who load seen, run 0%nat = s0 -> Pipeline.fair_run raw run who load seen ->
     exists k, Pipeline.joined (run k) /\
       Pipeline.apply_all b0 (Pipeline.stream raw) = Some (Pipeline.book (run k)) /\
       Pipeline.messages_processed (run k) = u64 (Z.of_nat (length (Pipeline.stream raw)))).
Proof.
  intros HR Hraw Hn Hs0.
  destruct (PipelineProofs.pipeline_initial_inv raw b0 Hraw n Hn) as (s1 & Hs1 & Hv). rewrite Hs0 in Hs1. simplify_eq.
  split.
  - intros s Hr.
    destruct (PipelineProofs.pipeline_reachable_inv raw b0 l0 Hraw HR s1 s) as [sent Hv']; [by exists []|done|].
    split_and!.
    + intros c Hc. by eapply PipelineProofs.prod_step_defined.
    + intros c seen Hc. by eapply PipelineProofs.cons_step_defined.
    + by eapply PipelineProofs.pipeline_can_finish.
  - intros run who load seen <- Hfair.
    destruct (PipelineProofs.pipeline_fair_run_ends raw b0 l0 Hraw HR run who load seen Hfair) as (k & sent & Hj & Hvk);
      [by exists []|].
    exists k. split; [done|]. by apply (PipelineProofs.pipeline_joined_result raw b0 Hraw _ sent Hvk Hj).
Qed.

(** One framed message, over a ring of one slot: some schedule ends, and the
    alternating run does. *)
Lemma pipeline_safe_and_completes_witness :
  exists b0 s0, make 100 2 4 = Some b0 /\ Pipeline.initial b0 1 = Some s0 /\
    (exists s, rtc (Pipeline.step (frame sample_add)) s0 s /\ Pipeline.joined s) /\
    exists run k, run 0%nat = s0 /\ Pipeline.joined (run k) /\ Pipeline.messages_processed (run k) = 1.
Proof.
  destruct (make_rep 100 2 4) as (b0 & Hm & HR & _ & _); [lia..|].
  destruct (PipelineProofs.pipeline_initial_inv (frame sample_add) b0 ltac:(vm_compute; reflexivity) 1) as (s0 & Hs0 & Hv); [lia|].
  destruct (pipeline_safe_and_completes (frame sample_add) b0 [] 1 s0 HR
    ltac:(vm_compute; reflexivity) ltac:(lia) Hs0) as [Hsafe Hfair].
  pose proof (PipelineProofs.pipeline_alternating_fair (frame sample_add) b0 [] ltac:(vm_compute; reflexivity) HR s0
    (ex_intro _ [] Hv)) as Halt.
  exists b0, s0. split_and!; [done|done|by apply Hsafe|].
  destruct (Hfair _ _ _ _ eq_refl Halt) as (k & Hj & _ & Hc).
  exists (@Fairness.alternating _ _ _ (Pipeline.workload (frame sample_add)) s0), k. by split_and!.
Defined.
