(* ===== verification/LatencyHistogram.v ===== *)
(** * bench/latency_histogram.hpp: latency percentiles

    [LatencyHistogram] keeps raw samples; [compute] sorts a copy and picks the
    percentiles at indices computed in double arithmetic (Float64.v).  The lemmas
    show that rounding never moves such an index off the exact rank. *)

From S2P Require Import Prelude Float64.
From Stdlib Require Import Floats.SpecFloat.

Local Open Scope Z_scope.

Module Histogram.
Record t : Type := MkHistogram { samples_ : list Z }.

(** [reserve] only allocates. *)
Definition make (capacity_hint : Z) : t := MkHistogram [].

Definition record (h : t) (nanoseconds : Z) : t := MkHistogram (samples_ h ++ [nanoseconds]).

Record Percentiles : Type := MkPercentiles {
  p50 : Z; p90 : Z; p99 : Z; p999 : Z; max : Z; mean : double; sample_count : Z
}.

Definition no_percentiles : Percentiles := MkPercentiles 0 0 0 0 0 (S754_zero false) 0.

(** [sorted[index]] outside the vector is undefined. *)
Definition percentile_at (sorted : list Z) (p : double) : ub Z :=
  index ← to_size (mul p (of_int (Z.of_nat (length sorted) -u64 1)));
  sorted !! Z.to_nat index.

(** [std::accumulate] with a [double] accumulator. *)
Definition accumulate (sorted : list Z) : double :=
  foldl (fun sum x => add sum (of_int x)) (S754_zero false) sorted.

(** [std::sort] orders the copy; the sorted rearrangement of integers is unique. *)
Definition compute (h : t) : ub Percentiles :=
  let count := Z.of_nat (length (samples_ h)) in
  match samples_ h with
  | [] => Some no_percentiles
  | _ =>
      let sorted := merge_sort Z.le (samples_ h) in
      v50 ← percentile_at sorted (literal 1 2);
      v90 ← percentile_at sorted (literal 9 10);
      v99 ← percentile_at sorted (literal 99 100);
      v999 ← percentile_at sorted (literal 999 1000);
      back ← last sorted;
      Some (MkPercentiles v50 v90 v99 v999 back (div (accumulate sorted) (of_int count)) count)
  end.

(** Recording a list of samples in order. *)
Definition record_all (h : t) (samples : list Z) : t := foldl record h samples.

Lemma record_all_samples h samples : samples_ (record_all h samples) = samples_ h ++ samples.
Proof.
  revert h. induction samples as [|x samples IH]; intros h; cbn; [by rewrite app_nil_r|].
  unfold record_all in IH. rewrite IH. cbn. by rewrite <- app_assoc.
Qed.

(** ** The index of a percentile is its exact rank *)

Section rank.
Context (num den : Z) (mp : positive) (c : Z).
Hypothesis Hden : 0 < den <= 1000.
Hypothesis Hnum : 0 < num < den.
Hypothesis Hmp : 2 ^ 52 <= Zpos mp < 2 ^ 53.
(** [mp / 2^53] misses [num / den] by [c / (den * 2^53)]. *)
Hypothesis Hc : den * Zpos mp = num * 2 ^ 53 + c.
Hypothesis Hsmall : 5 * Z.abs c <= den.

(** The rounded product is within [0.9] of the unit [K] of the exact rank. *)
Lemma rank_error (y K v : Z) :
  0 <= y -> Zpos mp * y < 2 * K * 2 ^ 52 -> 2 * Z.abs (v - Zpos mp * y) <= K ->
  exists eta, den * v = num * (2 ^ 53 * y) + eta /\ 10 * Z.abs eta <= 9 * (den * K).
Proof using All.
  intros Hy Hlt Hnear. exists (c * y + den * (v - Zpos mp * y)). split.
  - transitivity (den * Zpos mp * y + den * (v - Zpos mp * y)); [ring|]. rewrite Hc. ring.
  - assert (y <= 2 * K) as HyK.
    { apply Z.mul_le_mono_pos_l with (2 ^ 52); [done|]. etransitivity; [apply Z.mul_le_mono_nonneg_r; [done|apply Hmp]|].
      lia. }
    assert (5 * Z.abs (c * y) <= den * (2 * K)) as H1.
    { rewrite Z.abs_mul, Z.mul_assoc, (Z.abs_eq y) by done. apply Z.mul_le_mono_nonneg; lia. }
    assert (2 * Z.abs (den * (v - Zpos mp * y)) <= den * K) as H2.
    { rewrite Z.abs_mul, (Z.abs_eq den), Z.mul_shuffle3 by lia. apply Z.mul_le_mono_nonneg_l; lia. }
    lia.
Qed.

(** The rank survives the rounding: [v] is the product in units of [1 / W]. *)
Lemma rounded_rank (x Y K W' j : Z) :
  0 <= x -> 0 < K -> 0 < W' -> 1000 <= W' -> 2 ^ 53 * Y = W' * K -> 0 <= Y ->
  Zpos mp * (x * Y) < 2 * K * 2 ^ 52 -> 2 * Z.abs (j * K - Zpos mp * (x * Y)) <= K ->
  (j * K) / (W' * K) = num * x / den.
Proof using All.
  intros Hx HK HW' HW HY HY0 Hlt Hnear.
  destruct (rank_error (x * Y) K (j * K) ltac:(lia) Hlt Hnear) as (eta & Heq & Heta).
  rewrite Z.div_mul_cancel_r by lia.
  pose proof (Z.div_mod (num * x) den ltac:(lia)) as Hq.
  pose proof (Z.mod_pos_bound (num * x) den ltac:(lia)) as Ht.
  set (q := num * x / den) in *. set (t := num * x mod den) in *.
  assert (den * j * K = (den * q + t) * W' * K + eta) as Hj.
  { rewrite <- Hq, <- Z.mul_assoc, Heq. f_equal.
    rewrite (Z.mul_shuffle3 _ x Y), HY. ring. }
  assert (exists u, eta = u * K /\ 10 * Z.abs u <= 9 * den) as (u & -> & Hu).
  { exists (den * j - (den * q + t) * W'). assert (eta = (den * j - (den * q + t) * W') * K) as He by lia.
    split; [done|]. apply Z.mul_le_mono_pos_r with K; [done|].
    rewrite He, Z.abs_mul, (Z.abs_eq K) in Heta by lia. lia. }
  assert (den * j = den * (q * W') + t * W' + u) as Hj'.
  { apply Z.mul_reg_r with K; lia. }
  destruct (decide (t = 0)) as [H0|H0].
  - rewrite H0 in Hj'. assert (u = den * (j - q * W')) as Hu' by lia.
    rewrite Hu', Z.abs_mul, (Z.abs_eq den) in Hu by lia.
    assert (Z.abs (j - q * W') < 1) by (apply Z.mul_lt_mono_pos_l with den; lia).
    replace j with (q * W') by lia. apply Z.div_mul. lia.
  - assert (1 * W' <= t * W' <= (den - 1) * W') as HtW by (split; apply Z.mul_le_mono_nonneg_r; lia).
    symmetry. apply Z.div_unique_pos with (j - q * W'); [|lia].
    split; [apply Z.mul_le_mono_pos_l with den|apply Z.mul_lt_mono_pos_l with den]; lia.
Qed.

(** [static_cast<std::size_t>(p * static_cast<double>(x))] is the exact rank. *)
Lemma index_exact (x : Z) :
  0 <= x < 2 ^ 41 ->
  to_size (mul (S754_finite false mp (-53)) (of_int x)) = Some (num * x / den).
Proof using All.
  intros Hx. destruct (decide (x = 0)) as [->|Hx0]; [by rewrite Z.mul_0_r|].
  destruct (of_int_exact x ltac:(lia)) as [[? _]|(_ & m & -> & Hm)]; [lia|]. set (L := Z.log2 x) in *.
  assert (0 <= L <= 40) as HL.
  { split; [apply Z.log2_nonneg|]. pose proof (Z.log2_lt_pow2 x 41 ltac:(lia)). lia. }
  pose proof (Z.log2_spec x ltac:(lia)) as Hspec. fold L in Hspec.
  assert (Z.log2 (Zpos m) = 52) as Hlm by (rewrite Hm, Z.log2_mul_pow2 by lia; lia).
  assert (Z.log2 (Zpos mp) = 52) as Hlp by (apply Z.log2_unique; [done|exact Hmp]).
  pose proof (Z.log2_mul_below (Zpos mp) (Zpos m) ltac:(lia) ltac:(lia)).
  pose proof (Z.log2_mul_above (Zpos mp) (Zpos m) ltac:(lia) ltac:(lia)).
  rewrite <- Pos2Z.inj_mul in *.
  remember (Z.log2 (Zpos (mp * m)) - 52) as k eqn:Hk.
  destruct (round_aux_nearest false (mp * m) (-53 + (L - 52)) k) as (m' & e' & Hr & He & Hn);
    [lia..|].
  unfold mul. cbn [SFmul xorb]. rewrite Hr. cbn [to_size].
  rewrite (proj2 (Z.leb_gt 0 e')) by lia.
  set (E := -53 + (L - 52)) in *.
  assert (Zpos m' / 2 ^ (- e') = num * x / den) as ->.
  { rewrite <- (Z.div_mul_cancel_r _ _ (2 ^ (e' - E))) by lia. rewrite <- Z.pow_add_r by lia.
    replace (- e' + (e' - E)) with ((105 - L - k) + k) by lia. replace (e' - E) with ((e' - E - k) + k) by lia.
    rewrite !Z.pow_add_r, Z.mul_assoc by lia.
    apply (rounded_rank x (2 ^ (52 - L))); [lia|apply Z.pow_pos_nonneg; lia|apply Z.pow_pos_nonneg; lia|..].
    - change 1000 with (Z.min 1000 (2 ^ 12)). etransitivity; [apply Z.le_min_r|]. apply Z.pow_le_mono_r; lia.
    - rewrite <- !Z.pow_add_r by lia. f_equal. lia.
    - apply Z.pow_nonneg. lia.
    - rewrite <- Hm, <- Pos2Z.inj_mul. pose proof (Z.log2_spec (Zpos (mp * m)) ltac:(lia)) as [_ Hup].
      replace (Z.succ (Z.log2 (Zpos (mp * m)))) with (1 + k + 52) in Hup by lia.
      by rewrite !Z.pow_add_r in Hup by lia.
    - rewrite <- Z.mul_assoc, <- Z.pow_add_r by lia. replace (e' - E - k + k) with (e' - E) by lia.
      by rewrite <- Hm, <- Pos2Z.inj_mul. }
  assert (0 <= num * x / den < 2 ^ 64) as [H1 H2].
  { split; [apply Z.div_pos; lia|]. apply Z.div_lt_upper_bound; [lia|].
    apply Z.le_lt_trans with (den * x); [apply Z.mul_le_mono_nonneg_r; lia|apply Z.mul_lt_mono_pos_l; lia]. }
  by rewrite (proj2 (Z.leb_le _ _) H1), (proj2 (Z.ltb_lt _ _) H2).
Qed.
End rank.

(** The four literals of [compute], as doubles. *)
Lemma percentile_at_spec (sorted : list Z) (num den : Z) :
  (num, den) ∈ [(1, 2); (9, 10); (99, 100); (999, 1000)] -> 1 <= Z.of_nat (length sorted) <= 2 ^ 41 ->
  percentile_at sorted (literal num den) = sorted !! Z.to_nat (num * (Z.of_nat (length sorted) - 1) / den).
Proof.
  intros Hin Hlen. unfold percentile_at. rewrite u64_small by lia.
  assert (exists mp c, literal num den = S754_finite false mp (-53) /\ 0 < den <= 1000 /\ 0 < num < den /\
    2 ^ 52 <= Zpos mp < 2 ^ 53 /\ den * Zpos mp = num * 2 ^ 53 + c /\ 5 * Z.abs c <= den)
    as (mp & c & -> & Hd & Hn & Hm & Hc & Hs).
  { rewrite !elem_of_cons, elem_of_nil in Hin. destruct Hin as [Heq|[Heq|[Heq|[Heq|[]]]]]; simplify_eq.
    - exists 4503599627370496%positive, 0. split; [vm_compute; reflexivity|lia].
    - exists 8106479329266893%positive, 2. split; [vm_compute; reflexivity|lia].
    - exists 8917127262193582%positive, (-8). split; [vm_compute; reflexivity|lia].
    - exists 8998192055486251%positive, (-8). split; [vm_compute; reflexivity|lia]. }
  by rewrite (index_exact num den mp c Hd Hn Hm Hc Hs) by lia.
Qed.

(** While the exact sum fits 53 bits, accumulating in a double loses nothing. *)
Lemma accumulate_from (l : list Z) (acc : Z) :
  (forall x, x ∈ l -> 0 <= x) -> 0 <= acc -> acc + sumZ id l < 2 ^ 53 ->
  foldl (fun sum x => add sum (of_int x)) (of_int acc) l = of_int (acc + sumZ id l).
Proof.
  revert acc. induction l as [|x l IH]; intros acc Hpos Hacc Hsum; cbn [foldl].
  - change (sumZ id []) with 0. by rewrite Z.add_0_r.
  - rewrite sumZ_cons in *. change (id x) with x in *.
    assert (0 <= sumZ id l) by (apply sumZ_nonneg; intros y Hy; apply Hpos; by right).
    pose proof (Hpos x ltac:(left)).
    rewrite add_exact by lia. rewrite IH; [f_equal; lia| |lia|lia]. intros y Hy. apply Hpos. by right.
Qed.

Lemma accumulate_exact (l : list Z) :
  (forall x, x ∈ l -> 0 <= x) -> sumZ id l < 2 ^ 53 -> accumulate l = of_int (sumZ id l).
Proof. intros Hpos Hsum. by apply (accumulate_from l 0). Qed.

Lemma last_sorted_max (l : list Z) (m : Z) : Sorted Z.le l -> last l = Some m -> forall x, x ∈ l -> x <= m.
Proof.
  intros Hs%Sorted_StronglySorted Hm x Hx; [|intros ???; lia].
  apply last_Some in Hm as [l' ->]. apply elem_of_app in Hx as [Hx| ->%list_elem_of_singleton]; [|done].
  apply (StronglySorted_app_1_elem_of Z.le l' [m]); [done|done|left].
Qed.

Lemma sorted_rank_mono (l : list Z) (i j : nat) (x y : Z) :
  Sorted Z.le l -> (i <= j)%nat -> l !! i = Some x -> l !! j = Some y -> x <= y.
Proof.
  intros Hs Hij Hi Hj. destruct (decide (i = j)) as [->|]; [simplify_eq; lia|].
  apply Sorted_StronglySorted in Hs; [|intros ???; lia].
  rewrite <- (take_drop j l) in Hs. apply (StronglySorted_app_1_elem_of Z.le _ _ x y Hs).
  - apply list_elem_of_lookup. exists i. by rewrite lookup_take_lt by lia.
  - apply list_elem_of_lookup. exists 0%nat. by rewrite lookup_drop, Nat.add_0_r.
Qed.

(** ** What [compute] reports *)

(** [r] reports the order statistics of the sorted samples. *)
Record reports (sorted : list Z) (r : Percentiles) : Prop := MkReports {
  r_p50 : sorted !! Z.to_nat ((Z.of_nat (length sorted) - 1) / 2) = Some (p50 r);
  r_p90 : sorted !! Z.to_nat (9 * (Z.of_nat (length sorted) - 1) / 10) = Some (p90 r);
  r_p99 : sorted !! Z.to_nat (99 * (Z.of_nat (length sorted) - 1) / 100) = Some (p99 r);
  r_p999 : sorted !! Z.to_nat (999 * (Z.of_nat (length sorted) - 1) / 1000) = Some (p999 r);
  r_max : last sorted = Some (max r);
  r_count : sample_count r = Z.of_nat (length sorted)
}.

Lemma rank_in_range (l : list Z) (num den : Z) :
  0 < num < den -> 1 <= Z.of_nat (length l) ->
  exists x, l !! Z.to_nat (num * (Z.of_nat (length l) - 1) / den) = Some x.
Proof.
  intros Hn Hl. apply lookup_lt_is_Some. apply Nat2Z.inj_lt.
  assert (0 <= num * (Z.of_nat (length l) - 1) / den < Z.of_nat (length l)) as [H1 H2]; [|lia].
  split; [apply Z.div_pos; nia|]. apply Z.div_lt_upper_bound; nia.
Qed.

Lemma compute_spec (samples : list Z) :
  let sorted := merge_sort Z.le samples in
  1 <= Z.of_nat (length samples) <= 2 ^ 41 ->
  exists r, compute (MkHistogram samples) = Some r /\ reports sorted r /\
    mean r = div (accumulate sorted) (of_int (Z.of_nat (length samples))).
Proof.
  intros sorted Hlen. pose proof (merge_sort_Permutation Z.le samples) as Hperm. fold sorted in Hperm.
  apply Permutation_length in Hperm as Hl. unfold compute. cbn [samples_].
  destruct samples as [|s0 ss]; [cbn in Hlen; lia|]. set (samples := s0 :: ss) in *.
  change (merge_sort Z.le samples) with sorted. clearbody sorted.
  assert (1 <= Z.of_nat (length sorted) <= 2 ^ 41) as Hsorted by (rewrite Hl; exact Hlen).
  rewrite !percentile_at_spec by (done || set_solver).
  destruct (rank_in_range sorted 1 2) as [a Ha]; [lia..|].
  destruct (rank_in_range sorted 9 10) as [b Hb]; [lia..|].
  destruct (rank_in_range sorted 99 100) as [c Hc]; [lia..|].
  destruct (rank_in_range sorted 999 1000) as [d Hd]; [lia..|].
  assert (exists m, last sorted = Some m) as [m Hm].
  { apply last_is_Some. intros Hnil. rewrite Hnil in Hsorted. cbn in Hsorted. lia. }
  rewrite Ha, Hb, Hc, Hd, Hm. cbn [mbind option_bind]. eexists. split; [done|]. split; [|done].
  rewrite Z.mul_1_l in Ha. split; [done..|]. cbn [sample_count]. by rewrite Hl.
Qed.

Lemma reports_ordered (sorted : list Z) (r : Percentiles) :
  Sorted Z.le sorted -> 1 <= Z.of_nat (length sorted) -> reports sorted r ->
  p50 r <= p90 r <= p99 r /\ p99 r <= p999 r <= max r.
Proof.
  intros Hs Hl [H50 H90 H99 H999 Hmax _]. set (n := Z.of_nat (length sorted) - 1) in *.
  assert (0 <= n) by lia.
  split_and!.
  - eapply sorted_rank_mono; [done| |done|done]. apply Z2Nat.inj_le; zlia.
  - eapply sorted_rank_mono; [done| |done|done]. apply Z2Nat.inj_le; zlia.
  - eapply sorted_rank_mono; [done| |done|done]. apply Z2Nat.inj_le; zlia.
  - by eapply last_sorted_max, list_elem_of_lookup_2.
Qed.
End Histogram.
