(* ===== verification/Bench.v ===== *)
(** * bench/: what the benchmark programs share

    A clock the programs read ([Clock], [SteadyClock]: what the standard promises of
    [std::chrono::steady_clock]), timed calls, counted loops with their invariant
    rule, and what a program prints: its lines, and their text (Printf.v). *)

From S2P Require Import Prelude Float64 ByteOrder Printf LatencyHistogram.
From Stdlib Require Strings.String.
Import (notations) Strings.String.

Local Open Scope Z_scope.

(** ** The clock *)

(** [now] in nanoseconds, and the state of the clock after the reading. *)
Class Clock (C : Type) := { now : C -> Z * C }.

Class SteadyClock (C : Type) `{!Clock C} := {
  now_range c : 0 <= (now c).1 < 2 ^ 63;
  now_steady c : (now c).1 <= (now (now c).2).1
}.

(** A clock that is 1 ns later at each reading until it stands still. *)
#[global] Instance Ticks : Clock nat := {| now c := (Z.min (Z.of_nat c) (2 ^ 63 - 1), S c) |}.

#[global] Instance Ticks_steady : SteadyClock nat.
Proof. split; intros c; cbn [now Ticks fst snd]; lia. Qed.

(** [start = now(); op; end = now();] and the count of nanoseconds between. *)
Definition timed {C A} `{!Clock C} (op : ub A) (c : C) : ub (A * Z * C) :=
  let '(start, c) := now c in
  a ← op;
  let '(stop, c) := now c in
  Some (a, stop - start, c).

Lemma timed_spec {C A} `{!Clock C, !SteadyClock C} (op : ub A) (a : A) (c : C) :
  op = Some a -> exists ns c', timed op c = Some (a, ns, c') /\ 0 <= ns < 2 ^ 63.
Proof.
  intros ->. unfold timed. pose proof (now_range c) as Hr. pose proof (now_steady c) as Hs.
  destruct (now c) as [start c1]. cbn [fst snd] in *. cbn [mbind option_bind].
  pose proof (now_range c1) as Hr1. destruct (now c1) as [stop c2]. cbn [fst] in *.
  exists (stop - start), c2. split; [done|lia].
Qed.

(** ** Counted loops *)

(** [for (i = start; n iterations; ++i) body(i)]. *)
Fixpoint for_loop_nat {A} (n : nat) (body : Z -> A -> ub A) (i : Z) (a : A) : ub A :=
  match n with
  | O => Some a
  | S n => a ← body i a; for_loop_nat n body (i + 1) a
  end.

(** [for (i = 0; i < n; ++i) body(i)]. *)
Definition for_loop {A} (n : Z) (body : Z -> A -> ub A) (a : A) : ub A :=
  for_loop_nat (Z.to_nat n) body 0 a.

Lemma for_loop_nat_rule {A} (P : Z -> A -> Prop) (n : nat) (body : Z -> A -> ub A) (i : Z) (a : A) :
  P i a ->
  (forall j a, i <= j < i + Z.of_nat n -> P j a -> exists a', body j a = Some a' /\ P (j + 1) a') ->
  exists a', for_loop_nat n body i a = Some a' /\ P (i + Z.of_nat n) a'.
Proof.
  revert i a. induction n as [|n IH]; intros i a HP Hbody; cbn [for_loop_nat].
  - exists a. by rewrite Z.add_0_r.
  - destruct (Hbody i a ltac:(lia) HP) as (a1 & -> & HP1). cbn [mbind option_bind].
    destruct (IH (i + 1) a1 HP1) as (a' & -> & HP'); [intros j a2 Hj; apply Hbody; lia|].
    exists a'. split; [done|]. by replace (i + Z.of_nat (S n)) with (i + 1 + Z.of_nat n) by lia.
Qed.

(** The rule every loop below is proved with: an invariant indexed by the
    iteration number. *)
Lemma for_loop_rule {A} (P : Z -> A -> Prop) (n : Z) (body : Z -> A -> ub A) (a : A) :
  0 <= n -> P 0 a ->
  (forall j a, 0 <= j < n -> P j a -> exists a', body j a = Some a' /\ P (j + 1) a') ->
  exists a', for_loop n body a = Some a' /\ P n a'.
Proof.
  intros Hn HP Hbody. destruct (for_loop_nat_rule P (Z.to_nat n) body 0 a HP) as (a' & Ha & HP').
  - intros j a1 Hj. apply Hbody. lia.
  - exists a'. split; [done|]. by replace n with (0 + Z.of_nat (Z.to_nat n)) by lia.
Qed.

(** One step of a program whose calls are too long to evaluate. *)
Lemma bind_some {A B} (x : ub A) (f : A -> ub B) (a : A) (y : ub B) :
  x = Some a -> f a = y -> (a ← x; f a) = y.
Proof. by intros -> <-. Qed.

(** ** Pinning *)

(** The platform, and what [pthread_setaffinity_np] returns for a set of processors. *)
Record Affinity := MkAffinity { on_linux : bool; pthread_setaffinity : list Z -> Z }.

(** [CPU_ZERO] and [CPU_SET], which ignores processors from 1024 on. *)
Definition cpu_set (cpu_id : Z) : list Z := if u64 cpu_id <? 1024 then [u64 cpu_id] else [].

Definition pin_current_thread_to_cpu (os : Affinity) (cpu_id : Z) : bool :=
  if on_linux os then pthread_setaffinity os (cpu_set cpu_id) =? 0 else false.

(** ** Output *)

Inductive line :=
  | Pinning (active : bool)
  | Config (warmup measured : Z)
  | Report (name : String.string) (p : Histogram.Percentiles)
  | PinnedPair (producer consumer : bool)
  | Throughput (items : Z) (seconds mega_items_per_sec : double)
  | Blank.

Definition kWarmupIterations : Z := 10000.
Definition kMeasuredIterations : Z := 100000.

(** The arguments of every [print_report]: the sample count is a [std::size_t], the
    percentiles are cast to [long long]. *)
Definition report_args (name : String.string) (p : Histogram.Percentiles) : list Printf.arg :=
  [Printf.AStr (Printf.text name); Printf.AInt Printf.SizeT (Histogram.sample_count p);
   Printf.AFloat (Histogram.mean p);
   Printf.AInt Printf.LongLong (Histogram.p50 p); Printf.AInt Printf.LongLong (Histogram.p90 p);
   Printf.AInt Printf.LongLong (Histogram.p99 p); Printf.AInt Printf.LongLong (Histogram.p999 p);
   Printf.AInt Printf.LongLong (Histogram.max p)].

(** The text of a line; the programs differ in their [print_report]. *)
Definition line_text (print_report : String.string -> Histogram.Percentiles -> ub (list byte)) (l : line)
    : ub (list byte) :=
  let yes_no (b : bool) (yes no : String.string) := Printf.AStr (Printf.text (if b then yes else no)) in
  match l with
  | Pinning active =>
      Printf.printf (Printf.text "CPU pinning: %s"%string ++ [Printf.newline])
        [yes_no active "active (core 0)"%string "unavailable on this platform"%string]
  | Config warmup measured =>
      Printf.printf (Printf.text "warmup=%zu measured=%zu"%string ++ [Printf.newline; Printf.newline])
        [Printf.AInt Printf.SizeT warmup; Printf.AInt Printf.SizeT measured]
  | Report name p => print_report name p
  | PinnedPair producer consumer =>
      Printf.printf (Printf.text "CPU pinning (producer/consumer): %s / %s"%string ++ [Printf.newline])
        [yes_no producer "core 0"%string "unavailable"%string; yes_no consumer "core 1"%string "unavailable"%string]
  | Throughput items seconds rate =>
      Printf.printf
        (Printf.text "SpscRingBuffer two-thread pipeline: %llu items in %.3fs (%.1fM items/sec)"%string ++ [Printf.newline])
        [Printf.AInt Printf.UnsignedLongLong items; Printf.AFloat seconds; Printf.AFloat rate]
  | Blank => Printf.printf [Printf.newline] []
  end.

(** Everything a program has written. *)
Definition output (print_report : String.string -> Histogram.Percentiles -> ub (list byte)) (lines : list line)
    : ub (list byte) :=
  texts ← mapM (line_text print_report) lines;
  Some (concat texts).

(** The figures of a report, as they are read back from its text: the mean in tenths. *)
Definition report_readings (name : String.string) (p : Histogram.Percentiles) : list Printf.scanned :=
  [Printf.VStr (Printf.text name); Printf.VInt (Histogram.sample_count p);
   Printf.VFixed (Printf.units 1 (Histogram.mean p)); Printf.VInt (Histogram.p50 p);
   Printf.VInt (Histogram.p90 p); Printf.VInt (Histogram.p99 p); Printf.VInt (Histogram.p999 p);
   Printf.VInt (Histogram.max p)].

(** A name that does not end in a space and has none beyond its field. *)
Definition readable_name (width : nat) (name : String.string) : bool :=
  bool_decide (last (Printf.text name) <> Some " "%byte) && bool_decide (" "%byte ∉ drop width (Printf.text name)).

(** The format after the name. *)
Definition report_tail : list Printf.directive :=
  Eval vm_compute in
    let format := Printf.text " n=%-8zu mean=%8.1fns  p50=%6lldns  p90=%6lldns  p99=%6lldns  p99.9=%6lldns  max=%8lldns"%string
                  ++ [Printf.newline] in
    default [] (Printf.parse_format (length format) format).

(** A report is read back with its own format. *)
Lemma report_reads_back (format : list byte) (width : nat) name p :
  Printf.parse_format (length format) format = Some (Printf.Conv true width Printf.CStr :: report_tail) ->
  readable_name width name = true -> 0 <= Histogram.sample_count p -> Printf.is_finite (Histogram.mean p) = true ->
  exists t, Printf.printf format (report_args name p) = Some t /\
    Printf.read format t = Some (report_readings name p, []).
Proof.
  intros Hp [Hl%bool_decide_eq_true Hs%bool_decide_eq_true]%andb_true_iff Hc Hm.
  destruct (Printf.printf_scan format _ (report_args name p) Hp eq_refl) as (t & Ht & Hr).
  { cbn. by split_and!. }
  exists t. split; [done|]. unfold Printf.read. by rewrite Hp.
Qed.

(** ** Histograms of elapsed times *)

(** [n] recorded durations. *)
Definition recorded (h : Histogram.t) (n : Z) : Prop :=
  Z.of_nat (length (Histogram.samples_ h)) = n /\
  forall ns, ns ∈ Histogram.samples_ h -> 0 <= ns < 2 ^ 63.

Lemma recorded_make n : recorded (Histogram.make n) 0.
Proof. split; [done|]. by intros ns ?%not_elem_of_nil. Qed.

Lemma recorded_record h n ns :
  recorded h n -> 0 <= ns < 2 ^ 63 -> recorded (Histogram.record h ns) (n + 1).
Proof.
  intros [Hn Hall] Hns. split; cbn; [rewrite length_app; cbn; lia|].
  intros x [Hx| ->%list_elem_of_singleton]%elem_of_app; [by apply Hall|done].
Qed.

(** A report on [n] durations: ordered, non-negative percentiles that are among
    the recorded values. *)
Definition sound_report (n : Z) (p : Histogram.Percentiles) : Prop :=
  Histogram.sample_count p = n /\ 0 <= Histogram.p50 p <= Histogram.p90 p /\
  Histogram.p90 p <= Histogram.p99 p /\ Histogram.p99 p <= Histogram.p999 p /\
  Histogram.p999 p <= Histogram.max p < 2 ^ 63.

Lemma compute_sound h n :
  recorded h n -> 1 <= n <= 2 ^ 41 -> exists p, Histogram.compute h = Some p /\ sound_report n p.
Proof.
  intros [Hn Hall] Hb. destruct h as [samples]. cbn [Histogram.samples_] in *.
  destruct (Histogram.compute_spec samples ltac:(lia)) as (p & Hc & Hr & _). exists p. split; [done|].
  pose proof (merge_sort_Permutation Z.le samples) as Hperm. set (sorted := merge_sort Z.le samples) in *.
  assert (Sorted Z.le sorted) as Hs by (apply Sorted_merge_sort, _).
  apply Permutation_length in Hperm as Hl.
  destruct (Histogram.reports_ordered sorted p Hs ltac:(lia) Hr) as ((? & ?) & ? & ?).
  assert (forall x, x ∈ sorted -> 0 <= x < 2 ^ 63) as Hin by (intros x Hx; apply Hall; by rewrite <- Hperm).
  pose proof (Hin _ (list_elem_of_lookup_2 _ _ _ (Histogram.r_p50 _ _ Hr))).
  assert (Histogram.max p ∈ sorted) as Hmax.
  { pose proof (Histogram.r_max _ _ Hr) as Hm. apply last_Some in Hm as [l ->]. set_solver. }
  pose proof (Hin _ Hmax). split; [|lia].
  rewrite (Histogram.r_count _ _ Hr). lia.
Qed.
