(* ===== verification/BenchOrderBook.v ===== *)
(** * bench/bench_order_book_latency.cpp: the order book benchmarks

    The three benchmarks and [main], over any random source and any clock; a
    program's output is its list of printed lines.  The program discards what the
    operations of its books return; the model keeps the results beside the book, call
    by call, so that the theorems can say that none was a refusal.  The loops'
    invariants say what each benchmark measures: every addition rests an order, every
    cancellation and execution is accepted, and the second one leaves nothing behind. *)

From S2P Require Import Prelude StdModel HashMap IntrusiveList ObjectPool OrderBook BookSpec.
From S2P Require Import BookInvariant BookBest BookRefinement BookOps BookQueries.
From S2P Require Import ByteOrder Printf LatencyHistogram Bench.
From Stdlib Require Strings.String.
Import (notations) Strings.String.

Local Open Scope Z_scope.

Module BenchOrderBook.

Definition kRef : Z := 1000000.
Definition kHalfWidth : Z := 5000.
Definition kRestingOrders : Z := 5000.

(** [print_report]. *)
Definition report_format : list byte :=
  Printf.text "%-28s n=%-8zu mean=%8.1fns  p50=%6lldns  p90=%6lldns  p99=%6lldns  p99.9=%6lldns  max=%8lldns"%string ++ [Printf.newline].

Definition print_report (name : String.string) (p : Histogram.Percentiles) : ub (list byte) :=
  Printf.printf report_format (report_args name p).

(** A book of a benchmark and what its operations have returned so far. *)
Record Observed := MkObserved { the_book : OrderBook; returned : list bool }.

Definition observe (made : ub OrderBook) : ub Observed := b ← made; Some (MkObserved b []).

(** A call whose result the program ignores. *)
Definition call (op : OrderBook -> ub (OrderBook * bool)) (o : Observed) : ub Observed :=
  '(b, r) ← op (the_book o);
  Some (MkObserved b (returned o ++ [r])).

Section bench.
Context {R C : Type} `{!Random R, !Clock C}.

(** [static_cast<Price4>(static_cast<int64_t>(kRef) + price_jitter(rng))]. *)
Definition draw_price (r : R) : Z * R :=
  let '(jitter, r) := jitter_dist (-4000) 4000 r in (u32 (kRef + jitter), r).

(** The vectors of inputs, drawn before anything is timed. *)
Definition draw_inputs (n : Z) (r : R) : ub (list Z * list bool * R) :=
  for_loop n (fun _ st =>
    let '(prices, sides, r) := st in
    let '(p, r) := draw_price r in
    let '(side, r) := side_dist r in
    Some (prices ++ [p], sides ++ [side =? 0], r)) ([], [], r).

Definition draw_prices (n : Z) (r : R) : ub (list Z * R) :=
  for_loop n (fun _ st =>
    let '(prices, r) := st in
    let '(p, r) := draw_price r in
    Some (prices ++ [p], r)) ([], r).

(** The bodies of the warm-up and of the measured loop of [bench_add_order]. *)
Definition warm_add (prices : list Z) (sides : list bool) (i : Z) (book : Observed) : ub Observed :=
  p ← prices !! Z.to_nat i;
  side ← sides !! Z.to_nat i;
  call (fun b => add_order b (i + 1) p 100 side 0) book.

Definition measured_add (prices : list Z) (sides : list bool) (i : Z) (st : Observed * Histogram.t * C)
    : ub (Observed * Histogram.t * C) :=
  let '(book, hist, c) := st in
  let idx := kWarmupIterations + i in
  p ← prices !! Z.to_nat idx;
  side ← sides !! Z.to_nat idx;
  '(book, ns, c) ← timed (call (fun b => add_order b (idx + 1) p 100 side 0) book) c;
  Some (book, Histogram.record hist ns, c).

Definition bench_add_order (c : C) : ub (Observed * Histogram.Percentiles * C) :=
  let total_iterations := kWarmupIterations + kMeasuredIterations in
  book ← observe (make kRef kHalfWidth (total_iterations + 10));
  '(prices, sides, _) ← draw_inputs total_iterations (seeded 42);
  book ← for_loop kWarmupIterations (warm_add prices sides) book;
  '(book, hist, c) ← for_loop kMeasuredIterations (measured_add prices sides)
    (book, Histogram.make kMeasuredIterations, c);
  p ← Histogram.compute hist;
  Some (book, p, c).

(** One measured iteration on one of the two books: a timed operation on a fresh
    order of 100 shares, then its removal. *)
Definition measured_reduction (op : OrderBook -> Z -> Z -> ub (OrderBook * bool))
    (prices : list Z) (idx : Z) (book : Observed) (hist : Histogram.t) (c : C)
    : ub (Observed * Histogram.t * C) :=
  let ref := idx + 1 in
  p ← prices !! Z.to_nat idx;
  book ← call (fun b => add_order b ref p 100 true 0) book;
  '(book, ns, c) ← timed (call (fun b => op b ref 50) book) c;
  book ← call (fun b => op b ref 50) book;
  Some (book, Histogram.record hist ns, c).

Definition warm_reductions (prices : list Z) (i : Z) (books : Observed * Observed)
    : ub (Observed * Observed) :=
  let '(cancel_book, execute_book) := books in
  p ← prices !! Z.to_nat i;
  cancel_book ← call (fun b => add_order b (i + 1) p 100 true 0) cancel_book;
  cancel_book ← call (fun b => cancel_order b (i + 1) 50) cancel_book;
  execute_book ← call (fun b => add_order b (i + 1) p 100 true 0) execute_book;
  execute_book ← call (fun b => execute_order b (i + 1) 50) execute_book;
  Some (cancel_book, execute_book).

Definition measured_reductions (prices : list Z) (i : Z)
    (st : Observed * Histogram.t * (Observed * Histogram.t) * C)
    : ub (Observed * Histogram.t * (Observed * Histogram.t) * C) :=
  let '(cancel_book, cancel_hist, (execute_book, execute_hist), c) := st in
  let idx := kWarmupIterations + i in
  '(cancel_book, cancel_hist, c) ← measured_reduction cancel_order prices idx cancel_book cancel_hist c;
  '(execute_book, execute_hist, c) ← measured_reduction execute_order prices idx execute_book execute_hist c;
  Some (cancel_book, cancel_hist, (execute_book, execute_hist), c).

Definition bench_cancel_and_execute (c : C)
    : ub (Observed * Observed * Histogram.Percentiles * Histogram.Percentiles * C) :=
  let total_iterations := kWarmupIterations + kMeasuredIterations in
  cancel_book ← observe (make kRef kHalfWidth (total_iterations + 10));
  execute_book ← observe (make kRef kHalfWidth (total_iterations + 10));
  '(prices, _) ← draw_prices total_iterations (seeded 7);
  '(cancel_book, execute_book) ← for_loop kWarmupIterations (warm_reductions prices)
    (cancel_book, execute_book);
  '(cancel_book, cancel_hist, (execute_book, execute_hist), c) ←
    for_loop kMeasuredIterations (measured_reductions prices)
      (cancel_book, Histogram.make kMeasuredIterations, (execute_book, Histogram.make kMeasuredIterations), c);
  cancelled ← Histogram.compute cancel_hist;
  executed ← Histogram.compute execute_hist;
  Some (cancel_book, execute_book, cancelled, executed, c).

(** [n] timed calls of a query. *)
Definition time_query {A} (query : ub A) (c : C) : ub (Histogram.t * C) :=
  for_loop kMeasuredIterations (fun _ st =>
    '(_, ns, c) ← timed query st.2;
    Some (Histogram.record st.1 ns, c)) (Histogram.make kMeasuredIterations, c).

Definition add_resting (i : Z) (st : Observed * R) : ub (Observed * R) :=
  let '(book, r) := st in
  let '(p, r) := draw_price r in
  book ← call (fun b => add_order b (i + 1) p 100 (i mod 2 =? 0) 0) book;
  Some (book, r).

Definition bench_queries (c : C) : ub (Observed * Histogram.Percentiles * Histogram.Percentiles * C) :=
  book ← observe (make kRef kHalfWidth (kRestingOrders + 10));
  '(book, _) ← for_loop kRestingOrders add_resting (book, seeded 99);
  _ ← for_loop kWarmupIterations (fun _ warm_result => Some (best_bid (the_book book))) None;
  '(best_bid_hist, c) ← time_query (Some (best_bid (the_book book))) c;
  '(shares_at_hist, c) ← time_query (shares_at (the_book book) kRef true) c;
  best ← Histogram.compute best_bid_hist;
  at_price ← Histogram.compute shares_at_hist;
  Some (book, best, at_price, c).

(** [os] says what pinning the thread answers. *)
Definition main (os : Affinity) (c : C) : ub (list line) :=
  '(_, added, c) ← bench_add_order c;
  '(_, _, cancelled, executed, c) ← bench_cancel_and_execute c;
  '(_, best, at_price, _) ← bench_queries c;
  Some [Pinning (pin_current_thread_to_cpu os 0); Config kWarmupIterations kMeasuredIterations;
        Report "OrderBook::add_order"%string added;
        Report "OrderBook::cancel_order"%string cancelled;
        Report "OrderBook::execute_order"%string executed;
        Report "OrderBook::best_bid"%string best;
        Report "OrderBook::shares_at"%string at_price].
End bench.

(** ** Fresh orders *)

(** [n] calls have been made and none was refused. *)
Definition accepted_calls (o : Observed) (n : Z) : Prop :=
  Z.of_nat (length (returned o)) = n /\ Forall (fun r => r = true) (returned o).

(** [n] orders of [s] shares rest, with references from 1 to [n]. *)
Definition numbered (b : OrderBook) (cap n s : Z) : Prop :=
  exists l, Rep b l /\ Z.of_nat (length l) = n /\
    (forall r, r ∈ l -> 1 <= r_ref r <= n /\ r_shares r = s) /\ book_capacity b = cap.

(** Both, of a book under observation. *)
Definition steady (o : Observed) (cap n s calls : Z) : Prop :=
  numbered (the_book o) cap n s /\ accepted_calls o calls.

Lemma steady_make cap s : 0 <= cap <= 2 ^ 63 ->
  exists o, observe (make kRef kHalfWidth cap) = Some o /\ steady o cap 0 s 0.
Proof.
  intros Hc. destruct (make_rep kRef kHalfWidth cap) as (b & Hm & HR & _ & Hcap); [done..|done|].
  rewrite Hm. eexists. split; [done|]. split; [|by split]. exists []. split_and!; try done.
  by intros r ?%not_elem_of_nil.
Qed.

Lemma numbered_count b cap n s : numbered b cap n s -> order_count b = n.
Proof. intros (l & HR & Hl & _). by rewrite (order_count_rep b l HR). Qed.

(** A call the book accepts. *)
Lemma call_accepted op o b calls :
  op (the_book o) = Some (b, true) -> accepted_calls o calls ->
  exists o', call op o = Some o' /\ the_book o' = b /\ accepted_calls o' (calls + 1).
Proof.
  intros Ho [Hl Ht]. unfold call. rewrite Ho. eexists. split; [done|]. split; [done|]. split; cbn.
  - rewrite length_app. cbn. lia.
  - apply Forall_app. by split; [|constructor].
Qed.

Lemma steady_add o cap n calls p side :
  steady o cap n 100 calls -> n < cap -> 0 <= p < 2 ^ 32 ->
  exists o', call (fun b => add_order b (n + 1) p 100 side 0) o = Some o' /\
    steady o' cap (n + 1) 100 (calls + 1).
Proof.
  intros [(l & HR & Hl & Hf & Hc) Hk] Hn Hp.
  destruct (add_fresh (the_book o) l (n + 1) p 100 side HR) as (b' & Ha & HR' & Hc' & _); [|lia..|].
  { intros r Hr. specialize (Hf r Hr). lia. }
  destruct (call_accepted (fun b => add_order b (n + 1) p 100 side 0) o b' calls Ha Hk) as (o' & Ho & <- & Hk').
  exists o'. split; [done|]. split; [|done]. eexists. split_and!; [exact HR'| | |congruence].
  - rewrite length_app. cbn. lia.
  - intros r [Hr| ->%list_elem_of_singleton]%elem_of_app; [specialize (Hf r Hr); lia|cbn; lia].
Qed.

(** Adding a fresh order and taking half of it, as the warm-up loop does, and taking
    the other half too, as the measured loop does. *)
Lemma steady_reduce op o cap n calls ref p :
  (forall b ref s, op b ref s = reduce_shares b ref s) ->
  steady o cap n 50 calls -> n < ref -> n < cap -> 0 <= p < 2 ^ 32 ->
  exists o1 o2 o3, call (fun b => add_order b ref p 100 true 0) o = Some o1 /\
    call (fun b => op b ref 50) o1 = Some o2 /\
    (ref = n + 1 -> steady o2 cap (n + 1) 50 (calls + 2)) /\
    call (fun b => op b ref 50) o2 = Some o3 /\ steady o3 cap n 50 (calls + 3).
Proof.
  intros Hop [(l & HR & Hl & Hf & Hc) Hk] Href Hn Hp.
  assert (forall r, r ∈ l -> r_ref r <> ref) as Hf' by (intros r Hr; specialize (Hf r Hr); lia).
  destruct (add_fresh (the_book o) l ref p 100 true HR Hf') as (b1 & Ha & HR1 & Hc1 & _); [lia..|].
  destruct (call_accepted (fun b => add_order b ref p 100 true 0) o b1 calls Ha Hk) as (o1 & Ho1 & <- & Hk1).
  destruct (reduce_fresh (the_book o1) l ref p 100 true 50 HR1 Hf') as (b2 & Hr2 & HR2 & Hc2); [lia|].
  rewrite <- Hop in Hr2.
  destruct (call_accepted (fun b => op b ref 50) o1 b2 _ Hr2 Hk1) as (o2 & Ho2 & <- & Hk2).
  destruct (reduce_fresh (the_book o2) l ref p 50 true 50 HR2 Hf') as (b3 & Hr3 & HR3 & Hc3); [lia|].
  rewrite <- Hop in Hr3.
  destruct (call_accepted (fun b => op b ref 50) o2 b3 _ Hr3 Hk2) as (o3 & Ho3 & <- & Hk3).
  exists o1, o2, o3. split_and!; [done|done| |done|].
  - intros ->. split; [|by replace (calls + 2) with (calls + 1 + 1) by lia].
    eexists. split_and!; [exact HR2| | |congruence].
    + cbn. rewrite length_app. cbn. lia.
    + intros r [Hr'| ->%list_elem_of_singleton]%elem_of_app; [specialize (Hf r Hr'); lia|cbn; lia].
  - split; [|by replace (calls + 3) with (calls + 1 + 1 + 1) by lia].
    exists l. split_and!; [exact HR3|done|done|congruence].
Qed.

Definition prices_ok (prices : list Z) : Prop := forall p, p ∈ prices -> 0 <= p < 2 ^ 32.

Lemma price_at prices i :
  prices_ok prices -> 0 <= i < Z.of_nat (length prices) ->
  exists p, prices !! Z.to_nat i = Some p /\ 0 <= p < 2 ^ 32.
Proof.
  intros Hok Hi. destruct (lookup_lt_is_Some_2 prices (Z.to_nat i)) as [p Hp]; [lia|].
  exists p. split; [done|]. by eapply Hok, list_elem_of_lookup_2.
Qed.

Lemma prices_snoc prices p : prices_ok prices -> 0 <= p < 2 ^ 32 -> prices_ok (prices ++ [p]).
Proof. intros Hok Hp q [Hq| ->%list_elem_of_singleton]%elem_of_app; [by apply Hok|done]. Qed.

Section proofs.
Context {R C : Type} `{!Random R, !Clock C, !SteadyClock C}.

Lemma jittered_price_range (r : R) : 0 <= (draw_price r).1 < 2 ^ 32.
Proof. unfold draw_price. destruct (jitter_dist _ _ r). apply u32_range. Qed.

Lemma draw_inputs_spec n (r : R) :
  0 <= n -> exists prices sides r', draw_inputs n r = Some (prices, sides, r') /\
    Z.of_nat (length prices) = n /\ Z.of_nat (length sides) = n /\ prices_ok prices.
Proof.
  intros Hn. unfold draw_inputs.
  edestruct (for_loop_rule (fun i (s : list Z * list bool * R) =>
      Z.of_nat (length s.1.1) = i /\ Z.of_nat (length s.1.2) = i /\ prices_ok s.1.1))
    as ([[prices sides] r'] & Hs & H1 & H2 & H3); [done| | |by exists prices, sides, r'].
  - split_and!; [done..|]. by intros p ?%not_elem_of_nil.
  - intros j [[ps ss] r1] Hj (H1 & H2 & H3). pose proof (jittered_price_range r1) as Hp.
    destruct (draw_price r1) as [p r2]. destruct (side_dist r2) as [s r3]. eexists. split; [done|].
    cbn in *. rewrite !length_app. cbn. split_and!; [lia..|]. by apply prices_snoc.
Qed.

Lemma draw_prices_spec n (r : R) :
  0 <= n -> exists prices r', draw_prices n r = Some (prices, r') /\
    Z.of_nat (length prices) = n /\ prices_ok prices.
Proof.
  intros Hn. unfold draw_prices.
  edestruct (for_loop_rule (fun i (s : list Z * R) => Z.of_nat (length s.1) = i /\ prices_ok s.1))
    as ([prices r'] & Hs & H1 & H2); [done| | |by exists prices, r'].
  - split; [done|]. by intros p ?%not_elem_of_nil.
  - intros j [ps r1] Hj (H1 & H2). pose proof (jittered_price_range r1) as Hp.
    destruct (draw_price r1) as [p r2]. eexists. split; [done|].
    cbn in *. rewrite length_app. cbn. split; [lia|]. by apply prices_snoc.
Qed.

Definition total : Z := kWarmupIterations + kMeasuredIterations.

Lemma warm_add_step prices sides cap j o :
  prices_ok prices -> j < Z.of_nat (length prices) -> j < Z.of_nat (length sides) ->
  0 <= j < cap -> steady o cap j 100 j ->
  exists o', warm_add prices sides j o = Some o' /\ steady o' cap (j + 1) 100 (j + 1).
Proof.
  intros Hok Hp Hs Hj Hb. unfold warm_add. destruct (price_at prices j Hok ltac:(lia)) as (p & -> & Hp32).
  destruct (lookup_lt_is_Some_2 sides (Z.to_nat j)) as [side ->]; [lia|]. cbn [mbind option_bind].
  apply steady_add; [done|lia|done].
Qed.

Lemma measured_add_step prices sides cap j (st : Observed * Histogram.t * C) :
  prices_ok prices -> kWarmupIterations + j < Z.of_nat (length prices) ->
  kWarmupIterations + j < Z.of_nat (length sides) -> 0 <= j -> kWarmupIterations + j < cap ->
  steady st.1.1 cap (kWarmupIterations + j) 100 (kWarmupIterations + j) /\ recorded st.1.2 j ->
  exists st', measured_add prices sides j st = Some st' /\
    steady st'.1.1 cap (kWarmupIterations + (j + 1)) 100 (kWarmupIterations + (j + 1)) /\
    recorded st'.1.2 (j + 1).
Proof.
  intros Hok Hp Hs Hj Hcap [Hb Hh]. destruct st as [[o h] c]. cbn [fst snd] in *. unfold measured_add.
  assert (0 <= kWarmupIterations + j) as Hidx by (unfold kWarmupIterations; lia). rewrite Z.add_assoc.
  set (idx := kWarmupIterations + j) in *. cbn zeta.
  destruct (price_at prices idx Hok ltac:(lia)) as (p & -> & Hp32).
  destruct (lookup_lt_is_Some_2 sides (Z.to_nat idx)) as [side ->]; [lia|]. cbn [mbind option_bind].
  destruct (steady_add o cap idx idx p side Hb ltac:(lia) Hp32) as (o' & Ha & Hb').
  destruct (timed_spec _ _ c Ha) as (ns & c' & -> & Hns). cbn [mbind option_bind].
  eexists. split; [done|]. split; [done|by apply recorded_record].
Qed.

Lemma bench_add_order_spec (c : C) :
  exists book p c', bench_add_order (R := R) c = Some (book, p, c') /\
    steady book (total + 10) total 100 total /\ sound_report kMeasuredIterations p.
Proof.
  unfold bench_add_order. fold total. assert (total = 110000) as Htotal by done.
  destruct (steady_make (total + 10) 100) as (b0 & -> & H0); [lia|]. cbn [mbind option_bind].
  destruct (draw_inputs_spec total (seeded 42)) as (prices & sides & r & -> & Hp & Hs & Hok); [lia|].
  cbn [mbind option_bind].
  edestruct (for_loop_rule (fun i o => steady o (total + 10) i 100 i)) as (b1 & -> & H1); [done|exact H0| |].
  { intros j b Hj Hb. unfold kWarmupIterations in Hj. apply warm_add_step; [done|lia..|done]. }
  cbn [mbind option_bind].
  edestruct (for_loop_rule (fun i (st : Observed * Histogram.t * C) =>
      steady st.1.1 (total + 10) (kWarmupIterations + i) 100 (kWarmupIterations + i) /\ recorded st.1.2 i))
    as ([[b2 hist] c2] & -> & H2 & H3); [done| | |].
  { split; [cbn; by rewrite Z.add_0_r|apply recorded_make]. }
  { intros j st Hj Hst. unfold kMeasuredIterations in Hj.
    apply measured_add_step; unfold kWarmupIterations in *; [done|lia..|done]. }
  cbn [mbind option_bind fst snd] in *.
  destruct (compute_sound hist kMeasuredIterations H3) as (p & -> & Hrep); [done|]. cbn [mbind option_bind].
  by exists b2, p, c2.
Qed.

Lemma warm_reductions_step prices cap j (books : Observed * Observed) :
  prices_ok prices -> 0 <= j < Z.of_nat (length prices) -> j < cap ->
  steady books.1 cap j 50 (2 * j) /\ steady books.2 cap j 50 (2 * j) ->
  exists books', warm_reductions prices j books = Some books' /\
    steady books'.1 cap (j + 1) 50 (2 * (j + 1)) /\ steady books'.2 cap (j + 1) 50 (2 * (j + 1)).
Proof.
  intros Hok Hj Hcap [H1 H2]. destruct books as [b1 b2]. cbn [fst snd] in *. unfold warm_reductions.
  destruct (price_at prices j Hok Hj) as (p & -> & Hp). cbn [mbind option_bind].
  destruct (steady_reduce cancel_order b1 cap j (2 * j) (j + 1) p ltac:(done) H1 ltac:(lia) Hcap Hp)
    as (b1' & b1'' & _ & -> & Hr1 & Hn1 & _). cbn [mbind option_bind]. rewrite Hr1. cbn [mbind option_bind].
  destruct (steady_reduce execute_order b2 cap j (2 * j) (j + 1) p ltac:(done) H2 ltac:(lia) Hcap Hp)
    as (b2' & b2'' & _ & -> & Hr2 & Hn2 & _). cbn [mbind option_bind]. rewrite Hr2. cbn [mbind option_bind].
  eexists. split; [done|]. replace (2 * (j + 1)) with (2 * j + 2) by lia. by split; [apply Hn1|apply Hn2].
Qed.

(** The measured order is gone after its two reductions. *)
Lemma measured_reduction_step op prices idx o cap n calls h m (c : C) :
  (forall b ref s, op b ref s = reduce_shares b ref s) ->
  prices_ok prices -> 0 <= n <= idx -> idx < Z.of_nat (length prices) -> n < cap ->
  steady o cap n 50 calls -> recorded h m ->
  exists o' h' c', measured_reduction op prices idx o h c = Some (o', h', c') /\
    steady o' cap n 50 (calls + 3) /\ recorded h' (m + 1).
Proof.
  intros Hop Hok Hn Hidx Hcap Ho Hh. unfold measured_reduction. cbn zeta.
  destruct (price_at prices idx Hok ltac:(lia)) as (p & -> & Hp). cbn [mbind option_bind].
  destruct (steady_reduce op o cap n calls (idx + 1) p Hop Ho ltac:(lia) Hcap Hp)
    as (o1 & o2 & o3 & -> & Hr2 & _ & Hr3 & H3). cbn [mbind option_bind].
  destruct (timed_spec _ _ c Hr2) as (ns & c' & -> & Hns). cbn [mbind option_bind].
  rewrite Hr3. cbn [mbind option_bind]. eexists _, _, _. split; [done|].
  by split; [|apply recorded_record].
Qed.

(** Two calls for each order of the warm-up, three for each measured one. *)
Definition reduction_calls : Z := 2 * kWarmupIterations + 3 * kMeasuredIterations.

Lemma bench_cancel_and_execute_spec (c : C) :
  exists cancel_book execute_book p q c',
    bench_cancel_and_execute (R := R) c = Some (cancel_book, execute_book, p, q, c') /\
    steady cancel_book (total + 10) kWarmupIterations 50 reduction_calls /\
    steady execute_book (total + 10) kWarmupIterations 50 reduction_calls /\
    sound_report kMeasuredIterations p /\ sound_report kMeasuredIterations q.
Proof.
  unfold bench_cancel_and_execute. fold total. assert (total = 110000) as Htotal by done.
  destruct (steady_make (total + 10) 50) as (b0 & Hm & H0); [lia|]. rewrite Hm. cbn [mbind option_bind].
  destruct (draw_prices_spec total (seeded 7)) as (prices & r & -> & Hp & Hok); [lia|].
  cbn [mbind option_bind].
  edestruct (for_loop_rule (fun i (s : Observed * Observed) =>
      steady s.1 (total + 10) i 50 (2 * i) /\ steady s.2 (total + 10) i 50 (2 * i)))
    as ([cb eb] & -> & H1 & H2); [done|by split| |].
  { intros j s Hj Hs. unfold kWarmupIterations in Hj. apply warm_reductions_step; [done|lia..|done]. }
  cbn [mbind option_bind fst snd] in *.
  edestruct (for_loop_rule (fun i (s : Observed * Histogram.t * (Observed * Histogram.t) * C) =>
      let calls := 2 * kWarmupIterations + 3 * i in
      (steady s.1.1.1 (total + 10) kWarmupIterations 50 calls /\ recorded s.1.1.2 i) /\
      steady s.1.2.1 (total + 10) kWarmupIterations 50 calls /\ recorded s.1.2.2 i))
    as ([[[cb' ch] [eb' eh]] c'] & -> & [H3 H4] & H5 & H6); [done| | |].
  { cbn [fst snd]. rewrite Z.mul_0_r, Z.add_0_r. split_and!; try done; apply recorded_make. }
  { intros j [[[b1 h1] [b2 h2]] c1] Hj [[Hb1 Hh1] [Hb2 Hh2]]. unfold kMeasuredIterations in Hj.
    cbn [fst snd] in *. unfold measured_reductions. cbn zeta.
    assert (0 <= kWarmupIterations <= kWarmupIterations + j) as Hj' by (unfold kWarmupIterations; lia).
    assert (kWarmupIterations + j < Z.of_nat (length prices)) as Hidx by (unfold kWarmupIterations; lia).
    replace (2 * kWarmupIterations + 3 * (j + 1)) with (2 * kWarmupIterations + 3 * j + 3) by lia.
    destruct (measured_reduction_step cancel_order prices _ b1 (total + 10) _ _ h1 j c1 ltac:(done) Hok Hj' Hidx
      ltac:(unfold kWarmupIterations; lia) Hb1 Hh1) as (b1' & h1' & c2 & -> & Hb1' & Hh1').
    cbn [mbind option_bind].
    destruct (measured_reduction_step execute_order prices _ b2 (total + 10) _ _ h2 j c2 ltac:(done) Hok Hj' Hidx
      ltac:(unfold kWarmupIterations; lia) Hb2 Hh2) as (b2' & h2' & c3 & -> & Hb2' & Hh2').
    by eexists. }
  cbn [mbind option_bind fst snd] in *.
  destruct (compute_sound ch kMeasuredIterations H4) as (p & -> & Hrp); [done|]. cbn [mbind option_bind].
  destruct (compute_sound eh kMeasuredIterations H6) as (q & -> & Hrq); [done|]. cbn [mbind option_bind].
  by exists cb', eb', p, q, c'.
Qed.

Lemma time_query_spec {A} (query : ub A) (a : A) (c : C) :
  query = Some a ->
  exists h c', time_query query c = Some (h, c') /\ recorded h kMeasuredIterations.
Proof.
  intros Hq.
  assert (exists st, time_query query c = Some st /\ recorded st.1 kMeasuredIterations) as ([h c'] & ? & ?);
    [|by exists h, c'].
  apply (for_loop_rule (fun i (s : Histogram.t * C) => recorded s.1 i)); [done|apply recorded_make|].
  intros j [h c1] Hj Hh. cbn [fst snd] in *. destruct (timed_spec _ _ c1 Hq) as (ns & c2 & -> & Hns).
  cbn [mbind option_bind]. eexists. split; [done|]. by apply recorded_record.
Qed.

Lemma bench_queries_spec (c : C) :
  exists book p q c', bench_queries (R := R) c = Some (book, p, q, c') /\
    steady book (kRestingOrders + 10) kRestingOrders 100 kRestingOrders /\
    sound_report kMeasuredIterations p /\ sound_report kMeasuredIterations q.
Proof.
  unfold bench_queries. assert (kRestingOrders = 5000) as Hk by done.
  destruct (steady_make (kRestingOrders + 10) 100) as (b0 & -> & H0); [lia|]. cbn [mbind option_bind].
  edestruct (for_loop_rule (fun i (s : Observed * R) => steady s.1 (kRestingOrders + 10) i 100 i))
    as ([b r] & -> & Hb); [done|exact H0| |].
  { intros j [b r] Hj Hn. cbn [fst] in *. unfold add_resting. pose proof (jittered_price_range r) as Hp.
    destruct (draw_price r) as [p r']. cbn [fst] in Hp.
    destruct (steady_add b _ j j p (j mod 2 =? 0) Hn ltac:(lia) Hp) as (b' & -> & Hn'). by eexists. }
  cbn [mbind option_bind fst] in *.
  edestruct (for_loop_rule (fun _ (_ : option Z) => True)) as (warm & -> & _); [done|done| |].
  { intros j a _ _. by eexists. }
  cbn [mbind option_bind].
  destruct (time_query_spec (Some (best_bid (the_book b))) _ c eq_refl) as (h1 & c1 & -> & H1). cbn [mbind option_bind].
  assert (exists l, Rep (the_book b) l) as [l HR] by (destruct Hb as [(l & HR & _) _]; by exists l).
  assert (shares_at (the_book b) kRef true = Some (u32 (Spec.shares_at true kRef l))) as Hs
    by (apply shares_at_rep; done).
  destruct (time_query_spec _ _ c1 Hs) as (h2 & c2 & -> & H2). cbn [mbind option_bind].
  destruct (compute_sound h1 kMeasuredIterations H1) as (p & -> & Hrp); [done|]. cbn [mbind option_bind].
  destruct (compute_sound h2 kMeasuredIterations H2) as (q & -> & Hrq); [done|]. cbn [mbind option_bind].
  by exists b, p, q, c2.
Qed.

Lemma book_main_spec (os : Affinity) (c : C) :
  exists added cancelled executed best at_price,
    main (R := R) os c = Some
      [Pinning (pin_current_thread_to_cpu os 0); Config kWarmupIterations kMeasuredIterations;
       Report "OrderBook::add_order"%string added;
       Report "OrderBook::cancel_order"%string cancelled;
       Report "OrderBook::execute_order"%string executed;
       Report "OrderBook::best_bid"%string best;
       Report "OrderBook::shares_at"%string at_price] /\
    Forall (sound_report kMeasuredIterations) [added; cancelled; executed; best; at_price].
Proof.
  destruct (bench_add_order_spec c) as (b1 & added & c1 & E1 & _ & H1).
  destruct (bench_cancel_and_execute_spec c1) as (b2 & b3 & cancelled & executed & c2 & E2 & _ & _ & H2 & H3).
  destruct (bench_queries_spec c2) as (b4 & best & at_price & c3 & E3 & _ & H4 & H5).
  exists added, cancelled, executed, best, at_price.
  split; [|repeat (apply Forall_cons_2; [assumption|]); apply Forall_nil_2]. unfold main.
  eapply bind_some; [exact E1|]. eapply bind_some; [exact E2|]. eapply bind_some; [exact E3|reflexivity].
Qed.
End proofs.
End BenchOrderBook.
