(* ===== verification/BenchEngine.v ===== *)
(** * bench/bench_matching_engine_latency.cpp: the matching engine benchmarks

    The three benchmarks and [main] over any clock.  The engine is a template in
    its event handler, and so are the loops here; the program passes [NullHandler],
    which drops every event.  The invariants say which events each iteration
    causes: one full fill, one rest, or one partial fill and a kill. *)

From S2P Require Import Prelude StdModel HashMap IntrusiveList ObjectPool OrderBook BookSpec.
From S2P Require Import BookInvariant BookBest BookRefinement BookOps BookQueries.
From S2P Require Import BookInterface MatchingEngine MatchingSpec MatchingProofs Liquidity.
From S2P Require Import Submit Session ByteOrder Printf LatencyHistogram Bench.
From Stdlib Require Strings.String.
Import (notations) Strings.String.

Local Open Scope Z_scope.

Module BenchEngine.

Definition kRef : Z := 1000000.
Definition kHalfWidth : Z := 5000.

(** [print_report]. *)
Definition report_format : list byte :=
  Printf.text "%-40s n=%-8zu mean=%8.1fns  p50=%6lldns  p90=%6lldns  p99=%6lldns  p99.9=%6lldns  max=%8lldns"%string ++ [Printf.newline].

Definition print_report (name : String.string) (p : Histogram.Percentiles) : ub (list byte) :=
  Printf.printf report_format (report_args name p).
Definition total_iterations : Z := kWarmupIterations + kMeasuredIterations.

(** Discards every event. *)
Inductive NullHandler := MkNull.

#[global] Instance null_handler : EventHandler NullHandler := {|
  on_fill h _ := h;
  on_rest h _ := h;
  on_kill h _ := h
|}.

Section bench.
Context {H C : Type} `{!EventHandler H, !Clock C}.

(** The book, the handler and the two reference counters. *)
Record bench_state := MkBench {
  book : OrderBook;
  handler : H;
  next_resting_ref : Z;
  next_incoming_ref : Z
}.

(** The lambda [run_one]: an ask for the incoming order to meet. *)
Definition run_one (resting_quantity : Z) (type : OrderType) (s : bench_state)
    : ub (bench_state * IncomingOrder) :=
  '(b, _) ← add_order (book s) (next_resting_ref s) kRef resting_quantity false 0;
  Some (MkBench b (handler s) (next_resting_ref s +u64 1) (next_incoming_ref s +u64 1),
        MkIncoming (next_incoming_ref s) kRef 100 true type 0).

Definition engine_submit (s : bench_state) (order : IncomingOrder) : ub bench_state :=
  '(b, h) ← submit false (book s) (handler s) order;
  Some (MkBench b h (next_resting_ref s) (next_incoming_ref s)).

Definition warm_match (resting_quantity : Z) (type : OrderType) (_ : Z) (s : bench_state) : ub bench_state :=
  '(s, order) ← run_one resting_quantity type s;
  engine_submit s order.

Definition measured_match (resting_quantity : Z) (type : OrderType) (_ : Z)
    (st : bench_state * Histogram.t * C) : ub (bench_state * Histogram.t * C) :=
  let '(s, hist, c) := st in
  '(s, order) ← run_one resting_quantity type s;
  '(s, ns, c) ← timed (engine_submit s order) c;
  Some (s, Histogram.record hist ns, c).

Definition bench_match (resting_quantity : Z) (type : OrderType) (h : H) (c : C)
    : ub (bench_state * Histogram.Percentiles * C) :=
  b ← make kRef kHalfWidth (total_iterations + 10);
  s ← for_loop kWarmupIterations (warm_match resting_quantity type)
        (MkBench b h 1 (total_iterations + 1));
  '(s, hist, c) ← for_loop kMeasuredIterations (measured_match resting_quantity type)
        (s, Histogram.make kMeasuredIterations, c);
  p ← Histogram.compute hist;
  Some (s, p, c).

Definition bench_immediate_full_match (h : H) (c : C) := bench_match 100 Limit h c.
Definition bench_ioc_partial_fill (h : H) (c : C) := bench_match 50 IOC h c.

Definition warm_rest (i : Z) (s : OrderBook * H) : ub (OrderBook * H) :=
  submit false s.1 s.2 (MkIncoming (i + 1) kRef 100 true Limit 0).

Definition measured_rest (i : Z) (st : OrderBook * H * Histogram.t * C)
    : ub (OrderBook * H * Histogram.t * C) :=
  let '(b, h, hist, c) := st in
  let ref := kWarmupIterations + i + 1 in
  '((b, h), ns, c) ← timed (submit false b h (MkIncoming ref kRef 100 true Limit 0)) c;
  Some (b, h, Histogram.record hist ns, c).

Definition bench_rests_no_match (h : H) (c : C) : ub (OrderBook * H * Histogram.Percentiles * C) :=
  b ← make kRef kHalfWidth (total_iterations + 10);
  '(b, h) ← for_loop kWarmupIterations warm_rest (b, h);
  '(b, h, hist, c) ← for_loop kMeasuredIterations measured_rest (b, h, Histogram.make kMeasuredIterations, c);
  p ← Histogram.compute hist;
  Some (b, h, p, c).
End bench.
Arguments bench_state : clear implicits.

Definition main {C} `{!Clock C} (os : Affinity) (c : C) : ub (list line) :=
  '(_, matched, c) ← bench_immediate_full_match MkNull c;
  '(_, _, rested, c) ← bench_rests_no_match MkNull c;
  '(_, partial, _) ← bench_ioc_partial_fill MkNull c;
  Some [Pinning (pin_current_thread_to_cpu os 0); Config kWarmupIterations kMeasuredIterations;
        Report "MatchingEngine::submit (full match)"%string matched;
        Report "MatchingEngine::submit (rests, no match)"%string rested;
        Report "MatchingEngine::submit (IOC partial fill)"%string partial].

(** ** One iteration, on the abstract book *)

Definition the_ask (ref q : Z) : Rest := MkRest ref kRef q false 0.
Definition the_order (ref : Z) (type : OrderType) : IncomingOrder := MkIncoming ref kRef 100 true type 0.

Lemma spec_match cap resting incoming q type :
  type = Limit \/ type = IOC -> q = 100 \/ (q = 50 /\ type = IOC) ->
  spec_submit false cap [the_ask resting q] (the_order incoming type) =
    ([], Fill (MkFill incoming resting kRef q) ::
         (if q =? 100 then [] else [Killed (MkKill incoming (100 - q))])).
Proof.
  intros Ht Hq. assert (Z.min 100 q = q) as Hmin by lia.
  assert (candidates false (the_order incoming type) [the_ask resting q] = [the_ask resting q]) as Hc.
  { unfold candidates, priority. destruct Ht as [->| ->]; reflexivity. }
  assert (after_fills [the_ask resting q] [(the_ask resting q, q)] = []) as Ha.
  { pose proof (reduce_newest [] resting kRef q false q) as Hr. cbn [app] in Hr.
    unfold after_fills, the_ask. cbn [foldl fst snd r_ref].
    rewrite Hr, Z.eqb_refl by (lia || by intros r ?%not_elem_of_nil). done. }
  unfold spec_submit. cbn [in_quantity the_order in_type]. rewrite Hc. cbn [alloc r_shares the_ask].
  change (100 <=? 0) with false. cbn iota. rewrite Hmin. fold (the_ask resting q). rewrite Ha.
  destruct Ht as [->| ->], Hq as [->|[-> Ht]]; try done; reflexivity.
Qed.

Lemma spec_rest cap l incoming :
  (forall r, r ∈ l -> r_buy r = true /\ r_ref r <> incoming) -> Z.of_nat (length l) < cap ->
  spec_submit false cap l (the_order incoming Limit) =
    (l ++ [MkRest incoming kRef 100 true 0], [Rested (MkRestEvent incoming kRef 100 true)]).
Proof.
  intros Hl Hcap.
  assert (candidates false (the_order incoming Limit) l = []) as Hc.
  { unfold candidates, priority. rewrite (filter_none (fun r => r_buy r = negb _)); [done|].
    intros r Hr. destruct (Hl r Hr) as [-> _]. done. }
  unfold spec_submit. rewrite Hc. cbn [in_quantity the_order in_type alloc after_fills foldl filled].
  change (100 =? 0) with false. change (bool_decide _ && _) with false. cbn iota.
  change (100 - sumZ snd []) with 100. change (100 =? 0) with false. cbn iota.
  unfold Spec.add. cbn [in_ref in_price in_is_buy in_trader the_order].
  change (100 =? 0) with false. cbn iota.
  rewrite (proj2 (Spec.find_ref_None incoming l)) by (intros r Hr; by apply Hl).
  by rewrite (proj2 (Z.ltb_lt _ _) Hcap).
Qed.

(** ** The loops *)

(** What iteration number [i] of a matching benchmark causes. *)
Definition match_event (q i : Z) : list Event :=
  Fill (MkFill (total_iterations + 1 + i) (i + 1) kRef q) ::
  (if q =? 100 then [] else [Killed (MkKill (total_iterations + 1 + i) (100 - q))]).

Definition rest_event (i : Z) : list Event := [Rested (MkRestEvent (i + 1) kRef 100 true)].

(** The events of the first [n] iterations. *)
Definition events_upto (event : Z -> list Event) (n : Z) : list Event := concat (event <$> seqZ 0 n).

Lemma events_upto_0 event : events_upto event 0 = [].
Proof. done. Qed.

Lemma events_upto_step event n : 0 <= n -> events_upto event (n + 1) = events_upto event n ++ event n.
Proof.
  intros Hn. unfold events_upto. rewrite seqZ_app, fmap_app, concat_app by lia. f_equal.
  rewrite Z.add_0_l. cbn. apply app_nil_r.
Qed.

Section proofs.
Context {H C : Type} `{!EventHandler H, !Clock C, !SteadyClock C}.
Implicit Types (s : bench_state H) (h : H) (c : C).

Lemma total_value : total_iterations = 110000.
Proof. done. Qed.

(** The state between two iterations of a matching benchmark: nothing rests. *)
Record between (q : Z) h0 (n : Z) s : Prop := MkBetween {
  bt_rep : Rep (book s) [];
  bt_best : best_exact (book s) [];
  bt_cap : book_capacity (book s) = total_iterations + 10;
  bt_resting : next_resting_ref s = n + 1;
  bt_incoming : next_incoming_ref s = total_iterations + 1 + n;
  bt_handler : handler s = foldl notify h0 (events_upto (match_event q) n)
}.

Lemma match_iteration q type h0 n s :
  type = Limit \/ type = IOC -> q = 100 \/ (q = 50 /\ type = IOC) ->
  0 <= n < total_iterations -> between q h0 n s ->
  exists s1 order s2, run_one q type s = Some (s1, order) /\ engine_submit s1 order = Some s2 /\
    between q h0 (n + 1) s2.
Proof.
  intros Ht Hq Hn [HR He Hcap Hr Hi Hh]. pose proof total_value as Htot. unfold run_one. rewrite Hr, Hi.
  destruct (add_fresh (book s) [] (n + 1) kRef q false HR) as (b1 & -> & HR1 & Hc1 & He1);
    [by intros r ?%not_elem_of_nil|cbn; lia|done|lia|].
  cbn [mbind option_bind]. eexists _, _. rewrite !u64_small by lia.
  destruct (submit_in_bounds false b1 (handler s) [the_ask (n + 1) q]
    (the_order (total_iterations + 1 + n) type) HR1 (He1 He)) as (b2 & Hs & HR2 & He2 & Hc2);
    [cbn; lia|split; cbn; [lia|done]|].
  rewrite spec_match in Hs, HR2, He2 by done. cbn [fst snd] in *.
  eexists. split; [done|]. unfold engine_submit. cbn [book handler]. fold (the_order (total_iterations + 1 + n) type).
  rewrite Hs. cbn [mbind option_bind]. split; [done|].
  split; cbn [book handler next_resting_ref next_incoming_ref]; [done|done|congruence|lia|lia|].
  rewrite events_upto_step, foldl_app, Hh by lia. done.
Qed.

Lemma warm_match_step q type h0 n s :
  type = Limit \/ type = IOC -> q = 100 \/ (q = 50 /\ type = IOC) ->
  0 <= n < total_iterations -> between q h0 n s ->
  exists s', warm_match q type n s = Some s' /\ between q h0 (n + 1) s'.
Proof.
  intros Ht Hq Hn Hb. destruct (match_iteration q type h0 n s Ht Hq Hn Hb) as (s1 & order & s2 & Ho & Hs & Hb2).
  exists s2. unfold warm_match. by rewrite Ho.
Qed.

Lemma measured_match_step q type h0 j (st : bench_state H * Histogram.t * C) :
  type = Limit \/ type = IOC -> q = 100 \/ (q = 50 /\ type = IOC) ->
  0 <= j < kMeasuredIterations -> between q h0 (kWarmupIterations + j) st.1.1 /\ recorded st.1.2 j ->
  exists st', measured_match q type j st = Some st' /\
    between q h0 (kWarmupIterations + (j + 1)) st'.1.1 /\ recorded st'.1.2 (j + 1).
Proof.
  intros Ht Hq Hj [Hb Hh]. destruct st as [[s hist] c]. cbn [fst snd] in *.
  assert (0 <= kWarmupIterations + j < total_iterations) as Hn
    by (unfold total_iterations, kWarmupIterations in *; lia).
  destruct (match_iteration q type h0 _ s Ht Hq Hn Hb) as (s1 & order & s2 & Ho & Hs & Hb2).
  unfold measured_match. rewrite Ho. cbn [mbind option_bind].
  destruct (timed_spec _ _ c Hs) as (ns & c' & -> & Hns). cbn [mbind option_bind].
  eexists. split; [done|]. rewrite Z.add_assoc. split; [done|by apply recorded_record].
Qed.

Lemma bench_match_spec q type h c :
  type = Limit \/ type = IOC -> q = 100 \/ (q = 50 /\ type = IOC) ->
  exists s p c', bench_match q type h c = Some (s, p, c') /\ Rep (book s) [] /\
    handler s = foldl notify h (events_upto (match_event q) total_iterations) /\
    sound_report kMeasuredIterations p.
Proof.
  intros Ht Hq. unfold bench_match.
  destruct (make_rep kRef kHalfWidth (total_iterations + 10)) as (b & -> & HR & He & Hcap); [done..|].
  cbn [mbind option_bind].
  edestruct (for_loop_rule (fun i s => between q h i s)) as (s1 & -> & H1); [done|by split| |].
  { intros j s Hj. apply warm_match_step; [done|done|]. unfold total_iterations, kMeasuredIterations. lia. }
  cbn [mbind option_bind].
  edestruct (for_loop_rule (fun i (st : bench_state H * Histogram.t * C) =>
      between q h (kWarmupIterations + i) st.1.1 /\ recorded st.1.2 i))
    as ([[s2 hist] c2] & -> & H2 & H3); [done| | |].
  { split; [cbn; by rewrite Z.add_0_r|apply recorded_make]. }
  { intros j st Hj. by apply measured_match_step. }
  cbn [mbind option_bind fst snd] in *.
  destruct (compute_sound hist _ H3) as (p & -> & Hp); [done|]. cbn [mbind option_bind].
  exists s2, p, c2. split_and!; [done|apply H2|apply H2|done].
Qed.

Lemma full_match_spec h c :
  exists s p c', bench_immediate_full_match h c = Some (s, p, c') /\ Rep (book s) [] /\
    handler s = foldl notify h (events_upto (match_event 100) total_iterations) /\
    sound_report kMeasuredIterations p.
Proof. apply bench_match_spec; by left. Qed.

Lemma ioc_partial_fill_spec h c :
  exists s p c', bench_ioc_partial_fill h c = Some (s, p, c') /\ Rep (book s) [] /\
    handler s = foldl notify h (events_upto (match_event 50) total_iterations) /\
    sound_report kMeasuredIterations p.
Proof. apply bench_match_spec; by right. Qed.

(** [n] buy orders rest, all at [kRef]. *)
Definition buys (b : OrderBook) h0 (n : Z) h : Prop :=
  exists l, Rep b l /\ best_exact b l /\ Z.of_nat (length l) = n /\ total_shares l = 100 * n /\
    (forall r, r ∈ l -> r_buy r = true /\ 1 <= r_ref r <= n) /\
    book_capacity b = total_iterations + 10 /\ h = foldl notify h0 (events_upto rest_event n).

Lemma rest_iteration h0 n b h :
  0 <= n < total_iterations -> buys b h0 n h ->
  exists b' h', submit false b h (the_order (n + 1) Limit) = Some (b', h') /\ buys b' h0 (n + 1) h'.
Proof.
  intros Hn (l & HR & He & Hl & Ht & Hf & Hcap & Hh). pose proof total_value as Htot.
  destruct (submit_in_bounds false b h l (the_order (n + 1) Limit) HR He) as (b' & Hs & HR' & He' & Hc');
    [lia|split; cbn; [lia|done]|].
  rewrite spec_rest in Hs, HR', He' by (lia || (intros r Hr; specialize (Hf r Hr); split; [tauto|lia])).
  cbn [fst snd] in *. eexists b', _. split; [exact Hs|]. eexists. split_and!; [done|done| | | |congruence|].
  - rewrite length_app. cbn. lia.
  - unfold total_shares in *. rewrite sumZ_app. cbn. lia.
  - intros r [Hr| ->%list_elem_of_singleton]%elem_of_app; [specialize (Hf r Hr); split; [tauto|lia]|cbn; lia].
  - by rewrite events_upto_step, foldl_app, Hh by lia.
Qed.

Lemma bench_rests_spec h c :
  exists b h' p c', bench_rests_no_match h c = Some (b, h', p, c') /\
    order_count b = total_iterations /\
    h' = foldl notify h (events_upto rest_event total_iterations) /\
    sound_report kMeasuredIterations p.
Proof.
  unfold bench_rests_no_match. pose proof total_value as Htot.
  destruct (make_rep kRef kHalfWidth (total_iterations + 10)) as (b & -> & HR & He & Hcap); [done..|].
  cbn [mbind option_bind].
  edestruct (for_loop_rule (fun i (s : OrderBook * H) => buys s.1 h i s.2)) as ([b1 h1] & -> & H1);
    [done| | |].
  { exists []. split_and!; try done. by intros r ?%not_elem_of_nil. }
  { intros j [b1 h1] Hj Hb. unfold kWarmupIterations in Hj. unfold warm_rest. cbn [fst snd] in *.
    destruct (rest_iteration h j b1 h1 ltac:(lia) Hb) as (b' & h' & Hs & Hb'). by exists (b', h'). }
  cbn [mbind option_bind].
  edestruct (for_loop_rule (fun i (s : OrderBook * H * Histogram.t * C) =>
      buys s.1.1.1 h (kWarmupIterations + i) s.1.1.2 /\ recorded s.1.2 i))
    as ([[[b2 h2] hist] c2] & -> & H2 & H3); [done| | |].
  { cbn [fst snd]. rewrite Z.add_0_r. split; [done|apply recorded_make]. }
  { intros j [[[b3 h3] hist] c3] Hj [Hb Hh]. cbn [fst snd] in *. unfold measured_rest. cbn zeta.
    assert (0 <= kWarmupIterations + j < total_iterations) as Hn
      by (unfold total_iterations, kWarmupIterations in *; lia).
    destruct (rest_iteration h _ b3 h3 Hn Hb) as (b' & h' & Hs & Hb').
    destruct (timed_spec _ _ c3 Hs) as (ns & c' & Heq & Hns). unfold the_order in Heq. rewrite Heq.
    cbn [mbind option_bind]. eexists. split; [done|]. cbn [fst snd]. rewrite Z.add_assoc.
    split; [done|by apply recorded_record]. }
  cbn [mbind option_bind fst snd] in *.
  destruct (compute_sound hist _ H3) as (p & -> & Hp); [done|]. cbn [mbind option_bind].
  destruct H2 as (l & HR2 & _ & Hl & _ & _ & _ & Hh2). eexists b2, h2, p, c2. split_and!; [done| |done|done].
  by rewrite (order_count_rep b2 l HR2).
Qed.

End proofs.

Lemma engine_main_spec {C} `{!Clock C, !SteadyClock C} (os : Affinity) (c : C) :
  exists matched rested partial,
    main os c = Some
      [Pinning (pin_current_thread_to_cpu os 0); Config kWarmupIterations kMeasuredIterations;
       Report "MatchingEngine::submit (full match)"%string matched;
       Report "MatchingEngine::submit (rests, no match)"%string rested;
       Report "MatchingEngine::submit (IOC partial fill)"%string partial] /\
    Forall (sound_report kMeasuredIterations) [matched; rested; partial].
Proof.
  destruct (full_match_spec MkNull c) as (s1 & p1 & c1 & E1 & _ & _ & Hp1).
  destruct (bench_rests_spec MkNull c1) as (b2 & h2 & p2 & c2 & E2 & _ & _ & Hp2).
  destruct (ioc_partial_fill_spec MkNull c2) as (s3 & p3 & c3 & E3 & _ & _ & Hp3).
  exists p1, p2, p3. split; [|repeat (apply Forall_cons_2; [assumption|]); apply Forall_nil_2]. unfold main.
  eapply bind_some; [exact E1|]. eapply bind_some; [exact E2|]. eapply bind_some; [exact E3|reflexivity].
Qed.
End BenchEngine.
