(* ===== verification/BenchRing.v ===== *)
(** * bench/bench_ring_buffer_latency.cpp: the ring benchmarks

    The single-threaded push/pop loop, and the two-thread throughput run, which is
    the handoff of Handoff.v with a counter on the producer's side and nothing but
    the count of items on the consumer's. *)

From S2P Require Import Prelude StdModel SpscRing Handoff HandoffProofs Fairness.
From S2P Require Import Float64 ByteOrder Printf LatencyHistogram Bench.
From stdpp Require Import relations.
From Stdlib Require Strings.String.
Import (notations) Strings.String.

Local Open Scope Z_scope.

Module BenchRing.

(** [print_report]. *)
Definition report_format : list byte :=
  Printf.text "%-40s n=%-8zu mean=%8.1fns  p50=%6lldns  p90=%6lldns  p99=%6lldns  p99.9=%6lldns  max=%8lldns"%string ++ [Printf.newline].

Definition print_report (name : String.string) (p : Histogram.Percentiles) : ub (list byte) :=
  Printf.printf report_format (report_args name p).

(** ** One thread *)

Section single.
Context {C : Type} `{!Clock C}.

Definition warm_push_pop (i : Z) (ring : @Ring.t Z) : ub (@Ring.t Z) :=
  '(ring, _) ← Ring.push ring i;
  '(ring, _, _) ← Ring.pop ring 0;
  Some ring.

Definition measured_push_pop (i : Z) (st : @Ring.t Z * Histogram.t * Histogram.t * C)
    : ub (@Ring.t Z * Histogram.t * Histogram.t * C) :=
  let '(ring, push_hist, pop_hist, c) := st in
  '((ring, _), push_ns, c) ← timed (Ring.push ring i) c;
  '((ring, _, _), pop_ns, c) ← timed (Ring.pop ring 0) c;
  Some (ring, Histogram.record push_hist push_ns, Histogram.record pop_hist pop_ns, c).

Definition bench_single_threaded_push_pop (c : C)
    : ub (@Ring.t Z * Histogram.Percentiles * Histogram.Percentiles * C) :=
  ring ← Ring.make 0 1024;
  ring ← for_loop kWarmupIterations warm_push_pop ring;
  '(ring, push_hist, pop_hist, c) ← for_loop kMeasuredIterations measured_push_pop
    (ring, Histogram.make kMeasuredIterations, Histogram.make kMeasuredIterations, c);
  pushed ← Histogram.compute push_hist;
  popped ← Histogram.compute pop_hist;
  Some (ring, pushed, popped, c).
End single.

(** ** Two threads *)

Definition kCapacity : Z := 4096.
Definition kItemCount : Z := 20000000.

(** The producer's [for (i = 0; i < kItemCount; ++i)]; the consumer only counts,
    and the handoff does that. *)
#[global] Instance counter : Workload Z Z unit := {|
  produce i := Some (if i <? kItemCount then Some (Some i, i + 1) else None);
  consume _ _ := Some tt
|}.

Definition state : Type := Handoff.state Z Z unit.

Definition start : ub state := Handoff.initial 0 0 tt kCapacity.

Definition received_count (s : state) : Z := Handoff.processed s.

(** What is printed after both joins, from the clock readings around the run. *)
Definition throughput_report (producer_pinned consumer_pinned : bool) (s : state) (begin_ns end_ns : Z)
    : list line :=
  let seconds := div (of_int (end_ns - begin_ns)) (of_int 1000000000) in
  let items_per_sec := div (of_int (received_count s)) seconds in
  [PinnedPair producer_pinned consumer_pinned;
   Throughput (received_count s) seconds (div items_per_sec (of_int 1000000))].

(** A complete run of [bench_two_thread_throughput], in some interleaving. *)
Inductive bench_two_thread_throughput {C} `{!Clock C} (c : C) : list line -> Prop :=
  | throughput_run s0 s p q :
      start = Some s0 -> rtc Handoff.step s0 s -> Handoff.joined s ->
      bench_two_thread_throughput c
        (throughput_report p q s (now c).1 (now (now c).2).1).

Inductive main {C} `{!Clock C} (os : Affinity) (c : C) : list line -> Prop :=
  | main_run ring pushed popped c' lines :
      bench_single_threaded_push_pop c = Some (ring, pushed, popped, c') ->
      bench_two_thread_throughput c' lines ->
      main os c
        ([Pinning (pin_current_thread_to_cpu os 0); Config kWarmupIterations kMeasuredIterations;
          Report "SpscRingBuffer::push"%string pushed; Report "SpscRingBuffer::pop"%string popped;
          Blank] ++ lines).

(** ** The single-threaded loop *)

(** [n] values went through and the ring is empty. *)
Definition drained (n : Z) (ring : @Ring.t Z) : Prop :=
  exists sent, Ring.ring_inv ring Ring.PIdle Ring.CIdle sent /\ Z.of_nat (length sent) = n /\
    Ring.pops ring = length sent.

Lemma push_pop n v out ring :
  drained n ring ->
  exists r1 r2, Ring.push ring v = Some (r1, true) /\ Ring.pop r1 out = Some (r2, true, v) /\
    drained (n + 1) r2.
Proof.
  intros (sent & Hi & Hn & Hp). pose proof (Ring.cap_pos _ _ _ _ Hi) as Hcap.
  destruct (Ring.push_spec ring v sent Hi) as (r1 & Hpush & Hi1 & Hp1 & Hc1).
  rewrite Hp, Nat.sub_diag in Hpush, Hi1. rewrite bool_decide_eq_true_2 in Hpush by lia.
  rewrite decide_False in Hi1 by lia.
  destruct (Ring.pop_spec r1 out (sent ++ [v]) Hi1) as (r2 & Hi2 & Hc2 & Hpop).
  rewrite Hp1, Hp, lookup_app_r, Nat.sub_diag in Hpop by lia. cbn in Hpop. destruct Hpop as [Hpop Hp2].
  exists r1, r2. split_and!; [done|done|]. exists (sent ++ [v]). rewrite length_app. cbn.
  split_and!; [done|lia|lia].
Qed.

Section proofs.
Context {C : Type} `{!Clock C, !SteadyClock C}.

Lemma measured_push_pop_step j n (st : @Ring.t Z * Histogram.t * Histogram.t * C) :
  drained n st.1.1.1 /\ recorded st.1.1.2 j /\ recorded st.1.2 j ->
  exists st', measured_push_pop j st = Some st' /\ drained (n + 1) st'.1.1.1 /\
    recorded st'.1.1.2 (j + 1) /\ recorded st'.1.2 (j + 1).
Proof.
  destruct st as [[[ring h1] h2] c]. cbn [fst snd]. intros (Hd & H1 & H2). unfold measured_push_pop.
  destruct (push_pop n j 0 ring Hd) as (r1 & r2 & Hpush & Hpop & Hd2).
  destruct (timed_spec _ _ c Hpush) as (ns1 & c1 & -> & Hns1). cbn [mbind option_bind].
  destruct (timed_spec _ _ c1 Hpop) as (ns2 & c2 & -> & Hns2). cbn [mbind option_bind].
  eexists. split; [done|]. split_and!; [done|by apply recorded_record..].
Qed.

Lemma bench_single_spec (c : C) :
  exists ring p q c', bench_single_threaded_push_pop c = Some (ring, p, q, c') /\
    drained (kWarmupIterations + kMeasuredIterations) ring /\
    sound_report kMeasuredIterations p /\ sound_report kMeasuredIterations q.
Proof.
  unfold bench_single_threaded_push_pop.
  destruct (Ring.make_inv 0 1024) as (r0 & -> & Hi & _ & _ & _ & Hp); [done|]. cbn [mbind option_bind].
  edestruct (for_loop_rule drained kWarmupIterations warm_push_pop r0) as (r1 & -> & H1);
    [done|by exists []| |].
  { intros j r Hj Hd. unfold warm_push_pop. destruct (push_pop j j 0 r Hd) as (r1 & r2 & -> & Hpop & Hd2).
    cbn [mbind option_bind]. rewrite Hpop. by exists r2. }
  cbn [mbind option_bind].
  edestruct (for_loop_rule (fun i (st : @Ring.t Z * Histogram.t * Histogram.t * C) =>
      drained (kWarmupIterations + i) st.1.1.1 /\ recorded st.1.1.2 i /\ recorded st.1.2 i))
    as ([[[r2 h1] h2] c'] & -> & H2 & H3 & H4); [done| | |].
  { cbn [fst snd]. rewrite Z.add_0_r. split_and!; [done|apply recorded_make..]. }
  { intros j st Hj Hst. rewrite Z.add_assoc. by apply measured_push_pop_step. }
  cbn [mbind option_bind fst snd] in *.
  destruct (compute_sound h1 _ H3) as (p & -> & Hp1); [done|]. cbn [mbind option_bind].
  destruct (compute_sound h2 _ H4) as (q & -> & Hq); [done|]. cbn [mbind option_bind].
  by exists r2, p, q, c'.
Qed.
End proofs.

(** ** The two-thread run is a lawful workload *)

#[global] Program Instance counter_laws : WorkloadLaws Z Z unit := {|
  valid i := 0 <= i <= kItemCount;
  todo i := seqZ i (kItemCount - i);
  left_over i := Z.to_nat (kItemCount - i);
  takes _ _ := True
|}.
Next Obligation.
  intros i Hi. cbn in Hi. eexists. split; [done|]. cbn. destruct (Z.ltb_spec i kItemCount).
  - split_and!; [lia..|]. rewrite seqZ_cons by lia. cbn. do 2 f_equal. lia.
  - by rewrite seqZ_nil by lia.
Qed.
Next Obligation. intros b m ms _. by exists tt. Qed.

Definition items : list Z := seqZ 0 kItemCount.

Lemma takes_items : takes tt items.
Proof. done. Qed.

Lemma counting_start_inv : exists s0, start = Some s0 /\ HandoffProofs.inv items tt s0 [].
Proof.
  by apply HandoffProofs.initial_inv.
Qed.

Lemma received_of_inv s sent :
  HandoffProofs.inv items tt s sent -> Handoff.joined s -> received_count s = kItemCount.
Proof.
  intros Hv Hj. destruct (HandoffProofs.joined_result items tt s sent Hv Hj) as (_ & _ & Hc).
  unfold received_count. rewrite Hc. unfold items. rewrite length_seqZ, Z2Nat.id by (unfold kItemCount; lia).
  apply u64_small. unfold kItemCount. lia.
Qed.

Lemma received_all s0 s :
  start = Some s0 -> rtc Handoff.step s0 s -> Handoff.joined s -> received_count s = kItemCount.
Proof.
  intros Hs Hr Hj. destruct counting_start_inv as (s1 & Hs1 & Hv). rewrite Hs in Hs1. injection Hs1 as <-.
  destruct (HandoffProofs.reachable_inv items tt takes_items s0 s) as [sent Hv']; [by exists []|exact Hr|].
  exact (received_of_inv s sent Hv' Hj).
Qed.

Lemma fair_run_delivers run who load seen :
  start = Some (run 0%nat) -> Fairness.fair_run run who load seen ->
  exists k, Handoff.joined (run k) /\ received_count (run k) = kItemCount.
Proof.
  intros Hs Hfair. destruct counting_start_inv as (s1 & Hs1 & Hv). rewrite Hs in Hs1. injection Hs1 as <-.
  assert (exists sent, HandoffProofs.inv items tt (run 0%nat) sent) as Hstart by (exists []; exact Hv).
  destruct (Fairness.fair_run_ends items tt takes_items run who load seen Hfair Hstart) as [k Hj].
  exists k. split; [exact Hj|].
  destruct (Fairness.run_inv items tt takes_items run who load seen Hfair Hstart k) as [sent Hvk].
  exact (received_of_inv (run k) sent Hvk Hj).
Qed.

(** Nothing the threads do can keep them from finishing. *)
Lemma main_runs {C} `{!Clock C, !SteadyClock C} (os : Affinity) (c : C) : exists lines, main os c lines.
Proof.
  destruct (bench_single_spec c) as (ring & pushed & popped & c' & Hs & _).
  destruct counting_start_inv as (s0 & Hs0 & Hv).
  destruct (HandoffProofs.can_finish items tt takes_items s0 [] Hv) as (s & Hr & Hj).
  eexists. eapply main_run; [exact Hs|]. exact (throughput_run c' s0 s true true Hs0 Hr Hj).
Qed.
End BenchRing.
