(* ===== verification/BenchParser.v ===== *)
(** * bench/bench_parser.cpp: the decoder benchmark

    [BM_DecodeThroughput] walks a generated fixture once per benchmark iteration,
    decodes every record and counts it.  The benchmark library decides how many
    iterations there are. *)

From S2P Require Import Prelude StdModel HashMap IntrusiveList ObjectPool ByteOrder Messages Decode.
From S2P Require Import FileReader OrderBook BookSpec BookInvariant BookBest BookRefinement.
From S2P Require Import BookOps BookQueries Feed SpscRing Handoff HandoffProofs Fairness Pipeline.
From S2P Require Import Synth SynthCodec SynthProofs LatencyHistogram Bench.
Import Synth SynthCodec SynthProofs.

Local Open Scope Z_scope.

Module BenchParser.

Definition fixture_symbols : list (list byte) :=
  [["A"; "A"; "P"; "L"]; ["M"; "S"; "F"; "T"]; ["G"; "O"; "O"; "G"; "L"]; ["A"; "M"; "Z"; "N"];
   ["T"; "S"; "L"; "A"]]%byte.

Definition fixture_config (num_orders : Z) : SynthConfig :=
  MkConfig 42 num_orders fixture_symbols 1500000 50000.

Definition kFixtureOrders : Z := 200000.

(** The bytes of the stream, and whether the generator came to its end within
    [fuel] iterations. *)
Definition generate_fixture {R M} `{!Random R, !UnorderedMap LiveOrder M} (fuel : nat) (num_orders : Z)
    : ub (list byte * bool) :=
  generate (R := R) (M := M) (fixture_config num_orders) fuel.

Lemma generate_fixture_eq {R M} `{!Random R, !UnorderedMap LiveOrder M} (fuel : nat) (num_orders : Z) :
  generate_fixture (R := R) (M := M) fuel num_orders =
    generate (R := R) (M := M) (fixture_config num_orders) fuel.
Proof. reflexivity. Qed.

(** The while loop over the fixture; it leaves at a truncated record. *)
Fixpoint decode_pass (fuel : nat) (fixture : list byte) (offset total_messages : Z) : ub Z :=
  match fuel with
  | O => None
  | S fuel =>
      f ← Pipeline.walk_frame fixture offset;
      match f with
      | None => Some total_messages
      | Some (raw, next) =>
          _ ← decode raw;
          decode_pass fuel fixture next (total_messages +u64 1)
      end
  end.

(** The items reported, [SetItemsProcessed(static_cast<int64_t>(total_messages))]. *)
Definition BM_DecodeThroughput (fixture : list byte) (iterations : Z) : ub Z :=
  total_messages ← for_loop iterations (fun _ total_messages =>
    decode_pass (S (length fixture)) fixture 0 total_messages) 0;
  Some (i64 total_messages).

(** One pass counts every record once. *)
Lemma decode_pass_spec fuel fixture offset total :
  Z.of_nat (length fixture) < 2 ^ 63 -> 0 <= offset <= Z.of_nat (length fixture) ->
  (length fixture - Z.to_nat offset < fuel)%nat ->
  decode_pass fuel fixture offset (u64 total) =
    Some (u64 (total + Z.of_nat (length (frames (drop (Z.to_nat offset) fixture))))).
Proof.
  intros Hs. revert offset total. induction fuel as [|fuel IH]; intros offset total Ho Hf; [lia|].
  cbn [decode_pass]. set (r := MkReader (Some fixture) (Z.of_nat (length fixture)) offset).
  assert (reader_ok r fixture) as Hr by (by split).
  pose proof (next_raw_spec r fixture Hr) as Hn. rewrite Pipeline.walk_frame_reader. fold r.
  rewrite frames_split. cbn [r FileReader.offset_] in Hn.
  destruct (split_frame (drop (Z.to_nat offset) fixture)) as [[msg rest]|] eqn:Hsp.
  - destruct Hn as (r' & -> & Hr' & Hdrop & _). cbn.
    pose proof (ro_offset _ _ Hr'). pose proof (ro_size _ _ Hr').
    apply split_frame_shorter in Hsp. rewrite <- Hdrop, !length_drop in Hsp.
    destruct (decode_total msg) as [d ->]. cbn [mbind option_bind]. rewrite u64_add_l.
    rewrite IH by lia. rewrite Hdrop. do 2 f_equal. lia.
  - rewrite Hn. cbn. by rewrite Z.add_0_r.
Qed.

Lemma BM_DecodeThroughput_spec fixture iterations :
  Z.of_nat (length fixture) < 2 ^ 63 -> 0 <= iterations ->
  BM_DecodeThroughput fixture iterations = Some (i64 (u64 (iterations * Z.of_nat (length (frames fixture))))).
Proof.
  intros Hs Hi. unfold BM_DecodeThroughput.
  destruct (for_loop_rule (fun i total => total = u64 (i * Z.of_nat (length (frames fixture)))) iterations
    (fun _ total => decode_pass (S (length fixture)) fixture 0 total) 0) as (total & -> & ->); [done|done| |done].
  intros j total Hj ->. eexists. split; [apply decode_pass_spec; [done|lia|lia]|].
  change (drop (Z.to_nat 0) fixture) with fixture. f_equal. lia.
Qed.
End BenchParser.
