(* ===== verification/AllocationGuard.v ===== *)
(** * testing/allocation_guard and smoke/version: test support

    The replaced global [operator new] and [operator delete] and the guard that counts
    allocations.  [std::malloc] and [std::free] are the standard library's: [Heap] is
    what the code uses of them.  The operators are modelled as one thread calls them,
    and split at their accesses to the two atomics and the heap for threads that run
    side by side.  The smoke library is a constant. *)

From S2P Require Import Prelude.
From stdpp Require Import relations.
From Stdlib Require Strings.String.
Import (notations) Strings.String.

Local Open Scope Z_scope.

(** [malloc]: the null pointer, or a block that is not live; [free] takes the null
    pointer or a live block, anything else is undefined. *)
Class Heap (A P : Type) := {
  malloc : A -> Z -> A * option P;
  free : A -> option P -> ub A
}.

Module AllocationGuard.

Section guard.
Context {A P : Type} `{!Heap A P}.

(** The two atomics and the heap. *)
Record state : Type := MkState {
  allocation_counter : Z;
  counting_enabled : bool;
  heap : A
}.

(** Before [main]. *)
Definition initial (h : A) : state := MkState 0 false h.

(** The accesses of the throwing and the nothrow overload: the increment, given the
    flag that was loaded, and the call of [malloc]. *)
Definition increment_if (enabled : bool) (s : state) : state :=
  if enabled then MkState (allocation_counter s +u64 1) (counting_enabled s) (heap s) else s.

Definition allocate (s : state) (size : Z) : state * option P :=
  let '(h, ptr) := malloc (heap s) size in
  (MkState (allocation_counter s) (counting_enabled s) h, ptr).

Definition count_allocation (s : state) : state := increment_if (counting_enabled s) s.

(** A pointer, or [std::bad_alloc]. *)
Definition operator_new (s : state) (size : Z) : state * option P := allocate (count_allocation s) size.

Definition operator_new_array (s : state) (size : Z) : state * option P := operator_new s size.

(** The null pointer instead of the exception. *)
Definition operator_new_nothrow (s : state) (size : Z) : state * option P :=
  allocate (count_allocation s) size.

Definition operator_new_array_nothrow (s : state) (size : Z) : state * option P :=
  operator_new_nothrow s size.

(** The plain and the sized overloads, for objects and for arrays. *)
Definition operator_delete (s : state) (ptr : option P) : ub state :=
  h ← free (heap s) ptr;
  Some (MkState (allocation_counter s) (counting_enabled s) h).

(** The nothrow overloads. *)
Definition operator_delete_nothrow (s : state) (ptr : option P) : ub state :=
  h ← free (heap s) ptr;
  Some (MkState (allocation_counter s) (counting_enabled s) h).

(** The constructor, the destructor and [count]. *)
Definition guard_construct (s : state) : state := MkState 0 true (heap s).
Definition guard_destroy (s : state) : state := MkState (allocation_counter s) false (heap s).
Definition guard_count (s : state) : Z := allocation_counter s.

(** ** What a guarded region can do *)

Inductive op :=
  | New (array nothrow : bool) (size : Z)
  | Delete (nothrow : bool) (ptr : option P).

Definition run_op (s : state) (o : op) : ub state :=
  match o with
  | New false false size => Some (operator_new s size).1
  | New true false size => Some (operator_new_array s size).1
  | New false true size => Some (operator_new_nothrow s size).1
  | New true true size => Some (operator_new_array_nothrow s size).1
  | Delete false ptr => operator_delete s ptr
  | Delete true ptr => operator_delete_nothrow s ptr
  end.

Definition run (s : state) (ops : list op) : ub state := foldl (fun s o => s ← s; run_op s o) (Some s) ops.

Definition is_new (o : op) : bool := match o with New _ _ _ => true | Delete _ _ => false end.

Lemma run_cons s o ops : run s (o :: ops) = s ← run_op s o; run s ops.
Proof.
  unfold run. cbn [foldl mbind option_bind]. destruct (run_op s o); [done|]. by induction ops.
Qed.

Lemma run_op_counts s o s' :
  run_op s o = Some s' ->
  counting_enabled s' = counting_enabled s /\
  allocation_counter s' =
    (if counting_enabled s && is_new o then allocation_counter s +u64 1 else allocation_counter s).
Proof.
  intros Hr. destruct o as [array nothrow size|nothrow ptr]; cbn in Hr.
  - assert (s' = (operator_new s size).1) as -> by (destruct array, nothrow; by simplify_eq).
    unfold operator_new, count_allocation, allocate. destruct (counting_enabled s) eqn:E; cbn.
    + by destruct (malloc _ _).
    + by destruct (malloc _ _).
  - assert (operator_delete s ptr = Some s') as Hd by (by destruct nothrow).
    unfold operator_delete in Hd. destruct (free _ _); [|done]. cbn in Hd. simplify_eq. cbn.
    by rewrite andb_false_r.
Qed.

(** With counting off nothing is counted; with counting on, every allocation of
    every overload is, also one that fails. *)
Lemma run_counts s ops s' :
  run s ops = Some s' ->
  counting_enabled s' = counting_enabled s /\
  u64 (allocation_counter s') =
    u64 (allocation_counter s + (if counting_enabled s then countZ is_new ops else 0)).
Proof.
  revert s. induction ops as [|o ops IH]; intros s Hr.
  - cbn in Hr. simplify_eq. split; [done|]. f_equal. destruct (counting_enabled s'); cbn; lia.
  - rewrite run_cons in Hr. destruct (run_op s o) as [s1|] eqn:Ho; [|done]. cbn in Hr.
    apply run_op_counts in Ho as [He Hc]. destruct (IH s1 Hr) as [-> ->]. split; [done|].
    rewrite He, Hc. unfold countZ. rewrite sumZ_cons. fold (countZ is_new ops).
    destruct (counting_enabled s); cbn [andb]; [|done]. destruct (is_new o); cbn [Z.b2z].
    + rewrite u64_add_l. f_equal. lia.
    + done.
Qed.

(** A guard around [ops] counts their allocations, whatever was counted before. *)
Lemma guarded_region_count s ops s' :
  run (guard_construct s) ops = Some s' -> Z.of_nat (length ops) < 2 ^ 64 ->
  guard_count s' = countZ is_new ops.
Proof.
  intros Hr Hl. assert (0 <= allocation_counter s' < 2 ^ 64) as Hrange.
  { clear Hl. assert (0 <= allocation_counter (guard_construct s) < 2 ^ 64) as Hs by (cbn; lia).
    revert Hs Hr. generalize (guard_construct s). induction ops as [|o ops IH]; intros s1 Hs Hr.
    - cbn in Hr. by simplify_eq.
    - rewrite run_cons in Hr. destruct (run_op s1 o) as [s2|] eqn:Ho; [|done]. apply (IH s2); [|done].
      apply run_op_counts in Ho as [_ ->]. destruct (_ && _); [apply u64_range|done]. }
  destruct (run_counts _ _ _ Hr) as [_ Hc]. cbn in Hc. rewrite u64_small in Hc by done.
  unfold guard_count. rewrite Hc. apply u64_small. pose proof (countZ_range is_new ops). lia.
Qed.

(** ** Threads

    The threads are started after the guard was constructed and joined before its count
    is read.  In between nobody writes the flag, so also a relaxed load returns its
    value; [fetch_add] is one step, and so are [malloc] and [free]. *)

(** Where a thread is: between two calls, or inside one of the overloads of
    [operator new], which all load the flag, count and call [malloc]: the throwing and
    the nothrow one by themselves, the array overloads through these.  The overloads of
    [operator delete] have a single access, the call of [free]. *)
Inductive pc :=
  | Ready
  | Loaded (enabled : bool) (size : Z)
  | Counted (size : Z).

Record thread := MkThread { at_pc : pc; todo : list op }.

Definition thread_step (s : state) (t : thread) : ub (state * thread) :=
  match at_pc t, todo t with
  | Ready, New _ _ size :: ops => Some (s, MkThread (Loaded (counting_enabled s) size) ops)
  | Ready, Delete false ptr :: ops => s ← operator_delete s ptr; Some (s, MkThread Ready ops)
  | Ready, Delete true ptr :: ops => s ← operator_delete_nothrow s ptr; Some (s, MkThread Ready ops)
  | Ready, [] => Some (s, t)
  | Loaded enabled size, ops => Some (increment_if enabled s, MkThread (Counted size) ops)
  | Counted size, ops => Some ((allocate s size).1, MkThread Ready ops)
  end.

(** Any thread makes the next step. *)
Inductive step : state * list thread -> state * list thread -> Prop :=
  | step_thread s ts i t s' t' :
      ts !! i = Some t -> thread_step s t = Some (s', t') -> step (s, ts) (s', <[i := t']> ts).

Definition start (programs : list (list op)) : list thread := MkThread Ready <$> programs.
Definition finished (t : thread) : Prop := at_pc t = Ready /\ todo t = [].

(** The allocations a thread has still to count. *)
Definition uncounted (t : thread) : Z :=
  countZ is_new (todo t) + match at_pc t with Loaded true _ => 1 | _ => 0 end.

(** What a call of [o] does when no other thread moves during it. *)
Definition solo_call (s : state) (o : op) (ops : list op) (s' : state) : Prop :=
  exists n, Nat.iter n (fun x => x ← x; thread_step x.1 x.2) (Some (s, MkThread Ready (o :: ops))) =
    Some (s', MkThread Ready ops).

(** A thread that is alone runs the operators of the sequential model. *)
Lemma thread_runs_op s o ops s' : run_op s o = Some s' -> solo_call s o ops s'.
Proof.
  intros Hr. destruct o as [array nothrow size|nothrow ptr].
  - assert (s' = (operator_new s size).1) as -> by (cbn in Hr; destruct array, nothrow; by simplify_eq).
    by exists 3%nat.
  - exists 1%nat. cbn [Nat.iter nat_rect mbind option_bind fst snd thread_step at_pc todo].
    cbn in Hr. by destruct nothrow; rewrite Hr.
Qed.

(** What has been counted and what is still to be counted is the whole. *)
Record region (total : Z) (x : state * list thread) : Prop := MkRegion {
  rg_on : counting_enabled x.1 = true;
  rg_range : 0 <= allocation_counter x.1 < 2 ^ 64;
  rg_total : u64 (allocation_counter x.1 + sumZ uncounted x.2) = u64 total;
  rg_loaded : forall t size, t ∈ x.2 -> at_pc t <> Loaded false size
}.

Lemma region_start s programs :
  region (countZ is_new (concat programs)) (guard_construct s, start programs).
Proof.
  split; cbn [fst snd guard_construct counting_enabled allocation_counter]; [done|lia| |].
  - f_equal. unfold start. rewrite Z.add_0_l. induction programs as [|ops programs IH]; [done|].
    cbn [fmap list_fmap concat]. rewrite sumZ_cons, IH. unfold uncounted. cbn [todo at_pc].
    unfold countZ. rewrite sumZ_app. lia.
  - intros t size (ops & -> & _)%list_elem_of_fmap. done.
Qed.

Lemma thread_step_region s t s' t' :
  counting_enabled s = true -> (forall size, at_pc t <> Loaded false size) -> thread_step s t = Some (s', t') ->
  counting_enabled s' = true /\ (forall size, at_pc t' <> Loaded false size) /\
  (0 <= allocation_counter s < 2 ^ 64 -> 0 <= allocation_counter s' < 2 ^ 64) /\
  forall k, u64 (allocation_counter s' + (k + uncounted t')) = u64 (allocation_counter s + (k + uncounted t)).
Proof.
  intros Hon Hl Hs. destruct t as [[|enabled size|size] ops]; unfold thread_step in Hs; cbn [at_pc todo] in *.
  - destruct ops as [|[array nothrow size|nothrow ptr] ops].
    + simplify_eq. by split_and!.
    + simplify_eq. rewrite Hon. split_and!; [done|done|done|]. intros k. f_equal.
      unfold uncounted. cbn [todo at_pc].
      change (countZ is_new (New array nothrow size :: ops)) with (1 + countZ is_new ops). lia.
    + assert (run_op s (Delete nothrow ptr) = Some s' /\ t' = MkThread Ready ops) as [Hd ->].
      { cbn. destruct nothrow; minv Hs; by simplify_eq. }
      apply run_op_counts in Hd as [-> ->]. rewrite andb_false_r. by split_and!.
  - destruct enabled; [|by edestruct Hl]. simplify_eq.
    split_and!; [done|done|intros _; apply u64_range|]. intros k. cbn. rewrite u64_add_l. f_equal.
    unfold uncounted. cbn. lia.
  - unfold allocate in Hs. destruct (malloc _ _). simplify_eq. split_and!; [done|done|done|]. intros k. f_equal.
Qed.

Lemma step_region total x y : region total x -> step x y -> region total y.
Proof.
  intros [Hon Hr Ht Hl] Hs. destruct Hs as [s ts i t s' t' Hi Hs]. cbn [fst snd] in *.
  destruct (thread_step_region s t s' t' Hon) as (Hon' & Hl' & Hr' & Heq); [|done|].
  { intros size. apply Hl. by eapply list_elem_of_lookup_2. }
  split; cbn [fst snd]; [done|auto| |].
  - rewrite (sumZ_insert _ _ _ _ _ Hi), Heq, <- Ht. f_equal. lia.
  - intros u size Hu. apply list_elem_of_lookup in Hu as [j Hj].
    destruct (decide (i = j)) as [<-|Hne].
    + rewrite list_lookup_insert_eq in Hj by (by eapply lookup_lt_Some). by simplify_eq.
    + rewrite list_lookup_insert_ne in Hj by done. apply Hl. by eapply list_elem_of_lookup_2.
Qed.

Lemma rtc_region total x y : region total x -> rtc step x y -> region total y.
Proof. intros Hx Hr. induction Hr as [|x y z Hs _ IH]; [done|]. apply IH. by eapply step_region. Qed.

(** The count of a region that all threads have left. *)
Lemma region_count s programs s' ts :
  rtc step (guard_construct s, start programs) (s', ts) -> Forall finished ts ->
  Z.of_nat (length (concat programs)) < 2 ^ 64 ->
  guard_count s' = countZ is_new (concat programs).
Proof.
  intros Hr Hfin Hl. destruct (rtc_region _ _ _ (region_start s programs) Hr) as [_ Hrange Ht _].
  cbn [fst snd] in *. rewrite (sumZ_ext _ (fun _ => 0)), sumZ_const in Ht.
  - pose proof (countZ_range is_new (concat programs)). unfold guard_count. rewrite !u64_small in Ht by lia. lia.
  - intros t Ht'. rewrite Forall_forall in Hfin. destruct (Hfin t Ht') as [Hp Htd].
    unfold uncounted. by rewrite Hp, Htd.
Qed.
End guard.
End AllocationGuard.

(** ** smoke/version.cpp *)

Definition version : String.string := "0.1.0-m1"%string.
