(* ===== verification/GTest.v ===== *)
(** * Unit tests as programs

    A TEST body threads the objects under test, of type [S], through calls and
    checks.  A check that fails ends the test ([None] inside), undefined behaviour is
    [None] outside; [passes] is neither.  ASSERT_ and EXPECT_ checks are not
    distinguished: both make the test fail. *)

From S2P Require Import Prelude.
From stdpp Require Import strings.

Local Open Scope Z_scope.

Module GTest.

Definition test (S A : Type) : Type := S -> ub (option (S * A)).

#[global] Instance test_ret (S : Type) : MRet (test S) := fun A a s => Some (Some (s, a)).

#[global] Instance test_bind (S : Type) : MBind (test S) := fun A B k m s =>
  match m s with
  | Some (Some (s, a)) => k a s
  | Some None => Some None
  | None => None
  end.

Section gtest.
Context {S : Type}.

(** A call on the objects, and a query. *)
Definition call {A} (f : S -> ub (S * A)) : test S A := fun s => r ← f s; Some (Some r).
Definition query {A} (f : S -> ub A) : test S A := fun s => a ← f s; Some (Some (s, a)).
Definition get {A} (f : S -> A) : test S A := query (fun s => Some (f s)).

Definition check (b : bool) : test S unit := fun s => Some (if b then Some (s, tt) else None).

Definition expect_true (m : test S bool) : test S unit := b ← m; check b.
Definition expect_false (m : test S bool) : test S unit := b ← m; check (negb b).
Definition expect_eq {A} `{EqDecision A} (m : test S A) (a : A) : test S unit :=
  x ← m; check (bool_decide (x = a)).

(** [ASSERT_NE(p, nullptr)] or [ASSERT_TRUE(p.has_value())], and what [p] holds. *)
Definition expect_some {A} (m : test S (option A)) : test S A :=
  x ← m; match x with Some a => mret a | None => fun _ => Some None end.

(** [EXPECT_FALSE(p.has_value())]. *)
Definition expect_none {A} (m : test S (option A)) : test S unit :=
  x ← m; match x with Some _ => check false | None => mret tt end.

Definition for_each {A} (l : list A) (body : A -> test S unit) : test S unit :=
  foldr (fun a rest => body a;; rest) (mret tt) l.

(** The test on freshly constructed objects. *)
Definition passes {A} (fixture : ub S) (body : test S A) : bool :=
  match fixture ≫= body with Some (Some _) => true | _ => false end.
End gtest.

(** The indices of a counted loop from 0. *)
Definition up_to (n : Z) : list Z := seqZ 0 n.

(** A test by name, with its verdict. *)
Definition all_pass (suite : list (String.string * bool)) : bool := forallb snd suite.
End GTest.
