(* ===== verification/ContainerTests.v ===== *)
(** * containers/tests: the unit tests of the containers

    Statement by statement, run on the models.  The two randomised tests are in
    MapStress.v and RingStress.v; the two that count heap allocations are about the
    C++ allocator and are left out. *)

From S2P Require Import Prelude HashMap IntrusiveList ObjectPool SpscRing GTest.
From stdpp Require Import strings.

Local Open Scope Z_scope.

(** ** test_hash_map.cpp *)
Module HashMapTests.
Import GTest.

Definition map_ : Type := OAMap.t Z Z.

Definition insert (k v : Z) : test map_ bool := call (fun m => OAMap.insert m k v).
Definition erase (k : Z) : test map_ bool := call (fun m => OAMap.erase m k).
Definition find (k : Z) : test map_ ptr := query (fun m => OAMap.find m k).
(** [*map.find(k)], after [ASSERT_NE(map.find(k), nullptr)]. *)
Definition found (k : Z) : test map_ Z := i ← expect_some (find k); query (fun m => OAMap.deref m i).
Definition size : test map_ Z := get OAMap.size.
Definition capacity : test map_ Z := get OAMap.capacity.
Definition tombstone_count : test map_ Z := get OAMap.tombstone_count.

Definition InsertFindEraseRoundTrip : test map_ unit :=
  expect_true (insert 1 100);;
  expect_true (insert 2 200);;
  expect_true (insert 3 300);;
  expect_eq size 3;;
  expect_eq (found 1) 100;;
  expect_eq (found 2) 200;;
  expect_eq (find 999) None;;
  expect_true (erase 2);;
  expect_eq (find 2) None;;
  expect_eq size 2;;
  expect_false (erase 2).

Definition InsertingADuplicateKeyFails : test map_ unit :=
  expect_true (insert 42 1);;
  expect_false (insert 42 2);;
  expect_eq (found 42) 1.

Definition EraseThenReinsertReusesTombstoneSlotAndSizeStaysBounded : test map_ unit :=
  for_each (up_to 4) (fun i => expect_true (insert i i));;
  expect_eq size 4;;
  expect_eq tombstone_count 0;;
  for_each (up_to 100) (fun cycle =>
    expect_true (erase 0);;
    expect_true (insert 0 cycle);;
    expect_eq size 4;;
    n ← tombstone_count;
    check (n <=? 1));;
  expect_eq (found 0) 99.

(** The loop that stops once as many keys are in as there are slots. *)
Fixpoint fill_up (keys : list Z) (inserted : Z) : test map_ unit :=
  match keys with
  | [] => mret tt
  | i :: keys =>
      cap ← capacity;
      if inserted <? cap then
        ok ← insert i i;
        fill_up keys (if ok : bool then inserted + 1 else inserted)
      else mret tt
  end.

Definition InsertPastCapacityFailsCleanly : test map_ unit :=
  fill_up (up_to 100) 0;;
  cap ← capacity;
  expect_eq size cap;;
  expect_false (insert 999999 (-1));;
  expect_eq size cap;;
  expect_eq (find 999999) None.

Definition rounded (hint : Z) : test unit Z :=
  query (fun _ => m ← (OAMap.make hint : ub map_); Some (OAMap.capacity m)).

Definition CapacityRoundsUpToPowerOfTwo : test unit unit :=
  expect_eq (rounded 1) 1;;
  expect_eq (rounded 5) 8;;
  expect_eq (rounded 16) 16;;
  expect_eq (rounded 17) 32.

Definition suite : list (String.string * bool) := [
  ("InsertFindEraseRoundTrip"%string, passes (OAMap.make 16) InsertFindEraseRoundTrip);
  ("InsertingADuplicateKeyFails"%string, passes (OAMap.make 16) InsertingADuplicateKeyFails);
  ("EraseThenReinsertReusesTombstoneSlotAndSizeStaysBounded"%string,
    passes (OAMap.make 8) EraseThenReinsertReusesTombstoneSlotAndSizeStaysBounded);
  ("InsertPastCapacityFailsCleanly"%string, passes (OAMap.make 4) InsertPastCapacityFailsCleanly);
  ("CapacityRoundsUpToPowerOfTwo"%string, passes (Some tt) CapacityRoundsUpToPowerOfTwo)
].

Lemma hash_map_suite_passes : all_pass suite = true.
Proof. vm_compute. reflexivity. Qed.
End HashMapTests.

(** ** test_object_pool.cpp *)
Module PoolTests.
Import GTest.

Record Point := MkPoint { x : Z; y : Z }.

Definition pool : Type := Pool.t Point.

Definition acquire (a b : Z) : test pool ptr := call (fun p => Pool.acquire p (MkPoint a b)).
Definition release (i : nat) : test pool unit := call (fun p => p ← Pool.release p i; Some (p, tt)).
(** [p->x] or [p->y]. *)
Definition member (i : nat) (f : Point -> Z) : test pool Z := query (fun p => f <$> Pool.load_slot p i).
Definition size : test pool Z := get Pool.size.
Definition capacity : test pool Z := get Pool.capacity.
Definition empty : test pool bool := get Pool.empty.
Definition full : test pool bool := get Pool.full.

Definition AcquireConstructsWithForwardedArgs : test pool unit :=
  p ← expect_some (acquire 3 4);
  expect_eq (member p x) 3;;
  expect_eq (member p y) 4.

Definition AcquireFillsToCapacityThenReturnsNullptr : test pool unit :=
  a ← expect_some (acquire 1 1);
  b ← expect_some (acquire 2 2);
  c ← expect_some (acquire 3 3);
  expect_true full;;
  expect_eq (acquire 4 4) None;;
  expect_eq size 3.

Definition ReleaseAndReacquireReusesFreedSlots : test pool unit :=
  a ← expect_some (acquire 1 1);
  b ← expect_some (acquire 2 2);
  expect_true full;;
  release b;;
  expect_eq size 1;;
  expect_false full;;
  c ← expect_some (acquire 5 5);
  check (bool_decide (c = b));;
  expect_eq (member c x) 5;;
  expect_eq (member c y) 5;;
  expect_true full.

(** [acquired.push_back(p)] in a loop. *)
Fixpoint acquire_all (indices : list Z) : test pool (list nat) :=
  match indices with
  | [] => mret []
  | i :: indices => p ← expect_some (acquire i i); acquired ← acquire_all indices; mret (p :: acquired)
  end.

Definition SizeAndCapacityTrackCorrectly : test pool unit :=
  expect_eq capacity 5;;
  expect_true empty;;
  acquired ← acquire_all (up_to 5);
  expect_eq size 5;;
  expect_true full;;
  for_each acquired release;;
  expect_true empty;;
  expect_eq size 0.

Definition ZeroCapacityPoolAlwaysReturnsNullptr : test pool unit :=
  expect_eq (acquire 1 1) None;;
  expect_true empty;;
  expect_true full.

Definition suite : list (String.string * bool) := [
  ("AcquireConstructsWithForwardedArgs"%string, passes (Some (Pool.make 4)) AcquireConstructsWithForwardedArgs);
  ("AcquireFillsToCapacityThenReturnsNullptr"%string,
    passes (Some (Pool.make 3)) AcquireFillsToCapacityThenReturnsNullptr);
  ("ReleaseAndReacquireReusesFreedSlots"%string, passes (Some (Pool.make 2)) ReleaseAndReacquireReusesFreedSlots);
  ("SizeAndCapacityTrackCorrectly"%string, passes (Some (Pool.make 5)) SizeAndCapacityTrackCorrectly);
  ("ZeroCapacityPoolAlwaysReturnsNullptr"%string, passes (Some (Pool.make 0)) ZeroCapacityPoolAlwaysReturnsNullptr)
].

Lemma pool_suite_passes : all_pass suite = true.
Proof. vm_compute. reflexivity. Qed.
End PoolTests.

(** ** test_intrusive_list.cpp *)

Record Node := MkNode { node_prev : ptr; node_next : ptr; node_value : Z }.

#[global] Program Instance test_node : IntrusiveListNode Node := {|
  prev := node_prev;
  next := node_next;
  set_prev p n := MkNode p (node_next n) (node_value n);
  set_next p n := MkNode (node_prev n) p (node_value n)
|}.
Solve Obligations with (by intros; repeat match goal with n : Node |- _ => destruct n end).

(** Local objects, by number. *)
#[global] Program Instance local_nodes : NodeStore (list Node) Node := {|
  load h p := h !! p;
  store h p n := <[p := n]> h
|}.
Next Obligation. intros h p x y Hp. apply list_lookup_insert_eq. by eapply lookup_lt_Some. Qed.
Next Obligation. intros h p q x Hpq. by apply list_lookup_insert_ne. Qed.

Module ListTests.
Import GTest.

(** The nodes and the list. *)
Definition objects : Type := list Node * IList.t.

(** Nodes with these values, and an empty list. *)
Definition nodes_with (values : list Z) : ub objects :=
  Some (MkNode None None <$> values, IList.empty_list).

Definition a : nat := 0.
Definition b : nat := 1.
Definition c : nat := 2.

Definition push_back (n : nat) : test objects unit :=
  call (fun '(h, l) => s ← IList.push_back (T := Node) h l n; Some (s, tt)).
Definition push_front (n : nat) : test objects unit :=
  call (fun '(h, l) => s ← IList.push_front (T := Node) h l n; Some (s, tt)).
Definition remove (n : nat) : test objects unit :=
  call (fun '(h, l) => s ← IList.remove (T := Node) h l n; Some (s, tt)).
Definition size : test objects Z := get (fun s => IList.size s.2).
Definition empty : test objects bool := get (fun s => IList.is_empty s.2).
Definition front : test objects ptr := get (fun s => IList.front s.2).
Definition back : test objects ptr := get (fun s => IList.back s.2).
Definition prev_of (n : nat) : test objects ptr := query (fun s => node_prev <$> load s.1 n).
Definition next_of (n : nat) : test objects ptr := query (fun s => node_next <$> load s.1 n).

(** [collect]; at most as many nodes as there are objects. *)
Definition collect : test objects (list Z) :=
  query (fun '(h, l) =>
    visited ← IList.traverse (T := Node) (length h) h (IList.iter_begin l);
    mapM (fun n => node_value <$> load h n) visited).

Definition StartsEmpty : test objects unit :=
  expect_true empty;;
  expect_eq size 0;;
  expect_eq front None;;
  expect_eq back None.

Definition PushBackMaintainsOrder : test objects unit :=
  push_back a;; push_back b;; push_back c;;
  expect_eq size 3;;
  expect_eq front (Some a);;
  expect_eq back (Some c);;
  expect_eq collect [1; 2; 3].

Definition PushFrontMaintainsOrder : test objects unit :=
  push_front a;; push_front b;; push_front c;;
  expect_eq size 3;;
  expect_eq front (Some c);;
  expect_eq back (Some a);;
  expect_eq collect [3; 2; 1].

Definition SingleElementPushAndRemove : test objects unit :=
  push_back a;;
  expect_eq front (Some a);;
  expect_eq back (Some a);;
  expect_eq size 1;;
  remove a;;
  expect_true empty;;
  expect_eq front None;;
  expect_eq back None;;
  expect_eq (prev_of a) None;;
  expect_eq (next_of a) None.

Definition RemoveHeadRelinksCorrectly : test objects unit :=
  push_back a;; push_back b;; push_back c;;
  remove a;;
  expect_eq size 2;;
  expect_eq front (Some b);;
  expect_eq back (Some c);;
  expect_eq (prev_of b) None;;
  expect_eq collect [2; 3].

Definition RemoveTailRelinksCorrectly : test objects unit :=
  push_back a;; push_back b;; push_back c;;
  remove c;;
  expect_eq size 2;;
  expect_eq front (Some a);;
  expect_eq back (Some b);;
  expect_eq (next_of b) None;;
  expect_eq collect [1; 2].

Definition RemoveMiddleRelinksNeighbors : test objects unit :=
  push_back a;; push_back b;; push_back c;;
  remove b;;
  expect_eq size 2;;
  expect_eq front (Some a);;
  expect_eq back (Some c);;
  expect_eq (next_of a) (Some c);;
  expect_eq (prev_of c) (Some a);;
  expect_eq collect [1; 3].

Definition RemovingEveryElementLeavesListEmpty : test objects unit :=
  push_back a;; push_back b;; push_back c;;
  remove b;; remove a;; remove c;;
  expect_true empty;;
  expect_eq size 0;;
  expect_eq front None;;
  expect_eq back None.

Definition IteratorVisitsEveryElementExactlyOnceInOrder : test objects unit :=
  for_each (up_to 5) (fun i => push_back (Z.to_nat i));;
  visited ← collect;
  check (bool_decide (visited = [0; 1; 2; 3; 4]));;
  expect_eq size (Z.of_nat (length visited)).

Definition PushBackAfterEmptyingReusesHeadAndTailCorrectly : test objects unit :=
  push_back a;;
  remove a;;
  expect_true empty;;
  push_back b;;
  expect_eq front (Some b);;
  expect_eq back (Some b);;
  expect_eq size 1.

Definition abc : ub objects := nodes_with [1; 2; 3].

Definition suite : list (String.string * bool) := [
  ("StartsEmpty"%string, passes (nodes_with []) StartsEmpty);
  ("PushBackMaintainsOrder"%string, passes abc PushBackMaintainsOrder);
  ("PushFrontMaintainsOrder"%string, passes abc PushFrontMaintainsOrder);
  ("SingleElementPushAndRemove"%string, passes (nodes_with [42]) SingleElementPushAndRemove);
  ("RemoveHeadRelinksCorrectly"%string, passes abc RemoveHeadRelinksCorrectly);
  ("RemoveTailRelinksCorrectly"%string, passes abc RemoveTailRelinksCorrectly);
  ("RemoveMiddleRelinksNeighbors"%string, passes abc RemoveMiddleRelinksNeighbors);
  ("RemovingEveryElementLeavesListEmpty"%string, passes abc RemovingEveryElementLeavesListEmpty);
  ("IteratorVisitsEveryElementExactlyOnceInOrder"%string,
    passes (nodes_with (up_to 5)) IteratorVisitsEveryElementExactlyOnceInOrder);
  ("PushBackAfterEmptyingReusesHeadAndTailCorrectly"%string,
    passes (nodes_with [1; 2]) PushBackAfterEmptyingReusesHeadAndTailCorrectly)
].

Lemma list_suite_passes : all_pass suite = true.
Proof. vm_compute. reflexivity. Qed.
End ListTests.

(** ** test_spsc_ring_buffer.cpp *)
Module RingTests.
Import GTest.

Definition buffer : Type := @Ring.t Z.

Definition push (v : Z) : test buffer bool := call (fun r => Ring.push r v).
(** [pop(out)]: the result and the new value of [out]. *)
Definition pop (out : Z) : test buffer (bool * Z) :=
  call (fun r => '(r, ok, out) ← Ring.pop r out; Some (r, (ok, out))).
Definition pop_fails (out : Z) : test buffer unit := r ← pop out; check (negb r.1).
(** [ASSERT_TRUE(buffer.pop(out)); EXPECT_EQ(out, v)]. *)
Definition pop_gives (out v : Z) : test buffer Z := r ← pop out; check r.1;; check (r.2 =? v);; mret r.2.

Definition rounded (n : Z) : test unit Z := query (fun _ => r ← Ring.make 0 n; Some (Ring.capacity r)).

Definition CapacityRoundsUpToNextPowerOfTwo : test unit unit :=
  expect_eq (rounded 1) 1;;
  expect_eq (rounded 2) 2;;
  expect_eq (rounded 3) 4;;
  expect_eq (rounded 9) 16;;
  expect_eq (rounded 16) 16.

Definition PopOnEmptyFails : test buffer unit := pop_fails 0.

Definition PushPopPreservesFifoOrder : test buffer unit :=
  expect_true (push 1);;
  expect_true (push 2);;
  expect_true (push 3);;
  out ← pop_gives 0 1;
  out ← pop_gives out 2;
  out ← pop_gives out 3;
  pop_fails out.

Definition PushOnFullFails : test buffer unit :=
  expect_true (push 1);;
  expect_true (push 2);;
  expect_true (push 3);;
  expect_true (push 4);;
  expect_false (push 5).

(** [out] is overwritten by every successful pop and never read in between. *)
Definition WrapsAroundCorrectlyAfterDraining : test buffer unit :=
  for_each (up_to 5) (fun round =>
    for_each (up_to 4) (fun i => expect_true (push (round * 10 + i)));;
    expect_false (push 999);;
    for_each (up_to 4) (fun i => pop_gives 0 (round * 10 + i);; mret tt);;
    pop_fails 0).

Definition suite : list (String.string * bool) := [
  ("CapacityRoundsUpToNextPowerOfTwo"%string, passes (Some tt) CapacityRoundsUpToNextPowerOfTwo);
  ("PopOnEmptyFails"%string, passes (Ring.make 0 4) PopOnEmptyFails);
  ("PushPopPreservesFifoOrder"%string, passes (Ring.make 0 4) PushPopPreservesFifoOrder);
  ("PushOnFullFails"%string, passes (Ring.make 0 4) PushOnFullFails);
  ("WrapsAroundCorrectlyAfterDraining"%string, passes (Ring.make 0 4) WrapsAroundCorrectlyAfterDraining)
].

Lemma ring_suite_passes : all_pass suite = true.
Proof. vm_compute. reflexivity. Qed.
End RingTests.
