(* ===== verification/ItchTests.v ===== *)
(** * itch/tests and smoke: the unit tests of the decoder, the byte order and the reader

    Statement by statement, run on the models; the temporary files of the reader tests
    are the bytes that were written to them. *)

From S2P Require Import Prelude ByteOrder Messages Decode FileReader AllocationGuard GTest.
From stdpp Require Import strings.

Local Open Scope Z_scope.

(** ** test_byteorder.cpp *)
Module ByteOrderTests.
Import GTest.

(** [bytes({...})]: an array of eight, the rest zero. *)
Definition bytes (vals : list Z) : list byte := (to_byte <$> vals) ++ replicate (8 - length vals) x00.

Definition ReadU16Be : test unit unit :=
  expect_eq (query (fun _ => read_u16_be (bytes [0x01; 0x02]) 0)) 0x0102.
Definition ReadU32Be : test unit unit :=
  expect_eq (query (fun _ => read_u32_be (bytes [0x01; 0x02; 0x03; 0x04]) 0)) 0x01020304.
Definition ReadU48Be : test unit unit :=
  expect_eq (query (fun _ => read_u48_be (bytes [0x01; 0x02; 0x03; 0x04; 0x05; 0x06]) 0)) 0x010203040506.
Definition ReadU64Be : test unit unit :=
  expect_eq (query (fun _ => read_u64_be (bytes [0x01; 0x02; 0x03; 0x04; 0x05; 0x06; 0x07; 0x08]) 0))
    0x0102030405060708.

(** The object is the array. *)
Definition WriteU16BeRoundTrips : test (list byte) unit :=
  call (fun b => b ← write_u16_be b 0 0xABCD; Some (b, tt));;
  expect_eq (query (fun b => read_u16_be b 0)) 0xABCD.
Definition WriteU32BeRoundTrips : test (list byte) unit :=
  call (fun b => b ← write_u32_be b 0 0xDEADBEEF; Some (b, tt));;
  expect_eq (query (fun b => read_u32_be b 0)) 0xDEADBEEF.
Definition WriteU48BeRoundTrips : test (list byte) unit :=
  call (fun b => b ← write_u48_be b 0 0x0102030405AB; Some (b, tt));;
  expect_eq (query (fun b => read_u48_be b 0)) 0x0102030405AB.
Definition WriteU64BeRoundTrips : test (list byte) unit :=
  call (fun b => b ← write_u64_be b 0 0x0102030405060708; Some (b, tt));;
  expect_eq (query (fun b => read_u64_be b 0)) 0x0102030405060708.

(** [std::array<std::byte, n> b {}]. *)
Definition zeros (n : nat) : ub (list byte) := Some (replicate n x00).

Definition suite : list (String.string * bool) := [
  ("ReadU16Be"%string, passes (Some tt) ReadU16Be);
  ("ReadU32Be"%string, passes (Some tt) ReadU32Be);
  ("ReadU48Be"%string, passes (Some tt) ReadU48Be);
  ("ReadU64Be"%string, passes (Some tt) ReadU64Be);
  ("WriteU16BeRoundTrips"%string, passes (zeros 2) WriteU16BeRoundTrips);
  ("WriteU32BeRoundTrips"%string, passes (zeros 4) WriteU32BeRoundTrips);
  ("WriteU48BeRoundTrips"%string, passes (zeros 6) WriteU48BeRoundTrips);
  ("WriteU64BeRoundTrips"%string, passes (zeros 8) WriteU64BeRoundTrips)
].

Lemma byteorder_suite_passes : all_pass suite = true.
Proof. vm_compute. reflexivity. Qed.
End ByteOrderTests.

(** ** test_decode.cpp *)
Module DecodeTests.
Import GTest.

(** The object is [buf]. *)
Definition push_back (b : byte) : test (list byte) unit := call (fun buf => Some (buf ++ [b], tt)).

Definition append_u16 (v : Z) : test (list byte) unit :=
  push_back (to_byte (Z.shiftr v 8));;
  push_back (to_byte v).
Definition append_u32 (v : Z) : test (list byte) unit :=
  push_back (to_byte (Z.shiftr v 24));;
  push_back (to_byte (Z.shiftr v 16));;
  push_back (to_byte (Z.shiftr v 8));;
  push_back (to_byte v).
(** [for (shift = 40; shift >= 0; shift -= 8)], and from 56. *)
Definition append_u48 (v : Z) : test (list byte) unit :=
  for_each [40; 32; 24; 16; 8; 0] (fun shift => push_back (to_byte (Z.shiftr v shift))).
Definition append_u64 (v : Z) : test (list byte) unit :=
  for_each [56; 48; 40; 32; 24; 16; 8; 0] (fun shift => push_back (to_byte (Z.shiftr v shift))).
Definition append_str (s : String.string) : test (list byte) unit :=
  for_each (String.list_byte_of_string s) push_back.
Definition append_header (type : byte) (locate tracking timestamp : Z) : test (list byte) unit :=
  push_back type;;
  append_u16 locate;;
  append_u16 tracking;;
  append_u48 timestamp.

Definition size : test (list byte) Z := get (fun buf => Z.of_nat (length buf)).
(** [decode(buf)], and [ASSERT_TRUE(msg.has_value())]. *)
Definition decode_buf : test (list byte) (option DecodedMessage) := query decode.
Definition decoded : test (list byte) DecodedMessage := expect_some decode_buf.

(** An expression on the message. *)
Definition expect_is {A} `{EqDecision A} (x a : A) : test (list byte) unit := check (bool_decide (x = a)).
Definition as_ {P} (accessor : DecodedMessage -> ub P) (msg : DecodedMessage) : test (list byte) P :=
  query (fun _ => accessor msg).
Definition string_of (chars : list byte) : String.string := String.string_of_list_byte chars.

Definition Decode_SystemEvent : test (list byte) unit :=
  append_header "S" 10 20 999;;
  push_back "O";;
  expect_eq size 12;;
  msg ← decoded;
  expect_is (type (header msg)) SystemEvent;;
  expect_is (stock_locate (header msg)) 10;;
  expect_is (tracking_number (header msg)) 20;;
  expect_is (timestamp (header msg)) 999;;
  p ← as_ as_system_event msg;
  expect_is (se_event_code p) "O"%byte.

Definition Decode_StockDirectory : test (list byte) unit :=
  append_header "R" 100 200 12345;;
  append_str "AAPL    ";;
  push_back "Q";;
  push_back "N";;
  append_u32 100;;
  push_back "Y";;
  push_back "C";;
  append_str "  ";;
  push_back "P";;
  push_back "N";;
  push_back "N";;
  push_back "1";;
  push_back "N";;
  append_u32 0;;
  push_back "N";;
  expect_eq size 39;;
  msg ← decoded;
  expect_is (type (header msg)) StockDirectory;;
  expect_is (stock_locate (header msg)) 100;;
  expect_is (tracking_number (header msg)) 200;;
  expect_is (timestamp (header msg)) 12345;;
  sd ← as_ as_stock_directory msg;
  expect_is (string_of (sd_stock sd)) "AAPL    "%string;;
  expect_is (sd_market_category sd) "Q"%byte;;
  expect_is (sd_financial_status_indicator sd) "N"%byte;;
  expect_is (sd_round_lot_size sd) 100;;
  expect_is (sd_round_lots_only sd) "Y"%byte;;
  expect_is (sd_issue_classification sd) "C"%byte;;
  expect_is (sd_authenticity sd) "P"%byte;;
  expect_is (sd_short_sale_threshold_indicator sd) "N"%byte;;
  expect_is (sd_ipo_flag sd) "N"%byte;;
  expect_is (sd_luld_reference_price_tier sd) "1"%byte;;
  expect_is (sd_etp_flag sd) "N"%byte;;
  expect_is (sd_etp_leverage_factor sd) 0;;
  expect_is (sd_inverse_indicator sd) "N"%byte.

Definition Decode_AddOrderNoMpid : test (list byte) unit :=
  append_header "A" 1 2 3;;
  append_u64 555;;
  push_back "B";;
  append_u32 100;;
  append_str "IBM     ";;
  append_u32 1234500;;
  expect_eq size 36;;
  msg ← decoded;
  expect_is (type (header msg)) AddOrder;;
  ao ← as_ as_add_order msg;
  expect_is (ao_order_reference_number ao) 555;;
  expect_is (ao_buy_sell_indicator ao) "B"%byte;;
  expect_is (ao_shares ao) 100;;
  expect_is (string_of (ao_stock ao)) "IBM     "%string;;
  expect_is (ao_price ao) 1234500.

Definition Decode_AddOrderWithMpid : test (list byte) unit :=
  append_header "F" 42 7 999999;;
  append_u64 123456789;;
  push_back "B";;
  append_u32 500;;
  append_str "MSFT    ";;
  append_u32 3000000;;
  append_str "EDGX";;
  expect_eq size 40;;
  msg ← decoded;
  expect_is (type (header msg)) AddOrderMPID;;
  ao ← as_ as_add_order msg;
  expect_is (ao_order_reference_number ao) 123456789;;
  expect_is (ao_buy_sell_indicator ao) "B"%byte;;
  expect_is (ao_shares ao) 500;;
  expect_is (string_of (ao_stock ao)) "MSFT    "%string;;
  expect_is (ao_price ao) 3000000;;
  expect_is (string_of (ao_attribution ao)) "EDGX"%string.

Definition Decode_OrderExecuted : test (list byte) unit :=
  append_header "E" 1 1 1;;
  append_u64 555;;
  append_u32 50;;
  append_u64 7777;;
  expect_eq size 31;;
  msg ← decoded;
  expect_is (type (header msg)) OrderExecuted;;
  oe ← as_ as_order_executed msg;
  expect_is (oe_order_reference_number oe) 555;;
  expect_is (oe_executed_shares oe) 50;;
  expect_is (oe_match_number oe) 7777.

Definition Decode_OrderExecutedWithPrice : test (list byte) unit :=
  append_header "C" 1 1 1;;
  append_u64 555;;
  append_u32 50;;
  append_u64 7777;;
  push_back "Y";;
  append_u32 1250000;;
  expect_eq size 36;;
  msg ← decoded;
  expect_is (type (header msg)) OrderExecutedWithPrice;;
  oe ← as_ as_order_executed_with_price msg;
  expect_is (oep_order_reference_number oe) 555;;
  expect_is (oep_executed_shares oe) 50;;
  expect_is (oep_match_number oe) 7777;;
  expect_is (oep_printable oe) "Y"%byte;;
  expect_is (oep_execution_price oe) 1250000.

Definition Decode_OrderCancel : test (list byte) unit :=
  append_header "X" 1 1 1;;
  append_u64 555;;
  append_u32 25;;
  expect_eq size 23;;
  msg ← decoded;
  expect_is (type (header msg)) OrderCancel;;
  oc ← as_ as_order_cancel msg;
  expect_is (oc_order_reference_number oc) 555;;
  expect_is (oc_cancelled_shares oc) 25.

Definition Decode_OrderDelete : test (list byte) unit :=
  append_header "D" 1 1 1;;
  append_u64 555;;
  expect_eq size 19;;
  msg ← decoded;
  expect_is (type (header msg)) OrderDelete;;
  p ← as_ as_order_delete msg;
  expect_is (od_order_reference_number p) 555.

Definition Decode_OrderReplace : test (list byte) unit :=
  append_header "U" 1 1 1;;
  append_u64 555;;
  append_u64 556;;
  append_u32 200;;
  append_u32 1300000;;
  expect_eq size 35;;
  msg ← decoded;
  expect_is (type (header msg)) OrderReplace;;
  orep ← as_ as_order_replace msg;
  expect_is (or_original_order_reference_number orep) 555;;
  expect_is (or_new_order_reference_number orep) 556;;
  expect_is (or_shares orep) 200;;
  expect_is (or_price orep) 1300000.

Definition Decode_Trade : test (list byte) unit :=
  append_header "P" 1 1 1;;
  append_u64 555;;
  push_back "S";;
  append_u32 300;;
  append_str "TSLA    ";;
  append_u32 2500000;;
  append_u64 8888;;
  expect_eq size 44;;
  msg ← decoded;
  expect_is (type (header msg)) Trade;;
  tr ← as_ as_trade msg;
  expect_is (tr_order_reference_number tr) 555;;
  expect_is (tr_buy_sell_indicator tr) "S"%byte;;
  expect_is (tr_shares tr) 300;;
  expect_is (string_of (tr_stock tr)) "TSLA    "%string;;
  expect_is (tr_price tr) 2500000;;
  expect_is (tr_match_number tr) 8888.

Definition Decode_EmptySpanReturnsNullopt : test (list byte) unit :=
  expect_none decode_buf.

Definition Decode_UnrecognizedTypeReturnsNulloptWithoutCrashing : test (list byte) unit :=
  append_header "Z" 1 1 1;;
  expect_none decode_buf.

Definition Decode_TooShortSpanReturnsNullopt : test (list byte) unit :=
  append_header "A" 1 1 1;;
  expect_none decode_buf.

Definition suite : list (String.string * bool) := [
  ("SystemEvent"%string, passes (Some []) Decode_SystemEvent);
  ("StockDirectory"%string, passes (Some []) Decode_StockDirectory);
  ("AddOrderNoMpid"%string, passes (Some []) Decode_AddOrderNoMpid);
  ("AddOrderWithMpid"%string, passes (Some []) Decode_AddOrderWithMpid);
  ("OrderExecuted"%string, passes (Some []) Decode_OrderExecuted);
  ("OrderExecutedWithPrice"%string, passes (Some []) Decode_OrderExecutedWithPrice);
  ("OrderCancel"%string, passes (Some []) Decode_OrderCancel);
  ("OrderDelete"%string, passes (Some []) Decode_OrderDelete);
  ("OrderReplace"%string, passes (Some []) Decode_OrderReplace);
  ("Trade"%string, passes (Some []) Decode_Trade);
  ("EmptySpanReturnsNullopt"%string, passes (Some []) Decode_EmptySpanReturnsNullopt);
  ("UnrecognizedTypeReturnsNulloptWithoutCrashing"%string, passes (Some []) Decode_UnrecognizedTypeReturnsNulloptWithoutCrashing);
  ("TooShortSpanReturnsNullopt"%string, passes (Some []) Decode_TooShortSpanReturnsNullopt)
].

Lemma decode_suite_passes : all_pass suite = true.
Proof. vm_compute. reflexivity. Qed.
End DecodeTests.

(** ** test_file_reader.cpp *)
Module ReaderTests.
Import GTest.

(** [append_length_prefixed] on the bytes so far. *)
Definition append_length_prefixed (buf : list byte) (msg : list Z) : list byte :=
  let len := u16 (Z.of_nat (length msg)) in
  buf ++ to_byte (Z.shiftr len 8) :: to_byte len :: (to_byte <$> msg).

(** The reader on a temporary file with these bytes. *)
Definition reader_on (file_bytes : list byte) : ub ItchFileReader :=
  match open_reader (Opened file_bytes) with inr r => Some r | inl _ => None end.

Definition next_raw : test ItchFileReader (option (list byte)) := call next_raw_message.
Definition next : test ItchFileReader (option DecodedMessage) := call next_message.
Definition size_is (span : list byte) (n : Z) : test ItchFileReader unit := check (Z.of_nat (length span) =? n).
(** [to_integer(span[i])]. *)
Definition byte_is (span : list byte) (i : nat) (v : Z) : test ItchFileReader unit :=
  expect_eq (query (fun _ => to_integer <$> span !! i)) v.

Definition two_records : list byte :=
  append_length_prefixed (append_length_prefixed [] [0xAA; 0xBB; 0xCC]) [0x01; 0x02; 0x03; 0x04; 0x05].

Definition ReadsExactMessageBoundaries : test ItchFileReader unit :=
  first ← expect_some next_raw;
  size_is first 3;;
  byte_is first 0 0xAA;;
  byte_is first 1 0xBB;;
  byte_is first 2 0xCC;;
  second ← expect_some next_raw;
  size_is second 5;;
  byte_is second 4 0x05;;
  expect_eq next_raw None.

Definition EmptyFileReturnsNulloptImmediately : test ItchFileReader unit := expect_eq next_raw None.

(** A declared length of 10 with three bytes behind it. *)
Definition truncated : list byte :=
  append_length_prefixed [] [0x01; 0x02] ++ (to_byte <$> [0x00; 0x0A; 0xFF; 0xFF; 0xFF]).

Definition TruncatedTrailingRecordStopsCleanly : test ItchFileReader unit :=
  first ← expect_some next_raw;
  size_is first 2;;
  expect_eq next_raw None.

Definition order_delete_msg : list byte :=
  ["D"; x00; x01; x00; x02]%byte ++ replicate 6 x00 ++ replicate 7 x00 ++ [x2a].

Definition one_message : list byte :=
  let len := u16 (Z.of_nat (length order_delete_msg)) in
  to_byte (Z.shiftr len 8) :: to_byte len :: order_delete_msg.

Definition NextMessageDecodesARealItchMessage : test ItchFileReader unit :=
  size_is order_delete_msg 19;;
  decoded ← expect_some next;
  check (bool_decide (type (header decoded) = OrderDelete));;
  expect_eq (query (fun _ => p ← as_order_delete decoded; Some (od_order_reference_number p))) 42.

Definition suite : list (String.string * bool) := [
  ("ReadsExactMessageBoundaries"%string, passes (reader_on two_records) ReadsExactMessageBoundaries);
  ("EmptyFileReturnsNulloptImmediately"%string, passes (reader_on []) EmptyFileReturnsNulloptImmediately);
  ("TruncatedTrailingRecordStopsCleanly"%string, passes (reader_on truncated) TruncatedTrailingRecordStopsCleanly);
  ("NextMessageDecodesARealItchMessage"%string, passes (reader_on one_message) NextMessageDecodesARealItchMessage)
].

Lemma reader_suite_passes : all_pass suite = true.
Proof. vm_compute. reflexivity. Qed.
End ReaderTests.

(** ** smoke/test_version.cpp *)
Module VersionTests.
Import GTest.

Definition ReturnsNonEmptyString : test unit unit :=
  expect_false (get (fun _ => bool_decide (version = String.EmptyString))).
Definition MatchesExpectedM1Tag : test unit unit := expect_eq (get (fun _ => version)) "0.1.0-m1"%string.

Definition suite : list (String.string * bool) := [
  ("ReturnsNonEmptyString"%string, passes (Some tt) ReturnsNonEmptyString);
  ("MatchesExpectedM1Tag"%string, passes (Some tt) MatchesExpectedM1Tag)
].

Lemma version_suite_passes : all_pass suite = true.
Proof. vm_compute. reflexivity. Qed.
End VersionTests.
