(* ===== verification/BookTests.v ===== *)
(** * book/tests/test_order_book.cpp

    The unit tests of the order book, statement by statement, run on the model. *)

From S2P Require Import Prelude HashMap IntrusiveList ObjectPool OrderBook GTest.
From stdpp Require Import strings.

Local Open Scope Z_scope.

Module BookTests.
Import GTest.

Definition kRef : Z := 1000000.
Definition kHalfWidth : Z := 50.
Definition kCapacity : Z := 64.

Definition make_book : ub OrderBook := make kRef kHalfWidth kCapacity.

(** ** The members the tests call *)

Definition add_order_as (ref p s : Z) (is_buy : bool) (trader_id : Z) : test OrderBook bool :=
  call (fun b => OrderBook.add_order b ref p s is_buy trader_id).
(** [trader_id] defaults to 0. *)
Definition add_order (ref p s : Z) (is_buy : bool) : test OrderBook bool := add_order_as ref p s is_buy 0.
Definition execute_order (ref s : Z) : test OrderBook bool := call (fun b => OrderBook.execute_order b ref s).
Definition cancel_order (ref s : Z) : test OrderBook bool := call (fun b => OrderBook.cancel_order b ref s).
Definition delete_order (ref : Z) : test OrderBook bool := call (fun b => OrderBook.delete_order b ref).
Definition replace_order (old_ref new_ref s p : Z) : test OrderBook bool :=
  call (fun b => OrderBook.replace_order b old_ref new_ref s p).

Definition best_bid : test OrderBook (option Z) := get OrderBook.best_bid.
Definition best_ask : test OrderBook (option Z) := get OrderBook.best_ask.
Definition order_count : test OrderBook Z := get OrderBook.order_count.
Definition shares_at (p : Z) (is_buy : bool) : test OrderBook Z := query (fun b => OrderBook.shares_at b p is_buy).
Definition best_bid_level : test OrderBook (option LevelRef) := get OrderBook.best_bid_level.
Definition best_ask_level : test OrderBook (option LevelRef) := get OrderBook.best_ask_level.
Definition next_level_after (p : Z) (is_buy : bool) : test OrderBook (option LevelRef) :=
  get (fun b => OrderBook.next_level_after b p is_buy).

(** [level->price], and [level->bids.front()->trader_id]. *)
Definition price_of (level : LevelRef) : test OrderBook Z :=
  query (fun b => level_price <$> get_level b level).
Definition first_bid_trader (level : LevelRef) : test OrderBook Z :=
  query (fun b =>
    lv ← get_level b level;
    order ← IList.front (bids lv);
    trader_id <$> load (order_pool_ b) order).
Definition has_bids (level : LevelRef) : test OrderBook bool :=
  query (fun b => lv ← get_level b level; Some (negb (IList.is_empty (bids lv)))).

(** ** The tests *)

Definition StartsWithNoBestBidOrAsk : test OrderBook unit :=
  expect_eq best_bid None;;
  expect_eq best_ask None;;
  expect_eq order_count 0.

Definition AddOrderSetsBestBidAndAsk : test OrderBook unit :=
  expect_true (add_order 1 kRef 100 true);;
  expect_true (add_order 2 (kRef + 10) 200 false);;
  expect_eq best_bid (Some kRef);;
  expect_eq best_ask (Some (kRef + 10));;
  expect_eq order_count 2.

Definition BestBidTracksTheHighestPrice : test OrderBook unit :=
  expect_true (add_order 1 (kRef - 5) 100 true);;
  expect_true (add_order 2 (kRef + 5) 100 true);;
  expect_true (add_order 3 kRef 100 true);;
  expect_eq best_bid (Some (kRef + 5)).

Definition BestAskTracksTheLowestPrice : test OrderBook unit :=
  expect_true (add_order 1 (kRef + 5) 100 false);;
  expect_true (add_order 2 (kRef - 5) 100 false);;
  expect_true (add_order 3 kRef 100 false);;
  expect_eq best_ask (Some (kRef - 5)).

Definition ExecutePartialReducesSharesWithoutRemovingOrder : test OrderBook unit :=
  expect_true (add_order 1 kRef 100 true);;
  expect_true (execute_order 1 40);;
  expect_eq (shares_at kRef true) 60;;
  expect_eq order_count 1;;
  expect_eq best_bid (Some kRef).

Definition ExecuteFullRemovesOrderAndUpdatesBest : test OrderBook unit :=
  expect_true (add_order 1 kRef 100 true);;
  expect_true (execute_order 1 100);;
  expect_eq order_count 0;;
  expect_eq (shares_at kRef true) 0;;
  expect_eq best_bid None.

Definition CancelPartialReducesShares : test OrderBook unit :=
  expect_true (add_order 1 kRef 100 false);;
  expect_true (cancel_order 1 30);;
  expect_eq (shares_at kRef false) 70.

Definition DeleteOrderRemovesItEntirely : test OrderBook unit :=
  expect_true (add_order 1 kRef 100 true);;
  expect_true (delete_order 1);;
  expect_eq order_count 0;;
  expect_eq best_bid None.

Definition BestBidWalksToNextLevelWhenTopEmpties : test OrderBook unit :=
  expect_true (add_order 1 (kRef + 10) 100 true);;
  expect_true (add_order 2 (kRef + 5) 100 true);;
  expect_true (add_order 3 kRef 100 true);;
  expect_eq best_bid (Some (kRef + 10));;
  expect_true (delete_order 1);;
  expect_eq best_bid (Some (kRef + 5));;
  expect_true (delete_order 2);;
  expect_eq best_bid (Some kRef);;
  expect_true (delete_order 3);;
  expect_eq best_bid None.

Definition BestAskWalksToNextLevelWhenTopEmpties : test OrderBook unit :=
  expect_true (add_order 1 (kRef - 10) 100 false);;
  expect_true (add_order 2 (kRef - 5) 100 false);;
  expect_true (add_order 3 kRef 100 false);;
  expect_true (delete_order 1);;
  expect_eq best_ask (Some (kRef - 5)).

Definition ReplaceOrderMovesPriceAndShares : test OrderBook unit :=
  expect_true (add_order 1 kRef 100 true);;
  expect_true (replace_order 1 2 250 (kRef + 5));;
  expect_eq (shares_at kRef true) 0;;
  expect_eq (shares_at (kRef + 5) true) 250;;
  expect_eq order_count 1;;
  expect_eq best_bid (Some (kRef + 5)).

Definition PricesOutsideFlatArrayUseTheFallbackMap : test OrderBook unit :=
  let outlier_price := kRef + kHalfWidth + 1000 in
  expect_true (add_order 1 outlier_price 100 true);;
  expect_eq (shares_at outlier_price true) 100;;
  expect_eq best_bid (Some outlier_price).

Definition PriceExactlyAtTheFlatArrayBoundaryWorks : test OrderBook unit :=
  let edge_price := kRef + kHalfWidth in
  expect_true (add_order 1 edge_price 100 true);;
  expect_eq (shares_at edge_price true) 100.

Definition OperatingOnAnUnknownOrderRefFailsCleanly : test OrderBook unit :=
  expect_false (execute_order 999 10);;
  expect_false (cancel_order 999 10);;
  expect_false (delete_order 999);;
  expect_false (replace_order 999 1000 10 kRef).

Definition OperatingOnAnAlreadyRemovedOrderFailsCleanly : test OrderBook unit :=
  expect_true (add_order 1 kRef 100 true);;
  expect_true (delete_order 1);;
  expect_false (execute_order 1 10);;
  expect_false (cancel_order 1 10);;
  expect_false (delete_order 1).

Definition DuplicateOrderRefIsRejected : test OrderBook unit :=
  expect_true (add_order 1 kRef 100 true);;
  expect_false (add_order 1 (kRef + 1) 50 true);;
  expect_eq order_count 1.

Definition ExecutingMoreSharesThanRemainingFailsCleanly : test OrderBook unit :=
  expect_true (add_order 1 kRef 100 true);;
  expect_false (execute_order 1 101);;
  expect_eq (shares_at kRef true) 100.

Definition BidsAndAsksAtTheSamePriceAreTrackedIndependently : test OrderBook unit :=
  expect_true (add_order 1 kRef 100 true);;
  expect_true (add_order 2 kRef 200 false);;
  expect_eq (shares_at kRef true) 100;;
  expect_eq (shares_at kRef false) 200;;
  expect_eq best_bid (Some kRef);;
  expect_eq best_ask (Some kRef).

Definition AddOrderPropagatesTraderId : test OrderBook unit :=
  expect_true (add_order_as 1 kRef 100 true 7);;
  level ← expect_some best_bid_level;
  expect_true (has_bids level);;
  expect_eq (first_bid_trader level) 7.

Definition AddOrderDefaultsTraderIdToZero : test OrderBook unit :=
  expect_true (add_order 1 kRef 100 true);;
  level ← expect_some best_bid_level;
  expect_eq (first_bid_trader level) 0.

Definition BestBidAskLevelIsNullWhenEmpty : test OrderBook unit :=
  expect_eq best_bid_level None;;
  expect_eq best_ask_level None.

Definition BestBidAskLevelReturnsTheCachedBest : test OrderBook unit :=
  expect_true (add_order 1 (kRef - 5) 100 true);;
  expect_true (add_order 2 (kRef + 5) 100 true);;
  expect_true (add_order 3 (kRef + 10) 50 false);;
  bid_level ← expect_some best_bid_level;
  expect_eq (price_of bid_level) (kRef + 5);;
  ask_level ← expect_some best_ask_level;
  expect_eq (price_of ask_level) (kRef + 10).

Definition NextLevelAfterWalksTheFlatArrayInPriorityOrder : test OrderBook unit :=
  expect_true (add_order 1 (kRef + 10) 100 true);;
  expect_true (add_order 2 (kRef + 5) 100 true);;
  expect_true (add_order 3 kRef 100 true);;
  best ← expect_some best_bid_level;
  best_price ← price_of best;
  check (best_price =? kRef + 10);;
  second ← expect_some (next_level_after best_price true);
  second_price ← price_of second;
  check (second_price =? kRef + 5);;
  third ← expect_some (next_level_after second_price true);
  third_price ← price_of third;
  check (third_price =? kRef);;
  expect_eq (next_level_after third_price true) None.

Definition NextLevelAfterCrossesFromFlatArrayIntoOutlierMap : test OrderBook unit :=
  let outlier_price := u32 (kRef - kHalfWidth - 1000) in
  expect_true (add_order 1 (kRef - kHalfWidth) 100 true);;
  expect_true (add_order 2 outlier_price 100 true);;
  flat_edge ← expect_some best_bid_level;
  edge_price ← price_of flat_edge;
  check (edge_price =? kRef - kHalfWidth);;
  next ← expect_some (next_level_after edge_price true);
  next_price ← price_of next;
  check (next_price =? outlier_price);;
  expect_eq (next_level_after next_price true) None.

Definition NextLevelAfterSkipsEmptiedLevels : test OrderBook unit :=
  expect_true (add_order 1 (kRef + 10) 100 false);;
  expect_true (add_order 2 (kRef + 5) 100 false);;
  expect_true (add_order 3 kRef 100 false);;
  expect_true (cancel_order 2 100);;
  best ← expect_some best_ask_level;
  best_price ← price_of best;
  check (best_price =? kRef);;
  next ← expect_some (next_level_after best_price false);
  expect_eq (price_of next) (kRef + 10).

Definition suite : list (String.string * bool) := [
  ("StartsWithNoBestBidOrAsk"%string, passes make_book StartsWithNoBestBidOrAsk);
  ("AddOrderSetsBestBidAndAsk"%string, passes make_book AddOrderSetsBestBidAndAsk);
  ("BestBidTracksTheHighestPrice"%string, passes make_book BestBidTracksTheHighestPrice);
  ("BestAskTracksTheLowestPrice"%string, passes make_book BestAskTracksTheLowestPrice);
  ("ExecutePartialReducesSharesWithoutRemovingOrder"%string, passes make_book ExecutePartialReducesSharesWithoutRemovingOrder);
  ("ExecuteFullRemovesOrderAndUpdatesBest"%string, passes make_book ExecuteFullRemovesOrderAndUpdatesBest);
  ("CancelPartialReducesShares"%string, passes make_book CancelPartialReducesShares);
  ("DeleteOrderRemovesItEntirely"%string, passes make_book DeleteOrderRemovesItEntirely);
  ("BestBidWalksToNextLevelWhenTopEmpties"%string, passes make_book BestBidWalksToNextLevelWhenTopEmpties);
  ("BestAskWalksToNextLevelWhenTopEmpties"%string, passes make_book BestAskWalksToNextLevelWhenTopEmpties);
  ("ReplaceOrderMovesPriceAndShares"%string, passes make_book ReplaceOrderMovesPriceAndShares);
  ("PricesOutsideFlatArrayUseTheFallbackMap"%string, passes make_book PricesOutsideFlatArrayUseTheFallbackMap);
  ("PriceExactlyAtTheFlatArrayBoundaryWorks"%string, passes make_book PriceExactlyAtTheFlatArrayBoundaryWorks);
  ("OperatingOnAnUnknownOrderRefFailsCleanly"%string, passes make_book OperatingOnAnUnknownOrderRefFailsCleanly);
  ("OperatingOnAnAlreadyRemovedOrderFailsCleanly"%string, passes make_book OperatingOnAnAlreadyRemovedOrderFailsCleanly);
  ("DuplicateOrderRefIsRejected"%string, passes make_book DuplicateOrderRefIsRejected);
  ("ExecutingMoreSharesThanRemainingFailsCleanly"%string, passes make_book ExecutingMoreSharesThanRemainingFailsCleanly);
  ("BidsAndAsksAtTheSamePriceAreTrackedIndependently"%string, passes make_book BidsAndAsksAtTheSamePriceAreTrackedIndependently);
  ("AddOrderPropagatesTraderId"%string, passes make_book AddOrderPropagatesTraderId);
  ("AddOrderDefaultsTraderIdToZero"%string, passes make_book AddOrderDefaultsTraderIdToZero);
  ("BestBidAskLevelIsNullWhenEmpty"%string, passes make_book BestBidAskLevelIsNullWhenEmpty);
  ("BestBidAskLevelReturnsTheCachedBest"%string, passes make_book BestBidAskLevelReturnsTheCachedBest);
  ("NextLevelAfterWalksTheFlatArrayInPriorityOrder"%string, passes make_book NextLevelAfterWalksTheFlatArrayInPriorityOrder);
  ("NextLevelAfterCrossesFromFlatArrayIntoOutlierMap"%string, passes make_book NextLevelAfterCrossesFromFlatArrayIntoOutlierMap);
  ("NextLevelAfterSkipsEmptiedLevels"%string, passes make_book NextLevelAfterSkipsEmptiedLevels)
].

Lemma book_suite_passes : all_pass suite = true.
Proof. vm_compute. reflexivity. Qed.
End BookTests.
