(* ===== verification/EngineTests.v ===== *)
(** * engine/tests/test_matching_engine.cpp

    The unit tests of the matching engine, statement by statement, run on the model:
    an order book and a handler that records the events of each kind. *)

From S2P Require Import Prelude OrderBook BookSpec BookInterface MatchingEngine GTest.
From stdpp Require Import strings.

Local Open Scope Z_scope.

Module EngineTests.
Import GTest.

Record RecordingHandler := MkHandler {
  fills : list FillEvent;
  rests : list RestEvent;
  kills : list KillEvent
}.

#[global] Instance recording : EventHandler RecordingHandler := {|
  on_fill h e := MkHandler (fills h ++ [e]) (rests h) (kills h);
  on_rest h e := MkHandler (fills h) (rests h ++ [e]) (kills h);
  on_kill h e := MkHandler (fills h) (rests h) (kills h ++ [e])
|}.

Definition kRef : Z := 1000000.
Definition kHalfWidth : Z := 200.
Definition kCapacity : Z := 256.

(** A fresh book and a fresh handler. *)
Definition objects : Type := OrderBook * RecordingHandler.
Definition make_book : ub objects := b ← make kRef kHalfWidth kCapacity; Some (b, MkHandler [] [] []).

(** ** The calls of the tests *)

Definition add_order_as (ref p s : Z) (is_buy : bool) (trader_id : Z) : test objects bool :=
  call (fun '(b, h) => '(b, ok) ← OrderBook.add_order b ref p s is_buy trader_id; Some ((b, h), ok)).
Definition add_order (ref p s : Z) (is_buy : bool) : test objects bool := add_order_as ref p s is_buy 0.

(** [engine.submit], on an engine over the two objects. *)
Definition submit_to (engine : MatchingEngine) (order : IncomingOrder) : test objects unit :=
  call (fun '(b, h) => r ← engine_submit engine b h order; Some (r, tt)).
(** [MatchingEngine engine(book, handler)], and with [prevent_self_trade] set. *)
Definition submit (order : IncomingOrder) : test objects unit := submit_to (make_engine None) order.
Definition submit_preventing (order : IncomingOrder) : test objects unit := submit_to (make_engine (Some true)) order.

(** [IncomingOrder {ref, price, quantity, is_buy, type}]: [trader_id] defaults to 0. *)
Definition incoming (ref p q : Z) (is_buy : bool) (t : OrderType) : IncomingOrder := MkIncoming ref p q is_buy t 0.

Definition shares_at (p : Z) (is_buy : bool) : test objects Z := query (fun s => OrderBook.shares_at s.1 p is_buy).
Definition order_count : test objects Z := get (fun s => OrderBook.order_count s.1).
Definition best_bid : test objects (option Z) := get (fun s => OrderBook.best_bid s.1).
Definition best_ask : test objects (option Z) := get (fun s => OrderBook.best_ask s.1).

Definition fills_size : test objects Z := get (fun s => Z.of_nat (length (fills s.2))).
Definition rests_size : test objects Z := get (fun s => Z.of_nat (length (rests s.2))).
Definition kills_size : test objects Z := get (fun s => Z.of_nat (length (kills s.2))).
(** [handler.fills[i].member]: past the end is undefined. *)
Definition fill_at {A} (i : nat) (member : FillEvent -> A) : test objects A :=
  query (fun s => member <$> fills s.2 !! i).
Definition rest_at {A} (i : nat) (member : RestEvent -> A) : test objects A :=
  query (fun s => member <$> rests s.2 !! i).
Definition kill_at {A} (i : nat) (member : KillEvent -> A) : test objects A :=
  query (fun s => member <$> kills s.2 !! i).

(** ** The tests *)

Definition LimitOrderPartiallyFillsAndRestsRemainder : test objects unit :=
  expect_true (add_order 1 kRef 60 false);;
  submit (incoming 2 kRef 100 true Limit);;
  expect_eq fills_size 1;;
  expect_eq (fill_at 0 aggressor_ref) 2;;
  expect_eq (fill_at 0 resting_ref) 1;;
  expect_eq (fill_at 0 fill_price) kRef;;
  expect_eq (fill_at 0 fill_quantity) 60;;
  expect_eq rests_size 1;;
  expect_eq (rest_at 0 rest_ref) 2;;
  expect_eq (rest_at 0 rest_quantity) 40;;
  expect_eq (shares_at kRef false) 0;;
  expect_eq (shares_at kRef true) 40.

Definition LimitOrderExactQuantityMatchLeavesNoRemainder : test objects unit :=
  expect_true (add_order 1 kRef 100 false);;
  submit (incoming 2 kRef 100 true Limit);;
  expect_eq fills_size 1;;
  expect_eq (fill_at 0 fill_quantity) 100;;
  expect_eq rests_size 0;;
  expect_eq order_count 0.

Definition LimitOrderWalksMultiplePriceLevels : test objects unit :=
  expect_true (add_order 1 kRef 30 false);;
  expect_true (add_order 2 (kRef + 5) 30 false);;
  expect_true (add_order 3 (kRef + 10) 30 false);;
  submit (incoming 4 (kRef + 10) 70 true Limit);;
  expect_eq fills_size 3;;
  expect_eq (fill_at 0 fill_price) kRef;;
  expect_eq (fill_at 1 fill_price) (kRef + 5);;
  expect_eq (fill_at 2 fill_price) (kRef + 10);;
  expect_eq (fill_at 2 fill_quantity) 10;;
  expect_eq rests_size 0;;
  expect_eq (shares_at (kRef + 10) false) 20.

Definition PriceTimePriorityFillsEarliestOrderFirstWithinALevel : test objects unit :=
  expect_true (add_order 1 kRef 30 false);;
  expect_true (add_order 2 kRef 30 false);;
  submit (incoming 3 kRef 30 true Limit);;
  expect_eq fills_size 1;;
  expect_eq (fill_at 0 resting_ref) 1;;
  expect_eq (shares_at kRef false) 30.

Definition LimitOrderWithNoCrossingLiquidityRestsEntirely : test objects unit :=
  expect_true (add_order 1 (kRef + 10) 50 false);;
  submit (incoming 2 kRef 100 true Limit);;
  expect_eq fills_size 0;;
  expect_eq rests_size 1;;
  expect_eq (rest_at 0 rest_quantity) 100;;
  expect_eq (shares_at kRef true) 100.

Definition MarketOrderFullyFilledAcrossLevelsIgnoringPrice : test objects unit :=
  expect_true (add_order 1 kRef 40 false);;
  expect_true (add_order 2 (kRef + 50) 60 false);;
  submit (incoming 3 0 100 true Market);;
  expect_eq fills_size 2;;
  expect_eq (fill_at 0 fill_price) kRef;;
  expect_eq (fill_at 1 fill_price) (kRef + 50);;
  expect_eq kills_size 0;;
  expect_eq order_count 0.

Definition MarketOrderPartialFillDiscardsRemainderWithoutResting : test objects unit :=
  expect_true (add_order 1 kRef 40 false);;
  submit (incoming 2 0 100 true Market);;
  expect_eq fills_size 1;;
  expect_eq (fill_at 0 fill_quantity) 40;;
  expect_eq kills_size 1;;
  expect_eq (kill_at 0 unfilled_quantity) 60;;
  expect_eq order_count 0.

Definition IocPartialFillCancelsRemainder : test objects unit :=
  expect_true (add_order 1 kRef 30 false);;
  submit (incoming 2 kRef 100 true IOC);;
  expect_eq fills_size 1;;
  expect_eq (fill_at 0 fill_quantity) 30;;
  expect_eq kills_size 1;;
  expect_eq (kill_at 0 unfilled_quantity) 70;;
  expect_eq order_count 0.

Definition IocWithNoLiquidityIsFullyKilled : test objects unit :=
  submit (incoming 1 kRef 50 true IOC);;
  expect_eq fills_size 0;;
  expect_eq kills_size 1;;
  expect_eq (kill_at 0 unfilled_quantity) 50;;
  expect_eq order_count 0.

Definition FokThatCanFullyFillExecutesCompletely : test objects unit :=
  expect_true (add_order 1 kRef 60 false);;
  expect_true (add_order 2 (kRef + 5) 40 false);;
  submit (incoming 3 (kRef + 5) 100 true FOK);;
  expect_eq fills_size 2;;
  expect_eq (fill_at 0 fill_quantity) 60;;
  expect_eq (fill_at 1 fill_quantity) 40;;
  expect_eq kills_size 0;;
  expect_eq order_count 0.

Definition FokThatCannotFullyFillProducesZeroFillsAndZeroMutation : test objects unit :=
  expect_true (add_order 1 kRef 60 false);;
  before_order_count ← order_count;
  before_shares ← shares_at kRef false;
  before_best_bid ← best_bid;
  before_best_ask ← best_ask;
  submit (incoming 2 kRef 100 true FOK);;
  expect_eq fills_size 0;;
  expect_eq kills_size 1;;
  expect_eq (kill_at 0 kill_ref) 2;;
  expect_eq (kill_at 0 unfilled_quantity) 100;;
  expect_eq order_count before_order_count;;
  expect_eq (shares_at kRef false) before_shares;;
  expect_eq best_bid before_best_bid;;
  expect_eq best_ask before_best_ask.

Definition FokRejectionRespectsThePriceLimitNotJustTotalVolume : test objects unit :=
  expect_true (add_order 1 (kRef + 20) 100 false);;
  submit (incoming 2 kRef 100 true FOK);;
  expect_eq fills_size 0;;
  expect_eq kills_size 1;;
  expect_eq (kill_at 0 unfilled_quantity) 100;;
  expect_eq (shares_at (kRef + 20) false) 100.

Definition SelfTradePreventionOffByDefaultAllowsMatchingOwnOrder : test objects unit :=
  expect_true (add_order_as 1 kRef 50 false 9);;
  submit (MkIncoming 2 kRef 50 true Limit 9);;
  expect_eq fills_size 1;;
  expect_eq (fill_at 0 resting_ref) 1;;
  expect_eq order_count 0.

Definition SelfTradePreventionOnSkipsOwnOrderAndMatchesNextEligible : test objects unit :=
  expect_true (add_order_as 1 kRef 50 false 9);;
  expect_true (add_order_as 2 kRef 50 false 11);;
  submit_preventing (MkIncoming 3 kRef 50 true Limit 9);;
  expect_eq fills_size 1;;
  expect_eq (fill_at 0 resting_ref) 2;;
  expect_eq order_count 1;;
  expect_eq (shares_at kRef false) 50.

Definition SelfTradePreventionOnWithNoOtherLiquidityRestsEntirely : test objects unit :=
  expect_true (add_order_as 1 kRef 50 false 9);;
  submit_preventing (MkIncoming 2 kRef 50 true Limit 9);;
  expect_eq fills_size 0;;
  expect_eq rests_size 1;;
  expect_eq (rest_at 0 rest_quantity) 50;;
  expect_eq (shares_at kRef false) 50;;
  expect_eq (shares_at kRef true) 50.

Definition SelfTradePreventionDoesNotBlockOrdersWithNoTraderId : test objects unit :=
  expect_true (add_order 1 kRef 50 false);;
  submit_preventing (incoming 2 kRef 50 true Limit);;
  expect_eq fills_size 1;;
  expect_eq order_count 0.

Definition SelfTradePreventionAffectsFokAvailabilityCheck : test objects unit :=
  expect_true (add_order_as 1 kRef 100 false 9);;
  submit_preventing (MkIncoming 2 kRef 100 true FOK 9);;
  expect_eq fills_size 0;;
  expect_eq kills_size 1;;
  expect_eq (kill_at 0 unfilled_quantity) 100;;
  expect_eq (shares_at kRef false) 100.

Definition suite : list (String.string * bool) := [
  ("LimitOrderPartiallyFillsAndRestsRemainder"%string, passes make_book LimitOrderPartiallyFillsAndRestsRemainder);
  ("LimitOrderExactQuantityMatchLeavesNoRemainder"%string, passes make_book LimitOrderExactQuantityMatchLeavesNoRemainder);
  ("LimitOrderWalksMultiplePriceLevels"%string, passes make_book LimitOrderWalksMultiplePriceLevels);
  ("PriceTimePriorityFillsEarliestOrderFirstWithinALevel"%string, passes make_book PriceTimePriorityFillsEarliestOrderFirstWithinALevel);
  ("LimitOrderWithNoCrossingLiquidityRestsEntirely"%string, passes make_book LimitOrderWithNoCrossingLiquidityRestsEntirely);
  ("MarketOrderFullyFilledAcrossLevelsIgnoringPrice"%string, passes make_book MarketOrderFullyFilledAcrossLevelsIgnoringPrice);
  ("MarketOrderPartialFillDiscardsRemainderWithoutResting"%string, passes make_book MarketOrderPartialFillDiscardsRemainderWithoutResting);
  ("IocPartialFillCancelsRemainder"%string, passes make_book IocPartialFillCancelsRemainder);
  ("IocWithNoLiquidityIsFullyKilled"%string, passes make_book IocWithNoLiquidityIsFullyKilled);
  ("FokThatCanFullyFillExecutesCompletely"%string, passes make_book FokThatCanFullyFillExecutesCompletely);
  ("FokThatCannotFullyFillProducesZeroFillsAndZeroMutation"%string, passes make_book FokThatCannotFullyFillProducesZeroFillsAndZeroMutation);
  ("FokRejectionRespectsThePriceLimitNotJustTotalVolume"%string, passes make_book FokRejectionRespectsThePriceLimitNotJustTotalVolume);
  ("SelfTradePreventionOffByDefaultAllowsMatchingOwnOrder"%string, passes make_book SelfTradePreventionOffByDefaultAllowsMatchingOwnOrder);
  ("SelfTradePreventionOnSkipsOwnOrderAndMatchesNextEligible"%string, passes make_book SelfTradePreventionOnSkipsOwnOrderAndMatchesNextEligible);
  ("SelfTradePreventionOnWithNoOtherLiquidityRestsEntirely"%string, passes make_book SelfTradePreventionOnWithNoOtherLiquidityRestsEntirely);
  ("SelfTradePreventionDoesNotBlockOrdersWithNoTraderId"%string, passes make_book SelfTradePreventionDoesNotBlockOrdersWithNoTraderId);
  ("SelfTradePreventionAffectsFokAvailabilityCheck"%string, passes make_book SelfTradePreventionAffectsFokAvailabilityCheck)
].

Lemma engine_suite_passes : all_pass suite = true.
Proof. vm_compute. reflexivity. Qed.
End EngineTests.
