(* ===== verification/BenchTheorems.v ===== *)
(** * What the benchmark programs promise

    The latency histogram, then the four programs of bench/: what they do to the
    code they measure, and what the numbers they print stand for.  The clock is any
    steady clock, the random draws are arbitrary.  At the end, the allocation guard of
    the tests. *)

From S2P Require Import Prelude StdModel HashMap IntrusiveList ObjectPool ByteOrder Messages Decode.
From S2P Require Import FileReader OrderBook BookSpec BookInvariant BookBest BookRefinement BookOps.
From S2P Require Import BookQueries Feed BookInterface MatchingEngine MatchingSpec MatchingProofs.
From S2P Require Import Synth SynthCodec SynthProofs SynthTheorems SpscRing Handoff HandoffProofs.
From S2P Require Import Fairness Float64 Printf LatencyHistogram Bench BenchOrderBook BenchEngine BenchRing BenchParser.
From S2P Require Import AllocationGuard.
From stdpp Require Import relations.
From Stdlib Require Strings.String.
Import (notations) Strings.String.
Import Synth SynthCodec SynthProofs.

Local Open Scope Z_scope.

(** A system on which pinning succeeds. *)
Definition pinning_linux : Affinity := MkAffinity true (fun _ => 0).

(** ** The histogram *)

(** C38. What [LatencyHistogram] reports.  Without samples every field is zero.
    With up to 2^41 samples [compute] is defined although the indices are computed
    in double arithmetic: the percentiles are the samples at the exact ranks
    [p * (count - 1)], rounded down, of the sorted samples, and are ordered; [max] is
    the greatest sample.  While the samples are not negative and their sum fits 53
    bits, the mean is the correctly rounded quotient of the exact sum. *)
Theorem percentiles_are_exact_ranks (capacity : Z) (samples : list Z) :
  Histogram.compute (Histogram.make capacity) = Some Histogram.no_percentiles /\
  (1 <= Z.of_nat (length samples) <= 2 ^ 41 ->
   exists sorted p, sorted ≡ₚ samples /\ Sorted Z.le sorted /\
     Histogram.compute (Histogram.record_all (Histogram.make capacity) samples) = Some p /\
     Histogram.reports sorted p /\
     Histogram.p50 p <= Histogram.p90 p <= Histogram.p99 p /\
     Histogram.p99 p <= Histogram.p999 p <= Histogram.max p /\
     (forall x, x ∈ samples -> x <= Histogram.max p) /\
     ((forall x, x ∈ samples -> 0 <= x) -> sumZ id samples < 2 ^ 53 ->
      Histogram.mean p = div (of_int (sumZ id samples)) (of_int (Z.of_nat (length samples))))).
Proof.
  split; [done|]. intros Hn. pose proof (Histogram.record_all_samples (Histogram.make capacity) samples) as Hrec.
  destruct (Histogram.record_all _ _) as [recorded]. cbn in Hrec. subst recorded.
  destruct (Histogram.compute_spec samples Hn) as (p & Hp & Hr & Hmean).
  pose proof (merge_sort_Permutation Z.le samples) as Hperm. set (sorted := merge_sort Z.le samples) in *.
  assert (Sorted Z.le sorted) as Hs by (apply Sorted_merge_sort, _).
  pose proof (Permutation_length Hperm) as Hl.
  destruct (Histogram.reports_ordered sorted p Hs ltac:(lia) Hr) as [H1 H2].
  exists sorted, p. split_and!; try done; try lia.
  - intros x Hx. apply (Histogram.last_sorted_max sorted); [done|by apply Hr|by rewrite Hperm].
  - intros Hpos Hsum. rewrite Hmean, Histogram.accumulate_exact; [by rewrite Hperm| |by rewrite Hperm].
    intros x Hx. apply Hpos. by rewrite <- Hperm.
Qed.

Lemma percentiles_are_exact_ranks_witness :
  exists sorted p, sorted ≡ₚ [30; 10; 20] /\
    Histogram.compute (Histogram.record_all (Histogram.make 8) [30; 10; 20]) = Some p /\
    Histogram.p50 p = 20 /\ Histogram.max p = 30 /\ Histogram.mean p = of_int 20.
Proof.
  destruct (percentiles_are_exact_ranks 8 [30; 10; 20]) as [_ Hc].
  destruct Hc as (sorted & p & Hperm & _ & Hp & _ & _ & _ & _ & Hmean); [cbn; lia|].
  exists sorted, p. split; [done|]. split; [done|]. rewrite Hmean.
  - vm_compute in Hp. injection Hp as <-. split_and!; vm_compute; reflexivity.
  - intros x Hx. rewrite !elem_of_cons, elem_of_nil in Hx. lia.
  - cbn. lia.
Defined.

(** ** The matching engine benchmarks *)

(** C36. Each benchmark measures the case it is named after.  For any steady clock
    and any event handler the three benchmarks run without undefined behaviour.  In
    the full-match and the immediate-or-cancel benchmarks every one of the 110000
    iterations causes exactly its fill (of 100 shares, or of 50 and the kill of the
    other 50) against the ask it has just added, and the book is empty again; in the
    third all orders rest, none trades, and all 110000 are on the book.  [main]
    prints three reports on 100000 durations each, with ordered percentiles. *)
Theorem engine_benchmarks_measure_their_case {C H : Type} `{!Clock C, !SteadyClock C, !EventHandler H}
    (h : H) (c : C) (os : Affinity) :
  (exists s p c', BenchEngine.bench_immediate_full_match h c = Some (s, p, c') /\
     Rep (BenchEngine.book s) [] /\
     BenchEngine.handler s =
       foldl notify h (BenchEngine.events_upto (BenchEngine.match_event 100) BenchEngine.total_iterations)) /\
  (exists s p c', BenchEngine.bench_ioc_partial_fill h c = Some (s, p, c') /\
     Rep (BenchEngine.book s) [] /\
     BenchEngine.handler s =
       foldl notify h (BenchEngine.events_upto (BenchEngine.match_event 50) BenchEngine.total_iterations)) /\
  (exists b h' p c', BenchEngine.bench_rests_no_match h c = Some (b, h', p, c') /\
     order_count b = BenchEngine.total_iterations /\
     h' = foldl notify h (BenchEngine.events_upto BenchEngine.rest_event BenchEngine.total_iterations)) /\
  exists matched rested partial,
    BenchEngine.main os c = Some
      [Pinning (pin_current_thread_to_cpu os 0); Config kWarmupIterations kMeasuredIterations;
       Report "MatchingEngine::submit (full match)"%string matched;
       Report "MatchingEngine::submit (rests, no match)"%string rested;
       Report "MatchingEngine::submit (IOC partial fill)"%string partial] /\
    Forall (sound_report kMeasuredIterations) [matched; rested; partial].
Proof.
  split_and!.
  - destruct (BenchEngine.full_match_spec h c) as (s & p & c' & Hs & HR & Hh & _).
    exists s, p, c'. exact (conj Hs (conj HR Hh)).
  - destruct (BenchEngine.ioc_partial_fill_spec h c) as (s & p & c' & Hs & HR & Hh & _).
    exists s, p, c'. exact (conj Hs (conj HR Hh)).
  - destruct (BenchEngine.bench_rests_spec h c) as (b & h' & p & c' & Hs & Hn & Hh & _).
    exists b, h', p, c'. exact (conj Hs (conj Hn Hh)).
  - apply BenchEngine.engine_main_spec.
Qed.

Lemma engine_benchmarks_measure_their_case_witness :
  exists s p c', BenchEngine.bench_ioc_partial_fill (@nil Event) 7%nat = Some (s, p, c') /\
    BenchEngine.handler s =
      foldl notify [] (BenchEngine.events_upto (BenchEngine.match_event 50) BenchEngine.total_iterations).
Proof.
  destruct (engine_benchmarks_measure_their_case (@nil Event) 7%nat pinning_linux)
    as (_ & (s & p & c' & Hs & _ & Hh) & _).
  exists s, p, c'. split; [exact Hs|exact Hh].
Defined.

(** ** The printed reports *)

(** The [print_report] of each program with its format and the names it is called with. *)
Definition report_printers : list ((String.string -> Histogram.Percentiles -> ub (list byte)) * list byte * list String.string) :=
  [(BenchOrderBook.print_report, BenchOrderBook.report_format,
    ["OrderBook::add_order"; "OrderBook::cancel_order"; "OrderBook::execute_order"; "OrderBook::best_bid";
     "OrderBook::shares_at"]%string);
   (BenchEngine.print_report, BenchEngine.report_format,
    ["MatchingEngine::submit (full match)"; "MatchingEngine::submit (rests, no match)";
     "MatchingEngine::submit (IOC partial fill)"]%string);
   (BenchRing.print_report, BenchRing.report_format, ["SpscRingBuffer::push"; "SpscRingBuffer::pop"]%string)].

(** C28. No figure is lost in print.  Every report that one of the three latency
    programs prints, for any percentiles with a finite mean, is a defined text, and
    reading that text with the program's own format string gives back the name, the
    count, each percentile exactly, and the mean to the nearest tenth of a nanosecond,
    also when a figure is wider than its field. *)
Theorem printed_reports_read_back print_report format names name (p : Histogram.Percentiles) :
  (print_report, format, names) ∈ report_printers -> name ∈ names ->
  0 <= Histogram.sample_count p -> Printf.is_finite (Histogram.mean p) = true ->
  exists t, print_report name p = Some t /\ Printf.read format t = Some (report_readings name p, []).
Proof.
  intros Hin Hname Hc Hm. unfold report_printers in Hin. rewrite !elem_of_cons, elem_of_nil in Hin.
  destruct Hin as [Heq|[Heq|[Heq|[]]]]; injection Heq as -> -> ->;
    (eapply report_reads_back; [vm_compute; reflexivity| |done|done]);
    rewrite !elem_of_cons, elem_of_nil in Hname; destruct_or! Hname; (done || (subst; vm_compute; reflexivity)).
Qed.

(** A mean of 123.45 ns, and a maximum that needs more than its eight columns. *)
Lemma printed_reports_read_back_witness :
  let p := Histogram.MkPercentiles 90 150 900 4000 12345678901 (literal 12345 100) 100000 in
  exists t, BenchRing.print_report "SpscRingBuffer::push" p = Some t /\
    Printf.read BenchRing.report_format t =
      Some ([Printf.VStr (Printf.text "SpscRingBuffer::push"); Printf.VInt 100000; Printf.VFixed 1235;
             Printf.VInt 90; Printf.VInt 150; Printf.VInt 900; Printf.VInt 4000; Printf.VInt 12345678901], []).
Proof.
  apply (printed_reports_read_back BenchRing.print_report BenchRing.report_format
    ["SpscRingBuffer::push"; "SpscRingBuffer::pop"]%string "SpscRingBuffer::push"
    (Histogram.MkPercentiles 90 150 900 4000 12345678901 (literal 12345 100) 100000));
    [right; right; left|left|cbn; lia|reflexivity].
Defined.

(** One name is a character wider than its 40 columns: the figures of that line do not
    stand under those of the others. *)
Lemma ioc_report_is_shifted (p : Histogram.Percentiles) t :
  BenchEngine.print_report "MatchingEngine::submit (IOC partial fill)" p = Some t ->
  take 41 t = Printf.text "MatchingEngine::submit (IOC partial fill)" /\ t !! 41%nat = Some " "%byte.
Proof.
  unfold BenchEngine.print_report, Printf.printf.
  assert (Printf.parse_format (length BenchEngine.report_format) BenchEngine.report_format =
    Some (Printf.Conv true 40 Printf.CStr :: report_tail)) as -> by (vm_compute; reflexivity).
  cbn [mbind option_bind]. unfold report_tail, report_args. cbn [Printf.render Printf.convert mbind option_bind].
  intros Ht. minv Ht. simplify_eq. repeat minv E. simplify_eq. by split.
Qed.

(** ** The ring benchmark *)

(** C37. The ring benchmark.  In the single-threaded loops every push and every pop
    succeeds: 110000 values go through, and nothing stays in the ring.  The two-thread
    run ends in every fair execution, and whenever it ends, in whatever interleaving,
    the consumer has received all 20 million items.  Complete runs of [main] exist, and
    every one prints two sound reports on 100000 durations and a throughput line for
    exactly 20 million items. *)
Theorem ring_benchmark_delivers_every_item {C : Type} `{!Clock C, !SteadyClock C} (c : C) (os : Affinity) :
  (exists ring pushed popped c', BenchRing.bench_single_threaded_push_pop c = Some (ring, pushed, popped, c') /\
     BenchRing.drained (kWarmupIterations + kMeasuredIterations) ring) /\
  (forall run who load seen, BenchRing.start = Some (run 0%nat) -> Fairness.fair_run run who load seen ->
     exists k, Handoff.joined (run k) /\ BenchRing.received_count (run k) = BenchRing.kItemCount) /\
  (exists lines, BenchRing.main os c lines) /\
  (forall lines, BenchRing.main os c lines ->
     exists pushed popped p q seconds rate,
       lines = [Pinning (pin_current_thread_to_cpu os 0); Config kWarmupIterations kMeasuredIterations;
                Report "SpscRingBuffer::push"%string pushed; Report "SpscRingBuffer::pop"%string popped;
                Blank; PinnedPair p q; Throughput BenchRing.kItemCount seconds rate] /\
       sound_report kMeasuredIterations pushed /\ sound_report kMeasuredIterations popped).
Proof.
  destruct (BenchRing.bench_single_spec c) as (ring & pushed & popped & c' & Hs & Hd & Hp1 & Hp2).
  split; [exists ring, pushed, popped, c'; exact (conj Hs Hd)|].
  split_and!.
  - apply BenchRing.fair_run_delivers.
  - apply (BenchRing.main_runs os c).
  - intros lines Hm. destruct Hm as [r a b c1 ls Hsingle Htwo]. rewrite Hs in Hsingle. injection Hsingle as <- <- <- <-.
    destruct Htwo as [s1 s p q Hs1 Hr Hj]. unfold BenchRing.throughput_report.
    rewrite (BenchRing.received_all s1 s Hs1 Hr Hj). cbv zeta. do 6 eexists. split; [reflexivity|].
    exact (conj Hp1 Hp2).
Qed.

Lemma ring_benchmark_delivers_every_item_witness :
  exists lines pushed popped p q seconds rate, BenchRing.main pinning_linux 3%nat lines /\
    lines = [Pinning true; Config kWarmupIterations kMeasuredIterations;
             Report "SpscRingBuffer::push"%string pushed; Report "SpscRingBuffer::pop"%string popped;
             Blank; PinnedPair p q; Throughput BenchRing.kItemCount seconds rate] /\
    sound_report kMeasuredIterations pushed /\ sound_report kMeasuredIterations popped.
Proof.
  destruct (ring_benchmark_delivers_every_item 3%nat pinning_linux) as (_ & _ & (lines & Hm) & Hall).
  destruct (Hall lines Hm) as (pushed & popped & p & q & seconds & rate & Hl).
  exists lines, pushed, popped, p, q, seconds, rate. exact (conj Hm Hl).
Defined.

(** ** The order book benchmarks *)

(** C39. The order book benchmarks, for any draws and any steady clock.  No call of
    theirs is undefined and none is refused, neither in the warm-up nor in the measured
    loops: all 110000 additions return true and their orders of 100 shares are on the
    book at the end; on each of the other two books the 20000 calls of the warm-up and
    the 300000 of the measured loop all return true, so every measured order is added,
    reduced by half under the clock and removed, and the 10000 orders of the warm-up are
    left with 50 shares each; the queries run on 5000 orders.  [main] prints five sound
    reports on 100000 durations each. *)
Theorem book_benchmarks_measure_live_orders {R C : Type} `{!Random R, !Clock C, !SteadyClock C}
    (c : C) (os : Affinity) :
  (exists book p c', BenchOrderBook.bench_add_order (R := R) c = Some (book, p, c') /\
     BenchOrderBook.accepted_calls book BenchOrderBook.total /\
     order_count (BenchOrderBook.the_book book) = BenchOrderBook.total /\
     BenchOrderBook.numbered (BenchOrderBook.the_book book) (BenchOrderBook.total + 10) BenchOrderBook.total 100) /\
  (exists cancel_book execute_book p q c',
     BenchOrderBook.bench_cancel_and_execute (R := R) c = Some (cancel_book, execute_book, p, q, c') /\
     Forall (fun book =>
       BenchOrderBook.accepted_calls book (2 * kWarmupIterations + 3 * kMeasuredIterations) /\
       order_count (BenchOrderBook.the_book book) = kWarmupIterations /\
       BenchOrderBook.numbered (BenchOrderBook.the_book book) (BenchOrderBook.total + 10) kWarmupIterations 50)
       [cancel_book; execute_book]) /\
  (exists book p q c', BenchOrderBook.bench_queries (R := R) c = Some (book, p, q, c') /\
     BenchOrderBook.accepted_calls book BenchOrderBook.kRestingOrders /\
     order_count (BenchOrderBook.the_book book) = BenchOrderBook.kRestingOrders) /\
  exists added cancelled executed best at_price,
    BenchOrderBook.main (R := R) os c = Some
      [Pinning (pin_current_thread_to_cpu os 0); Config kWarmupIterations kMeasuredIterations;
       Report "OrderBook::add_order"%string added;
       Report "OrderBook::cancel_order"%string cancelled;
       Report "OrderBook::execute_order"%string executed;
       Report "OrderBook::best_bid"%string best;
       Report "OrderBook::shares_at"%string at_price] /\
    Forall (sound_report kMeasuredIterations) [added; cancelled; executed; best; at_price].
Proof.
  split_and!.
  - destruct (BenchOrderBook.bench_add_order_spec (R := R) c) as (b & p & c' & Hs & [Hn Ha] & _).
    exists b, p, c'. exact (conj Hs (conj Ha (conj (BenchOrderBook.numbered_count _ _ _ _ Hn) Hn))).
  - destruct (BenchOrderBook.bench_cancel_and_execute_spec (R := R) c)
      as (b1 & b2 & p & q & c' & Hs & [Hn1 Ha1] & [Hn2 Ha2] & _).
    exists b1, b2, p, q, c'. split; [exact Hs|].
    apply Forall_cons_2; [|apply Forall_cons_2; [|apply Forall_nil_2]].
    + exact (conj Ha1 (conj (BenchOrderBook.numbered_count _ _ _ _ Hn1) Hn1)).
    + exact (conj Ha2 (conj (BenchOrderBook.numbered_count _ _ _ _ Hn2) Hn2)).
  - destruct (BenchOrderBook.bench_queries_spec (R := R) c) as (b & p & q & c' & Hs & [Hn Ha] & _).
    exists b, p, q, c'. exact (conj Hs (conj Ha (BenchOrderBook.numbered_count _ _ _ _ Hn))).
  - apply BenchOrderBook.book_main_spec.
Qed.

Lemma book_benchmarks_measure_live_orders_witness :
  exists book p c', BenchOrderBook.bench_add_order (R := nat) 0%nat = Some (book, p, c') /\
    BenchOrderBook.accepted_calls book BenchOrderBook.total.
Proof.
  destruct (book_benchmarks_measure_live_orders (R := nat) 0%nat pinning_linux) as ((b & p & c' & Hs & Ha & _) & _).
  exists b, p, c'. exact (conj Hs Ha).
Defined.

(** ** The decoder benchmark *)

(** C40. The decoder benchmark counts decoded messages.  On a generated fixture
    (below 2^63 bytes), [n] iterations of the benchmark loop walk the whole fixture
    [n] times; every record decodes, and the reported number of items is [n] times
    the number of records, wrapped to 64 bits and made signed.  A fixture the
    generator has finished holds at least [num_orders] records, exactly [num_orders]
    of them additions, and while the product is below 2^63 the number is exact. *)
Theorem decode_benchmark_counts_messages {R : Type} `{!Random R, !RandomRanges R}
    {M : Type} `{!UnorderedMap LiveOrder M, !UnorderedMapLaws LiveOrder M}
    (num_orders iterations : Z) (fuel : nat) (fixture : list byte) (finished : bool) :
  0 <= num_orders < 2 ^ 64 -> Z.of_nat fuel < 2 ^ 64 - 1 -> 0 <= iterations ->
  BenchParser.generate_fixture (R := R) (M := M) fuel num_orders = Some (fixture, finished) ->
  Z.of_nat (length fixture) < 2 ^ 63 ->
  let n := Z.of_nat (length (frames fixture)) in
  length (decoded (frames fixture)) = length (frames fixture) /\
  BenchParser.BM_DecodeThroughput fixture iterations = Some (i64 (u64 (iterations * n))) /\
  (finished = true -> countZ is_add (decoded (frames fixture)) = num_orders /\ num_orders <= n) /\
  (iterations * n < 2 ^ 63 -> BenchParser.BM_DecodeThroughput fixture iterations = Some (iterations * n)).
Proof.
  intros Hn Hf Hi Hg Hsize n.
  destruct (generate_inv (R := R) (M := M) (BenchParser.fixture_config num_orders) num_orders
    ltac:(cbn; lia) ltac:(cbn; lia) fuel ltac:(cbn; lia) ltac:(lia))
    as (out & fin & first & dirs & ms & lst & l & Hg' & (raws & Ho & He & _) & _ & _ & _ & _ & _ & Hfin).
  rewrite BenchParser.generate_fixture_eq, Hg' in Hg. injection Hg as -> ->.
  assert (frames fixture = raws) as Hraws.
  { pose proof (frames_concat raws [] (encodes_short _ _ He) eq_refl) as Hfr. by rewrite app_nil_r, <- Ho in Hfr. }
  pose proof (decoded_encodes _ _ He) as Hdec. pose proof (Forall2_length _ _ _ He) as Hlen.
  pose proof (BenchParser.BM_DecodeThroughput_spec fixture iterations Hsize Hi) as Hbm. fold n in Hbm.
  rewrite Hraws, Hdec in *. split_and!; [by rewrite Hlen|done| |].
  - intros ->. destruct Hfin as (msg & _ & _ & Hc). cbn [Synth.num_orders BenchParser.fixture_config] in Hc.
    rewrite Z.max_r in Hc by lia. split; [done|]. unfold n. rewrite Hraws, Hlen, <- Hc. apply countZ_range.
  - intros Hsmall. rewrite Hbm. assert (0 <= iterations * n) by (apply Z.mul_nonneg_nonneg; lia).
    by rewrite u64_small, i64_small by lia.
Qed.

(** A fixture with two orders. *)
Definition sample_fixture : list byte :=
  Eval vm_compute in
    match BenchParser.generate_fixture (R := nat) (M := gmap Z LiveOrder) 9 2 with
    | Some (out, _) => out
    | None => []
    end.

Lemma decode_benchmark_counts_messages_witness :
  countZ is_add (decoded (frames sample_fixture)) = 2 /\
  BenchParser.BM_DecodeThroughput sample_fixture 3 = Some (3 * Z.of_nat (length (frames sample_fixture))).
Proof.
  destruct (decode_benchmark_counts_messages (R := nat) (M := gmap Z LiveOrder) 2 3 9 sample_fixture true)
    as (_ & _ & Hadds & Hexact); [lia|cbn; lia|lia|vm_compute; reflexivity|vm_compute; reflexivity|].
  split; [apply Hadds; reflexivity|apply Hexact; vm_compute; reflexivity].
Defined.

(** ** The allocation guard *)

Lemma elem_of_concat {A} (x : A) (ls : list (list A)) : x ∈ concat ls <-> exists l, x ∈ l /\ l ∈ ls.
Proof.
  rewrite list_elem_of_In, in_concat. setoid_rewrite list_elem_of_In. naive_solver.
Qed.

(** C25. An [AllocationGuard] around any number of threads, started inside its scope
    and joined before the count is read, each running any sequence
    of the eight operator new and delete overloads on any heap: however the threads
    interleave between the load of the flag, the increment and the call of [malloc],
    once all of them have finished the guard's count is exactly the number of
    allocations they made, whatever had been counted before.  In particular the count
    is zero if and only if no thread allocated.  The steps are those of the overloads:
    a call that no other thread interrupts, of whichever overload, does exactly what
    its definition does. *)
Theorem guard_counts_every_thread {A P : Type} `{!Heap A P} (s s' : AllocationGuard.state (A := A))
    (programs : list (list (AllocationGuard.op (P := P)))) (ts : list AllocationGuard.thread) :
  rtc AllocationGuard.step (AllocationGuard.guard_construct s, AllocationGuard.start programs) (s', ts) ->
  Forall AllocationGuard.finished ts -> Z.of_nat (length (concat programs)) < 2 ^ 64 ->
  AllocationGuard.guard_count s' = countZ AllocationGuard.is_new (concat programs) /\
  (AllocationGuard.guard_count s' = 0 <->
     forall ops o, ops ∈ programs -> o ∈ ops -> AllocationGuard.is_new o = false) /\
  (forall s1 o ops s2, AllocationGuard.run_op s1 o = Some s2 -> AllocationGuard.solo_call s1 o ops s2).
Proof.
  intros Hr Hf Hl. split_and!; [..|apply AllocationGuard.thread_runs_op].
  - by apply (AllocationGuard.region_count s programs s' ts).
  - pose proof (AllocationGuard.region_count s programs s' ts Hr Hf Hl) as ->.
    rewrite countZ_zero. setoid_rewrite elem_of_concat. naive_solver.
Qed.

(** A heap that hands out increasing addresses and frees what it has handed out. *)
#[local] Instance bump_heap : Heap Z Z := {|
  malloc h _ := (h + 1, Some h);
  free h ptr := match ptr with Some p => if p <? h then Some h else None | None => Some h end
|}.

(** Two allocations overlap: both threads load the flag before either counts. *)
Lemma guard_counts_every_thread_witness :
  exists s' ts, rtc AllocationGuard.step
      (AllocationGuard.guard_construct (AllocationGuard.MkState 7 false 0),
       AllocationGuard.start [[AllocationGuard.New false false 8]; [AllocationGuard.New true true 16]]) (s', ts) /\
    AllocationGuard.guard_count s' = 2.
Proof.
  assert (exists s' ts, rtc AllocationGuard.step
      (AllocationGuard.guard_construct (AllocationGuard.MkState 7 false 0),
       AllocationGuard.start [[AllocationGuard.New false false 8]; [AllocationGuard.New true true 16]]) (s', ts) /\
      Forall AllocationGuard.finished ts) as (s' & ts & Hr & Hf).
  { eexists _, _. split.
    - eapply rtc_l; [by eapply (AllocationGuard.step_thread _ _ 0)|].
      eapply rtc_l; [by eapply (AllocationGuard.step_thread _ _ 1)|].
      eapply rtc_l; [by eapply (AllocationGuard.step_thread _ _ 0)|].
      eapply rtc_l; [by eapply (AllocationGuard.step_thread _ _ 1)|].
      eapply rtc_l; [by eapply (AllocationGuard.step_thread _ _ 1)|].
      eapply rtc_l; [by eapply (AllocationGuard.step_thread _ _ 0)|]. apply rtc_refl.
    - by repeat constructor. }
  exists s', ts. split; [exact Hr|].
  by apply (guard_counts_every_thread _ _ _ _ Hr Hf).
Defined.
